(** * genflux: synthesis and replay of capture files

    A shallow embedding of the Go sources
      - [internal/pcapgen/trafficmodel.go]  (diurnal profile, cubic spline),
      - [internal/pcapgen/pcapgen.go]       (host pools, packet synthesis,
                                             random and fixed-flow planners),
      - [internal/replay/replay.go]         (the replay engine),
      - [cmd/genflux/main.go]               (the size-string parser),
    the properties the specification states about them (C1 to C10), and
    further properties of the code (X1 to X19): the hosts of a run, what a
    run leaves on disk, the time plan of the flows, the budget of a replay,
    sizes with a unit.

    Conventions.
      - Go's [int], [int64] and [time.Duration] are 64-bit two's complement
        integers: they are values of [Z], and every arithmetic operation of
        the source that can leave the range goes through [wrap].
      - Go's [float64] is the interface [Float64], with two instances: the
        binary64 numbers of the kernel ([IEEE], bit for bit what an amd64
        build computes, no fused multiply-add) and exact rationals ([Exact]),
        the arithmetic the specification reasons in.
      - A [time.Time] is its number of nanoseconds since the Unix epoch.
      - A byte is a [Z] in [0, 256); a byte slice is a [list Z].
      - Functions that return [error] return a [result]; a Go panic (index
        out of range, [Intn] of a non-positive bound) is the error [Panic]. *)

From Stdlib Require Import ZArith List Bool Lia String Ascii QArith Qround.
From Stdlib Require Import Floats.
Import ListNotations.

Local Open Scope Z_scope.

(** ** Machine integers *)

Definition min_int : Z := - 2 ^ 63.
Definition max_int : Z := 2 ^ 63 - 1.

(** Two's complement wrap-around to 64 bits. *)
Definition wrap (z : Z) : Z := (z + 2 ^ 63) mod 2 ^ 64 - 2 ^ 63.

Definition in_int (z : Z) : Prop := min_int <= z <= max_int.

Definition add64 (a b : Z) : Z := wrap (a + b).
Definition sub64 (a b : Z) : Z := wrap (a - b).
Definition mul64 (a b : Z) : Z := wrap (a * b).
(** Go's [/] and [%] truncate toward zero; a zero divisor panics and is
    guarded at each use. *)
Definition quo64 (a b : Z) : Z := wrap (Z.quot a b).
Definition rem64 (a b : Z) : Z := Z.rem a b.

(** [byte(x)]: conversion of an integer to [uint8]. *)
Definition byte (x : Z) : Z := x mod 256.

(** ** Results *)

Inductive error : Type :=
| Error (msg : string)      (* errors.New / fmt.Errorf *)
| Panic (msg : string).     (* a run-time panic *)

(** The text [%v] prints for an error. *)
Definition message (e : error) : string :=
  match e with Error msg => msg | Panic msg => "panic: " ++ msg end.

Inductive result (A : Type) : Type :=
| Ok (a : A)
| Err (e : error).
Arguments Ok {A} a.
Arguments Err {A} e.

Definition bind {A B : Type} (r : result A) (k : A -> result B) : result B :=
  match r with
  | Ok a => k a
  | Err e => Err e
  end.

Declare Scope result_scope.
Delimit Scope result_scope with result.
Notation "x <- r ;; k" := (bind r (fun x => k))
  (at level 61, r at next level, right associativity) : result_scope.
Notation "' p <- r ;; k" := (bind r (fun x => let p := x in k))
  (at level 61, p pattern, r at next level, right associativity) : result_scope.

Definition is_ok {A : Type} (r : result A) : bool :=
  match r with Ok _ => true | Err _ => false end.

(** Indexing a slice: out of range is a panic. *)
Definition index {A : Type} (l : list A) (i : Z) : result A :=
  if (i <? 0) || (Z.of_nat (List.length l) <=? i) then Err (Panic "index out of range")
  else match nth_error l (Z.to_nat i) with
       | Some a => Ok a
       | None => Err (Panic "index out of range")
       end.

(** ** Floating point *)

(** The operations of [float64] the sources use. *)
Class Float64 (F : Type) : Type := {
  fadd : F -> F -> F;
  fsub : F -> F -> F;
  fmul : F -> F -> F;
  fdiv : F -> F -> F;
  fltb : F -> F -> bool;
  fleb : F -> F -> bool;
  fopp : F -> F;
  (** [float64(n)] for an integer [n]. *)
  of_int : Z -> F;
  (** [int64(x)]: truncation toward zero. *)
  to_int : F -> Z;
  (** The decimal literal [m * 10^e], rounded to the nearest value of [F]. *)
  dec : Z -> Z -> F;
  (** [math.Mod]. *)
  Mod : F -> F -> F;
  (** [math.Round]: nearest integer, halves away from zero. *)
  Round : F -> F;
  (** The values [strconv.ParseFloat] gives to "inf"/"infinity" and "nan". *)
  f_inf : bool -> F;
  f_nan : F;
  is_inf : F -> bool
}.

(** *** Exact rationals *)

Module Exact.

Definition add (x y : Q) : Q := Qred (x + y).
Definition sub (x y : Q) : Q := Qred (x - y).
Definition mul (x y : Q) : Q := Qred (x * y).
Definition div (x y : Q) : Q := Qred (x / y).
Definition ltb (x y : Q) : bool := negb (Qle_bool y x).
Definition leb (x y : Q) : bool := Qle_bool x y.
Definition of_int (n : Z) : Q := n # 1.

Definition trunc (x : Q) : Z := Z.quot (Qnum x) (Zpos (Qden x)).

(** Out of the range of [int64] the conversion is implementation-defined;
    amd64 gives the most negative integer. *)
Definition to_int (x : Q) : Z :=
  let t := trunc x in
  if (min_int <=? t) && (t <=? max_int) then t else min_int.

Definition dec (m e : Z) : Q :=
  if 0 <=? e then Qred ((m * 10 ^ e) # 1)
  else Qred (Qmake m (Z.to_pos (10 ^ (- e)))).

Definition Mod (x y : Q) : Q :=
  if Qeq_bool y 0 then 0%Q
  else Qred (x - y * (trunc (x / y) # 1)).

Definition Round (x : Q) : Q :=
  let t := trunc x in
  let r := (x - (t # 1))%Q in
  if Qle_bool (1 # 2) r then (t + 1) # 1
  else if Qle_bool r (- (1 # 2)) then (t - 1) # 1
  else t # 1.

End Exact.

(** Rationals have no infinities and no NaN: the instance gives them the
    value [0], which no property below relies on. *)
#[export] Instance Exact_Float64 : Float64 Q := {
  fadd := Exact.add;
  fsub := Exact.sub;
  fmul := Exact.mul;
  fdiv := Exact.div;
  fltb := Exact.ltb;
  fleb := Exact.leb;
  fopp := fun x => Qred (- x);
  of_int := Exact.of_int;
  to_int := Exact.to_int;
  dec := Exact.dec;
  Mod := Exact.Mod;
  Round := Exact.Round;
  f_inf := fun _ => 0%Q;
  f_nan := 0%Q;
  is_inf := fun _ => false
}.

(** *** IEEE 754 binary64 *)

Module IEEE.

Definition of_SF (x : spec_float) : float := SF2Prim x.
Definition to_SF (x : float) : spec_float := Prim2SF x.

(** The integer [n], rounded to nearest even. *)
Definition of_int (n : Z) : float :=
  of_SF (binary_normalize prec emax n 0 false).

(** The rational [n / d] for positive [n], [d], with sign [s], rounded to
    nearest even. *)
Definition of_ratio (s : bool) (n d : positive) : float :=
  let '(q, e, l) := SFdiv_core_binary prec emax (Zpos n) 0 (Zpos d) 0 in
  of_SF (binary_round_aux prec emax s q e l).

Definition dec (m e : Z) : float :=
  let s := m <? 0 in
  match Z.abs m with
  | Zpos p =>
      if 0 <=? e then of_ratio s (p * Z.to_pos (10 ^ e)) 1
      else of_ratio s p (Z.to_pos (10 ^ (- e)))
  | _ => of_SF (S754_zero s)
  end.

(** The integer part of a finite number, toward zero. *)
Definition trunc_SF (x : spec_float) : option Z :=
  match x with
  | S754_zero _ => Some 0
  | S754_finite s m e =>
      let a := if 0 <=? e then Zpos m * 2 ^ e else Zpos m / 2 ^ (- e) in
      Some (if s then - a else a)
  | _ => None
  end.

(** NaN, the infinities and values out of range give the most negative
    integer (the "integer indefinite" of amd64). *)
Definition to_int (x : float) : Z :=
  match trunc_SF (to_SF x) with
  | Some t => if (min_int <=? t) && (t <=? max_int) then t else min_int
  | None => min_int
  end.

Definition Round (x : float) : float :=
  match to_SF x with
  | S754_finite s m e =>
      if 0 <=? e then x
      else
        let u := 2 ^ (- e) in
        let q := Zpos m / u in
        let r := Zpos m mod u in
        let q' := if u <=? 2 * r then q + 1 else q in
        match q' with
        | Zpos p => of_SF (binary_normalize prec emax (if s then Zneg p else Zpos p) 0 false)
        | _ => of_SF (S754_zero s)
        end
  | _ => x
  end.

(** [math.Mod x y]: the remainder of the truncated division, exact, with the
    sign of [x]. *)
Definition Mod (x y : float) : float :=
  match to_SF x, to_SF y with
  | S754_nan, _ | _, S754_nan => nan
  | S754_infinity _, _ => nan
  | _, S754_zero _ => nan
  | _, S754_infinity _ => x
  | S754_zero _, _ => x
  | S754_finite sx mx ex, S754_finite _ my ey =>
      let e := Z.min ex ey in
      let X := Zpos mx * 2 ^ (ex - e) in
      let Y := Zpos my * 2 ^ (ey - e) in
      match X mod Y with
      | Zpos r => of_SF (binary_normalize prec emax (if sx then Zneg r else Zpos r) e false)
      | _ => of_SF (S754_zero sx)
      end
  end.

End IEEE.

#[export] Instance IEEE_Float64 : Float64 float := {
  fadd := PrimFloat.add;
  fsub := PrimFloat.sub;
  fmul := PrimFloat.mul;
  fdiv := PrimFloat.div;
  fltb := PrimFloat.ltb;
  fleb := PrimFloat.leb;
  fopp := PrimFloat.opp;
  of_int := IEEE.of_int;
  to_int := IEEE.to_int;
  dec := IEEE.dec;
  Mod := IEEE.Mod;
  Round := IEEE.Round;
  f_inf := fun s => if s then neg_infinity else infinity;
  f_nan := nan;
  is_inf := PrimFloat.is_infinity
}.

Declare Scope f64_scope.
Delimit Scope f64_scope with f64.
Notation "x + y" := (fadd x y) : f64_scope.
Notation "x - y" := (fsub x y) : f64_scope.
Notation "x * y" := (fmul x y) : f64_scope.
Notation "x / y" := (fdiv x y) : f64_scope.
Notation "x <? y" := (fltb x y) : f64_scope.
Notation "x <=? y" := (fleb x y) : f64_scope.
Notation "x >? y" := (fltb y x) : f64_scope.
Notation "x >=? y" := (fleb y x) : f64_scope.

(** ** Slices of numbers *)

(** [s[i]] and [s[i] = v] on a slice whose length the caller has fixed;
    every index the spline code uses is in range (see [newCubicSpline]). *)
Definition get {A : Type} (dflt : A) (s : list A) (i : nat) : A := nth i s dflt.

Fixpoint set {A : Type} (s : list A) (i : nat) (v : A) : list A :=
  match s, i with
  | [], _ => []
  | _ :: t, O => v :: t
  | a :: t, S j => a :: set t j v
  end.

(** [make([]T, n)]. *)
Definition make {A : Type} (zero : A) (n : nat) : list A := repeat zero n.

(** * Package pcapgen *)

Module pcapgen.

(** ** trafficmodel.go *)

Section TrafficModel.
Context {F : Type} {ops : Float64 F}.

Local Notation "s .[ i ]" := (get (of_int 0) s i) (at level 1, left associativity, format "s .[ i ]").
Local Notation "# n" := (of_int n) (at level 1, format "# n").

Record cubicSpline : Type := { sx : list F; sa : list F; sb : list F; sc : list F; sd : list F }.

Definition newCubicSpline (x y : list F) : cubicSpline :=
  let n := List.length x in
  let a := firstn n (y ++ make #0 n) in                       (* copy(a, y) *)
  let b := make #0 n in
  let c := make #0 n in
  let d := make #0 n in
  let h := make #0 (n - 1) in
  let alpha := make #0 (n - 1) in
  let h := fold_left (fun h i => set h i (x.[i+1] - x.[i])%f64) (seq 0 (n - 1)) h in
  let alpha :=
    fold_left (fun alpha i =>
      set alpha i ((#3 / h.[i]) * (a.[i+1] - a.[i]) - (#3 / h.[i-1]) * (a.[i] - a.[i-1]))%f64)
      (seq 1 (n - 2)) alpha in
  let l := set (make #0 n) 0 #1 in
  let mu := make #0 n in
  let z := make #0 n in
  let '(l, mu, z) :=
    fold_left (fun '(l, mu, z) i =>
      let l := set l i (#2 * (x.[i+1] - x.[i-1]) - h.[i-1] * mu.[i-1])%f64 in
      let mu := set mu i (h.[i] / l.[i])%f64 in
      let z := set z i ((alpha.[i] - h.[i-1] * z.[i-1]) / l.[i])%f64 in
      (l, mu, z))
      (seq 1 (n - 2)) (l, mu, z) in
  let l := set l (n - 1) #1 in
  let z := set z (n - 1) #0 in
  let c := set c (n - 1) #0 in
  let '(b, c, d) :=
    fold_left (fun '(b, c, d) j =>
      let c := set c j (z.[j] - mu.[j] * c.[j+1])%f64 in
      let b := set b j ((a.[j+1] - a.[j]) / h.[j] - h.[j] * (c.[j+1] + #2 * c.[j]) / #3)%f64 in
      let d := set d j ((c.[j+1] - c.[j]) / (#3 * h.[j]))%f64 in
      (b, c, d))
      (rev (seq 0 (n - 1))) (b, c, d) in
  {| sx := x; sa := a; sb := b; sc := c; sd := d |}.

(** The first interval [i < n-1] with [x[i] <= v <= x[i+1]], or [0]. *)
Fixpoint find_interval (x : list F) (v : F) (idxs : list nat) : nat :=
  match idxs with
  | [] => O
  | i :: rest =>
      if (v >=? x.[i])%f64 && (v <=? x.[i+1])%f64 then i else find_interval x v rest
  end.

Definition eval (s : cubicSpline) (x : F) : F :=
  let n := List.length (sx s) in
  if (x <=? (sx s).[0])%f64 then (sa s).[0]
  else if (x >=? (sx s).[n-1])%f64 then (sa s).[n-1]
  else
    let idx := find_interval (sx s) x (seq 0 (n - 1)) in
    let dx := (x - (sx s).[idx])%f64 in
    ((sa s).[idx] + (sb s).[idx] * dx + (sc s).[idx] * dx * dx
       + (sd s).[idx] * dx * dx * dx)%f64.

(** The two hand-authored curves, as written in the source. *)
Definition weekend_curve : list F :=
  map (fun '(m, e) => dec m e)
    [(0, 0); (4, -1); (0, 0); (0, 0); (0, 0); (0, 0); (0, 0); (0, 0); (1, -1); (2, -1);
     (5, -1); (45, -2); (45, -2); (5, -1); (45, -2); (45, -2); (45, -2); (45, -2);
     (5, -1); (2, -1); (0, 0); (0, 0); (0, 0); (0, 0); (0, 0)].

Definition weekday_curve : list F :=
  map (fun '(m, e) => dec m e)
    [(0, 0); (4, -1); (0, 0); (0, 0); (0, 0); (0, 0); (0, 0); (1, -1); (2, -1); (4, -1);
     (95, -2); (9, -1); (9, -1); (95, -2); (9, -1); (9, -1); (9, -1); (9, -1);
     (95, -2); (4, -1); (1, -1); (0, 0); (0, 0); (0, 0); (0, 0)].

Definition curve (weekend : bool) : list F :=
  if weekend then weekend_curve else weekday_curve.

Definition clamp01 (result : F) : F :=
  if (result <? #0)%f64 then #0
  else if (result >? #1)%f64 then #1
  else result.

Definition durationScalar (hour : F) (weekend : bool) : F :=
  if (hour <? #0)%f64 || (hour >=? #24)%f64 then #0
  else
    let hour := Mod (hour + #1)%f64 #24 in
    let x := map (fun i => #(Z.of_nat i)) (seq 0 25) in
    let y := curve weekend in
    let spline := newCubicSpline x y in
    let result := (#1 - eval spline hour)%f64 in
    clamp01 result.

End TrafficModel.

(** ** The collaborators of pcapgen.go *)

(** *** math/rand

    The generator behind [*rand.Rand] is not part of the repository: it is a
    parameter, known by the contract of its methods.  The state is threaded
    explicitly, in the order the source draws. *)
Record RandSource : Type := {
  rng : Type;
  NewSource : Z -> rng;
  rand_Intn : rng -> Z -> Z * rng;      (* Intn(n), n > 0 *)
  rand_Int63n : rng -> Z -> Z * rng;    (* Int63n(n), n > 0 *)
  rand_Read : rng -> nat -> list Z * rng;
  Intn_range : forall s n, 0 < n -> 0 <= fst (rand_Intn s n) < n;
  Int63n_range : forall s n, 0 < n -> 0 <= fst (rand_Int63n s n) < n;
  Read_length : forall s n, List.length (fst (rand_Read s n)) = n
}.

(** *** time *)

Definition Time := Z.                   (* nanoseconds since the epoch *)
Definition Microsecond : Z := 1000.
Definition Second : Z := 1000000000.

Definition Time_Add (t : Time) (d : Z) : Time := t + d.
Definition Time_Unix (t : Time) : Z := t / Second.
Definition Unix (sec nsec : Z) : Time := sec * Second + nsec.

(** The wall clock is read in UTC. *)
Definition Time_Hour (t : Time) : Z := (Time_Unix t mod 86400) / 3600.
Definition Time_Minute (t : Time) : Z := (Time_Unix t mod 3600) / 60.
Definition Time_Second (t : Time) : Z := Time_Unix t mod 60.
(** 0 is Sunday; the epoch was a Thursday. *)
Definition Time_Weekday (t : Time) : Z := (Time_Unix t / 86400 + 4) mod 7.
Definition Saturday : Z := 6.
Definition Sunday : Z := 0.

(** *** gopacket: capture records and the pcap container *)

Record CaptureInfo : Type := { Timestamp : Time; CaptureLength : Z; Length : Z }.

(** What a [pcapgo.Writer] has put in the file, in order. *)
Inductive chunk : Type :=
| FileHeader (snaplen linktype : Z)
| PacketRecord (ci : CaptureInfo) (data : list Z).

Definition file := list chunk.

Definition len {A : Type} (l : list A) : Z := Z.of_nat (List.length l).

Definition le16 (v : Z) : list Z := [byte v; byte (Z.shiftr v 8)].
Definition le32 (v : Z) : list Z :=
  [byte v; byte (Z.shiftr v 8); byte (Z.shiftr v 16); byte (Z.shiftr v 24)].
Definition be16 (v : Z) : list Z := [byte (Z.shiftr v 8); byte v].
Definition be32 (v : Z) : list Z :=
  [byte (Z.shiftr v 24); byte (Z.shiftr v 16); byte (Z.shiftr v 8); byte v].

(** The libpcap layout: a 24-byte global header, and 16 bytes before the
    data of every record. *)
Definition chunk_bytes (c : chunk) : list Z :=
  match c with
  | FileHeader snaplen linktype =>
      le32 2712847316 (* 0xa1b2c3d4 *) ++ le16 2 ++ le16 4 ++ le32 0 ++ le32 0
        ++ le32 snaplen ++ le32 linktype
  | PacketRecord ci data =>
      le32 (Time_Unix (Timestamp ci)) ++ le32 ((Timestamp ci mod Second) / 1000)
        ++ le32 (CaptureLength ci) ++ le32 (Length ci) ++ data
  end.

Definition file_bytes (f : file) : list Z := flat_map chunk_bytes f.

(** The records of a file, and the payload each carries after its headers. *)
Definition packets (f : file) : list (CaptureInfo * list Z) :=
  flat_map (fun c => match c with PacketRecord ci d => [(ci, d)] | _ => [] end) f.

Definition timestamps (f : file) : list Time :=
  map (fun p => Timestamp (fst p)) (packets f).

Definition LinkTypeEthernet : Z := 1.

(** *** gopacket: the layers of the one frame shape *)

Record host : Type := { mac : list Z; ip : list Z }.

(** RFC 1071 checksum of a byte string. *)
Fixpoint sum16 (bs : list Z) : Z :=
  match bs with
  | hi :: lo :: rest => hi * 256 + lo + sum16 rest
  | [hi] => hi * 256
  | [] => 0
  end.

Definition checksum (bs : list Z) : Z :=
  let s := sum16 bs in
  let r := s mod 65535 in
  65535 - (if (r =? 0) && (0 <? s) then 65535 else r).

Definition EthernetTypeIPv4 : Z := 2048.
Definition IPProtocolTCP : Z := 6.

Definition ethernet_bytes (src dst : host) : list Z :=
  mac dst ++ mac src ++ be16 EthernetTypeIPv4.

(** Version 4, IHL 5, TTL 128; [FixLengths] sets the total length. *)
Definition ipv4_bytes (src dst : host) (rest : Z) : list Z :=
  let hdr c :=
    [4 * 16 + 5; 0] ++ be16 (20 + rest) ++ be16 0 ++ be16 0
      ++ [128; IPProtocolTCP] ++ be16 c ++ ip src ++ ip dst in
  hdr (checksum (hdr 0)).

(** The options of the source: MSS 1460, two no-ops, SACK permitted. *)
Definition tcp_options : list Z := [2; 4; 5; 180; 1; 1; 4; 2].

Definition tcp_bytes (src dst : host) (payload : list Z) : list Z :=
  let hdr c :=
    be16 3372 ++ be16 80 ++ be32 951057939 (* 0x38affe13 *) ++ be32 0
      ++ [7 * 16; 2 (* SYN *)] ++ be16 8760 ++ be16 c ++ be16 0 ++ tcp_options in
  let pseudo := ip src ++ ip dst ++ [0; IPProtocolTCP] ++ be16 (len (hdr 0) + len payload) in
  hdr (checksum (pseudo ++ hdr 0 ++ payload)).

(** The layers in wire order; each prepended layer sees what follows it. *)
Definition frame_bytes (src dst : host) (payload : list Z) : list Z :=
  let tcp := tcp_bytes src dst payload in
  ethernet_bytes src dst ++ ipv4_bytes src dst (len tcp + len payload) ++ tcp ++ payload.

(** [gopacket.SerializeLayers] of Ethernet, IPv4, TCP and an optional
    payload.  The layers are serialized from the last to the first: the TCP
    checksum and the IPv4 layer refuse a network address that is not 4 bytes
    long, then the Ethernet layer a link address that is not 6 bytes long.
    (The messages of the library are abridged.) *)
Definition SerializeLayers (src dst : host) (payload : list Z) : result (list Z) :=
  if negb ((len (ip src) =? 4) && (len (ip dst) =? 4)) then
    Err (Error "invalid IP address")
  else if negb ((len (mac src) =? 6) && (len (mac dst) =? 6)) then
    Err (Error "invalid MAC address")
  else Ok (frame_bytes src dst payload).

(** ** pcapgen.go *)

Record Config : Type := {
  InternalHosts : Z;
  ExternalHosts : Z;
  MinDuration : Z;
  MaxDuration : Z;
  FileCount : Z;
  OutDir : string;
  OutFile : string;
  StartTime : Time;
  MaxSizeBytes : Z;
  ExactBytes : Z;
  Seed : Z;
  FlowCount : Z;
  PacketsPerFlow : Z
}.

(** [DefaultConfig()].  The start is "Sun Oct 2 00:00:00 2016" read in the
    local time zone and the seed is the clock: both are parameters. *)
Definition DefaultConfig (start : Time) (now : Z) : Config := {|
  InternalHosts := 50;
  ExternalHosts := 500;
  MinDuration := mul64 60 Second;
  MaxDuration := mul64 120 Second;
  FileCount := 1;
  OutDir := ".";
  OutFile := "";
  StartTime := start;
  MaxSizeBytes := 300000000;
  ExactBytes := 0;
  Seed := now;
  FlowCount := 0;
  PacketsPerFlow := 2
|}.

(** [strconv.Itoa], for the messages and the file names. *)
Fixpoint digits (fuel : nat) (n : Z) (acc : string) : string :=
  match fuel with
  | O => acc
  | S fuel' =>
      let acc' := String (ascii_of_nat (Z.to_nat (48 + n mod 10))) acc in
      if n / 10 =? 0 then acc' else digits fuel' (n / 10) acc'
  end.

Definition itoa (n : Z) : string :=
  if n <? 0 then String "-" (digits 20 (- n) "") else digits 20 n "".

(** [fmt.Sprintf("%06d", n)]. *)
Fixpoint pad0 (k : nat) (s : string) : string :=
  match k with
  | O => s
  | S k' => if Nat.ltb (String.length s) 6 then pad0 k' (String "0" s) else s
  end.

Definition flowIndexToHosts (idx internalCount externalCount : Z) : result (Z * Z * bool) :=
  let totalPair := mul64 internalCount externalCount in
  if externalCount =? 0 then Err (Panic "integer divide by zero")
  else if idx <? totalPair then
    Ok (quo64 idx externalCount, rem64 idx externalCount, true)
  else
    let idx := sub64 idx totalPair in
    Ok (quo64 idx externalCount, rem64 idx externalCount, false).

Definition uniqueInternalIPv4 (idx : Z) : list Z :=
  [192; 168; byte (Z.quot idx 256); byte (Z.rem idx 256)].

Definition uniqueExternalIPv4 (idx : Z) : list Z :=
  [10; byte (Z.land (Z.shiftr idx 16) 255); byte (Z.land (Z.shiftr idx 8) 255);
   byte (Z.land idx 255)].

Section Generator.
Context {F : Type} {ops : Float64 F} (R : RandSource).

(** What a run works on: the shared generator and the file being written.
    A file that a failed run leaves behind stays as it is. *)
Record world : Type := { w_rand : rng R; w_file : file }.

Definition M (A : Type) : Type := world -> result A * world.

Definition ret {A : Type} (a : A) : M A := fun w => (Ok a, w).
Definition fail {A : Type} (e : error) : M A := fun w => (Err e, w).
Definition bindM {A B : Type} (m : M A) (k : A -> M B) : M B :=
  fun w => match m w with
           | (Ok a, w') => k a w'
           | (Err e, w') => (Err e, w')
           end.
Definition lift {A : Type} (r : result A) : M A := fun w => (r, w).

Notation "x <- m ;; k" := (bindM m (fun x => k))
  (at level 61, m at next level, right associativity).
Notation "' p <- m ;; k" := (bindM m (fun x => let p := x in k))
  (at level 61, p pattern, m at next level, right associativity).

(** [for i := lo; i < lo + n; i++ { acc = body(i, acc) }]: the variables the
    loop updates are its accumulator. *)
Fixpoint for_loop {A : Type} (n : nat) (i : Z) (body : Z -> A -> M A) (acc : A) : M A :=
  match n with
  | O => ret acc
  | S n' => acc' <- body i acc ;; for_loop n' (i + 1) body acc'
  end.

(** [randSrc.Intn(n)] panics for [n <= 0]. *)
Definition Intn (n : Z) : M Z :=
  fun w =>
    if n <=? 0 then (Err (Panic "invalid argument to Intn"), w)
    else let '(v, r) := rand_Intn R (w_rand w) n in
         (Ok v, {| w_rand := r; w_file := w_file w |}).

Definition Int63n (n : Z) : M Z :=
  fun w =>
    if n <=? 0 then (Err (Panic "invalid argument to Int63n"), w)
    else let '(v, r) := rand_Int63n R (w_rand w) n in
         (Ok v, {| w_rand := r; w_file := w_file w |}).

(** [make([]byte, n)] then [randSrc.Read]. *)
Definition Read (n : Z) : M (list Z) :=
  fun w =>
    let '(bs, r) := rand_Read R (w_rand w) (Z.to_nat n) in
    (Ok bs, {| w_rand := r; w_file := w_file w |}).

Definition WriteFileHeader (snaplen linktype : Z) : M unit :=
  fun w => (Ok tt, {| w_rand := w_rand w; w_file := w_file w ++ [FileHeader snaplen linktype] |}).

Definition WritePacket (ci : CaptureInfo) (data : list Z) : M unit :=
  fun w =>
    if negb (CaptureLength ci =? len data) then
      (Err (Error "capture length does not match data length"), w)
    else if CaptureLength ci >? Length ci then
      (Err (Error "invalid capture info: capture length > length"), w)
    else (Ok tt, {| w_rand := w_rand w; w_file := w_file w ++ [PacketRecord ci data] |}).

(** The frame both packet builders serialize: Ethernet, IPv4, TCP with the
    SYN flag, and [payloadLen] random bytes when [payloadLen > 0]. *)
Definition buildFrame (src dst : host) (payloadLen : Z) : M (list Z) :=
  if payloadLen >? 0 then
    payload <- Read payloadLen ;;
    lift (SerializeLayers src dst payload)
  else lift (SerializeLayers src dst []).

Definition createPacket (internal external : list host) (payloadLen : Z) : M (list Z) :=
  b <- Intn 2 ;;
  let internalAsSource := b =? 1 in
  if internalAsSource then
    i <- Intn (len internal) ;;
    src <- lift (index internal i) ;;
    e <- Intn (len external) ;;
    dst <- lift (index external e) ;;
    buildFrame src dst payloadLen
  else
    e <- Intn (len external) ;;
    src <- lift (index external e) ;;
    i <- Intn (len internal) ;;
    dst <- lift (index internal i) ;;
    buildFrame src dst payloadLen.

Definition createPacketForHosts (internalHost externalHost : host)
    (internalAsSource : bool) (payloadLen : Z) : M (list Z) :=
  let '(src, dst) :=
    if internalAsSource then (internalHost, externalHost)
    else (externalHost, internalHost) in
  buildFrame src dst payloadLen.

Definition randomMAC : M (list Z) :=
  b0 <- Intn 256 ;; b1 <- Intn 256 ;; b2 <- Intn 256 ;;
  b3 <- Intn 256 ;; b4 <- Intn 256 ;; b5 <- Intn 256 ;;
  ret [byte b0; byte b1; byte b2; byte b3; byte b4; byte b5].

Definition randomIPv4 (prefix : list Z) : M (list Z) :=
  ip0 <- match prefix with
         | p0 :: _ => ret (byte p0)
         | [] => v <- Intn 255 ;; ret (byte (v + 1))
         end ;;
  ip1 <- match prefix with
         | _ :: p1 :: _ => ret (byte p1)
         | _ => v <- Intn 256 ;; ret (byte v)
         end ;;
  ip2 <- Intn 256 ;;
  ip3 <- Intn 256 ;;
  ret [ip0; ip1; byte ip2; byte ip3].

Definition randomDuration (min max : Z) : M Z :=
  if min =? max then ret min
  else
    let delta := sub64 max min in
    v <- Int63n delta ;;
    ret (add64 min v).

(** [d.Seconds()]. *)
Definition Seconds (d : Z) : F :=
  let sec := Z.quot d Second in
  let nsec := Z.rem d Second in
  (of_int sec + of_int nsec / of_int 1000000000)%f64.

Definition integer_divide (a b : Z) : M Z :=
  if b =? 0 then fail (Panic "integer divide by zero") else ret (quo64 a b).

(** The body of the inner loop of [createPcapFileFlows]: packet [p] of flow
    [flowIdx], the [packetIdx]-th packet of the file. *)
Definition flowPacket (start : Time) (usecStep payloadExtra : Z) (cfg : Config)
    (internal external : list host) (flowIdx internalIdx externalIdx : Z)
    (internalAsSource : bool) (p packetIdx : Z) : M Z :=
  let offsetUsec := mul64 packetIdx usecStep in
  let packetIdx := add64 packetIdx 1 in
  let packetTime := Time_Add start (mul64 offsetUsec Microsecond) in
  (* inside the loops both counts are positive: the subtractions are exact *)
  let lastPacket := (flowIdx =? FlowCount cfg - 1) && (p =? PacketsPerFlow cfg - 1) in
  let payloadLen := if lastPacket && (payloadExtra >? 0) then payloadExtra else 0 in
  ih <- lift (index internal internalIdx) ;;
  eh <- lift (index external externalIdx) ;;
  packetData <- createPacketForHosts ih eh internalAsSource payloadLen ;;
  let ci := {| Timestamp := packetTime;
               CaptureLength := len packetData;
               Length := len packetData |} in
  _ <- WritePacket ci packetData ;;
  ret packetIdx.

(** The body of the outer loop: the packets of flow [flowIdx]. *)
Definition flowPackets (start : Time) (usecStep payloadExtra : Z) (cfg : Config)
    (internal external : list host) (flowIdx packetIdx : Z) : M Z :=
  ' (internalIdx, externalIdx, internalAsSource) <-
    lift (flowIndexToHosts flowIdx (len internal) (len external)) ;;
  for_loop (Z.to_nat (PacketsPerFlow cfg)) 0
    (flowPacket start usecStep payloadExtra cfg internal external
       flowIdx internalIdx externalIdx internalAsSource)
    packetIdx.

Definition createPcapFileFlows (path : string) (start : Time) (duration : Z)
    (cfg : Config) (exactBytes : Z) (internal external : list host) : M unit :=
  (* os.MkdirAll, os.Create: the file system does not fail *)
  _ <- WriteFileHeader 65535 LinkTypeEthernet ;;
  let totalCapacity := mul64 (mul64 2 (len internal)) (len external) in
  if FlowCount cfg >? totalCapacity then
    fail (Error ("flow-count exceeds capacity: flow-count=" ++ itoa (FlowCount cfg)
                 ++ " max=" ++ itoa totalCapacity ++ " (2*internal*external)"))
  else
  let totalPackets := mul64 (FlowCount cfg) (PacketsPerFlow cfg) in
  let baseSize := add64 24 (mul64 totalPackets 78) in
  payloadExtra <-
    (if exactBytes >? 0 then
       if exactBytes <? baseSize then
         fail (Error ("exact-size " ++ itoa exactBytes ++ " < base size " ++ itoa baseSize
                      ++ "; increase exact-size or reduce flow-count/packets-per-flow"))
       else ret (sub64 exactBytes baseSize)
     else if (MaxSizeBytes cfg >? 0) && (baseSize >? MaxSizeBytes cfg) then
       fail (Error ("estimated size " ++ itoa baseSize ++ " > max-size "
                    ++ itoa (MaxSizeBytes cfg)
                    ++ "; increase max-size or reduce flow-count/packets-per-flow"))
     else ret 0) ;;
  let duration := if duration <=? 0 then mul64 10 Second else duration in
  let totalUsec := quo64 duration Microsecond in
  let totalUsec := if totalUsec <=? 0 then 1 else totalUsec in
  usecStep <- integer_divide totalUsec totalPackets ;;
  let usecStep := if usecStep <? 1 then 1 else usecStep in
  _ <- for_loop (Z.to_nat (FlowCount cfg)) 0
         (flowPackets start usecStep payloadExtra cfg internal external) 0 ;;
  ret tt.

(** The largest gap, in microseconds, drawn after a packet when [rem]
    seconds and [k] packets remain: [rem / k] seconds, at least one
    microsecond; a second is assumed when no time remains. *)
Definition interPacketGap (rem k : Z) : Z :=
  let remaining := of_int rem in
  let remaining := if (remaining <=? of_int 0)%f64 then of_int 1 else remaining in
  let interPacket := to_int (remaining / of_int k * of_int 1000000)%f64 in
  if interPacket <? 1 then 1 else interPacket.

(** The cursor after a gap: one second is carried when the offset reaches a
    million microseconds. *)
Definition advance (startSec offsetUsec gap : Z) : Z * Z :=
  let offsetUsec := add64 offsetUsec gap in
  if offsetUsec >=? 1000000 then (add64 startSec 1, sub64 offsetUsec 1000000)
  else (startSec, offsetUsec).

(** One turn of the random-mode loop: write packet [i] of [total] at the
    cursor [(startSec, offsetUsec)], then advance the cursor by a random
    gap.  The source has this body twice, in the exact-size loop and in the
    max-size loop. *)
Definition randomStep (internal external : list host) (endSec total : Z)
    (payloadLen : Z) (i : Z) (cursor : Z * Z) : M (Z * Z) :=
  let '(startSec, offsetUsec) := cursor in
  let packetTime := Unix startSec (mul64 offsetUsec 1000) in
  packetData <- createPacket internal external payloadLen ;;
  let ci := {| Timestamp := packetTime;
               CaptureLength := len packetData;
               Length := len packetData |} in
  _ <- WritePacket ci packetData ;;
  let interPacket := interPacketGap (sub64 endSec startSec) (sub64 total i) in
  gap <- Intn (add64 interPacket 1) ;;
  ret (advance startSec offsetUsec gap).

Definition createPcapFile (path : string) (start : Time) (duration : Z)
    (maxSize exactBytes : Z) (internal external : list host) : M unit :=
  (* os.MkdirAll, os.Create: the file system does not fail *)
  _ <- WriteFileHeader 65535 LinkTypeEthernet ;;
  if exactBytes >? 0 then
    let sizeFileHeader := 24 in
    let sizePacketPlusHeader := 78 in
    if exactBytes <? sizeFileHeader + sizePacketPlusHeader then
      fail (Error "exact-size too small for packet generation")
    else
    let totalPackets := quo64 (sub64 exactBytes sizeFileHeader) sizePacketPlusHeader in
    let remainder := rem64 (sub64 exactBytes sizeFileHeader) sizePacketPlusHeader in
    if totalPackets <=? 0 then
      fail (Error "exact-size too small for packet generation")
    else
    let startSec := Time_Unix start in
    let endSec := sub64 (add64 startSec (to_int (Seconds duration))) 1 in
    let offsetUsec := 0 in
    _ <- for_loop (Z.to_nat totalPackets) 0 (fun i cursor =>
           let payloadLen :=
             if (i =? totalPackets - 1) && (remainder >? 0) then remainder else 0 in
           randomStep internal external endSec totalPackets payloadLen i cursor)
         (startSec, offsetUsec) ;;
    ret tt
  else
    let sizeFileHeader := 24 in
    let sizePacketPlusHeader := 78 in
    let numPackets := quo64 (sub64 maxSize sizeFileHeader) sizePacketPlusHeader in
    if numPackets <=? 0 then
      fail (Error "max-size too small for packet generation")
    else
    let startSec := Time_Unix start in
    let endSec := sub64 (add64 startSec (to_int (Seconds duration))) 1 in
    let offsetUsec := 0 in
    _ <- for_loop (Z.to_nat (numPackets - 1)) 0 (fun i cursor =>
           randomStep internal external endSec numPackets 0 i cursor)
         (startSec, offsetUsec) ;;
    ret tt.

Definition zero_host : host := {| mac := []; ip := [] |}.

(** The two pools: sequential addresses when flows are requested, random
    ones otherwise; link addresses are always drawn. *)
Definition buildPools (cfg : Config) : M (list host * list host) :=
  let internal := make zero_host (Z.to_nat (InternalHosts cfg)) in
  let external := make zero_host (Z.to_nat (ExternalHosts cfg)) in
  if FlowCount cfg >? 0 then
    if InternalHosts cfg >? 65536 then
      fail (Error "internal-hosts exceeds 192.168.0.0/16 capacity (65536)")
    else if ExternalHosts cfg >? 16777216 then
      fail (Error "external-hosts exceeds 10.0.0.0/8 capacity (16777216)")
    else
      internal <- for_loop (Z.to_nat (InternalHosts cfg)) 0 (fun i internal =>
                    m <- randomMAC ;;
                    ret (set internal (Z.to_nat i) {| mac := m; ip := uniqueInternalIPv4 i |}))
                  internal ;;
      external <- for_loop (Z.to_nat (ExternalHosts cfg)) 0 (fun i external =>
                    m <- randomMAC ;;
                    ret (set external (Z.to_nat i) {| mac := m; ip := uniqueExternalIPv4 i |}))
                  external ;;
      ret (internal, external)
  else
    internal <- for_loop (Z.to_nat (InternalHosts cfg)) 0 (fun i internal =>
                  m <- randomMAC ;;
                  a <- randomIPv4 [192; 168] ;;
                  ret (set internal (Z.to_nat i) {| mac := m; ip := a |}))
                internal ;;
    external <- for_loop (Z.to_nat (ExternalHosts cfg)) 0 (fun i external =>
                  m <- randomMAC ;;
                  a <- randomIPv4 [] ;;
                  ret (set external (Z.to_nat i) {| mac := m; ip := a |}))
                external ;;
    ret (internal, external).

(** The checks [Generate] makes before it draws anything. *)
Definition validate (cfg : Config) : option error :=
  if (InternalHosts cfg <=? 0) || (ExternalHosts cfg <=? 0) then
    Some (Error "internal-hosts and external-hosts must be > 0")
  else if FileCount cfg <=? 0 then
    Some (Error "file-count must be > 0")
  else if negb (String.eqb (OutFile cfg) "") && negb (FileCount cfg =? 1) then
    Some (Error "out-file requires file-count=1")
  else if (ExactBytes cfg >? 0) && negb (FileCount cfg =? 1) then
    Some (Error "exact-size requires file-count=1")
  else if (MinDuration cfg <=? 0) || (MaxDuration cfg <=? 0)
          || (MaxDuration cfg <? MinDuration cfg) then
    Some (Error "invalid duration range")
  else if ExactBytes cfg <=? 0 then
    Some (Error "exact-size must be > 0")
  else if FlowCount cfg <? 0 then
    Some (Error "flow-count must be >= 0")
  else if (FlowCount cfg >? 0) && (PacketsPerFlow cfg <=? 0) then
    Some (Error "packets-per-flow must be > 0 when flow-count is set")
  else None.

(** *** path/filepath, on Unix

    [filepath.Clean]: the elements of the path, between its slashes, are
    read from the left; an empty element and "." are dropped, ".." removes
    the element before it (at the root it is dropped, and where nothing is
    left to remove it is kept), and what remains is joined with single
    slashes, behind a slash if the path began with one; an empty result is
    ".". *)
Fixpoint elements (path cur : string) : list string :=
  match path with
  | EmptyString => [cur]
  | String c r =>
      if Ascii.eqb c "/" then cur :: elements r "" else elements r (cur ++ String c "")
  end.

(** [out] holds the elements kept so far, the last one first. *)
Definition clean_element (rooted : bool) (out : list string) (e : string) : list string :=
  if String.eqb e "" || String.eqb e "." then out
  else if String.eqb e ".." then
    match out with
    | last :: before => if String.eqb last ".." then e :: out else before
    | [] => if rooted then [] else [e]
    end
  else e :: out.

Definition Clean (path : string) : string :=
  let rooted := match path with String "/" _ => true | _ => false end in
  let out := String.concat "/" (rev (fold_left (clean_element rooted) (elements path "") [])) in
  if rooted then ("/" ++ out)%string
  else if String.eqb out "" then "."%string else out.

(** [filepath.Join]: the elements from the first non-empty one on, joined
    with slashes and cleaned; the empty path when there is none. *)
Fixpoint Join (elem : list string) : string :=
  match elem with
  | [] => ""%string
  | e :: rest => if String.eqb e "" then Join rest else Clean (String.concat "/" elem)
  end.

(** The path of file [i]. *)
Definition outPath (cfg : Config) (i : Z) : string :=
  if String.eqb (OutFile cfg) "" then
    let name :=
      if FileCount cfg >? 1 then
        ("generated_" ++ pad0 6 (itoa i) ++ ".pcap")%string
      else "generated_0000.pcap"%string in
    Join [OutDir cfg; name]
  else OutFile cfg.

(** The duration of one file: drawn between the bounds, and replaced by the
    diurnal profile when several files are generated. *)
Definition fileDuration (cfg : Config) (startTime : Time) : M Z :=
  dur <- randomDuration (MinDuration cfg) (MaxDuration cfg) ;;
  if FileCount cfg >? 1 then
    let next := startTime in
    let isWeekend :=
      (Time_Weekday next =? Saturday) || (Time_Weekday next =? Sunday) in
    let decimalHour :=
      (of_int (Time_Hour next) + of_int (Time_Minute next) / of_int 60
         + of_int (Time_Second next) / of_int 3600)%f64 in
    let scale := durationScalar decimalHour isWeekend in
    ret (mul64 (to_int (of_int 480 * scale)%f64) Second)
  else ret dur.

(** The files of a run, in the order they were created, each with what was
    written to it. *)
Definition disk : Type := list (string * file).

Fixpoint generateFiles (n : nat) (i : Z) (cfg : Config) (internal external : list host)
    (startTime : Time) (r : rng R) (d : disk) : result unit * disk :=
  match n with
  | O => (Ok tt, d)
  | S n' =>
      let path := outPath cfg i in
      let one : M Z :=
        dur <- fileDuration cfg startTime ;;
        _ <- (if FlowCount cfg >? 0 then
                createPcapFileFlows path startTime dur cfg (ExactBytes cfg) internal external
              else
                createPcapFile path startTime dur (MaxSizeBytes cfg) (ExactBytes cfg)
                  internal external) ;;
        ret dur in
      match one {| w_rand := r; w_file := [] |} with
      | (Ok dur, w) =>
          generateFiles n' (i + 1) cfg internal external (Time_Add startTime dur)
            (w_rand w) (d ++ [(path, w_file w)])
      | (Err e, w) => (Err e, d ++ [(path, w_file w)])
      end
  end.

Definition Generate (cfg : Config) : result unit * disk :=
  match validate cfg with
  | Some e => (Err e, [])
  | None =>
      match buildPools cfg {| w_rand := NewSource R (Seed cfg); w_file := [] |} with
      | (Err e, _) => (Err e, [])
      | (Ok (internal, external), w) =>
          generateFiles (Z.to_nat (FileCount cfg)) 0 cfg internal external
            (StartTime cfg) (w_rand w) []
      end
  end.

End Generator.

Arguments w_rand {R} w.
Arguments w_file {R} w.
Arguments Build_world {R} w_rand w_file.

End pcapgen.

(** * Package replay *)

Module replay.

Definition ModeTimestamp : string := "timestamp".
Definition ModeMbps : string := "mbps".
Definition ModePps : string := "pps".

Record Config {F : Type} : Type := {
  InPath : string;
  Iface : string;
  Mode : string;
  Mbps : F;
  Pps : F;
  Loop : Z;
  Limit : Z;
  StatsInterval : Z
}.
Arguments Config F : clear implicits.

(** One call of [ReadPacketData]: a frame with its capture information, or
    a read error; the end of the list is [io.EOF]. *)
Definition capture : Type := list (result (list Z * pcapgen.CaptureInfo)).

(** What the engine runs against: the captures it can open, the interfaces
    it can resolve, and the raw socket. *)
Record Env : Type := {
  open_capture : string -> result capture;      (* os.Open, pcapgo.NewReader *)
  InterfaceByName : string -> result Z;
  Socket : result Z;
  Bind : Z -> Z -> result unit;
  Sendto : Z -> list Z -> result unit
}.

(** The state of one invocation: the packet budget behind the pointer
    [remaining] ([None] is the nil pointer), and the frames put on the link
    so far. *)
Record run : Type := { remaining : option Z; sent : list (list Z) }.

Section Engine.
Context {F : Type} {ops : Float64 F} (env : Env).

(** The reading loop of [replayOnce].  [waitForSchedule] only waits and the
    statistics only print: neither changes what is sent. *)
Fixpoint readLoop (fd : Z) (pkts : capture) (totalPackets totalBits : Z) (st : run)
    : result unit * run :=
  match pkts with
  | [] => (Ok tt, st)
  | Err e :: _ => (Err e, st)
  | Ok (data, ci) :: rest =>
      if match remaining st with Some r => r =? 0 | None => false end then (Ok tt, st)
      else if match remaining st with
              | Some r => (r >? 0) && (totalPackets >=? r)
              | None => false
              end then (Ok tt, st)
      else
        match Sendto env fd data with
        | Err e => (Err e, st)
        | Ok _ =>
            let totalPackets := add64 totalPackets 1 in
            let totalBits := add64 totalBits (mul64 (pcapgen.len data) 8) in
            let remaining' :=
              match remaining st with
              | Some r => if r >? 0 then Some (sub64 r 1) else Some r
              | None => None
              end in
            readLoop fd rest totalPackets totalBits
              {| remaining := remaining'; sent := sent st ++ [data] |}
        end
  end.

Definition replayOnce (fd : Z) (cfg : Config F) (st : run) : result unit * run :=
  match open_capture env (InPath cfg) with
  | Err e => (Err e, st)
  | Ok reader => readLoop fd reader 0 0 st
  end.

(** The outer loop of [Replay]; it does not end when [cfg.Loop <= 0], so it
    runs on fuel and [None] is a run that is still going. *)
Fixpoint replayLoops (fuel : nat) (fd : Z) (cfg : Config F) (loop : Z) (st : run)
    : option (result unit * run) :=
  match fuel with
  | O => None
  | S fuel' =>
      if (Loop cfg >? 0) && (loop >=? Loop cfg) then Some (Ok tt, st)
      else
        match replayOnce fd cfg st with
        | (Err e, st') => Some (Err e, st')
        | (Ok _, st') => replayLoops fuel' fd cfg (add64 loop 1) st'
        end
  end.

(** The pacing mode in force: an empty mode is [ModeTimestamp]. *)
Definition mode_of (cfg : Config F) : string :=
  if String.eqb (Mode cfg) "" then ModeTimestamp else Mode cfg.

Definition Replay (fuel : nat) (cfg : Config F) : option (result unit * run) :=
  let idle := {| remaining := None; sent := [] |} in
  if String.eqb (InPath cfg) "" || String.eqb (Iface cfg) "" then
    Some (Err (Error "input pcap and iface required"), idle)
  else
  let mode := mode_of cfg in
  if String.eqb mode ModeMbps && (Mbps cfg <=? of_int 0)%f64 then
    Some (Err (Error "mbps must be > 0 when mode=mbps"), idle)
  else if String.eqb mode ModePps && (Pps cfg <=? of_int 0)%f64 then
    Some (Err (Error "pps must be > 0 when mode=pps"), idle)
  else
  match InterfaceByName env (Iface cfg) with
  | Err e => Some (Err e, idle)
  | Ok ifindex =>
  match Socket env with
  | Err e => Some (Err e, idle)
  | Ok fd =>
  match Bind env fd ifindex with
  | Err e => Some (Err e, idle)
  | Ok _ =>
      let remaining := if Limit cfg >? 0 then Some (Limit cfg) else None in
      replayLoops fuel fd cfg 0 {| remaining := remaining; sent := [] |}
  end end end.

End Engine.

(** [uint16(x)]. *)
Definition uint16 (x : Z) : Z := x mod 2 ^ 16.

(** [htons] on [uint16]: the shift to the left drops the bits beyond 16. *)
Definition htons (i : Z) : Z :=
  Z.lor (Z.land (uint16 (Z.shiftl i 8)) 65280 (* 0xff00 *)) (Z.shiftr i 8).

End replay.

(** * Command genflux *)

Module genflux.

(** ** strings *)

Definition lower (c : ascii) : ascii :=
  let n := nat_of_ascii c in
  if (Nat.leb 65 n && Nat.leb n 90)%bool then ascii_of_nat (n + 32) else c.

(** [strings.ToLower] as it works on a string of ASCII bytes: the letters A
    to Z are shifted to lower case and every other byte is kept.  On other
    strings the library maps the runes through the Unicode tables, which the
    model does not have: the properties of the parser are stated for ASCII
    input. *)
Fixpoint ToLower (s : string) : string :=
  match s with
  | EmptyString => EmptyString
  | String c r => String (lower c) (ToLower r)
  end.

(** The ASCII white space: tab, line feed, vertical tab, form feed,
    carriage return, space. *)
Definition is_space (c : ascii) : bool :=
  let n := nat_of_ascii c in
  ((Nat.leb 9 n && Nat.leb n 13) || Nat.eqb n 32)%bool.

Fixpoint TrimLeft (s : string) : string :=
  match s with
  | String c r => if is_space c then TrimLeft r else s
  | EmptyString => EmptyString
  end.

Fixpoint rev_string (s acc : string) : string :=
  match s with
  | EmptyString => acc
  | String c r => rev_string r (String c acc)
  end.

(** [strings.TrimSpace] as it works on a string of ASCII bytes: the white
    space above is cut from both ends.  (The library also cuts the Unicode
    spaces, such as U+0085 and U+00A0, which no ASCII string holds.) *)
Definition TrimSpace (s : string) : string :=
  rev_string (TrimLeft (rev_string (TrimLeft s) "")) "".

Fixpoint HasPrefix (s p : string) : bool :=
  match p, s with
  | EmptyString, _ => true
  | String a p', String b s' => Ascii.eqb a b && HasPrefix s' p'
  | _, _ => false
  end.

Definition HasSuffix (s suffix : string) : bool :=
  HasPrefix (rev_string s "") (rev_string suffix "").

Definition TrimSuffix (s suffix : string) : string :=
  if HasSuffix s suffix then
    substring 0 (String.length s - String.length suffix) s
  else s.

(** ** strconv

    [strconv.ParseFloat(s, 64)] on the decimal syntax: an optional sign, then
    "inf", "infinity" or (unsigned) "nan" in any case, or digits with an
    optional point and an optional decimal exponent.  The result is the
    nearest number; one that rounds to an infinity is a range error.
    The library also reads hexadecimal mantissas ("0x1p4") and underscores
    between digits ("1_000"); the model refuses both.  What the model reads
    the library reads to the same value, and a string without a decimal
    digit is read by neither, the words above apart: the properties of the
    parser are stated for such inputs. *)

Section Parse.
Context {F : Type} {ops : Float64 F}.

Definition is_digit (c : ascii) : bool :=
  let n := nat_of_ascii c in (Nat.leb 48 n && Nat.leb n 57)%bool.

Definition digit (c : ascii) : Z := Z.of_nat (nat_of_ascii c) - 48.

(** The longest run of digits at the head of [s]: the number it extends
    [m] to, how many digits it has, and what follows it. *)
Fixpoint read_digits (s : string) (m : Z) (n : Z) : Z * Z * string :=
  match s with
  | String c r => if is_digit c then read_digits r (m * 10 + digit c) (n + 1) else (m, n, s)
  | EmptyString => (m, n, s)
  end.

(** The digits of an exponent; past 10000 the library stops counting. *)
Fixpoint read_exponent (s : string) (e : Z) : option Z :=
  match s with
  | EmptyString => Some e
  | String c r =>
      if is_digit c then read_exponent r (if e <? 10000 then e * 10 + digit c else e)
      else None
  end.

Definition quote (s : string) : string :=
  String (ascii_of_nat 34) (s ++ String (ascii_of_nat 34) "").
Definition syntax_error (s : string) : error :=
  Error ("strconv.ParseFloat: parsing " ++ quote s ++ ": invalid syntax").
Definition range_error (s : string) : error :=
  Error ("strconv.ParseFloat: parsing " ++ quote s ++ ": value out of range").

Definition special (s : string) : option F :=
  let l := ToLower s in
  if String.eqb l "inf" || String.eqb l "+inf" || String.eqb l "infinity"
     || String.eqb l "+infinity" then Some (f_inf false)
  else if String.eqb l "-inf" || String.eqb l "-infinity" then Some (f_inf true)
  else if String.eqb l "nan" then Some f_nan
  else None.

Definition ParseFloat (s : string) : result F :=
  match special s with
  | Some v => Ok v
  | None =>
      let '(neg, s1) :=
        match s with
        | String "+" r => (false, r)
        | String "-" r => (true, r)
        | _ => (false, s)
        end in
      let '(m, nint, s2) := read_digits s1 0 0 in
      let '(m, nfrac, s3) :=
        match s2 with
        | String "." r => read_digits r m 0
        | _ => (m, 0, s2)
        end in
      if nint + nfrac =? 0 then Err (syntax_error s)
      else
        let e :=
          match s3 with
          | EmptyString => Some 0
          | String c r =>
              if Ascii.eqb (lower c) "e" then
                match r with
                | String "+" (String d r') => read_exponent (String d r') 0
                | String "-" (String d r') => option_map Z.opp (read_exponent (String d r') 0)
                | String d r' => read_exponent (String d r') 0
                | EmptyString => None
                end
              else None
          end in
        match e with
        | None => Err (syntax_error s)
        | Some e =>
            let v := dec m (e - nfrac) in
            let v := if neg then fopp v else v in
            if is_inf v then Err (range_error s) else Ok v
        end
  end.

End Parse.

(** ** main.go *)

Section ParseSize.
Context {F : Type} {ops : Float64 F}.

(** The unit suffix of [v]: the multiplier and [v] without the suffix. *)
Definition unit_suffix (v : string) : Z * string :=
  if HasSuffix v "tib" then
    (1024 * 1024 * 1024 * 1024, TrimSuffix v "tib")
  else if HasSuffix v "tb" || HasSuffix v "t" then
    (1024 * 1024 * 1024 * 1024, TrimSuffix (TrimSuffix v "tb") "t")
  else if HasSuffix v "gib" then
    (1024 * 1024 * 1024, TrimSuffix v "gib")
  else if HasSuffix v "gb" || HasSuffix v "g" then
    (1024 * 1024 * 1024, TrimSuffix (TrimSuffix v "gb") "g")
  else if HasSuffix v "mib" then
    (1024 * 1024, TrimSuffix v "mib")
  else if HasSuffix v "mb" || HasSuffix v "m" then
    (1024 * 1024, TrimSuffix (TrimSuffix v "mb") "m")
  else if HasSuffix v "kib" then
    (1024, TrimSuffix v "kib")
  else if HasSuffix v "kb" || HasSuffix v "k" then
    (1024, TrimSuffix (TrimSuffix v "kb") "k")
  else if HasSuffix v "b" then
    (1, TrimSuffix v "b")
  else (1, v).

Definition parseSize (value : string) : result Z :=
  let v := TrimSpace (ToLower value) in
  if String.eqb v "" then Err (Error "empty size")
  else
    let '(mult, v) := unit_suffix v in
    let v := TrimSpace v in
    if String.eqb v "" then Err (Error "missing numeric value")
    else
      match ParseFloat v with
      | Err e => Err e
      | Ok num =>
          if (num <=? of_int 0)%f64 then Err (Error "size must be > 0")
          else Ok (to_int (Round (num * of_int mult)%f64))
      end.

(** What [pcapGen] makes of the flag [--exact-size]: the value of
    [cfg.ExactBytes], 0 by default, or the message [log.Fatal] ends the
    command with. *)
Definition pcapGen_ExactBytes (exactSize : string) : result Z :=
  match (if negb (String.eqb exactSize "") then
           match parseSize exactSize with
           | Err err => Err (Error ("invalid exact-size: " ++ message err))
           | Ok size =>
               if size >? max_int then
                 Err (Error ("exact-size too large: " ++ pcapgen.itoa size))
               else Ok size
           end
         else Ok 0) with
  | Err e => Err e
  | Ok ExactBytes =>
      if ExactBytes <=? 0 then Err (Error "exact-size is required") else Ok ExactBytes
  end.

End ParseSize.

End genflux.

(** * A concrete generator, to run the model

    A linear congruential generator; only its contract matters. *)

Module LCG.

Definition next (s : Z) : Z := (s * 6364136223846793005 + 1442695040888963407) mod 2 ^ 64.

Definition draw (s n : Z) : Z * Z := (Z.shiftr (next s) 1 mod n, next s).

Fixpoint read (s : Z) (n : nat) : list Z * Z :=
  match n with
  | O => ([], s)
  | S n' => let '(bs, s') := read (next s) n' in (Z.shiftr (next s) 56 :: bs, s')
  end.

End LCG.

Lemma LCG_draw_range (s n : Z) : 0 < n -> 0 <= fst (LCG.draw s n) < n.
Proof. intros Hn. unfold LCG.draw. simpl. apply Z.mod_pos_bound. exact Hn. Qed.

Lemma LCG_read_length (s : Z) (n : nat) : List.length (fst (LCG.read s n)) = n.
Proof.
  revert s. induction n as [|n IH]; intros s; simpl.
  - reflexivity.
  - specialize (IH (LCG.next s)). destruct (LCG.read (LCG.next s) n) as [bs s'].
    simpl in *. now rewrite IH.
Qed.

Definition lcg : pcapgen.RandSource := {|
  pcapgen.rng := Z;
  pcapgen.NewSource := fun seed => seed mod 2 ^ 64;
  pcapgen.rand_Intn := LCG.draw;
  pcapgen.rand_Int63n := LCG.draw;
  pcapgen.rand_Read := LCG.read;
  pcapgen.Intn_range := LCG_draw_range;
  pcapgen.Int63n_range := LCG_draw_range;
  pcapgen.Read_length := LCG_read_length
|}.

(** * Vocabulary of the properties *)

(** ** Size strings *)

(** What [parseSize] hands to [strconv.ParseFloat]: the input in lower case,
    without its unit and the white space around it. *)
Definition numeric_part (value : string) : string :=
  genflux.TrimSpace (snd (genflux.unit_suffix (genflux.TrimSpace (genflux.ToLower value)))).

(** A string with a decimal digit in it. *)
Fixpoint has_digit (s : string) : bool :=
  match s with
  | EmptyString => false
  | String c r => genflux.is_digit c || has_digit r
  end.

(** A string of ASCII characters: every byte is below 128. *)
Fixpoint ascii_only (s : string) : bool :=
  match s with
  | EmptyString => true
  | String c r => Nat.ltb (nat_of_ascii c) 128 && ascii_only r
  end.

(** The words, in lower case, that [strconv.ParseFloat] reads as the
    positive infinity or as a NaN. *)
Definition float_words : list string :=
  ["inf"; "+inf"; "infinity"; "+infinity"; "nan"]%string.

(** A string in lower case. *)
Definition lowered (s : string) : Prop :=
  forall c, In c (list_ascii_of_string s) -> genflux.lower c = c.

(** ** The activity curve *)

(** The value the specification expects at the knot hour [h]: one minus the
    curve at the rotated hour, clamped. *)
Definition knot_value {F : Type} {ops : Float64 F} (h : Z) (weekend : bool) : F :=
  pcapgen.clamp01
    (of_int 1 - get (of_int 0) (pcapgen.curve weekend) (Z.to_nat ((h + 1) mod 24)))%f64.

(** ** Magnitudes in binary64 *)

(** A binary64 number below [2^k] in magnitude: a zero, or a finite
    number [m * 2^e] whose mantissa has at most [k - e] bits. *)
Definition SFbelow (k : Z) (x : spec_float) : Prop :=
  match x with
  | S754_zero _ => True
  | S754_finite _ m e => Zpos (digits2_pos m) + e <= k
  | _ => False
  end.

Definition below (k : Z) (x : float) : Prop := SFbelow k (Prim2SF x).

(** The same, decided. *)
Definition belowb (k : Z) (x : float) : bool :=
  match Prim2SF x with
  | S754_zero _ => true
  | S754_finite _ m e => Zpos (digits2_pos m) + e <=? k
  | _ => false
  end.

(** ** Computations *)

(** A computation that never touches the file. *)
Definition keeps_file {R : pcapgen.RandSource} {A : Type} (m : pcapgen.M R A) : Prop :=
  forall w r w', m w = (r, w') -> pcapgen.w_file w' = pcapgen.w_file w.

(** What a computation returns, when it returns. *)
Definition returns {R : pcapgen.RandSource} {A : Type} (m : pcapgen.M R A) (Q : A -> Prop) : Prop :=
  forall w a w', m w = (Ok a, w') -> Q a.

(** ** Files *)

(** The frame lengths of the records of a file, in order. *)
Definition frame_lengths (f : pcapgen.file) : list Z :=
  map (fun p => pcapgen.len (snd p)) (pcapgen.packets f).

(** A host as [Generate] builds them: a 6-byte MAC and a 4-byte address. *)
Definition wf_host (h : pcapgen.host) : Prop :=
  pcapgen.len (pcapgen.mac h) = 6 /\ pcapgen.len (pcapgen.ip h) = 4.

(** Non-decreasing timestamps. *)
Fixpoint nondecreasing (l : list Z) : bool :=
  match l with
  | a :: (b :: _) as rest => (a <=? b) && nondecreasing rest
  | _ => true
  end.

(** A file of a header and [k] bare frames. *)
Definition bare_file (k : Z) (f : pcapgen.file) : Prop :=
  pcapgen.len (pcapgen.packets f) = k
  /\ Forall (fun l => l = 62) (frame_lengths f)
  /\ pcapgen.len (pcapgen.file_bytes f) = 24 + 78 * k.

(** ** Fixed-flow files *)

(** The time of the [k]-th packet of a fixed-flow file. *)
Definition flow_time (start usecStep k : Z) : Z :=
  pcapgen.Time_Add start (mul64 (mul64 k usecStep) pcapgen.Microsecond).

(** The payload asked of packet [p] of flow [flowIdx]. *)
Definition flow_payload (cfg : pcapgen.Config) (extra flowIdx p : Z) : Z :=
  if ((flowIdx =? pcapgen.FlowCount cfg - 1) && (p =? pcapgen.PacketsPerFlow cfg - 1))
     && (extra >? 0) then extra else 0.

(** What a fixed-flow file of [N] packets holds after its first [k]: frames
    of 62 bytes, the padding [extra] once the last is written, the byte
    count that follows, and one timestamp per packet index. *)
Definition flows_file (start usecStep N extra k : Z) (f : pcapgen.file) : Prop :=
  frame_lengths f
  = (if k <? N then repeat 62 (Z.to_nat k)
     else repeat 62 (Z.to_nat (N - 1)) ++ [62 + extra])
  /\ pcapgen.len (pcapgen.file_bytes f) = 24 + 78 * k + (if k <? N then 0 else extra)
  /\ pcapgen.timestamps f
     = map (fun i => flow_time start usecStep (Z.of_nat i)) (seq 0 (Z.to_nat k)).

(** What the fixed-flow loops keep: the timestamps written are in order and
    below the time of packet [k]. *)
Definition flow_sorted {R : pcapgen.RandSource} (start usecStep : Z)
    (k : Z) (w : pcapgen.world R) : Prop :=
  nondecreasing (pcapgen.timestamps (pcapgen.w_file w)) = true
  /\ Forall (fun t => t <= start + k * usecStep * 1000)
       (pcapgen.timestamps (pcapgen.w_file w)).

(** ** The time cursor of random mode *)

(** The instant a cursor stands for. *)
Definition cursor_time (startSec offsetUsec : Z) : Z :=
  pcapgen.Unix startSec (offsetUsec * 1000).

(** [A/1 + A/2 + ... + A/n], the most the offset can have grown after [n]
    gaps of at most [A/k] each. *)
Fixpoint hsum (A : Z) (n : nat) : Z :=
  match n with
  | O => 0
  | S m => hsum A m + A / Z.of_nat (S m)
  end.

(** What the time cursor needs of the arithmetic: the gap for [rem] seconds
    and [k] packets is at most [rem / k] seconds, a microsecond at least.
    It is asked for up to [10^8] seconds and [2^50] packets, where the two
    roundings of binary64 cannot reach the next microsecond. *)
Definition gap_law (F : Type) (ops : Float64 F) : Prop :=
  forall rem k : Z, min_int <= rem <= 10 ^ 8 -> 1 <= k <= 2 ^ 50 ->
    pcapgen.interPacketGap (F := F) rem k <= Z.max 1 (Z.max 1 rem * 1000000 / k).

(** What the random-mode loop keeps, for a cursor started at second [s0]
    with [total] packets to write before [endSec]: the cursor has carried at
    most one second per packet, its offset is bounded by the gaps drawn so
    far, and the timestamps written are in order and none is after the
    cursor. *)
Definition random_inv {R : pcapgen.RandSource} (s0 endSec total : Z)
    (i : Z) (c : Z * Z) (w : pcapgen.world R) : Prop :=
  s0 <= fst c <= s0 + i
  /\ 0 <= snd c
  /\ snd c + hsum (Z.max 1 (endSec - s0) * 1000000) (Z.to_nat (total - i))
     <= hsum (Z.max 1 (endSec - s0) * 1000000) (Z.to_nat total) + i
  /\ nondecreasing (pcapgen.timestamps (pcapgen.w_file w)) = true
  /\ Forall (fun t => t <= cursor_time (fst c) (snd c))
       (pcapgen.timestamps (pcapgen.w_file w)).

(** ** Hosts *)

(** A list of octets. *)
Definition octets (l : list Z) : Prop := Forall (fun b => 0 <= b < 256) l.

(** The addresses of a pool, in order. *)
Definition addresses (pool : list pcapgen.host) : list (list Z) := map pcapgen.ip pool.

(** ** What a run leaves on disk *)

(** The file a writer leaves when it stops before the first packet: the
    pcap header and nothing else. *)
Definition header_only : pcapgen.file := [pcapgen.FileHeader 65535 pcapgen.LinkTypeEthernet].

(** A file of a header and [k] of its [N] frames, the last of which carries
    [extra] bytes of padding. *)
Definition padded_file (N extra k : Z) (f : pcapgen.file) : Prop :=
  frame_lengths f
  = (if k <? N then repeat 62 (Z.to_nat k)
     else repeat 62 (Z.to_nat (N - 1)) ++ [62 + extra])
  /\ pcapgen.len (pcapgen.file_bytes f) = 24 + 78 * k + (if k <? N then 0 else extra).

(** Whole records, each with the capture length of its frame. *)
Definition whole_records (l : pcapgen.file) : Prop :=
  Forall (fun c => match c with
                   | pcapgen.PacketRecord ci data =>
                       pcapgen.CaptureLength ci = pcapgen.len data
                       /\ pcapgen.CaptureLength ci <= pcapgen.Length ci
                   | pcapgen.FileHeader _ _ => False
                   end) l.

(** A capture that can be read back: the header, then whole records. *)
Definition wellformed (f : pcapgen.file) : Prop :=
  exists recs, f = header_only ++ recs /\ whole_records recs.

(** The sum of a list of lengths. *)
Definition sum_lengths (l : list Z) : Z := fold_right Z.add 0 l.

(** A computation that only appends whole records to the file. *)
Definition appends {R : pcapgen.RandSource} {A : Type} (m : pcapgen.M R A) : Prop :=
  forall w r w', m w = (r, w') ->
    exists l, pcapgen.w_file w' = pcapgen.w_file w ++ l /\ whole_records l.

(** The step, in microseconds, between the packets of a fixed-flow file of
    [N] packets over [duration] nanoseconds. *)
Definition flow_step (duration N : Z) : Z := Z.max 1 (Z.max 1 (duration / 1000) / N).

(** The configuration after [cfg.ExactBytes = n], as [pcapGen] sets it from
    the flag. *)
Definition with_ExactBytes (cfg : pcapgen.Config) (n : Z) : pcapgen.Config := {|
  pcapgen.InternalHosts := pcapgen.InternalHosts cfg;
  pcapgen.ExternalHosts := pcapgen.ExternalHosts cfg;
  pcapgen.MinDuration := pcapgen.MinDuration cfg;
  pcapgen.MaxDuration := pcapgen.MaxDuration cfg;
  pcapgen.FileCount := pcapgen.FileCount cfg;
  pcapgen.OutDir := pcapgen.OutDir cfg;
  pcapgen.OutFile := pcapgen.OutFile cfg;
  pcapgen.StartTime := pcapgen.StartTime cfg;
  pcapgen.MaxSizeBytes := pcapgen.MaxSizeBytes cfg;
  pcapgen.ExactBytes := n;
  pcapgen.Seed := pcapgen.Seed cfg;
  pcapgen.FlowCount := pcapgen.FlowCount cfg;
  pcapgen.PacketsPerFlow := pcapgen.PacketsPerFlow cfg
|}.

(** ** Sizes *)

(** A string of decimal digits. *)
Fixpoint digits_only (s : string) : bool :=
  match s with
  | EmptyString => true
  | String c r => genflux.is_digit c && digits_only r
  end.

(** The units [parseSize] knows, in lower case, each with its multiplier. *)
Definition units : list (string * Z) :=
  [(""%string, 1); ("b"%string, 1);
   ("k"%string, 2 ^ 10); ("kb"%string, 2 ^ 10); ("kib"%string, 2 ^ 10);
   ("m"%string, 2 ^ 20); ("mb"%string, 2 ^ 20); ("mib"%string, 2 ^ 20);
   ("g"%string, 2 ^ 30); ("gb"%string, 2 ^ 30); ("gib"%string, 2 ^ 30);
   ("t"%string, 2 ^ 40); ("tb"%string, 2 ^ 40); ("tib"%string, 2 ^ 40)].

(** ** Replay *)

(** A configuration and an environment with which [Replay] reaches its
    loop: the paths are given, the rate of the mode is positive, and the
    interface and the socket [fd] are there. *)
Definition starts {F : Type} {ops : Float64 F} (env : replay.Env) (cfg : replay.Config F)
    (fd : Z) : Prop :=
  replay.InPath cfg <> ""%string /\ replay.Iface cfg <> ""%string
  /\ String.eqb (replay.mode_of cfg) replay.ModeMbps
       && (replay.Mbps cfg <=? of_int 0)%f64 = false
  /\ String.eqb (replay.mode_of cfg) replay.ModePps
       && (replay.Pps cfg <=? of_int 0)%f64 = false
  /\ exists ifindex,
       replay.InterfaceByName env (replay.Iface cfg) = Ok ifindex
       /\ replay.Socket env = Ok fd
       /\ replay.Bind env fd ifindex = Ok tt.

(** * Example inputs *)

(** Ten one-byte frames, a second apart. *)
Definition ten_packets : list (list Z * pcapgen.CaptureInfo) :=
  map (fun n => ([n], {| pcapgen.Timestamp := n * pcapgen.Second;
                         pcapgen.CaptureLength := 1; pcapgen.Length := 1 |}))
      [1; 2; 3; 4; 5; 6; 7; 8; 9; 10].

(** An environment with one capture of ten packets and a link that accepts
    every frame. *)
Definition loopback : replay.Env := {|
  replay.open_capture := fun _ => Ok (map Ok ten_packets);
  replay.InterfaceByName := fun _ => Ok 2;
  replay.Socket := Ok 3;
  replay.Bind := fun _ _ => Ok tt;
  replay.Sendto := fun _ _ => Ok tt
|}.

(** Three passes with a budget of ten packets. *)
Definition loop3_limit10 : replay.Config Q := {|
  replay.InPath := "generated_0000.pcap";
  replay.Iface := "eth0";
  replay.Mode := replay.ModeTimestamp;
  replay.Mbps := 0%Q;
  replay.Pps := 0%Q;
  replay.Loop := 3;
  replay.Limit := 10;
  replay.StatsInterval := pcapgen.Second
|}.

(** A pool of ten hosts. *)
Definition pool10 (ipOf : Z -> list Z) : list pcapgen.host :=
  map (fun i => {| pcapgen.mac := [2; 0; 0; 0; 0; i]; pcapgen.ip := ipOf i |})
      [0; 1; 2; 3; 4; 5; 6; 7; 8; 9].

(** The scenario of the specification: 10 hosts in each pool, 50 flows of
    one packet, and room for exactly 50 bare frames. *)
Definition scenario : pcapgen.Config := {|
  pcapgen.InternalHosts := 10;
  pcapgen.ExternalHosts := 10;
  pcapgen.MinDuration := 60 * pcapgen.Second;
  pcapgen.MaxDuration := 120 * pcapgen.Second;
  pcapgen.FileCount := 1;
  pcapgen.OutDir := ".";
  pcapgen.OutFile := "";
  pcapgen.StartTime := 1475366400 * pcapgen.Second;
  pcapgen.MaxSizeBytes := 300000000;
  pcapgen.ExactBytes := 24 + 50 * 78;
  pcapgen.Seed := 1;
  pcapgen.FlowCount := 50;
  pcapgen.PacketsPerFlow := 1
|}.

(** The second example of the README: an explicit out-file with an exact
    size. *)
Definition out_file_exact : pcapgen.Config := {|
  pcapgen.InternalHosts := 3;
  pcapgen.ExternalHosts := 2;
  pcapgen.MinDuration := 60 * pcapgen.Second;
  pcapgen.MaxDuration := 120 * pcapgen.Second;
  pcapgen.FileCount := 1;
  pcapgen.OutDir := ".";
  pcapgen.OutFile := "./my_traffic.pcap";
  pcapgen.StartTime := 1475366400 * pcapgen.Second;
  pcapgen.MaxSizeBytes := 300000000;
  pcapgen.ExactBytes := 1024;
  pcapgen.Seed := 7;
  pcapgen.FlowCount := 0;
  pcapgen.PacketsPerFlow := 2
|}.


(** A capture of eight packets over the longest duration the command line
    can express, 9223372036 seconds. *)
Definition long_capture : pcapgen.Config := {|
  pcapgen.InternalHosts := 3;
  pcapgen.ExternalHosts := 2;
  pcapgen.MinDuration := 9223372036 * pcapgen.Second;
  pcapgen.MaxDuration := 9223372036 * pcapgen.Second;
  pcapgen.FileCount := 1;
  pcapgen.OutDir := ".";
  pcapgen.OutFile := "";
  pcapgen.StartTime := 1475366400 * pcapgen.Second;
  pcapgen.MaxSizeBytes := 300000000;
  pcapgen.ExactBytes := 24 + 78 * 8;
  pcapgen.Seed := 1;
  pcapgen.FlowCount := 0;
  pcapgen.PacketsPerFlow := 2
|}.

(** A fixed-flow configuration of the scenario's shape, with the pools, the
    flows and the exact size given. *)
Definition flow_run (internal external flows per exact : Z) : pcapgen.Config := {|
  pcapgen.InternalHosts := internal;
  pcapgen.ExternalHosts := external;
  pcapgen.MinDuration := 60 * pcapgen.Second;
  pcapgen.MaxDuration := 120 * pcapgen.Second;
  pcapgen.FileCount := 1;
  pcapgen.OutDir := ".";
  pcapgen.OutFile := "";
  pcapgen.StartTime := 1475366400 * pcapgen.Second;
  pcapgen.MaxSizeBytes := 300000000;
  pcapgen.ExactBytes := exact;
  pcapgen.Seed := 1;
  pcapgen.FlowCount := flows;
  pcapgen.PacketsPerFlow := per
|}.

(** A replay in the default mode, with the loop count and the limit given. *)
Definition replay_example (loop limit : Z) : replay.Config Q := {|
  replay.InPath := "generated_0000.pcap";
  replay.Iface := "eth0";
  replay.Mode := "";
  replay.Mbps := 0%Q;
  replay.Pps := 0%Q;
  replay.Loop := loop;
  replay.Limit := limit;
  replay.StatsInterval := 0
|}.

(** A capture whose fourth read fails. *)
Definition torn_capture : replay.Env := {|
  replay.open_capture := fun _ =>
    Ok (map Ok (firstn 3 ten_packets) ++ [Err (Error "unexpected EOF")]
          ++ map Ok (skipn 3 ten_packets));
  replay.InterfaceByName := fun _ => Ok 2;
  replay.Socket := Ok 3;
  replay.Bind := fun _ _ => Ok tt;
  replay.Sendto := fun _ _ => Ok tt
|}.

(** A link that refuses the frame [[4]]. *)
Definition broken_link : replay.Env := {|
  replay.open_capture := fun _ => Ok (map Ok ten_packets);
  replay.InterfaceByName := fun _ => Ok 2;
  replay.Socket := Ok 3;
  replay.Bind := fun _ _ => Ok tt;
  replay.Sendto := fun _ data =>
    if list_eq_dec Z.eq_dec data [4] then Err (Error "network is down") else Ok tt
|}.

(** * Properties *)

(** ** Machine integers *)

Lemma wrap_id (z : Z) : in_int z -> wrap z = z.
Proof.
  unfold in_int, min_int, max_int, wrap. intros H.
  rewrite Z.mod_small; lia.
Qed.

Lemma in_int_bounds (z : Z) : - 2 ^ 63 <= z <= 2 ^ 63 - 1 -> in_int z.
Proof. unfold in_int, min_int, max_int. lia. Qed.

Ltac unwrap :=
  repeat (rewrite wrap_id by (apply in_int_bounds; lia)).

Lemma byte_small (x : Z) : 0 <= x < 256 -> byte x = x.
Proof. intros H. unfold byte. now apply Z.mod_small. Qed.

Lemma land_255 (x : Z) : Z.land x 255 = x mod 256.
Proof. change 255 with (Z.ones 8). rewrite Z.land_ones by lia. reflexivity. Qed.

(** ** The flow index (section 4.5) *)

Section FlowIndex.
Variables I E : Z.
Hypothesis HI : 0 < I.
Hypothesis HE : 0 < E.
Hypothesis Hcap : 2 * I * E <= max_int.

Lemma pairs_in_int : 0 < I * E /\ I * E <= max_int.
Proof. unfold max_int in *. nia. Qed.

(** On its range the mapping is the division and remainder of the
    specification, with no wrap-around. *)
Lemma flowIndexToHosts_closed (idx : Z) :
  0 <= idx < 2 * I * E ->
  pcapgen.flowIndexToHosts idx I E =
    if idx <? I * E then Ok (idx / E, idx mod E, true)
    else Ok ((idx - I * E) / E, (idx - I * E) mod E, false).
Proof.
  intros Hidx. pose proof pairs_in_int as [Hp Hq].
  unfold pcapgen.flowIndexToHosts, mul64, sub64, quo64, rem64. unfold max_int in *.
  rewrite (wrap_id (I * E)) by (apply in_int_bounds; lia).
  destruct (E =? 0) eqn:E0; [lia|].
  destruct (idx <? I * E) eqn:Hlt.
  - apply Z.ltb_lt in Hlt.
    rewrite Z.quot_div_nonneg, Z.rem_mod_nonneg by lia.
    assert (0 <= idx / E <= idx) by (split; [apply Z.div_pos; lia | apply Z.div_le_upper_bound; nia]).
    unwrap. reflexivity.
  - apply Z.ltb_ge in Hlt.
    rewrite (wrap_id (idx - I * E)) by (apply in_int_bounds; lia).
    rewrite Z.quot_div_nonneg, Z.rem_mod_nonneg by lia.
    assert (0 <= (idx - I * E) / E <= idx - I * E)
      by (split; [apply Z.div_pos; lia | apply Z.div_le_upper_bound; nia]).
    unwrap. reflexivity.
Qed.

Lemma div_mod_pair (a i e : Z) :
  0 <= e < E -> a = i * E + e -> a / E = i /\ a mod E = e.
Proof.
  intros He ->. split.
  - rewrite Z.div_add_l by lia. rewrite Z.div_small by lia. lia.
  - rewrite Z.add_comm, Z.mod_add by lia. now apply Z.mod_small.
Qed.

Lemma pair_bounds (a : Z) : 0 <= a < I * E -> 0 <= a / E < I /\ 0 <= a mod E < E.
Proof.
  intros Ha. split.
  - split; [apply Z.div_pos; lia | apply Z.div_lt_upper_bound; nia].
  - apply Z.mod_pos_bound; lia.
Qed.

End FlowIndex.

(** Every index of the range is sent to hosts that exist. *)
Lemma flowIndexToHosts_in_range (I E idx : Z) :
  0 < I -> 0 < E -> 2 * I * E <= max_int -> 0 <= idx < 2 * I * E ->
  exists i e d, pcapgen.flowIndexToHosts idx I E = Ok (i, e, d)
                /\ 0 <= i < I /\ 0 <= e < E.
Proof.
  intros HI HE Hcap Hidx. rewrite (flowIndexToHosts_closed I E HI HE Hcap idx Hidx).
  destruct (idx <? I * E) eqn:Hlt.
  - apply Z.ltb_lt in Hlt.
    destruct (pair_bounds I E HE idx) as [Hi He]; [lia|].
    exists (idx / E), (idx mod E), true. auto.
  - apply Z.ltb_ge in Hlt.
    destruct (pair_bounds I E HE (idx - I * E)) as [Hi He]; [lia|].
    exists ((idx - I * E) / E), ((idx - I * E) mod E), false. auto.
Qed.

(** C3. For positive pool sizes [I] and [E] whose index range [0 .. 2*I*E - 1]
    is a range of Go integers, [flowIndexToHosts] sends every index of the
    range to a triple (internal index below [I], external index below [E],
    direction), and every such triple is the image of exactly one index of
    the range: the mapping is a bijection. *)
Theorem flowIndexToHosts_bijection (I E : Z) :
  0 < I -> 0 < E -> 2 * I * E <= max_int ->
  (forall idx, 0 <= idx < 2 * I * E ->
     exists i e d, pcapgen.flowIndexToHosts idx I E = Ok (i, e, d)
                   /\ 0 <= i < I /\ 0 <= e < E)
  /\
  (forall i e d, 0 <= i < I -> 0 <= e < E ->
     exists idx, 0 <= idx < 2 * I * E
                 /\ pcapgen.flowIndexToHosts idx I E = Ok (i, e, d)
                 /\ forall idx', 0 <= idx' < 2 * I * E ->
                      pcapgen.flowIndexToHosts idx' I E = Ok (i, e, d) -> idx' = idx).
Proof.
  intros HI HE Hcap. split.
  - intros idx Hidx. rewrite (flowIndexToHosts_closed I E HI HE Hcap idx Hidx).
    destruct (idx <? I * E) eqn:Hlt.
    + apply Z.ltb_lt in Hlt.
      destruct (pair_bounds I E HE idx) as [Hi He]; [lia|].
      exists (idx / E), (idx mod E), true. auto.
    + apply Z.ltb_ge in Hlt.
      destruct (pair_bounds I E HE (idx - I * E)) as [Hi He]; [lia|].
      exists ((idx - I * E) / E), ((idx - I * E) mod E), false. auto.
  - intros i e d Hi He.
    set (base := if d then 0 else I * E).
    assert (Hin : 0 <= i * E + e < I * E) by nia.
    assert (Hb : 0 <= base + (i * E + e) < 2 * I * E) by (unfold base; destruct d; nia).
    exists (base + (i * E + e)). split; [exact Hb|]. split.
    + rewrite (flowIndexToHosts_closed I E HI HE Hcap _ Hb).
      unfold base. destruct d.
      * destruct (0 + (i * E + e) <? I * E) eqn:Hlt; [|apply Z.ltb_ge in Hlt; lia].
        destruct (div_mod_pair E HE (0 + (i * E + e)) i e He) as [-> ->]; [lia|reflexivity].
      * destruct (I * E + (i * E + e) <? I * E) eqn:Hlt; [apply Z.ltb_lt in Hlt; lia|].
        destruct (div_mod_pair E HE (I * E + (i * E + e) - I * E) i e He) as [-> ->];
          [lia|reflexivity].
    + intros idx' Hidx'. rewrite (flowIndexToHosts_closed I E HI HE Hcap _ Hidx').
      destruct (idx' <? I * E) eqn:Hlt; intros Heq; inversion Heq; subst; unfold base.
      * pose proof (Z.div_mod idx' E ltac:(lia)). lia.
      * pose proof (Z.div_mod (idx' - I * E) E ltac:(lia)). lia.
Qed.

Lemma flowIndexToHosts_bijection_witness :
  (forall idx, 0 <= idx < 2 * 3 * 4 ->
     exists i e d, pcapgen.flowIndexToHosts idx 3 4 = Ok (i, e, d)
                   /\ 0 <= i < 3 /\ 0 <= e < 4)
  /\
  (forall i e d, 0 <= i < 3 -> 0 <= e < 4 ->
     exists idx, 0 <= idx < 2 * 3 * 4
                 /\ pcapgen.flowIndexToHosts idx 3 4 = Ok (i, e, d)
                 /\ forall idx', 0 <= idx' < 2 * 3 * 4 ->
                      pcapgen.flowIndexToHosts idx' 3 4 = Ok (i, e, d) -> idx' = idx).
Proof.
  apply (flowIndexToHosts_bijection 3 4); [lia | lia | unfold max_int; lia].
Defined.

(** ** Capacity-unique addresses (section 3) *)

Lemma internal_bytes (i : Z) :
  0 <= i < 65536 -> pcapgen.uniqueInternalIPv4 i = [192; 168; i / 256; i mod 256].
Proof.
  intros Hi. unfold pcapgen.uniqueInternalIPv4.
  rewrite Z.quot_div_nonneg, Z.rem_mod_nonneg by lia.
  rewrite !byte_small; try reflexivity.
  - apply Z.mod_pos_bound; lia.
  - split; [apply Z.div_pos; lia | apply Z.div_lt_upper_bound; lia].
Qed.

Lemma external_bytes (i : Z) :
  0 <= i < 16777216 ->
  pcapgen.uniqueExternalIPv4 i = [10; i / 65536; (i / 256) mod 256; i mod 256].
Proof.
  intros Hi. unfold pcapgen.uniqueExternalIPv4.
  rewrite !land_255, !Z.shiftr_div_pow2 by lia.
  change (2 ^ 16) with 65536. change (2 ^ 8) with 256.
  unfold byte. rewrite !Z.mod_mod by lia.
  rewrite (Z.mod_small (i / 65536)); [reflexivity|].
  split; [apply Z.div_pos; lia | apply Z.div_lt_upper_bound; lia].
Qed.

(** C4. In each pool the index-to-address function is injective on the
    capacity range: for a pool of [N] hosts, [N <= 65536] internal or
    [N <= 16777216] external, two indices below [N] with the same address
    are the same index, so the [N] addresses are pairwise distinct. *)
Theorem unique_addresses_injective (N i j : Z) :
  0 <= i < N -> 0 <= j < N ->
  (N <= 65536 -> pcapgen.uniqueInternalIPv4 i = pcapgen.uniqueInternalIPv4 j -> i = j)
  /\ (N <= 16777216 -> pcapgen.uniqueExternalIPv4 i = pcapgen.uniqueExternalIPv4 j -> i = j).
Proof.
  intros Hi Hj. split; intros HN Heq.
  - rewrite !internal_bytes in Heq by lia. inversion Heq as [[H2 H3]].
    rewrite (Z.div_mod i 256), (Z.div_mod j 256) by lia. lia.
  - rewrite !external_bytes in Heq by lia. inversion Heq as [[H1 H2 H3]].
    pose proof (Z.div_mod i 256 ltac:(lia)) as Di.
    pose proof (Z.div_mod j 256 ltac:(lia)) as Dj.
    pose proof (Z.div_mod (i / 256) 256 ltac:(lia)) as Di'.
    pose proof (Z.div_mod (j / 256) 256 ltac:(lia)) as Dj'.
    rewrite Z.div_div in Di', Dj' by lia. change (256 * 256) with 65536 in *.
    lia.
Qed.

Lemma unique_addresses_injective_witness :
  (65536 <= 65536 ->
   pcapgen.uniqueInternalIPv4 65535 = pcapgen.uniqueInternalIPv4 65535 -> 65535 = 65535)
  /\ (65536 <= 16777216 ->
      pcapgen.uniqueExternalIPv4 65535 = pcapgen.uniqueExternalIPv4 65535 -> 65535 = 65535).
Proof. apply (unique_addresses_injective 65536 65535 65535); lia. Defined.

(** ** The diurnal profile (section 4.1) *)

Lemma Exact_ltb_false (x y : Q) : Exact.ltb x y = false -> (y <= x)%Q.
Proof. unfold Exact.ltb. intros H. apply Qle_bool_iff. now apply negb_false_iff. Qed.

Lemma Exact_ltb_true (x y : Q) : (x < y)%Q -> Exact.ltb x y = true.
Proof.
  unfold Exact.ltb. intros H. apply negb_true_iff.
  destruct (Qle_bool y x) eqn:Hle; [|reflexivity].
  apply Qle_bool_iff in Hle. exfalso. now apply (Qlt_not_le x y).
Qed.

Lemma clamp01_range (r : Q) : (0 <= pcapgen.clamp01 r <= 1)%Q.
Proof.
  unfold pcapgen.clamp01. cbn [fltb Exact_Float64 of_int].
  destruct (Exact.ltb r (Exact.of_int 0)) eqn:H0.
  - split; discriminate.
  - destruct (Exact.ltb (Exact.of_int 1) r) eqn:H1.
    + split; discriminate.
    + apply Exact_ltb_false in H0, H1. now split.
Qed.

(** Comparisons of binary64 numbers: swapping the operands swaps the
    outcome, and only a NaN has none. *)
Lemma SFcompare_swap (x y : spec_float) (c : comparison) :
  SFcompare x y = Some c -> SFcompare y x = Some (CompOpp c).
Proof.
  destruct x as [sx|sx| |sx mx ex], y as [sy|sy| |sy my ey]; cbn;
    intros H; inversion H as [Hc]; clear H; try (destruct sx; reflexivity);
    try (destruct sy; reflexivity); try (destruct sx, sy; reflexivity).
  destruct sx, sy; try reflexivity.
  - rewrite (Z.compare_antisym ex ey).
    destruct (ex ?= ey); cbn; try reflexivity.
    change (Pos.compare_cont Eq my mx) with (Pos.compare my mx).
    change (Pos.compare_cont Eq mx my) with (Pos.compare mx my).
    rewrite (Pos.compare_antisym mx my). reflexivity.
  - rewrite (Z.compare_antisym ex ey).
    destruct (ex ?= ey); cbn; try reflexivity.
    change (Pos.compare_cont Eq my mx) with (Pos.compare my mx).
    change (Pos.compare_cont Eq mx my) with (Pos.compare mx my).
    rewrite (Pos.compare_antisym mx my). now destruct (mx ?= my)%positive.
Qed.

Lemma SFcompare_defined (x y : spec_float) :
  x <> S754_nan -> y <> S754_nan -> exists c, SFcompare x y = Some c.
Proof.
  intros Hx Hy.
  destruct x as [sx|sx| |sx mx ex], y as [sy|sy| |sy my ey]; cbn;
    try congruence; eexists; reflexivity.
Qed.

Lemma is_nan_spec (x : float) : PrimFloat.is_nan x = false -> Prim2SF x <> S754_nan.
Proof.
  unfold PrimFloat.is_nan. rewrite FloatAxioms.eqb_spec. intros H Hn.
  rewrite Hn in H. discriminate H.
Qed.

(** For numbers, "not less than" is "at least". *)
Lemma not_ltb_leb (x y : float) :
  PrimFloat.is_nan x = false -> PrimFloat.is_nan y = false ->
  PrimFloat.ltb x y = false -> PrimFloat.leb y x = true.
Proof.
  intros Hx Hy. rewrite ltb_spec, leb_spec. unfold SFltb, SFleb.
  destruct (SFcompare_defined _ _ (is_nan_spec x Hx) (is_nan_spec y Hy)) as [c Hc].
  rewrite Hc, (SFcompare_swap _ _ _ Hc). now destruct c.
Qed.

(** C9, as the code has it.  At the integer hours 0 to 23 the activity is one
    minus the curve value at the rotated hour [(h + 1) mod 24], clamped:
    exactly so in exact arithmetic, and within 1e-15 in binary64.  (Hour 24
    is outside the domain and gives 0: see [durationScalar_unit_interval].) *)
Theorem durationScalar_knots (h : Z) (weekend : bool) :
  0 <= h <= 23 ->
  pcapgen.durationScalar (F := Q) (of_int h) weekend = knot_value h weekend
  /\ PrimFloat.leb
       (PrimFloat.abs (pcapgen.durationScalar (F := float) (of_int h) weekend
                       - knot_value h weekend)%float)
       (dec 1 (-15)) = true.
Proof.
  intros Hh.
  assert (Hcases : In h (map Z.of_nat (seq 0 24))).
  { replace h with (Z.of_nat (Z.to_nat h)) by lia.
    apply in_map, in_seq. lia. }
  cbv [seq map] in Hcases. simpl In in Hcases.
  repeat (destruct Hcases as [<- | Hcases];
          [destruct weekend; split; vm_compute; reflexivity|]).
  contradiction.
Qed.

Lemma durationScalar_knots_witness :
  pcapgen.durationScalar (F := Q) (of_int 9) false = knot_value 9 false
  /\ PrimFloat.leb
       (PrimFloat.abs (pcapgen.durationScalar (F := float) (of_int 9) false
                       - knot_value 9 false)%float)
       (dec 1 (-15)) = true.
Proof. apply (durationScalar_knots 9 false). lia. Defined.

(** C9, as stated, fails at the closing knot: hour 24 is rejected by the
    guard and gives 0, not one minus a curve value. *)
Lemma durationScalar_knot_24 :
  ~ (forall (h : Z) (weekend : bool), 0 <= h <= 24 ->
       pcapgen.durationScalar (F := Q) (of_int h) weekend = knot_value h weekend)
  /\ pcapgen.durationScalar (F := Q) (of_int 24) false = 0%Q
  /\ knot_value (F := Q) 24 false = (3 # 5)%Q
  /\ pcapgen.clamp01 (of_int 1 - get (of_int 0) (pcapgen.curve false) 24)%f64 = 1%Q
  /\ PrimFloat.eqb (pcapgen.durationScalar (F := float) (of_int 24) false)
       (knot_value 24 false) = false.
Proof.
  split; [|repeat split; vm_compute; reflexivity].
  intros H. specialize (H 24 false ltac:(lia)). vm_compute in H. discriminate H.
Qed.

(** ** The size-string parser (section 6) *)

Lemma parseSize_not_number {F : Type} {ops : Float64 F} (value : string) (e : error) :
  genflux.ParseFloat (F := F) (numeric_part value) = Err e ->
  exists e', genflux.parseSize (F := F) value = Err e'.
Proof.
  unfold numeric_part, genflux.parseSize. intros H.
  destruct (String.eqb _ ""); [eexists; reflexivity|].
  destruct (genflux.unit_suffix _) as [mult v]. cbn [snd] in H.
  destruct (String.eqb _ ""); [eexists; reflexivity|].
  rewrite H. eexists; reflexivity.
Qed.

Lemma parseSize_not_positive {F : Type} {ops : Float64 F} (value : string) (num : F) :
  genflux.ParseFloat (numeric_part value) = Ok num ->
  (num <=? of_int 0)%f64 = true ->
  exists e, genflux.parseSize (F := F) value = Err e.
Proof.
  unfold numeric_part, genflux.parseSize. intros H Hle.
  destruct (String.eqb _ ""); [eexists; reflexivity|].
  destruct (genflux.unit_suffix _) as [mult v]. cbn [snd] in H.
  destruct (String.eqb _ ""); [eexists; reflexivity|].
  rewrite H, Hle. eexists; reflexivity.
Qed.

(** Without a digit there is no number to read. *)
Lemma read_digits_no_digit (s : string) (m n : Z) :
  has_digit s = false -> genflux.read_digits s m n = (m, n, s).
Proof.
  destruct s as [|c r]; [reflexivity|]. cbn [has_digit genflux.read_digits].
  intros H. apply orb_false_elim in H. destruct H as [-> _]. reflexivity.
Qed.

Lemma sign_no_digit (s : string) :
  has_digit s = false ->
  exists neg s1,
    match s with
    | String "+" r => (false, r)
    | String "-" r => (true, r)
    | _ => (false, s)
    end = (neg, s1) /\ has_digit s1 = false.
Proof.
  intros H. destruct s as [|c r]; [exists false, ""%string; split; reflexivity|].
  assert (Hr : has_digit r = false).
  { cbn [has_digit] in H. apply orb_false_elim in H. tauto. }
  destruct c as [[] [] [] [] [] [] [] []];
    (exists false, r; split; [reflexivity | exact Hr])
    || (exists true, r; split; [reflexivity | exact Hr])
    || (eexists false, _; split; [reflexivity | exact H]).
Qed.

Lemma point_no_digit (s : string) (m : Z) :
  has_digit s = false ->
  exists s3,
    match s with
    | String "." r => genflux.read_digits r m 0
    | _ => (m, 0, s)
    end = (m, 0, s3).
Proof.
  intros H. destruct s as [|c r]; [exists ""%string; reflexivity|].
  assert (Hr : has_digit r = false).
  { cbn [has_digit] in H. apply orb_false_elim in H. tauto. }
  destruct c as [[] [] [] [] [] [] [] []];
    (exists r; apply read_digits_no_digit; exact Hr) || (eexists; reflexivity).
Qed.

(** A string without a digit that is not one of the words for an infinity
    or a NaN is a syntax error. *)
Lemma ParseFloat_no_digit {F : Type} {ops : Float64 F} (s : string) :
  has_digit s = false -> genflux.special (F := F) s = None ->
  genflux.ParseFloat (F := F) s = Err (genflux.syntax_error s).
Proof.
  intros H Hs. unfold genflux.ParseFloat. rewrite Hs.
  destruct (sign_no_digit s H) as (neg & s1 & -> & H1).
  rewrite (read_digits_no_digit s1 0 0 H1).
  destruct (point_no_digit s1 0 H1) as (s3 & ->).
  reflexivity.
Qed.

Lemma unit_suffix_mult (v : string) :
  In (fst (genflux.unit_suffix v)) [2 ^ 40; 2 ^ 30; 2 ^ 20; 2 ^ 10; 1].
Proof.
  unfold genflux.unit_suffix.
  repeat match goal with
         | |- context [if ?c then _ else _] => destruct c
         end; cbn [fst]; vm_compute; tauto.
Qed.

Lemma special_values {F : Type} {ops : Float64 F} (s : string) (v : F) :
  genflux.special s = Some v -> v = f_inf false \/ v = f_inf true \/ v = f_nan.
Proof.
  unfold genflux.special.
  repeat match goal with
         | |- context [if ?c then _ else _] => destruct c
         end; intros [= <-] || discriminate; tauto.
Qed.

(** The words for an infinity and a NaN are numbers to [ParseFloat], and
    the NaN and the positive infinity are not [<= 0]: the parser converts
    them, to the most negative integer on amd64, and returns no error.  The
    command refuses the size. *)
Lemma parseSize_float_words :
  map (genflux.parseSize (F := float)) ["nan"; "inf"; "+inf"; "infinity"; "inf gb"]%string
  = repeat (Ok min_int) 5
  /\ map (fun s => is_ok (genflux.pcapGen_ExactBytes (F := float) s))
         ["nan"; "inf"; "+inf"; "infinity"; "inf gb"; "-inf"; ""]%string
     = repeat false 7.
Proof. split; vm_compute; reflexivity. Qed.

(** Whatever has no digit in its numeric part is refused by the command. *)
Lemma pcapGen_ExactBytes_no_digit (value : string) :
  has_digit (numeric_part value) = false ->
  exists e, genflux.pcapGen_ExactBytes (F := float) value = Err e.
Proof.
  intros H. unfold genflux.pcapGen_ExactBytes.
  destruct (String.eqb value ""); cbn [negb]; [eexists; reflexivity|].
  destruct (genflux.special (F := float) (numeric_part value)) as [x|] eqn:Hs.
  - pose proof (special_values _ _ Hs) as Hx.
    pose proof (unit_suffix_mult (genflux.TrimSpace (genflux.ToLower value))) as Hm.
    unfold genflux.parseSize. unfold numeric_part in Hs.
    destruct (String.eqb _ ""); [eexists; reflexivity|].
    destruct (genflux.unit_suffix _) as [mult v]. cbn [fst snd] in Hs, Hm.
    destruct (String.eqb _ ""); [eexists; reflexivity|].
    unfold genflux.ParseFloat. rewrite Hs.
    cbn [In] in Hm.
    destruct Hx as [-> | [-> | ->]];
      repeat (destruct Hm as [<- | Hm]; [vm_compute; eexists; reflexivity|]);
      contradiction.
  - destruct (parseSize_not_number (F := float) value _
                (ParseFloat_no_digit _ H Hs)) as [e ->].
    eexists; reflexivity.
Qed.

Lemma lower_lower (c : ascii) : genflux.lower (genflux.lower c) = genflux.lower c.
Proof. destruct c as [[] [] [] [] [] [] [] []]; reflexivity. Qed.

Lemma lowered_ToLower (s : string) : lowered (genflux.ToLower s).
Proof.
  induction s as [|c r IH]; intros x Hx; cbn in Hx; [contradiction|].
  destruct Hx as [<- | Hx]; [apply lower_lower | now apply IH].
Qed.

Lemma lowered_id (s : string) : lowered s -> genflux.ToLower s = s.
Proof.
  induction s as [|c r IH]; intros H; [reflexivity|].
  cbn [genflux.ToLower]. rewrite (H c) by (cbn; now left).
  rewrite IH; [reflexivity|]. intros x Hx. apply H. cbn. now right.
Qed.

Lemma lowered_tail (c : ascii) (r : string) : lowered (String c r) -> lowered r.
Proof. intros H x Hx. apply H. cbn. now right. Qed.

Lemma lowered_TrimLeft (s : string) : lowered s -> lowered (genflux.TrimLeft s).
Proof.
  induction s as [|c r IH]; intros H; [exact H|].
  cbn [genflux.TrimLeft]. destruct (genflux.is_space c); [|exact H].
  apply IH. exact (lowered_tail c r H).
Qed.

Lemma lowered_rev (s acc : string) :
  lowered s -> lowered acc -> lowered (genflux.rev_string s acc).
Proof.
  revert acc. induction s as [|c r IH]; intros acc Hs Ha; [exact Ha|].
  cbn [genflux.rev_string]. apply IH; [exact (lowered_tail c r Hs)|].
  intros x Hx. cbn in Hx. destruct Hx as [<- | Hx]; [|now apply Ha].
  apply Hs. cbn. now left.
Qed.

Lemma lowered_empty : lowered "".
Proof. intros x []. Qed.

Lemma lowered_TrimSpace (s : string) : lowered s -> lowered (genflux.TrimSpace s).
Proof.
  intros H. unfold genflux.TrimSpace.
  apply lowered_rev; [|exact lowered_empty].
  apply lowered_TrimLeft, lowered_rev; [|exact lowered_empty].
  now apply lowered_TrimLeft.
Qed.

Lemma lowered_substring (n m : nat) (s : string) : lowered s -> lowered (substring n m s).
Proof.
  revert n m. induction s as [|c r IH]; intros n m H.
  - destruct n, m; exact lowered_empty.
  - destruct n as [|n].
    + destruct m as [|m]; [exact lowered_empty|].
      cbn [substring]. intros x Hx. cbn in Hx. destruct Hx as [<- | Hx].
      * apply H. cbn. now left.
      * exact (IH 0%nat m (lowered_tail c r H) x Hx).
    + cbn [substring]. apply IH. exact (lowered_tail c r H).
Qed.

Lemma lowered_TrimSuffix (s x : string) : lowered s -> lowered (genflux.TrimSuffix s x).
Proof.
  intros H. unfold genflux.TrimSuffix. destruct (genflux.HasSuffix s x); [|exact H].
  now apply lowered_substring.
Qed.

Lemma lowered_unit_suffix (v : string) : lowered v -> lowered (snd (genflux.unit_suffix v)).
Proof.
  intros H. unfold genflux.unit_suffix.
  repeat match goal with
         | |- context [if ?c then _ else _] => destruct c
         end; cbn [snd]; repeat apply lowered_TrimSuffix; exact H.
Qed.

Lemma numeric_part_lowered (value : string) : lowered (numeric_part value).
Proof.
  unfold numeric_part.
  apply lowered_TrimSpace, lowered_unit_suffix, lowered_TrimSpace, lowered_ToLower.
Qed.

(** The words [ParseFloat] takes for a number. *)
Lemma special_words (s : string) (v : float) :
  lowered s -> genflux.special (F := float) s = Some v ->
  (In s float_words /\ (v = infinity \/ v = nan))
  \/ ((s = "-inf" \/ s = "-infinity")%string /\ v = neg_infinity).
Proof.
  intros Hl. unfold genflux.special. rewrite (lowered_id s Hl).
  unfold float_words. cbn [In f_inf f_nan IEEE_Float64].
  destruct (String.eqb_spec s "inf") as [-> | _]; [intros [= <-]; tauto|].
  destruct (String.eqb_spec s "+inf") as [-> | _]; [intros [= <-]; tauto|].
  destruct (String.eqb_spec s "infinity") as [-> | _]; [intros [= <-]; tauto|].
  destruct (String.eqb_spec s "+infinity") as [-> | _]; [intros [= <-]; tauto|].
  cbn [orb].
  destruct (String.eqb_spec s "-inf") as [-> | _]; [intros [= <-]; tauto|].
  destruct (String.eqb_spec s "-infinity") as [-> | _]; [intros [= <-]; tauto|].
  cbn [orb].
  destruct (String.eqb_spec s "nan") as [-> | _]; [intros [= <-]; tauto|].
  discriminate.
Qed.

Lemma special_float_words (s : string) :
  In s float_words ->
  exists v, genflux.special (F := float) s = Some v /\ (v = infinity \/ v = nan).
Proof.
  unfold float_words. cbn [In].
  intros [<- | [<- | [<- | [<- | [<- | []]]]]]; eexists; (split; [reflexivity|]); tauto.
Qed.

(** With one of these words for its number a size is accepted: the
    conversion of an infinity or a NaN gives the most negative integer. *)
Lemma parseSize_float_word (value : string) :
  In (numeric_part value) float_words ->
  genflux.parseSize (F := float) value = Ok min_int.
Proof.
  intros Hin.
  destruct (special_float_words _ Hin) as (v & Hs & Hv).
  pose proof (unit_suffix_mult (genflux.TrimSpace (genflux.ToLower value))) as Hm.
  unfold genflux.parseSize. unfold numeric_part in Hs, Hin.
  destruct (String.eqb_spec (genflux.TrimSpace (genflux.ToLower value)) "") as [He | _].
  { exfalso. rewrite He in Hin. vm_compute in Hin.
    repeat (destruct Hin as [Hin | Hin]; [discriminate Hin|]). exact Hin. }
  destruct (genflux.unit_suffix _) as [mult v0]. cbn [fst snd] in Hs, Hm, Hin.
  destruct (String.eqb_spec (genflux.TrimSpace v0) "") as [He | _].
  { exfalso. rewrite He in Hin. vm_compute in Hin.
    repeat (destruct Hin as [Hin | Hin]; [discriminate Hin|]). exact Hin. }
  unfold genflux.ParseFloat. rewrite Hs. cbn [In] in Hm.
  destruct Hv as [-> | ->];
    repeat (destruct Hm as [<- | Hm]; [vm_compute; reflexivity|]); contradiction.
Qed.

(** Any other string without a digit is refused. *)
Lemma parseSize_no_digit (value : string) :
  has_digit (numeric_part value) = false ->
  ~ In (numeric_part value) float_words ->
  exists e, genflux.parseSize (F := float) value = Err e.
Proof.
  intros Hd Hn.
  destruct (genflux.special (F := float) (numeric_part value)) as [v|] eqn:Hs.
  - destruct (special_words _ _ (numeric_part_lowered value) Hs)
      as [[Hin _] | [_ ->]]; [contradiction|].
    apply (parseSize_not_positive value neg_infinity); [|reflexivity].
    unfold genflux.ParseFloat. rewrite Hs. reflexivity.
  - apply (parseSize_not_number value (genflux.syntax_error (numeric_part value))).
    now apply ParseFloat_no_digit.
Qed.

(** C5. On binary64 numbers the parser maps "1g" to 1073741824, "0.5gb" to
    536870912 and "200m" to 209715200; units are powers of 1024 and are read
    in any case, the number may have a fraction, and the product is rounded
    to the nearest byte.  A string that is not a number ("abc"), a missing
    number and a number that is zero or negative are errors.  But the words
    for a NaN and for the positive infinity are numbers to [ParseFloat] and
    are not [<= 0]: for "nan", "inf", "+inf" and "infinity", alone or with a
    unit, the parser returns a size and no error (the size is the most
    negative integer, what amd64 makes of the conversion).  For every ASCII
    input: a numeric part that parses to a value [<= 0] is an error; a
    numeric part without a digit is accepted when it is one of those words
    and is an error otherwise; and the command refuses every size without a
    digit, as it requires [ExactBytes > 0]. *)
Theorem parseSize_spec :
  genflux.parseSize (F := float) "1g" = Ok 1073741824
  /\ genflux.parseSize (F := float) "0.5gb" = Ok 536870912
  /\ genflux.parseSize (F := float) "200m" = Ok 209715200
  /\ genflux.parseSize (F := float) "0.5GB" = Ok 536870912
  /\ genflux.parseSize (F := float) " 200 MiB " = Ok 209715200
  /\ map (genflux.parseSize (F := float)) ["1b"; "1k"; "1kb"; "1kib"; "1t"; "1tb"; "1tib"]%string
     = map Ok [1; 1024; 1024; 1024; 2 ^ 40; 2 ^ 40; 2 ^ 40]
  /\ map (genflux.parseSize (F := float)) ["1.4b"; "1.5b"; "2.5b"; "0.0005k"]%string
     = map Ok [1; 2; 3; 1]
  /\ map (fun s => is_ok (genflux.parseSize (F := float) s)) ["abc"; "size"; "1x"; "g1"]%string
     = repeat false 4
  /\ map (genflux.parseSize (F := float)) [""; "gb"; " kib"]%string
     = [Err (Error "empty size"); Err (Error "missing numeric value");
        Err (Error "missing numeric value")]
  /\ map (genflux.parseSize (F := float))
       ["0"; "0g"; "-1g"; "-0.5gb"; "-200m"; "-inf"]%string
     = repeat (Err (Error "size must be > 0")) 6
  /\ map (genflux.parseSize (F := float))
       ["nan"; "inf"; "+inf"; "infinity"; "NaN"; " Inf "; "inf gb"; "nan kib"]%string
     = repeat (Ok min_int) 8
  /\ (forall (value : string) (num : float),
        ascii_only value = true ->
        genflux.ParseFloat (numeric_part value) = Ok num ->
        (num <=? of_int 0)%f64 = true ->
        exists e, genflux.parseSize (F := float) value = Err e)
  /\ (forall value : string,
        ascii_only value = true ->
        has_digit (numeric_part value) = false ->
        (In (numeric_part value) float_words ->
         genflux.parseSize (F := float) value = Ok min_int)
        /\ (~ In (numeric_part value) float_words ->
            exists e, genflux.parseSize (F := float) value = Err e))
  /\ (forall value : string,
        ascii_only value = true ->
        has_digit (numeric_part value) = false ->
        exists e, genflux.pcapGen_ExactBytes (F := float) value = Err e).
Proof.
  repeat match goal with |- _ = _ /\ _ => split; [vm_compute; reflexivity|] end.
  split; [|split].
  - intros value num _. apply parseSize_not_positive.
  - intros value _ Hd. split.
    + apply parseSize_float_word.
    + now apply parseSize_no_digit.
  - intros value _. apply pcapGen_ExactBytes_no_digit.
Qed.

(** ** The replay engine (section 4.6) *)

Section ReplayBudget.
Context {F : Type} {ops : Float64 F} (env : replay.Env) (fd : Z).
Hypothesis Hsend : forall data, replay.Sendto env fd data = Ok tt.

(** A packet is sent while the count of this pass is below the budget. *)
Lemma readLoop_send p rest total bits r snt :
  0 <= total < r -> r <= max_int ->
  replay.readLoop env fd (Ok p :: rest) total bits
    {| replay.remaining := Some r; replay.sent := snt |}
  = replay.readLoop env fd rest (total + 1) (add64 bits (mul64 (pcapgen.len (fst p)) 8))
      {| replay.remaining := Some (r - 1); replay.sent := snt ++ [fst p] |}.
Proof.
  intros Ht Hr. destruct p as [data ci]. unfold max_int in Hr.
  cbn [replay.readLoop replay.remaining replay.sent fst].
  replace (r =? 0) with false by (symmetry; apply Z.eqb_neq; lia).
  replace (r >? 0) with true by (symmetry; apply Z.gtb_lt; lia).
  replace (total >=? r) with false by (symmetry; rewrite Z.geb_leb; apply Z.leb_gt; lia).
  cbn [andb]. rewrite Hsend. unfold add64 at 1, sub64.
  unwrap. reflexivity.
Qed.

(** The pass ends, before the packet is sent, once the count of this pass
    has reached what is left of the budget. *)
Lemma readLoop_stop p rest total bits r snt :
  0 < r <= total ->
  replay.readLoop env fd (Ok p :: rest) total bits
    {| replay.remaining := Some r; replay.sent := snt |}
  = (Ok tt, {| replay.remaining := Some r; replay.sent := snt |}).
Proof.
  intros Hr. destruct p as [data ci].
  cbn [replay.readLoop replay.remaining replay.sent].
  replace (r =? 0) with false by (symmetry; apply Z.eqb_neq; lia).
  replace (r >? 0) with true by (symmetry; apply Z.gtb_lt; lia).
  replace (total >=? r) with true by (symmetry; rewrite Z.geb_leb; apply Z.leb_le; lia).
  reflexivity.
Qed.

End ReplayBudget.

(** C2 on the code: with [loop = 3] and [limit = 10], in any pacing mode, a
    capture of at least 10 packets and a link that accepts every frame, the
    engine returns without error after 9 frames, not 10: 5 in the first
    pass, 3 in the second and 1 in the third, with one packet of the budget
    unspent.  Each pass compares its own count with what is left of the
    budget, which the pass has already lowered by that count. *)
Theorem Replay_loop3_limit10_sends_9 {F : Type} {ops : Float64 F}
    (env : replay.Env) (cfg : replay.Config F) (ifindex fd : Z)
    (ps : list (list Z * pcapgen.CaptureInfo)) (fuel : nat) :
  replay.InPath cfg <> ""%string -> replay.Iface cfg <> ""%string ->
  String.eqb (replay.mode_of cfg) replay.ModeMbps
    && (replay.Mbps cfg <=? of_int 0)%f64 = false ->
  String.eqb (replay.mode_of cfg) replay.ModePps
    && (replay.Pps cfg <=? of_int 0)%f64 = false ->
  replay.InterfaceByName env (replay.Iface cfg) = Ok ifindex ->
  replay.Socket env = Ok fd ->
  replay.Bind env fd ifindex = Ok tt ->
  (forall data, replay.Sendto env fd data = Ok tt) ->
  replay.open_capture env (replay.InPath cfg) = Ok (map Ok ps) ->
  (10 <= List.length ps)%nat ->
  replay.Loop cfg = 3 -> replay.Limit cfg = 10 ->
  (4 <= fuel)%nat ->
  replay.Replay env fuel cfg
  = Some (Ok tt,
          {| replay.remaining := Some 1;
             replay.sent := map fst (firstn 5 ps ++ firstn 3 ps ++ firstn 1 ps) |})
  /\ List.length (map fst (firstn 5 ps ++ firstn 3 ps ++ firstn 1 ps)) = 9%nat.
Proof.
  intros Hin Hif Hmbps Hpps Hiface Hsock Hbind Hsend Hopen Hlen Hloop Hlimit Hfuel.
  do 6 (destruct ps as [|? ps]; [simpl in Hlen; lia|]).
  split; [|reflexivity].
  unfold replay.Replay.
  apply String.eqb_neq in Hin, Hif. rewrite Hin, Hif. cbn [orb]. cbv zeta.
  rewrite Hmbps, Hpps, Hiface, Hsock, Hbind, Hlimit.
  change (10 >? 0) with true. cbv iota.
  do 4 (destruct fuel as [|fuel]; [lia|]).
  unfold max_int in *.
  cbn [replay.replayLoops]. rewrite Hloop.
  change ((3 >? 0) && (0 >=? 3)) with false.
  change ((3 >? 0) && (add64 0 1 >=? 3)) with false.
  change ((3 >? 0) && (add64 (add64 0 1) 1 >=? 3)) with false.
  change ((3 >? 0) && (add64 (add64 (add64 0 1) 1) 1 >=? 3)) with true.
  cbv iota. unfold replay.replayOnce. rewrite Hopen. cbn [map].
  (* first pass: five frames *)
  do 5 (rewrite (readLoop_send env fd Hsend) by (unfold max_int; lia)).
  rewrite (readLoop_stop env fd) by lia. cbv iota.
  (* second pass: three frames *)
  do 3 (rewrite (readLoop_send env fd Hsend) by (unfold max_int; lia)).
  rewrite (readLoop_stop env fd) by lia. cbv iota.
  (* third pass: one frame *)
  rewrite (readLoop_send env fd Hsend) by (unfold max_int; lia).
  rewrite (readLoop_stop env fd) by lia. cbv iota.
  cbn [firstn app map fst]. reflexivity.
Qed.

Lemma Replay_loop3_limit10_witness :
  replay.Replay loopback 4 loop3_limit10
  = Some (Ok tt,
          {| replay.remaining := Some 1;
             replay.sent :=
               map fst (firstn 5 ten_packets ++ firstn 3 ten_packets ++ firstn 1 ten_packets) |})
  /\ List.length
       (map fst (firstn 5 ten_packets ++ firstn 3 ten_packets ++ firstn 1 ten_packets))
     = 9%nat.
Proof.
  apply (Replay_loop3_limit10_sends_9 loopback loop3_limit10 2 3 ten_packets 4);
    try reflexivity; try discriminate; try (simpl; lia).
Defined.

(** ** Validation of a generation configuration (section 7) *)

Section Validation.
Context {F : Type} {ops : Float64 F} (R : pcapgen.RandSource).

Lemma Generate_rejected (cfg : pcapgen.Config) (e : error) :
  pcapgen.validate cfg = Some e -> pcapgen.Generate R cfg = (Err e, []).
Proof. intros H. unfold pcapgen.Generate. rewrite H. reflexivity. Qed.

Lemma validate_accepts (cfg : pcapgen.Config) :
  0 < pcapgen.InternalHosts cfg -> 0 < pcapgen.ExternalHosts cfg ->
  pcapgen.FileCount cfg = 1 ->
  0 < pcapgen.MinDuration cfg <= pcapgen.MaxDuration cfg ->
  0 < pcapgen.ExactBytes cfg ->
  0 <= pcapgen.FlowCount cfg ->
  (0 < pcapgen.FlowCount cfg -> 0 < pcapgen.PacketsPerFlow cfg) ->
  pcapgen.validate cfg = None.
Proof.
  intros HI HE HF HD HX HFl HP. unfold pcapgen.validate. rewrite HF.
  replace (pcapgen.InternalHosts cfg <=? 0) with false by (symmetry; apply Z.leb_gt; lia).
  replace (pcapgen.ExternalHosts cfg <=? 0) with false by (symmetry; apply Z.leb_gt; lia).
  replace (pcapgen.MinDuration cfg <=? 0) with false by (symmetry; apply Z.leb_gt; lia).
  replace (pcapgen.MaxDuration cfg <=? 0) with false by (symmetry; apply Z.leb_gt; lia).
  replace (pcapgen.MaxDuration cfg <? pcapgen.MinDuration cfg) with false
    by (symmetry; apply Z.ltb_ge; lia).
  replace (pcapgen.ExactBytes cfg <=? 0) with false by (symmetry; apply Z.leb_gt; lia).
  replace (pcapgen.FlowCount cfg <? 0) with false by (symmetry; apply Z.ltb_ge; lia).
  cbn [orb andb negb Z.leb Z.eqb Pos.eqb]. rewrite !andb_false_r.
  destruct (pcapgen.FlowCount cfg >? 0) eqn:Hfl; [|reflexivity].
  apply Z.gtb_lt in Hfl.
  replace (pcapgen.PacketsPerFlow cfg <=? 0) with false
    by (symmetry; apply Z.leb_gt; auto).
  reflexivity.
Qed.

Lemma validate_one_file (cfg : pcapgen.Config) :
  pcapgen.OutFile cfg <> ""%string \/ 0 < pcapgen.ExactBytes cfg ->
  pcapgen.FileCount cfg <> 1 ->
  exists e, pcapgen.validate cfg = Some e.
Proof.
  intros Hor Hfc. unfold pcapgen.validate.
  destruct (_ || _); [eexists; reflexivity|].
  destruct (pcapgen.FileCount cfg <=? 0); [eexists; reflexivity|].
  replace (pcapgen.FileCount cfg =? 1) with false by (symmetry; apply Z.eqb_neq; exact Hfc).
  cbn [negb]. rewrite !andb_true_r.
  destruct Hor as [Hout | Hex].
  - apply String.eqb_neq in Hout. rewrite Hout. eexists; reflexivity.
  - destruct (negb _); [eexists; reflexivity|].
    replace (pcapgen.ExactBytes cfg >? 0) with true by (symmetry; apply Z.gtb_lt; lia).
    eexists; reflexivity.
Qed.


End Validation.

(** ** Frames and the generation monad *)

Lemma len_app {A : Type} (l l' : list A) : pcapgen.len (l ++ l') = pcapgen.len l + pcapgen.len l'.
Proof. unfold pcapgen.len. rewrite length_app. lia. Qed.

Lemma len_nonneg {A : Type} (l : list A) : 0 <= pcapgen.len l.
Proof. unfold pcapgen.len. lia. Qed.

Lemma len_be16 (v : Z) : pcapgen.len (pcapgen.be16 v) = 2.
Proof. reflexivity. Qed.

Lemma len_be32 (v : Z) : pcapgen.len (pcapgen.be32 v) = 4.
Proof. reflexivity. Qed.

Lemma len_ethernet (src dst : pcapgen.host) :
  pcapgen.len (pcapgen.mac src) = 6 -> pcapgen.len (pcapgen.mac dst) = 6 ->
  pcapgen.len (pcapgen.ethernet_bytes src dst) = 14.
Proof.
  intros H1 H2. unfold pcapgen.ethernet_bytes.
  rewrite !len_app, len_be16, H1, H2. reflexivity.
Qed.

Lemma len_ipv4 (src dst : pcapgen.host) (rest : Z) :
  pcapgen.len (pcapgen.ip src) = 4 -> pcapgen.len (pcapgen.ip dst) = 4 ->
  pcapgen.len (pcapgen.ipv4_bytes src dst rest) = 20.
Proof.
  intros H1 H2. unfold pcapgen.ipv4_bytes. cbv beta zeta.
  rewrite !len_app, !len_be16, H1, H2. reflexivity.
Qed.

Lemma len_tcp (src dst : pcapgen.host) (payload : list Z) :
  pcapgen.len (pcapgen.tcp_bytes src dst payload) = 28.
Proof.
  unfold pcapgen.tcp_bytes. cbv beta zeta.
  rewrite !len_app, !len_be16, !len_be32. reflexivity.
Qed.

(** A serialized frame is 62 bytes of headers (14 Ethernet, 20 IPv4, 28 TCP)
    and the payload. *)
Lemma SerializeLayers_length (src dst : pcapgen.host) (payload data : list Z) :
  pcapgen.SerializeLayers src dst payload = Ok data ->
  pcapgen.len data = 62 + pcapgen.len payload.
Proof.
  unfold pcapgen.SerializeLayers.
  destruct ((pcapgen.len (pcapgen.ip src) =? 4) && (pcapgen.len (pcapgen.ip dst) =? 4))
    eqn:Hip; [|discriminate]. cbn [negb].
  destruct ((pcapgen.len (pcapgen.mac src) =? 6) && (pcapgen.len (pcapgen.mac dst) =? 6))
    eqn:Hmac; [|discriminate]. cbn [negb].
  apply andb_prop in Hmac, Hip. destruct Hmac as [Hm1 Hm2], Hip as [Hi1 Hi2].
  apply Z.eqb_eq in Hm1, Hm2, Hi1, Hi2.
  intros Heq. injection Heq as <-. unfold pcapgen.frame_bytes. cbv zeta.
  rewrite !len_app, len_ethernet, len_ipv4, len_tcp by assumption. lia.
Qed.

Lemma SerializeLayers_ok (src dst : pcapgen.host) (payload : list Z) :
  pcapgen.len (pcapgen.mac src) = 6 -> pcapgen.len (pcapgen.mac dst) = 6 ->
  pcapgen.len (pcapgen.ip src) = 4 -> pcapgen.len (pcapgen.ip dst) = 4 ->
  exists data, pcapgen.SerializeLayers src dst payload = Ok data.
Proof.
  intros H1 H2 H3 H4. unfold pcapgen.SerializeLayers.
  rewrite H1, H2, H3, H4. cbn. eexists; reflexivity.
Qed.

Section Monad.
Context (R : pcapgen.RandSource).

Lemma keeps_ret {A : Type} (a : A) : keeps_file (pcapgen.ret R a).
Proof. intros w r w' H. inversion H. reflexivity. Qed.

Lemma keeps_fail {A : Type} (e : error) : keeps_file (pcapgen.fail R (A := A) e).
Proof. intros w r w' H. inversion H. reflexivity. Qed.

Lemma keeps_lift {A : Type} (x : result A) : keeps_file (pcapgen.lift R x).
Proof. intros w r w' H. inversion H. reflexivity. Qed.

Lemma keeps_bind {A B : Type} (m : pcapgen.M R A) (k : A -> pcapgen.M R B) :
  keeps_file m -> (forall a, keeps_file (k a)) -> keeps_file (pcapgen.bindM R m k).
Proof.
  intros Hm Hk w r w' H. unfold pcapgen.bindM in H.
  destruct (m w) as [[a|e] w1] eqn:Hmw.
  - rewrite (Hk a _ _ _ H). exact (Hm _ _ _ Hmw).
  - inversion H; subst. exact (Hm _ _ _ Hmw).
Qed.

Lemma keeps_Intn (n : Z) : keeps_file (pcapgen.Intn R n).
Proof.
  intros w r w' H. unfold pcapgen.Intn in H.
  destruct (n <=? 0); [inversion H; reflexivity|].
  destruct (pcapgen.rand_Intn R _ n). inversion H. reflexivity.
Qed.

Lemma keeps_Int63n (n : Z) : keeps_file (pcapgen.Int63n R n).
Proof.
  intros w r w' H. unfold pcapgen.Int63n in H.
  destruct (n <=? 0); [inversion H; reflexivity|].
  destruct (pcapgen.rand_Int63n R _ n). inversion H. reflexivity.
Qed.

Lemma keeps_Read (n : Z) : keeps_file (pcapgen.Read R n).
Proof.
  intros w r w' H. unfold pcapgen.Read in H.
  destruct (pcapgen.rand_Read R _ _). inversion H. reflexivity.
Qed.

Lemma returns_Intn (n : Z) : returns (pcapgen.Intn R n) (fun v => 0 <= v < n).
Proof.
  intros w a w' H. unfold pcapgen.Intn in H.
  destruct (n <=? 0) eqn:Hn; [discriminate|]. apply Z.leb_gt in Hn.
  pose proof (pcapgen.Intn_range R (pcapgen.w_rand w) n Hn) as Hr.
  destruct (pcapgen.rand_Intn R _ n). inversion H; subst. exact Hr.
Qed.

Lemma Intn_ok (n : Z) (w : pcapgen.world R) :
  0 < n -> exists v w', pcapgen.Intn R n w = (Ok v, w') /\ 0 <= v < n
                        /\ pcapgen.w_file w' = pcapgen.w_file w.
Proof.
  intros Hn. unfold pcapgen.Intn.
  replace (n <=? 0) with false by (symmetry; apply Z.leb_gt; lia).
  pose proof (pcapgen.Intn_range R (pcapgen.w_rand w) n Hn) as Hr.
  destruct (pcapgen.rand_Intn R _ n) as [v r]. exists v. eexists.
  split; [reflexivity|]. split; [exact Hr | reflexivity].
Qed.

Lemma keeps_buildFrame (src dst : pcapgen.host) (n : Z) :
  keeps_file (pcapgen.buildFrame R src dst n).
Proof.
  unfold pcapgen.buildFrame. destruct (n >? 0).
  - apply keeps_bind; [apply keeps_Read | intros; apply keeps_lift].
  - apply keeps_lift.
Qed.

Lemma returns_buildFrame (src dst : pcapgen.host) (n : Z) :
  returns (pcapgen.buildFrame R src dst n) (fun data => pcapgen.len data = 62 + Z.max 0 n).
Proof.
  intros w data w' H. unfold pcapgen.buildFrame in H.
  destruct (n >? 0) eqn:Hn.
  - apply Z.gtb_lt in Hn. unfold pcapgen.bindM, pcapgen.Read, pcapgen.lift in H.
    pose proof (pcapgen.Read_length R (pcapgen.w_rand w) (Z.to_nat n)) as Hl.
    destruct (pcapgen.rand_Read R _ _) as [bs r]. cbn [fst] in Hl.
    inversion H as [[Hs Hw]]. apply SerializeLayers_length in Hs.
    rewrite Hs. unfold pcapgen.len. rewrite Hl. lia.
  - rewrite Z.gtb_ltb in Hn. apply Z.ltb_ge in Hn. unfold pcapgen.lift in H.
    inversion H as [[Hs Hw]]. apply SerializeLayers_length in Hs.
    rewrite Hs. unfold pcapgen.len. simpl List.length. lia.
Qed.

Lemma keeps_createPacket (internal external : list pcapgen.host) (n : Z) :
  keeps_file (pcapgen.createPacket R internal external n).
Proof.
  unfold pcapgen.createPacket.
  apply keeps_bind; [apply keeps_Intn|]. intros b.
  destruct (b =? 1);
    repeat (first [ apply keeps_bind; [first [apply keeps_Intn | apply keeps_lift]|]; intros ?
                  | apply keeps_buildFrame ]).
Qed.

Lemma bindM_ok {A B : Type} (m : pcapgen.M R A) (k : A -> pcapgen.M R B) w b w' :
  pcapgen.bindM R m k w = (Ok b, w') ->
  exists a w1, m w = (Ok a, w1) /\ k a w1 = (Ok b, w').
Proof.
  unfold pcapgen.bindM. destruct (m w) as [[a|e] w1]; [|discriminate].
  intros H. exists a, w1. auto.
Qed.

Lemma returns_createPacket (internal external : list pcapgen.host) (n : Z) :
  returns (pcapgen.createPacket R internal external n)
    (fun data => pcapgen.len data = 62 + Z.max 0 n).
Proof.
  intros w data w' H. unfold pcapgen.createPacket in H.
  apply bindM_ok in H. destruct H as (b & w1 & _ & H).
  destruct (b =? 1);
    do 4 (apply bindM_ok in H; destruct H as (? & ? & _ & H));
    exact (returns_buildFrame _ _ _ _ _ _ H).
Qed.

End Monad.

(** ** Files *)

Lemma packets_app (f g : pcapgen.file) :
  pcapgen.packets (f ++ g) = pcapgen.packets f ++ pcapgen.packets g.
Proof. unfold pcapgen.packets. apply flat_map_app. Qed.

Lemma file_bytes_app (f g : pcapgen.file) :
  pcapgen.file_bytes (f ++ g) = pcapgen.file_bytes f ++ pcapgen.file_bytes g.
Proof. unfold pcapgen.file_bytes. apply flat_map_app. Qed.

Lemma len_le32 (v : Z) : pcapgen.len (pcapgen.le32 v) = 4.
Proof. reflexivity. Qed.

Lemma len_record (ci : pcapgen.CaptureInfo) (data : list Z) :
  pcapgen.len (pcapgen.file_bytes [pcapgen.PacketRecord ci data]) = 16 + pcapgen.len data.
Proof.
  unfold pcapgen.file_bytes. cbn [flat_map pcapgen.chunk_bytes].
  rewrite app_nil_r, !len_app, !len_le32. lia.
Qed.

Lemma len_header (snaplen linktype : Z) :
  pcapgen.len (pcapgen.file_bytes [pcapgen.FileHeader snaplen linktype]) = 24.
Proof. reflexivity. Qed.

Lemma timestamps_app (f g : pcapgen.file) :
  pcapgen.timestamps (f ++ g) = pcapgen.timestamps f ++ pcapgen.timestamps g.
Proof. unfold pcapgen.timestamps. rewrite packets_app. apply map_app. Qed.

Lemma frame_lengths_app (f g : pcapgen.file) :
  frame_lengths (f ++ g) = frame_lengths f ++ frame_lengths g.
Proof. unfold frame_lengths. rewrite packets_app. apply map_app. Qed.

(** Appending a timestamp that is at least every earlier one keeps the
    sequence non-decreasing. *)
Lemma nondecreasing_snoc (l : list Z) (t : Z) :
  nondecreasing l = true -> Forall (fun x => x <= t) l -> nondecreasing (l ++ [t]) = true.
Proof.
  induction l as [|a l IH]; intros Hs Hle; [reflexivity|].
  destruct l as [|b l].
  - cbn. inversion Hle; subst. rewrite andb_true_r. now apply Z.leb_le.
  - cbn [nondecreasing app] in *. apply andb_prop in Hs. destruct Hs as [Hab Hs].
    rewrite Hab. inversion Hle; subst. cbn [andb]. apply IH; assumption.
Qed.

Lemma index_ok {A : Type} (l : list A) (i : Z) :
  0 <= i < pcapgen.len l -> exists a, index l i = Ok a /\ In a l.
Proof.
  unfold pcapgen.len, index. intros Hi.
  replace (i <? 0) with false by (symmetry; apply Z.ltb_ge; lia).
  replace (Z.of_nat (List.length l) <=? i) with false by (symmetry; apply Z.leb_gt; lia).
  cbn [orb]. destruct (nth_error l (Z.to_nat i)) as [a|] eqn:Hn.
  - exists a. split; [reflexivity|]. eapply nth_error_In; eauto.
  - apply nth_error_None in Hn. lia.
Qed.

Section Loops.
Context (R : pcapgen.RandSource).

(** The loop rule: an invariant of the accumulator and the world that each
    turn re-establishes holds when the loop returns; [Fin] is what a failing
    turn leaves behind. *)
Lemma for_loop_inv {A : Type} (Inv : Z -> A -> pcapgen.world R -> Prop)
    (Fin : pcapgen.world R -> Prop) (body : Z -> A -> pcapgen.M R A) (n : nat) :
  forall (i : Z) (a : A) (w : pcapgen.world R),
    (forall j a w, i <= j < i + Z.of_nat n -> Inv j a w ->
       match body j a w with
       | (Ok a', w') => Inv (j + 1) a' w'
       | (Err _, w') => Fin w'
       end) ->
    Inv i a w ->
    match pcapgen.for_loop R n i body a w with
    | (Ok a', w') => Inv (i + Z.of_nat n) a' w'
    | (Err _, w') => Fin w'
    end.
Proof.
  induction n as [|n IH]; intros i a w Hbody Hinv.
  - cbn [pcapgen.for_loop pcapgen.ret]. replace (i + Z.of_nat 0) with i by lia. exact Hinv.
  - cbn [pcapgen.for_loop]. unfold pcapgen.bindM.
    pose proof (Hbody i a w ltac:(lia) Hinv) as Hstep.
    destruct (body i a w) as [[a'|e] w1]; [|exact Hstep].
    replace (i + Z.of_nat (S n)) with (i + 1 + Z.of_nat n) by lia.
    apply IH; [|exact Hstep].
    intros j a0 w0 Hj. apply Hbody. lia.
Qed.

(** The same rule for turns that do not fail. *)
Lemma for_loop_ok {A : Type} (Inv : Z -> A -> pcapgen.world R -> Prop)
    (body : Z -> A -> pcapgen.M R A) (n : nat) (i : Z) (a : A) (w : pcapgen.world R) :
  (forall j a w, i <= j < i + Z.of_nat n -> Inv j a w ->
     exists a' w', body j a w = (Ok a', w') /\ Inv (j + 1) a' w') ->
  Inv i a w ->
  exists a' w', pcapgen.for_loop R n i body a w = (Ok a', w') /\ Inv (i + Z.of_nat n) a' w'.
Proof.
  intros Hbody Hinv.
  pose proof (for_loop_inv Inv (fun _ => False) body n i a w) as Hloop.
  destruct (pcapgen.for_loop R n i body a w) as [[a'|e] w'].
  - exists a', w'. split; [reflexivity|]. apply Hloop; [|exact Hinv].
    intros j a0 w0 Hj Hi. destruct (Hbody j a0 w0 Hj Hi) as (a1 & w1 & -> & H1). exact H1.
  - exfalso. apply Hloop; [|exact Hinv].
    intros j a0 w0 Hj Hi. destruct (Hbody j a0 w0 Hj Hi) as (a1 & w1 & -> & H1). exact H1.
Qed.

Lemma buildFrame_ok (src dst : pcapgen.host) (n : Z) (w : pcapgen.world R) :
  wf_host src -> wf_host dst ->
  exists data w', pcapgen.buildFrame R src dst n w = (Ok data, w')
                  /\ pcapgen.w_file w' = pcapgen.w_file w
                  /\ pcapgen.len data = 62 + Z.max 0 n.
Proof.
  intros [Hs1 Hs2] [Hd1 Hd2].
  assert (Hok : exists data w', pcapgen.buildFrame R src dst n w = (Ok data, w')).
  { unfold pcapgen.buildFrame. destruct (n >? 0).
    - unfold pcapgen.bindM, pcapgen.Read, pcapgen.lift.
      destruct (pcapgen.rand_Read R _ _) as [bs r].
      destruct (SerializeLayers_ok src dst bs Hs1 Hd1 Hs2 Hd2) as [data ->].
      eexists; eexists; reflexivity.
    - unfold pcapgen.lift.
      destruct (SerializeLayers_ok src dst [] Hs1 Hd1 Hs2 Hd2) as [data ->].
      eexists; eexists; reflexivity. }
  destruct Hok as (data & w' & Hb). exists data, w'. split; [exact Hb|]. split.
  - exact (keeps_buildFrame R src dst n _ _ _ Hb).
  - exact (returns_buildFrame R src dst n _ _ _ Hb).
Qed.

End Loops.

(** ** Fixed-flow generation (section 4.5) *)

Section FixedFlow.
Context (R : pcapgen.RandSource).
Variables (start usecStep extra : Z) (cfg : pcapgen.Config).
Variables (internal external : list pcapgen.host).

Lemma WritePacket_appends (t : Z) (data : list Z) (w : pcapgen.world R) :
  pcapgen.WritePacket R
    {| pcapgen.Timestamp := t; pcapgen.CaptureLength := pcapgen.len data;
       pcapgen.Length := pcapgen.len data |} data w
  = (Ok tt,
     {| pcapgen.w_rand := pcapgen.w_rand w;
        pcapgen.w_file :=
          pcapgen.w_file w
            ++ [pcapgen.PacketRecord
                  {| pcapgen.Timestamp := t; pcapgen.CaptureLength := pcapgen.len data;
                     pcapgen.Length := pcapgen.len data |} data] |}).
Proof.
  unfold pcapgen.WritePacket. cbn [pcapgen.CaptureLength pcapgen.Length].
  rewrite Z.eqb_refl, Z.gtb_ltb, Z.ltb_irrefl. reflexivity.
Qed.

(** One turn of the inner loop either fails and leaves the file as it was,
    or appends exactly one record, stamped [flow_time], whose frame is 62
    bytes and the payload asked for. *)
Lemma flowPacket_shape (j ii ei : Z) (ias : bool) (p k : Z) (w : pcapgen.world R) :
  match pcapgen.flowPacket R start usecStep extra cfg internal external j ii ei ias p k w with
  | (Err _, w') => pcapgen.w_file w' = pcapgen.w_file w
  | (Ok k', w') =>
      k' = add64 k 1
      /\ exists data,
           pcapgen.w_file w'
           = pcapgen.w_file w
               ++ [pcapgen.PacketRecord
                     {| pcapgen.Timestamp := flow_time start usecStep k;
                        pcapgen.CaptureLength := pcapgen.len data;
                        pcapgen.Length := pcapgen.len data |} data]
           /\ pcapgen.len data = 62 + Z.max 0 (flow_payload cfg extra j p)
  end.
Proof.
  unfold pcapgen.flowPacket. cbv zeta. fold (flow_time start usecStep k).
  fold (flow_payload cfg extra j p).
  unfold pcapgen.bindM at 1. unfold pcapgen.lift at 1.
  destruct (index internal ii) as [ih|e]; [|reflexivity].
  unfold pcapgen.bindM at 1. unfold pcapgen.lift at 1.
  destruct (index external ei) as [eh|e]; [|reflexivity].
  unfold pcapgen.bindM at 1.
  destruct (pcapgen.createPacketForHosts R ih eh ias (flow_payload cfg extra j p) w)
    as [[data|e] w1] eqn:Hc.
  - unfold pcapgen.createPacketForHosts in Hc.
    assert (Hk : pcapgen.w_file w1 = pcapgen.w_file w
                 /\ pcapgen.len data = 62 + Z.max 0 (flow_payload cfg extra j p)).
    { destruct ias; split;
        first [ exact (keeps_buildFrame R _ _ _ _ _ _ Hc)
              | exact (returns_buildFrame R _ _ _ _ _ _ Hc) ]. }
    destruct Hk as [Hfile Hlen].
    unfold pcapgen.bindM. rewrite WritePacket_appends. unfold pcapgen.ret.
    split; [reflexivity|]. exists data. cbn [pcapgen.w_file]. rewrite Hfile. auto.
  - unfold pcapgen.createPacketForHosts in Hc.
    destruct ias; exact (keeps_buildFrame R _ _ _ _ _ _ Hc).
Qed.

(** With hosts in range and well formed, the turn does not fail. *)
Lemma flowPacket_ok (j ii ei : Z) (ias : bool) (p k : Z) (w : pcapgen.world R) :
  Forall wf_host internal -> Forall wf_host external ->
  0 <= ii < pcapgen.len internal -> 0 <= ei < pcapgen.len external ->
  exists k' w',
    pcapgen.flowPacket R start usecStep extra cfg internal external j ii ei ias p k w
    = (Ok k', w').
Proof.
  intros Hwi Hwe Hii Hei. unfold pcapgen.flowPacket. cbv zeta.
  destruct (index_ok internal ii Hii) as (ih & Hih & Hin1).
  destruct (index_ok external ei Hei) as (eh & Heh & Hin2).
  rewrite Forall_forall in Hwi, Hwe.
  unfold pcapgen.bindM at 1. unfold pcapgen.lift at 1. rewrite Hih.
  unfold pcapgen.bindM at 1. unfold pcapgen.lift at 1. rewrite Heh.
  unfold pcapgen.bindM at 1. unfold pcapgen.createPacketForHosts.
  destruct ias.
  - destruct (buildFrame_ok R ih eh
                (if (j =? pcapgen.FlowCount cfg - 1) && (p =? pcapgen.PacketsPerFlow cfg - 1)
                    && (extra >? 0) then extra else 0) w (Hwi _ Hin1) (Hwe _ Hin2))
      as (data & w1 & Hb & _ & _).
    rewrite Hb. unfold pcapgen.bindM. rewrite WritePacket_appends.
    eexists; eexists; reflexivity.
  - destruct (buildFrame_ok R eh ih
                (if (j =? pcapgen.FlowCount cfg - 1) && (p =? pcapgen.PacketsPerFlow cfg - 1)
                    && (extra >? 0) then extra else 0) w (Hwe _ Hin2) (Hwi _ Hin1))
      as (data & w1 & Hb & _ & _).
    rewrite Hb. unfold pcapgen.bindM. rewrite WritePacket_appends.
    eexists; eexists; reflexivity.
Qed.

End FixedFlow.

Lemma flows_file_step (start usecStep N extra k : Z) (f : pcapgen.file) (data : list Z) :
  0 <= k < N -> 
  flows_file start usecStep N extra k f ->
  pcapgen.len data = 62 + (if k =? N - 1 then extra else 0) ->
  flows_file start usecStep N extra (k + 1)
    (f ++ [pcapgen.PacketRecord
             {| pcapgen.Timestamp := flow_time start usecStep k;
                pcapgen.CaptureLength := pcapgen.len data;
                pcapgen.Length := pcapgen.len data |} data]).
Proof.
  intros Hk (Hl & Hb & Ht) Hd.
  replace (k <? N) with true in * by (symmetry; apply Z.ltb_lt; lia).
  assert (Hs : Z.to_nat (k + 1) = S (Z.to_nat k)) by lia.
  unfold flows_file. rewrite frame_lengths_app, file_bytes_app, timestamps_app, len_app.
  rewrite Hl, Hb, Ht, len_record, Hd.
  unfold frame_lengths, pcapgen.timestamps, pcapgen.packets.
  cbn [flat_map map app snd fst pcapgen.Timestamp]. rewrite Hd.
  repeat split.
  - destruct (k =? N - 1) eqn:Hlast.
    + apply Z.eqb_eq in Hlast.
      replace (k + 1 <? N) with false by (symmetry; apply Z.ltb_ge; lia).
      now replace (N - 1) with k by lia.
    + apply Z.eqb_neq in Hlast.
      replace (k + 1 <? N) with true by (symmetry; apply Z.ltb_lt; lia).
      rewrite Hs. replace (62 + 0) with 62 by lia.
      change [62] with (repeat 62 1). rewrite <- repeat_app.
      now replace (Z.to_nat k + 1)%nat with (S (Z.to_nat k)) by lia.
  - destruct (k =? N - 1) eqn:Hlast.
    + apply Z.eqb_eq in Hlast.
      replace (k + 1 <? N) with false by (symmetry; apply Z.ltb_ge; lia). lia.
    + apply Z.eqb_neq in Hlast.
      replace (k + 1 <? N) with true by (symmetry; apply Z.ltb_lt; lia). lia.
  - rewrite Hs, seq_S, map_app. cbn [map Nat.add].
    now replace (Z.of_nat (Z.to_nat k)) with k by lia.
Qed.

Section FixedFlowLoops.
Context (R : pcapgen.RandSource).
Variables (start usecStep extra : Z) (cfg : pcapgen.Config).
Variables (internal external : list pcapgen.host).

Local Abbreviation Fl := (pcapgen.FlowCount cfg).
Local Abbreviation P := (pcapgen.PacketsPerFlow cfg).
Local Abbreviation N := (pcapgen.FlowCount cfg * pcapgen.PacketsPerFlow cfg).

Hypothesis HF : 0 < Fl.
Hypothesis HP : 0 < P.
Hypothesis HN : N <= max_int.
Hypothesis Hextra : 0 <= extra.
Hypothesis Hwi : Forall wf_host internal.
Hypothesis Hwe : Forall wf_host external.

Lemma packet_index_range (j p : Z) :
  0 <= j < Fl -> 0 <= p < P -> 0 <= j * P + p < N.
Proof.
  intros Hj Hp.
  assert ((j + 1) * P <= Fl * P) by (apply Z.mul_le_mono_nonneg_r; lia).
  assert (0 <= j * P) by (apply Z.mul_nonneg_nonneg; lia).
  lia.
Qed.

Lemma last_packet (j p : Z) :
  0 <= j < Fl -> 0 <= p < P ->
  Z.max 0 (flow_payload cfg extra j p) = if j * P + p =? N - 1 then extra else 0.
Proof.
  intros Hj Hp. unfold flow_payload.
  destruct (j * P + p =? N - 1) eqn:Hk.
  - apply Z.eqb_eq in Hk.
    assert (j = Fl - 1).
    { destruct (Z.eq_dec j (Fl - 1)) as [|Hne]; [assumption|].
      assert ((j + 2) * P <= Fl * P) by (apply Z.mul_le_mono_nonneg_r; lia). lia. }
    assert (p = P - 1) by (subst j; lia).
    subst j p. rewrite !Z.eqb_refl. cbn [andb].
    destruct (extra >? 0) eqn:He;
      [apply Z.gtb_lt in He | rewrite Z.gtb_ltb in He; apply Z.ltb_ge in He]; lia.
  - apply Z.eqb_neq in Hk.
    destruct (j =? Fl - 1) eqn:Hj'; destruct (p =? P - 1) eqn:Hp'; cbn [andb]; lia.
Qed.

(** The packets of one flow. *)
Lemma flow_inner (j ii ei : Z) (ias : bool) (w : pcapgen.world R) :
  0 <= j < Fl ->
  0 <= ii < pcapgen.len internal -> 0 <= ei < pcapgen.len external ->
  flows_file start usecStep N extra (j * P) (pcapgen.w_file w) ->
  exists w',
    pcapgen.for_loop R (Z.to_nat P) 0
      (pcapgen.flowPacket R start usecStep extra cfg internal external j ii ei ias)
      (j * P) w
    = (Ok ((j + 1) * P), w')
    /\ flows_file start usecStep N extra ((j + 1) * P) (pcapgen.w_file w').
Proof.
  intros Hj Hii Hei Hfile.
  destruct (for_loop_ok R
    (fun p k w => k = j * P + p /\ flows_file start usecStep N extra k (pcapgen.w_file w))
    (pcapgen.flowPacket R start usecStep extra cfg internal external j ii ei ias)
    (Z.to_nat P) 0 (j * P) w) as (k' & w' & Hrun & Hk & Hf).
  - intros p k w0 Hp [-> Hf0].
    pose proof (flowPacket_shape R start usecStep extra cfg internal external
                  j ii ei ias p (j * P + p) w0) as Hshape.
    destruct (flowPacket_ok R start usecStep extra cfg internal external
                j ii ei ias p (j * P + p) w0 Hwi Hwe Hii Hei) as (k1 & w1 & Hok).
    rewrite Hok in *. destruct Hshape as (-> & data & Hw1 & Hlen).
    exists (add64 (j * P + p) 1), w1. split; [reflexivity|].
    unfold max_int in HN.
    assert (Hrange : 0 <= j * P + p < N) by (apply packet_index_range; lia).
    replace (add64 (j * P + p) 1) with (j * P + p + 1)
      by (unfold add64; unwrap; reflexivity).
    split; [lia|]. rewrite Hw1.
    apply flows_file_step; [exact Hrange | exact Hf0 |].
    rewrite Hlen. rewrite last_packet by lia. reflexivity.
  - split; [lia | exact Hfile].
  - exists w'. rewrite Hrun. split; [f_equal; f_equal; lia|].
    now replace ((j + 1) * P) with k' by lia.
Qed.

Hypothesis Hcap : 2 * pcapgen.len internal * pcapgen.len external <= max_int.
Hypothesis HFcap : Fl <= 2 * pcapgen.len internal * pcapgen.len external.

Lemma pools_nonempty : 0 < pcapgen.len internal /\ 0 < pcapgen.len external.
Proof.
  pose proof (len_nonneg internal). pose proof (len_nonneg external). nia.
Qed.

(** All the flows. *)
Lemma flow_outer (w : pcapgen.world R) :
  flows_file start usecStep N extra 0 (pcapgen.w_file w) ->
  exists w',
    pcapgen.for_loop R (Z.to_nat Fl) 0
      (pcapgen.flowPackets R start usecStep extra cfg internal external) 0 w
    = (Ok N, w')
    /\ flows_file start usecStep N extra N (pcapgen.w_file w').
Proof.
  intros Hfile. destruct pools_nonempty as [HI HE].
  destruct (for_loop_ok R
    (fun j k w => k = j * P /\ flows_file start usecStep N extra k (pcapgen.w_file w))
    (pcapgen.flowPackets R start usecStep extra cfg internal external)
    (Z.to_nat Fl) 0 0 w) as (k' & w' & Hrun & Hk & Hf).
  - intros j k w0 Hj [-> Hf0]. unfold pcapgen.flowPackets.
    destruct (flowIndexToHosts_in_range _ _ j HI HE Hcap ltac:(lia))
      as (ii & ei & ias & Hidx & Hii & Hei).
    unfold pcapgen.bindM at 1. unfold pcapgen.lift at 1. rewrite Hidx.
    destruct (flow_inner j ii ei ias w0 ltac:(lia) Hii Hei Hf0) as (w1 & Hin & Hf1).
    exists ((j + 1) * P), w1. split; [exact Hin|]. split; [reflexivity | exact Hf1].
  - split; [lia | exact Hfile].
  - exists w'. rewrite Hrun.
    replace (0 + Z.of_nat (Z.to_nat Fl)) with Fl in * by lia.
    subst k'. split; [reflexivity | exact Hf].
Qed.

End FixedFlowLoops.

(** One file in fixed-flow mode, for pools of well-formed hosts: with a flow
    count within capacity and an exact size of at least the base size,
    [createPcapFileFlows] returns without error, the file holds
    [flowCount * packetsPerFlow] packets and is exactly [exactBytes] long,
    and every frame is the bare 62 bytes except the last, which carries all
    the padding. *)
Lemma createPcapFileFlows_exact (R : pcapgen.RandSource) (path : string)
    (start duration : Z) (cfg : pcapgen.Config) (exactBytes : Z)
    (internal external : list pcapgen.host) (w : pcapgen.world R) :
  0 < pcapgen.FlowCount cfg -> 0 < pcapgen.PacketsPerFlow cfg ->
  Forall wf_host internal -> Forall wf_host external ->
  2 * pcapgen.len internal * pcapgen.len external <= max_int ->
  pcapgen.FlowCount cfg <= 2 * pcapgen.len internal * pcapgen.len external ->
  24 + 78 * (pcapgen.FlowCount cfg * pcapgen.PacketsPerFlow cfg) <= exactBytes ->
  exactBytes <= max_int ->
  pcapgen.w_file w = [] ->
  exists w',
    pcapgen.createPcapFileFlows R path start duration cfg exactBytes internal external w
    = (Ok tt, w')
    /\ pcapgen.len (pcapgen.packets (pcapgen.w_file w'))
       = pcapgen.FlowCount cfg * pcapgen.PacketsPerFlow cfg
    /\ pcapgen.len (pcapgen.file_bytes (pcapgen.w_file w')) = exactBytes
    /\ frame_lengths (pcapgen.w_file w')
       = repeat 62 (Z.to_nat (pcapgen.FlowCount cfg * pcapgen.PacketsPerFlow cfg - 1))
           ++ [62 + (exactBytes
                     - (24 + 78 * (pcapgen.FlowCount cfg * pcapgen.PacketsPerFlow cfg)))].
Proof.
  intros HF HP Hwi Hwe Hcap HFcap Hbase Hmax Hfresh.
  set (Fl := pcapgen.FlowCount cfg) in *. set (P := pcapgen.PacketsPerFlow cfg) in *.
  set (I := pcapgen.len internal) in *. set (E := pcapgen.len external) in *.
  assert (HN : 0 < Fl * P) by nia.
  pose proof (len_nonneg internal) as HI0. pose proof (len_nonneg external) as HE0.
  fold I in HI0. fold E in HE0.
  assert (HIE : 0 < I /\ 0 < E) by nia. destruct HIE as [HI HE].
  unfold max_int in *.
  assert (Hc : mul64 (mul64 2 I) E = 2 * I * E).
  { unfold mul64. rewrite (wrap_id (2 * I)) by (apply in_int_bounds; nia).
    apply wrap_id, in_int_bounds. lia. }
  assert (Ht : mul64 Fl P = Fl * P) by (unfold mul64; apply wrap_id, in_int_bounds; lia).
  assert (Hb : add64 24 (mul64 (Fl * P) 78) = 24 + 78 * (Fl * P)).
  { unfold add64, mul64. rewrite (wrap_id (Fl * P * 78)) by (apply in_int_bounds; lia).
    rewrite wrap_id by (apply in_int_bounds; lia). lia. }
  assert (He : sub64 exactBytes (24 + 78 * (Fl * P)) = exactBytes - (24 + 78 * (Fl * P)))
    by (unfold sub64; apply wrap_id, in_int_bounds; lia).
  unfold pcapgen.createPcapFileFlows.
  fold Fl P I E. rewrite Hc, Ht, Hb, He.
  unfold pcapgen.bindM at 1. unfold pcapgen.WriteFileHeader at 1.
  replace (Fl >? 2 * I * E) with false by (symmetry; rewrite Z.gtb_ltb; apply Z.ltb_ge; lia).
  replace (exactBytes >? 0) with true by (symmetry; apply Z.gtb_lt; lia).
  replace (exactBytes <? 24 + 78 * (Fl * P)) with false by (symmetry; apply Z.ltb_ge; lia).
  unfold pcapgen.bindM at 1. unfold pcapgen.ret at 1.
  unfold pcapgen.bindM at 1. unfold pcapgen.integer_divide.
  replace (Fl * P =? 0) with false by (symmetry; apply Z.eqb_neq; lia).
  unfold pcapgen.ret at 1.
  match goal with
  | |- context [pcapgen.flowPackets R start ?s ?x cfg internal external] =>
      set (usecStep := s); set (extra := x)
  end.
  rewrite Hfresh. cbn [app].
  destruct (flow_outer R start usecStep extra cfg internal external HF HP
              ltac:(unfold max_int; fold Fl P; lia) ltac:(unfold extra; lia)
              Hwi Hwe ltac:(unfold max_int; exact Hcap) HFcap
              {| pcapgen.w_rand := pcapgen.w_rand w;
                 pcapgen.w_file := [pcapgen.FileHeader 65535 pcapgen.LinkTypeEthernet] |})
    as (w' & Hrun & Hl & Hbytes & _).
  { unfold flows_file. cbn [pcapgen.w_file].
    replace (0 <? pcapgen.FlowCount cfg * pcapgen.PacketsPerFlow cfg) with true
      by (symmetry; apply Z.ltb_lt; exact HN).
    repeat split. }
  fold Fl P in Hrun, Hl, Hbytes.
  replace (Fl * P <? Fl * P) with false in * by (symmetry; apply Z.ltb_irrefl).
  unfold pcapgen.bindM at 1. rewrite Hrun. unfold pcapgen.ret.
  exists w'. split; [reflexivity|]. split; [|split].
  - unfold frame_lengths in Hl. apply (f_equal (@List.length Z)) in Hl.
    rewrite length_map, length_app, repeat_length in Hl. cbn [List.length] in Hl.
    unfold pcapgen.len. lia.
  - rewrite Hbytes. unfold extra. lia.
  - exact Hl.
Qed.

(** C6, as the code has it.  Each of out-file and exact-size requires
    exactly one file: a configuration with an out-file or an exact size and
    a file count other than 1 is rejected before anything is generated.  The
    two are not exclusive: with a file count of 1 a configuration is accepted
    whether or not it names an out-file. *)
Theorem out_file_and_exact_size_need_one_file (cfg : pcapgen.Config) :
  ((pcapgen.OutFile cfg <> ""%string \/ 0 < pcapgen.ExactBytes cfg) ->
   pcapgen.FileCount cfg <> 1 ->
   exists e, pcapgen.validate cfg = Some e
             /\ forall (F : Type) (ops : Float64 F) (R : pcapgen.RandSource),
                  pcapgen.Generate R cfg = (Err e, []))
  /\ (pcapgen.FileCount cfg = 1 ->
      0 < pcapgen.InternalHosts cfg -> 0 < pcapgen.ExternalHosts cfg ->
      0 < pcapgen.MinDuration cfg <= pcapgen.MaxDuration cfg ->
      0 < pcapgen.ExactBytes cfg ->
      0 <= pcapgen.FlowCount cfg ->
      (0 < pcapgen.FlowCount cfg -> 0 < pcapgen.PacketsPerFlow cfg) ->
      pcapgen.validate cfg = None).
Proof.
  split.
  - intros Hor Hfc. destruct (validate_one_file cfg Hor Hfc) as [e He].
    exists e. split; [exact He|]. intros F ops R. now apply Generate_rejected.
  - intros. now apply validate_accepts.
Qed.

(** C6, as stated, fails: a valid configuration with an out-file, an exact
    size and one file is not rejected; it generates the file, of exactly the
    size asked. *)
Lemma out_file_with_exact_size_accepted :
  pcapgen.OutFile out_file_exact <> ""%string
  /\ 0 < pcapgen.ExactBytes out_file_exact
  /\ pcapgen.FileCount out_file_exact = 1
  /\ pcapgen.validate out_file_exact = None
  /\ fst (pcapgen.Generate (F := float) lcg out_file_exact) = Ok tt
  /\ map (fun pf => (fst pf, pcapgen.len (pcapgen.file_bytes (snd pf))))
         (snd (pcapgen.Generate (F := float) lcg out_file_exact))
     = [("./my_traffic.pcap"%string, 1024)].
Proof.
  split; [discriminate|]. split; [reflexivity|]. split; [reflexivity|].
  split; [reflexivity|]. split; vm_compute; reflexivity.
Qed.


(** ** Random-mode generation (section 4.4) *)

Lemma hsum_nonneg (A : Z) (n : nat) : 0 <= A -> 0 <= hsum A n.
Proof.
  intros HA. induction n as [|n IH]; [cbn; lia|].
  cbn [hsum]. assert (0 <= A / Z.of_nat (S n)) by (apply Z.div_pos; lia). lia.
Qed.

(** A block of [d] terms after the [p]-th is at most [d] times the first. *)
Lemma hsum_block (A : Z) (p d : nat) :
  0 <= A -> hsum A (p + d) <= hsum A p + Z.of_nat d * (A / Z.of_nat (S p)).
Proof.
  intros HA. induction d as [|d IH].
  - rewrite Nat.add_0_r. lia.
  - replace (p + S d)%nat with (S (p + d)) by lia. cbn [hsum].
    assert (A / Z.of_nat (S (p + d)) <= A / Z.of_nat (S p))
      by (apply Z.div_le_compat_l; lia).
    lia.
Qed.

(** The harmonic bound: below [2^(m+1)] terms the sum is at most
    [(m+1) * A]. *)
Lemma hsum_dyadic (A : Z) (m : nat) :
  0 <= A -> forall n, (n < 2 ^ (m + 1))%nat -> hsum A n <= A * Z.of_nat (m + 1).
Proof.
  intros HA. induction m as [|m IH]; intros n Hn.
  - cbn in Hn. destruct n as [|[|n]]; [cbn; lia | | lia].
    cbn. rewrite Z.div_1_r. lia.
  - destruct (Nat.lt_ge_cases n (2 ^ (m + 1))) as [Hlt | Hge].
    + specialize (IH n Hlt). nia.
    + set (p := (2 ^ (m + 1) - 1)%nat).
      assert (Hpos : (0 < 2 ^ (m + 1))%nat) by (apply Nat.neq_0_lt_0, Nat.pow_nonzero; lia).
      assert (Hp : (p < 2 ^ (m + 1))%nat) by (unfold p; lia).
      replace n with (p + (n - p))%nat by (unfold p; lia).
      pose proof (hsum_block A p (n - p) HA) as Hb.
      specialize (IH p Hp).
      assert (Hd : (n - p <= 2 ^ (m + 1))%nat).
      { replace (S m + 1)%nat with (S (m + 1)) in Hn by lia.
        rewrite Nat.pow_succ_r' in Hn. unfold p. lia. }
      replace (S p) with (2 ^ (m + 1))%nat in Hb by (unfold p; lia).
      set (q := Z.of_nat (2 ^ (m + 1))) in *.
      assert (Hq : 0 < q) by (unfold q; lia).
      assert (Z.of_nat (n - p) * (A / q) <= q * (A / q))
        by (apply Z.mul_le_mono_nonneg_r; [apply Z.div_pos; lia | unfold q; lia]).
      pose proof (Z.mul_div_le A q Hq).
      replace (Z.of_nat (S m + 1)) with (Z.of_nat (m + 1) + 1) by lia.
      lia.
Qed.

Lemma Exact_trunc_floor (q : Q) : (0 <= q)%Q -> Exact.trunc (Qred q) = Qfloor q.
Proof.
  intros Hq. rewrite <- (Qfloor_comp (Qred q) q (Qred_correct q)).
  unfold Exact.trunc. destruct (Qred q) as [n d] eqn:Hr. cbn [Qnum Qden Qfloor].
  apply Z.quot_div_nonneg; [|lia].
  assert (H0 : (0 <= n # d)%Q) by (rewrite <- Hr, Qred_correct; exact Hq).
  unfold Qle in H0. cbn in H0. lia.
Qed.

Lemma Exact_gap_law : gap_law Q Exact_Float64.
Proof.
  intros rem k _ [Hk _]. unfold pcapgen.interPacketGap.
  cbn [of_int to_int fleb fmul fdiv Exact_Float64].
  set (r := Z.max 1 rem).
  assert (Hrem : ((if Exact.leb (Exact.of_int rem) (Exact.of_int 0)
                   then Exact.of_int 1 else Exact.of_int rem) == (r # 1))%Q).
  { unfold Exact.leb, Exact.of_int, r.
    destruct (Qle_bool (rem # 1) (0 # 1)) eqn:Hle.
    - apply Qle_bool_iff in Hle. unfold Qle in Hle. cbn in Hle.
      replace (Z.max 1 rem) with 1 by lia. reflexivity.
    - assert (Hn : ~ (rem # 1 <= 0 # 1)%Q)
        by (intros H; apply Qle_bool_iff in H; congruence).
      unfold Qle in Hn. cbn in Hn.
      replace (Z.max 1 rem) with rem by lia. reflexivity. }
  set (x := if Exact.leb (Exact.of_int rem) (Exact.of_int 0)
            then Exact.of_int 1 else Exact.of_int rem) in *.
  assert (Hval : (Exact.div x (Exact.of_int k) * Exact.of_int 1000000
                  == (r * 1000000) # (Z.to_pos k))%Q).
  { unfold Exact.div, Exact.of_int. rewrite Qred_correct, Hrem.
    unfold Qeq, Qdiv, Qmult, Qinv. destruct k as [|kp|kp]; try lia. cbn. lia. }
  assert (Hnn : (0 <= Exact.div x (Exact.of_int k) * Exact.of_int 1000000)%Q).
  { rewrite Hval. unfold Qle. cbn. unfold r. lia. }
  unfold Exact.mul. unfold Exact.to_int.
  rewrite (Exact_trunc_floor _ Hnn), (Qfloor_comp _ _ Hval).
  cbn [Qfloor]. rewrite Z2Pos.id by lia.
  set (t := r * 1000000 / k).
  destruct ((min_int <=? t) && (t <=? max_int)); unfold min_int;
    match goal with |- (if ?c then _ else _) <= _ => destruct c eqn:?; lia end.
Qed.

(** *** Rounding in binary64

    A finite number is [m * 2^e] with a mantissa [m] of 53 bits.  Rounding
    shifts the surplus bits out and adds at most one to what is left. *)

(** The number of binary digits of a mantissa. *)
Lemma digits2_size (p : positive) : digits2_pos p = Pos.size p.
Proof. induction p as [p IH|p IH|]; cbn; now rewrite ?IH. Qed.

Lemma digits2_bounds (p : positive) :
  2 ^ (Zpos (digits2_pos p) - 1) <= Zpos p < 2 ^ Zpos (digits2_pos p).
Proof.
  rewrite digits2_size.
  induction p as [p IH|p IH|].
  - cbn [Pos.size]. rewrite Pos2Z.inj_succ.
    replace (Z.succ (Zpos (Pos.size p)) - 1) with (Z.succ (Zpos (Pos.size p) - 1)) by lia.
    rewrite !Z.pow_succ_r by lia. lia.
  - cbn [Pos.size]. rewrite Pos2Z.inj_succ.
    replace (Z.succ (Zpos (Pos.size p)) - 1) with (Z.succ (Zpos (Pos.size p) - 1)) by lia.
    rewrite !Z.pow_succ_r by lia. lia.
  - cbn. lia.
Qed.

Lemma digits2_unique (p : positive) (d : Z) :
  2 ^ (d - 1) <= Zpos p < 2 ^ d -> Zpos (digits2_pos p) = d.
Proof.
  intros [Hlo Hhi]. pose proof (digits2_bounds p) as [Hl Hh].
  set (d' := Zpos (digits2_pos p)) in *.
  assert (0 < d) by (destruct (Z.ltb_spec 0 d); [lia|]; rewrite Z.pow_neg_r in Hlo by lia;
                     assert (d = 0) by (destruct (Z.eq_dec d 0); [lia|rewrite Z.pow_neg_r in Hhi by lia; lia]); subst; cbn in Hhi; lia).
  destruct (Z.lt_trichotomy d' d) as [Hlt | [Heq | Hgt]]; [|exact Heq|].
  - assert (2 ^ d' <= 2 ^ (d - 1)) by (apply Z.pow_le_mono_r; lia). lia.
  - assert (2 ^ d <= 2 ^ (d' - 1)) by (apply Z.pow_le_mono_r; lia). lia.
Qed.

Lemma shr_1_m (r : shr_record) : 0 <= shr_m r -> shr_m (shr_1 r) = shr_m r / 2.
Proof.
  destruct r as [m b s]. cbn [shr_m]. intros Hm. unfold shr_1.
  destruct m as [|[p|p|]|p]; cbn [shr_m]; try lia; try reflexivity.
  - rewrite Pos2Z.inj_xI. apply Z.div_unique with 1; lia.
  - rewrite Pos2Z.inj_xO. apply Z.div_unique with 0; lia.
Qed.

Lemma shr_1_nonneg (r : shr_record) : 0 <= shr_m r -> 0 <= shr_m (shr_1 r).
Proof. intros H. rewrite shr_1_m by exact H. apply Z.div_pos; lia. Qed.

Lemma iter_shr_m (n : positive) (r : shr_record) :
  0 <= shr_m r -> shr_m (iter_pos shr_1 n r) = shr_m r / 2 ^ Zpos n.
Proof.
  revert r. induction n as [n IH|n IH|]; intros r Hr; cbn [iter_pos].
  - assert (H1 : 0 <= shr_m (shr_1 r)) by now apply shr_1_nonneg.
    assert (H2 : 0 <= shr_m (iter_pos shr_1 n (shr_1 r)))
      by (rewrite IH by exact H1; apply Z.div_pos; lia).
    rewrite IH by exact H2. rewrite IH by exact H1. rewrite shr_1_m by exact Hr.
    rewrite !Z.div_div by lia. f_equal.
    rewrite (Pos2Z.inj_xI n). replace (2 * Zpos n + 1) with (Zpos n + Zpos n + 1) by lia.
    rewrite !Z.pow_add_r by lia. change (2 ^ 1) with 2. ring.
  - assert (H2 : 0 <= shr_m (iter_pos shr_1 n r))
      by (rewrite IH by exact Hr; apply Z.div_pos; lia).
    rewrite IH by exact H2. rewrite IH by exact Hr.
    rewrite !Z.div_div by lia. f_equal.
    rewrite (Pos2Z.inj_xO n). replace (2 * Zpos n) with (Zpos n + Zpos n) by lia.
    rewrite !Z.pow_add_r by lia. ring.
  - rewrite shr_1_m by exact Hr. reflexivity.
Qed.

Lemma fexp_normal (x : Z) : -1021 <= x -> fexp prec emax x = x - 53.
Proof. unfold fexp, emin, prec, emax. lia. Qed.

Lemma shr_record_of_loc_m (m : Z) (l : location) : shr_m (shr_record_of_loc m l) = m.
Proof. destruct l as [|[]]; reflexivity. Qed.

Lemma shr_fexp_m (m : positive) (e : Z) (l : location) :
  53 <= Zpos (digits2_pos m) -> -1021 <= Zpos (digits2_pos m) + e ->
  exists r,
    shr_fexp prec emax (Zpos m) e l = (r, e + (Zpos (digits2_pos m) - 53))
    /\ shr_m r = Zpos m / 2 ^ (Zpos (digits2_pos m) - 53).
Proof.
  intros Hd He. unfold shr_fexp. cbn [Zdigits2]. rewrite fexp_normal by exact He.
  replace (Zpos (digits2_pos m) + e - 53 - e) with (Zpos (digits2_pos m) - 53) by lia.
  destruct (Zpos (digits2_pos m) - 53) as [|n|n] eqn:Hn; [| |lia].
  - eexists. split; [cbn [shr]; rewrite Z.add_0_r; reflexivity|].
    rewrite shr_record_of_loc_m, Z.pow_0_r, Z.div_1_r. reflexivity.
  - eexists. split; [cbn [shr]; reflexivity|].
    rewrite iter_shr_m by (rewrite shr_record_of_loc_m; lia).
    now rewrite shr_record_of_loc_m.
Qed.

Lemma round_nearest_even_range (m : Z) (l : location) :
  m <= round_nearest_even m l <= m + 1.
Proof. destruct l as [|[]]; cbn; try lia. destruct (Z.even m); lia. Qed.

Lemma binary_round_aux_up (s : bool) (m : positive) (e : Z) (l : location) :
  53 <= Zpos (digits2_pos m) -> -1021 <= Zpos (digits2_pos m) + e ->
  Zpos (digits2_pos m) + e <= 1000 ->
  exists m' e',
    binary_round_aux prec emax s (Zpos m) e l = S754_finite s m' e'
    /\ Zpos (digits2_pos m') = 53
    /\ e + (Zpos (digits2_pos m) - 53) <= e' <= e + (Zpos (digits2_pos m) - 53) + 1
    /\ Zpos m' * 2 ^ (e' - e) <= Zpos m + 2 ^ (e' - e).
Proof.
  intros Hd He Hmax. unfold binary_round_aux.
  destruct (shr_fexp_m m e l Hd He) as (r & -> & Hr).
  pose proof (digits2_bounds m) as [Hlo Hhi].
  set (d := Zpos (digits2_pos m)) in *. set (n := d - 53) in *.
  assert (Hn : 0 <= n) by (unfold n; lia).
  assert (Hpow : 2 ^ (d - 1) = 2 ^ 52 * 2 ^ n /\ 2 ^ d = 2 ^ 53 * 2 ^ n).
  { split; rewrite <- Z.pow_add_r by lia; f_equal; unfold n; lia. }
  destruct Hpow as [Hp1 Hp2]. rewrite Hp1 in Hlo. rewrite Hp2 in Hhi.
  assert (H2n : 0 < 2 ^ n) by (apply Z.pow_pos_nonneg; lia).
  assert (Hm1 : 2 ^ 52 <= shr_m r < 2 ^ 53).
  { rewrite Hr. split.
    - apply Z.div_le_lower_bound; lia.
    - apply Z.div_lt_upper_bound; lia. }
  assert (Hfloor : shr_m r * 2 ^ n <= Zpos m).
  { rewrite Hr. rewrite Z.mul_comm. apply Z.mul_div_le. lia. }
  pose proof (round_nearest_even_range (shr_m r) (loc_of_shr_record r)) as Hrn.
  set (rn := round_nearest_even (shr_m r) (loc_of_shr_record r)) in *.
  destruct rn as [|q|q] eqn:Hq; [lia| |lia].
  destruct (Z.ltb_spec (Zpos q) (2 ^ 53)) as [Hsmall | Hbig].
  - assert (Hdq : Zpos (digits2_pos q) = 53) by (apply digits2_unique; lia).
    destruct (shr_fexp_m q (e + n) loc_Exact) as (r2 & -> & Hr2); [lia | lia|].
    rewrite Hr2, Hdq. change (2 ^ (53 - 53)) with 1. rewrite Z.div_1_r.
    replace (e + n + (53 - 53) <=? emax - prec) with true
      by (symmetry; apply Z.leb_le; unfold emax, prec; lia).
    exists q, (e + n + (53 - 53)). split; [reflexivity|]. split; [exact Hdq|].
    split; [lia|]. replace (e + n + (53 - 53) - e) with n by lia. nia.
  - assert (Heq : Zpos q = 2 ^ 53) by lia.
    assert (Hdq : Zpos (digits2_pos q) = 54) by (apply digits2_unique; rewrite Heq; cbn; lia).
    destruct (shr_fexp_m q (e + n) loc_Exact) as (r2 & -> & Hr2); [lia | lia|].
    rewrite Hr2, Hdq, Heq. change (2 ^ 53 / 2 ^ (54 - 53)) with (Zpos (2 ^ 52)%positive).
    replace (e + n + (54 - 53) <=? emax - prec) with true
      by (symmetry; apply Z.leb_le; unfold emax, prec; lia).
    exists (2 ^ 52)%positive, (e + n + (54 - 53)). split; [reflexivity|].
    split; [reflexivity|]. split; [lia|].
    replace (e + n + (54 - 53) - e) with (n + 1) by lia.
    rewrite Z.pow_add_r by lia. change (2 ^ 1) with 2.
    change (Zpos (2 ^ 52)%positive) with (2 ^ 52). nia.
Qed.

Lemma iter_xO (p j : positive) : Zpos (Pos.iter xO p j) = Zpos p * 2 ^ Zpos j.
Proof.
  induction j as [|j IH] using Pos.peano_ind.
  - cbn. lia.
  - rewrite Pos.iter_succ, Pos2Z.inj_succ, Z.pow_succ_r by lia.
    rewrite (Pos2Z.inj_xO (Pos.iter xO p j)), IH. ring.
Qed.

Lemma shr_fexp_exact (m : positive) (e : Z) :
  Zpos (digits2_pos m) = 53 -> -1021 <= 53 + e ->
  shr_fexp prec emax (Zpos m) e loc_Exact = (Build_shr_record (Zpos m) false false, e).
Proof.
  intros Hd He. unfold shr_fexp. cbn [Zdigits2]. rewrite Hd, fexp_normal by exact He.
  replace (53 + e - 53 - e) with 0 by lia. reflexivity.
Qed.

Lemma binary_round_aux_exact (s : bool) (m : positive) (e : Z) :
  Zpos (digits2_pos m) = 53 -> -1021 <= 53 + e -> 53 + e <= 1000 ->
  binary_round_aux prec emax s (Zpos m) e loc_Exact = S754_finite s m e.
Proof.
  intros Hd He Hmax. unfold binary_round_aux.
  rewrite (shr_fexp_exact m e Hd He). cbn [shr_m loc_of_shr_record round_nearest_even].
  rewrite (shr_fexp_exact m e Hd He). cbn [shr_m].
  replace (e <=? emax - prec) with true
    by (symmetry; apply Z.leb_le; unfold emax, prec; lia).
  reflexivity.
Qed.

(** An integer of at most 53 bits is a float. *)
Lemma binary_round_small (s : bool) (p : positive) :
  Zpos (digits2_pos p) <= 53 ->
  exists m',
    binary_round prec emax s p 0 = S754_finite s m' (Zpos (digits2_pos p) - 53)
    /\ Zpos m' = Zpos p * 2 ^ (53 - Zpos (digits2_pos p))
    /\ Zpos (digits2_pos m') = 53.
Proof.
  intros Hd. unfold binary_round. rewrite Z.add_0_r, fexp_normal by lia.
  pose proof (digits2_bounds p) as [Hlo Hhi].
  set (d := Zpos (digits2_pos p)) in *.
  unfold shl_align. rewrite Z.sub_0_r.
  destruct (d - 53) as [|j|j] eqn:Hj; [| lia |].
  - assert (d = 53) by lia.
    rewrite binary_round_aux_exact by (fold d; lia).
    exists p. split; [reflexivity|]. split; [|fold d; lia].
    replace (53 - d) with 0 by lia. lia.
  - assert (Hm : Zpos (Pos.iter xO p j) = Zpos p * 2 ^ (53 - d)).
    { rewrite iter_xO. f_equal. f_equal. lia. }
    assert (H53 : 2 ^ 52 = 2 ^ (d - 1) * 2 ^ (53 - d) /\ 2 ^ 53 = 2 ^ d * 2 ^ (53 - d)).
    { split; rewrite <- Z.pow_add_r by lia; f_equal; lia. }
    assert (0 < 2 ^ (53 - d)) by (apply Z.pow_pos_nonneg; lia).
    assert (Hdm : Zpos (digits2_pos (Pos.iter xO p j)) = 53).
    { apply digits2_unique. rewrite Hm. change (53 - 1) with 52.
      destruct H53 as [-> ->]. nia. }
    rewrite binary_round_aux_exact by (rewrite ?Hdm; lia).
    exists (Pos.iter xO p j). split; [reflexivity|]. split; [exact Hm | exact Hdm].
Qed.

Lemma valid_normal (s : bool) (m : positive) (e : Z) :
  Zpos (digits2_pos m) = 53 -> -1021 <= 53 + e -> 53 + e <= 1000 ->
  valid_binary (S754_finite s m e) = true.
Proof.
  intros Hd He Hmax. cbn [SpecFloat.valid_binary]. unfold bounded, canonical_mantissa.
  rewrite Hd, fexp_normal by exact He.
  apply andb_true_intro. split; [apply Z.eqb_eq; lia | apply Z.leb_le; unfold emax, prec; lia].
Qed.

(** [float64(n)] is exact for an integer of at most 53 bits. *)
Lemma of_int_exact (p : positive) :
  Zpos p < 2 ^ 53 ->
  exists m,
    Prim2SF (IEEE.of_int (Zpos p)) = S754_finite false m (Zpos (digits2_pos p) - 53)
    /\ Zpos m = Zpos p * 2 ^ (53 - Zpos (digits2_pos p))
    /\ Zpos (digits2_pos m) = 53.
Proof.
  intros Hp. pose proof (digits2_bounds p) as [Hlo Hhi].
  assert (Hd : Zpos (digits2_pos p) <= 53).
  { destruct (Z.leb_spec (Zpos (digits2_pos p)) 53) as [H|H]; [exact H|].
    assert (2 ^ 53 <= 2 ^ (Zpos (digits2_pos p) - 1)) by (apply Z.pow_le_mono_r; lia). lia. }
  destruct (binary_round_small false p Hd) as (m & Hr & Hm & Hdm).
  exists m. split; [|split; assumption].
  unfold IEEE.of_int, IEEE.of_SF. cbn [binary_normalize]. rewrite Hr.
  apply Prim2SF_SF2Prim, valid_normal; [exact Hdm | lia | lia].
Qed.

(** [float64(n)] has the sign of [n]. *)
Lemma of_int_sign (n : Z) :
  n <> 0 -> - 2 ^ 64 < n < 2 ^ 64 ->
  exists m e, Prim2SF (IEEE.of_int n) = S754_finite (n <? 0) m e.
Proof.
  intros Hn Hr. unfold IEEE.of_int, IEEE.of_SF.
  assert (Hgen : forall s p, Zpos p < 2 ^ 64 ->
            exists m e, binary_round prec emax s p 0 = S754_finite s m e
                        /\ valid_binary (S754_finite s m e) = true).
  { intros s p Hp. pose proof (digits2_bounds p) as [Hlo Hhi].
    assert (Hd64 : Zpos (digits2_pos p) <= 64).
    { destruct (Z.leb_spec (Zpos (digits2_pos p)) 64) as [H|H]; [exact H|].
      assert (2 ^ 64 <= 2 ^ (Zpos (digits2_pos p) - 1)) by (apply Z.pow_le_mono_r; lia). lia. }
    destruct (Z.leb_spec (Zpos (digits2_pos p)) 53) as [Hd | Hd].
    - destruct (binary_round_small s p Hd) as (m & Hb & Hm & Hdm).
      exists m, (Zpos (digits2_pos p) - 53). split; [exact Hb|].
      apply valid_normal; [exact Hdm | lia | lia].
    - unfold binary_round. rewrite Z.add_0_r, fexp_normal by lia.
      unfold shl_align. rewrite Z.sub_0_r.
      destruct (Zpos (digits2_pos p) - 53) as [|j|j] eqn:Hj; [lia | | lia].
      destruct (binary_round_aux_up s p 0 loc_Exact) as (m & e & Hb & Hdm & He & _);
        [lia | lia | lia |].
      exists m, e. split; [exact Hb|]. apply valid_normal; [exact Hdm | lia | lia]. }
  destruct n as [|p|p]; [contradiction | |]; cbn [binary_normalize Z.ltb Z.compare].
  - destruct (Hgen false p ltac:(lia)) as (m & e & -> & Hv).
    exists m, e. now apply Prim2SF_SF2Prim.
  - destruct (Hgen true p ltac:(lia)) as (m & e & -> & Hv).
    exists m, e. now apply Prim2SF_SF2Prim.
Qed.

Lemma of_int_0 : Prim2SF (IEEE.of_int 0) = S754_zero false.
Proof. reflexivity. Qed.

Lemma of_int_leb_0 (n : Z) :
  - 2 ^ 64 < n < 2 ^ 64 -> PrimFloat.leb (IEEE.of_int n) (IEEE.of_int 0) = (n <=? 0).
Proof.
  intros Hr. rewrite leb_spec, of_int_0.
  destruct (Z.eq_dec n 0) as [-> | Hn]; [reflexivity|].
  destruct (of_int_sign n Hn Hr) as (m & e & ->).
  unfold SFleb, SFcompare.
  destruct (Z.ltb_spec n 0); destruct (Z.leb_spec n 0); try lia; reflexivity.
Qed.

(** The quotient of two normal numbers is at most one unit in the last
    place above the exact quotient. *)
Lemma SFdiv_up (ma mb : positive) (ea eb : Z) :
  Zpos (digits2_pos ma) = 53 -> Zpos (digits2_pos mb) = 53 ->
  -900 <= ea - eb <= 900 ->
  exists mq eq,
    SFdiv prec emax (S754_finite false ma ea) (S754_finite false mb eb)
    = S754_finite false mq eq
    /\ Zpos (digits2_pos mq) = 53
    /\ ea - eb - 53 <= eq <= ea - eb - 51
    /\ (Zpos mq - 1) * 2 ^ (eq - (ea - eb - 53)) * Zpos mb <= Zpos ma * 2 ^ 53.
Proof.
  intros Hda Hdb He. cbn [SFdiv xorb]. unfold SFdiv_core_binary. cbn [Zdigits2].
  rewrite Hda, Hdb, fexp_normal by lia.
  replace (53 + ea - (53 + eb) - 53) with (ea - eb - 53) by lia.
  rewrite Z.min_l by lia.
  replace (ea - eb - (ea - eb - 53)) with 53 by lia.
  rewrite Z.shiftl_mul_pow2 by lia.
  pose proof (digits2_bounds ma) as Hma. pose proof (digits2_bounds mb) as Hmb.
  rewrite Hda in Hma. rewrite Hdb in Hmb. change (53 - 1) with 52 in Hma, Hmb.
  pose proof (Z.div_eucl_eq (Zpos ma * 2 ^ 53) (Zpos mb) ltac:(lia)) as Heq.
  pose proof (Z.mod_pos_bound (Zpos ma * 2 ^ 53) (Zpos mb) ltac:(lia)) as Hrem.
  unfold Z.modulo in Hrem.
  destruct (Z.div_eucl (Zpos ma * 2 ^ 53) (Zpos mb)) as [q r].
  assert (Hq : 2 ^ 52 <= q < 2 ^ 54) by nia.
  destruct q as [|q|q]; [lia | | lia].
  pose proof (digits2_bounds q) as Hdq.
  assert (Hd : 53 <= Zpos (digits2_pos q) <= 54).
  { split.
    - destruct (Z.leb_spec 53 (Zpos (digits2_pos q))) as [H|H]; [exact H|].
      assert (2 ^ Zpos (digits2_pos q) <= 2 ^ 52) by (apply Z.pow_le_mono_r; lia). lia.
    - destruct (Z.leb_spec (Zpos (digits2_pos q)) 54) as [H|H]; [exact H|].
      assert (2 ^ 54 <= 2 ^ (Zpos (digits2_pos q) - 1)) by (apply Z.pow_le_mono_r; lia). lia. }
  destruct (binary_round_aux_up false q (ea - eb - 53) (new_location (Zpos mb) r))
    as (mq & eq & Hb & Hdmq & Heq' & Hup); [lia | lia | lia |].
  exists mq, eq. split; [exact Hb|]. split; [exact Hdmq|]. split; [lia|].
  assert (0 < 2 ^ (eq - (ea - eb - 53))) by (apply Z.pow_pos_nonneg; lia).
  nia.
Qed.

(** The product of two normal numbers is at most one unit in the last place
    above the exact product. *)
Lemma SFmul_up (mx my : positive) (ex ey : Z) :
  Zpos (digits2_pos mx) = 53 -> Zpos (digits2_pos my) = 53 ->
  -900 <= ex + ey <= 800 ->
  exists mp ep,
    SFmul prec emax (S754_finite false mx ex) (S754_finite false my ey)
    = S754_finite false mp ep
    /\ Zpos (digits2_pos mp) = 53
    /\ ex + ey + 52 <= ep <= ex + ey + 54
    /\ (Zpos mp - 1) * 2 ^ (ep - (ex + ey)) <= Zpos mx * Zpos my.
Proof.
  intros Hdx Hdy He. cbn [SFmul xorb].
  pose proof (digits2_bounds mx) as Hmx. pose proof (digits2_bounds my) as Hmy.
  rewrite Hdx in Hmx. rewrite Hdy in Hmy. change (53 - 1) with 52 in Hmx, Hmy.
  pose proof (digits2_bounds (mx * my)) as Hdp.
  assert (Hprod : 2 ^ 104 <= Zpos (mx * my) < 2 ^ 106) by (rewrite Pos2Z.inj_mul; nia).
  assert (Hd : 105 <= Zpos (digits2_pos (mx * my)) <= 106).
  { split.
    - destruct (Z.leb_spec 105 (Zpos (digits2_pos (mx * my)))) as [H|H]; [exact H|].
      assert (2 ^ Zpos (digits2_pos (mx * my)) <= 2 ^ 104) by (apply Z.pow_le_mono_r; lia). lia.
    - destruct (Z.leb_spec (Zpos (digits2_pos (mx * my))) 106) as [H|H]; [exact H|].
      assert (2 ^ 106 <= 2 ^ (Zpos (digits2_pos (mx * my)) - 1))
        by (apply Z.pow_le_mono_r; lia). lia. }
  destruct (binary_round_aux_up false (mx * my) (ex + ey) loc_Exact)
    as (mp & ep & Hb & Hdmp & Hep & Hup); [lia | lia | lia |].
  exists mp, ep. split; [exact Hb|]. split; [exact Hdmp|]. split; [lia|].
  rewrite Pos2Z.inj_mul in Hup. lia.
Qed.

Lemma of_int_million :
  Prim2SF (IEEE.of_int 1000000) = S754_finite false 8589934592000000 (-33).
Proof. reflexivity. Qed.

Lemma digits_le (p : positive) (b : Z) :
  0 <= b -> Zpos p < 2 ^ b -> Zpos (digits2_pos p) <= b.
Proof.
  intros Hb Hp. pose proof (digits2_bounds p) as [Hlo _].
  destruct (Z.leb_spec (Zpos (digits2_pos p)) b) as [H|H]; [exact H|].
  assert (2 ^ b <= 2 ^ (Zpos (digits2_pos p) - 1)) by (apply Z.pow_le_mono_r; lia). lia.
Qed.

(** The quotient [r / k] seconds, in microseconds, never rounds up to the
    next integer. *)
Lemma IEEE_gap (r k : Z) :
  1 <= r <= 10 ^ 8 -> 1 <= k <= 2 ^ 50 ->
  0 <= IEEE.to_int (IEEE.of_int r / IEEE.of_int k * IEEE.of_int 1000000)%float
    <= r * 1000000 / k.
Proof.
  intros Hr Hk.
  destruct r as [|pr|pr]; [lia | | lia]. destruct k as [|pk|pk]; [lia | | lia].
  destruct (of_int_exact pr ltac:(lia)) as (ma & Ha & Hma & Hdma).
  destruct (of_int_exact pk ltac:(lia)) as (mb & Hb & Hmb & Hdmb).
  pose proof (digits_le pr 27 ltac:(lia) ltac:(lia)) as Hda.
  pose proof (digits_le pk 51 ltac:(lia) ltac:(lia)) as Hdb.
  assert (Hda1 : 1 <= Zpos (digits2_pos pr)) by lia.
  assert (Hdb1 : 1 <= Zpos (digits2_pos pk)) by lia.
  set (da := Zpos (digits2_pos pr)) in *. set (db := Zpos (digits2_pos pk)) in *.
  destruct (SFdiv_up ma mb (da - 53) (db - 53) Hdma Hdmb ltac:(lia))
    as (mq & eq & Hq & Hdmq & Heq & Hqup).
  destruct (SFmul_up mq 8589934592000000 eq (-33) Hdmq eq_refl ltac:(lia))
    as (mp & ep & Hp & Hdmp & Hep & Hpup).
  unfold IEEE.to_int, IEEE.to_SF.
  rewrite mul_spec, div_spec, Ha, Hb, of_int_million. unfold SF64mul, SF64div.
  rewrite Hq, Hp. cbn [IEEE.trunc_SF].
  replace (0 <=? ep) with false by (symmetry; apply Z.leb_gt; lia).
  (* the integers behind the powers of two *)
  set (A := 2 ^ (- ep)). set (B := 2 ^ (ep - (eq + -33))) in *.
  set (C := 2 ^ (eq - (da - 53 - (db - 53) - 53))) in *.
  set (Da := 2 ^ (53 - da)) in *. set (Db := 2 ^ (53 - db)) in *.
  assert (HA : 0 < A) by (apply Z.pow_pos_nonneg; lia).
  assert (HB : 0 < B) by (apply Z.pow_pos_nonneg; lia).
  assert (HC : 0 < C) by (apply Z.pow_pos_nonneg; lia).
  assert (HDa : 0 < Da) by (apply Z.pow_pos_nonneg; lia).
  assert (HDb : 0 < Db) by (apply Z.pow_pos_nonneg; lia).
  assert (Hexp : A * B * C * Db = 2 ^ 86 * Da).
  { unfold A, B, C, Da, Db. rewrite <- !Z.pow_add_r by lia. f_equal. lia. }
  pose proof (digits2_bounds mp) as Hmp. rewrite Hdmp in Hmp. change (53 - 1) with 52 in Hmp.
  pose proof (digits2_bounds mq) as Hmq. rewrite Hdmq in Hmq. change (53 - 1) with 52 in Hmq.
  set (N := Zpos pr * 1000000 / Zpos pk).
  assert (HN : 0 <= N) by (apply Z.div_pos; lia).
  assert (HX : Zpos pr * 1000000 + 1 <= Zpos pk * (N + 1)).
  { pose proof (Z.mod_pos_bound (Zpos pr * 1000000) (Zpos pk) ltac:(lia)).
    pose proof (Z.div_mod (Zpos pr * 1000000) (Zpos pk) ltac:(lia)). fold N in H0. lia. }
  assert (HX2 : Zpos pk * (N + 1) <= Zpos pr * 1000000 + Zpos pk).
  { pose proof (Z.mul_div_le (Zpos pr * 1000000) (Zpos pk) ltac:(lia)). fold N in H. lia. }
  assert (Hlt : Zpos mp < (N + 1) * A).
  { destruct (Z.lt_ge_cases (Zpos mp) ((N + 1) * A)) as [H|Hge]; [exact H|exfalso].
    set (U := 2 ^ 52) in *. set (M := Zpos mp) in *. set (Q := Zpos mq) in *.
    set (X := Zpos pk * (N + 1)) in *.
    set (W := C * Zpos mb).
    assert (HW : 0 < W) by (unfold W; lia).
    (* one rounding costs a factor [1 - 2^-52] at most *)
    assert (Hc : (U - 1) * M * B <= U * (Q * 8589934592000000)).
    { apply Z.le_trans with (U * ((M - 1) * B)).
      - rewrite (Z.mul_assoc U). apply Z.mul_le_mono_nonneg_r; [lia|]. unfold U in *. lia.
      - apply Z.mul_le_mono_nonneg_l; [unfold U; lia | exact Hpup]. }
    assert (Hd : (U - 1) * Q * W <= U * (Zpos ma * 2 ^ 53)).
    { apply Z.le_trans with (U * ((Q - 1) * W)).
      - rewrite (Z.mul_assoc U). apply Z.mul_le_mono_nonneg_r; [lia|]. unfold U in *. lia.
      - apply Z.mul_le_mono_nonneg_l; [unfold U; lia|].
        unfold W. rewrite Z.mul_assoc. exact Hqup. }
    assert (He : (U - 1) * ((U - 1) * M * B) * W
                 <= U * 8589934592000000 * (U * (Zpos ma * 2 ^ 53))).
    { apply Z.le_trans with ((U - 1) * (U * (Q * 8589934592000000)) * W).
      - apply Z.mul_le_mono_nonneg_r; [lia|].
        apply Z.mul_le_mono_nonneg_l; [unfold U; lia | exact Hc].
      - replace ((U - 1) * (U * (Q * 8589934592000000)) * W)
          with (U * 8589934592000000 * ((U - 1) * Q * W)) by ring.
        apply Z.mul_le_mono_nonneg_l; [unfold U; lia | exact Hd]. }
    assert (Hf : (U - 1) * (U - 1) * X * (2 ^ 86 * Da)
                 <= (U - 1) * ((U - 1) * M * B) * W).
    { rewrite <- Hexp.
      replace ((U - 1) * (U - 1) * X * (A * B * C * Db))
        with ((U - 1) * ((U - 1) * ((N + 1) * A) * B) * (C * (Zpos pk * Db)))
        by (unfold X; ring).
      unfold W. rewrite Hmb. fold Db.
      apply Z.mul_le_mono_nonneg_r; [lia|].
      apply Z.mul_le_mono_nonneg_l; [unfold U; lia|].
      apply Z.mul_le_mono_nonneg_r; [lia|].
      apply Z.mul_le_mono_nonneg_l; [unfold U; lia | exact Hge]. }
    assert (Hg : (U - 1) * (U - 1) * X * (2 ^ 86 * Da)
                 <= 2 ^ 104 * (X - 1) * (2 ^ 86 * Da)).
    { apply Z.le_trans with (1 := Hf). apply Z.le_trans with (1 := He).
      rewrite Hma. fold Da.
      replace (U * 8589934592000000 * (U * (Zpos pr * Da * 2 ^ 53)))
        with (2 ^ 104 * (Zpos pr * 1000000) * (2 ^ 86 * Da)) by (unfold U; ring).
      apply Z.mul_le_mono_nonneg_r; [lia|].
      apply Z.mul_le_mono_nonneg_l; [lia|]. unfold X. lia. }
    apply Z.mul_le_mono_pos_r in Hg; [|lia].
    unfold U in Hg. unfold X in *. lia. }
  assert (Hfloor : 0 <= Zpos mp / A <= N).
  { split; [apply Z.div_pos; lia|].
    assert (Zpos mp / A < N + 1) by (apply Z.div_lt_upper_bound; lia). lia. }
  fold A. fold N.
  assert (HNmax : N <= 10 ^ 14).
  { unfold N. apply Z.div_le_upper_bound; [lia|]. nia. }
  replace ((min_int <=? Zpos mp / A) && (Zpos mp / A <=? max_int)) with true.
  - exact Hfloor.
  - symmetry. apply andb_true_intro.
    split; apply Z.leb_le; unfold min_int, max_int; lia.
Qed.

Lemma IEEE_gap_law : gap_law float IEEE_Float64.
Proof.
  intros rem k Hrem Hk. unfold pcapgen.interPacketGap.
  cbn [of_int to_int fleb fmul fdiv IEEE_Float64].
  rewrite of_int_leb_0 by (unfold min_int in Hrem; lia).
  assert (Hgap : 0 <= IEEE.to_int (IEEE.of_int (Z.max 1 rem) / IEEE.of_int k
                                   * IEEE.of_int 1000000)%float
                 <= Z.max 1 rem * 1000000 / k) by (apply IEEE_gap; lia).
  destruct (Z.leb_spec rem 0) as [Hle | Hgt].
  - replace (Z.max 1 rem) with 1 in * by lia.
    destruct (_ <? 1); lia.
  - replace (Z.max 1 rem) with rem in * by lia.
    destruct (_ <? 1); lia.
Qed.

Lemma shl_align_fst (m : positive) (e e' : Z) :
  e' <= e -> Zpos (fst (shl_align m e e')) = Zpos m * 2 ^ (e - e').
Proof.
  intros He. unfold shl_align.
  destruct (e' - e) as [|j|j] eqn:Hj; cbn [fst]; try lia.
  - replace (e - e') with 0 by lia. lia.
  - rewrite iter_xO. f_equal. f_equal. lia.
Qed.

Lemma of_int_billion :
  Prim2SF (IEEE.of_int 1000000000) = S754_finite false 8388608000000000 (-23).
Proof. reflexivity. Qed.

(** The integer part of an exact integer. *)
Lemma to_int_of_int (n : Z) :
  0 <= n < 2 ^ 53 -> IEEE.to_int (IEEE.of_int n) = n.
Proof.
  intros Hn. destruct n as [|p|p]; [reflexivity | | lia].
  destruct (of_int_exact p ltac:(lia)) as (m & Hm & Hv & Hd).
  unfold IEEE.to_int, IEEE.to_SF. rewrite Hm. cbn [IEEE.trunc_SF].
  pose proof (digits_le p 53 ltac:(lia) ltac:(lia)) as Hdp.
  destruct (Z.leb_spec 0 (Zpos (digits2_pos p) - 53)) as [H0 | H0].
  - assert (H53 : Zpos (digits2_pos p) = 53) by lia.
    rewrite H53 in *. change (53 - 53) with 0 in *.
    rewrite Hv. change (2 ^ 0) with 1. rewrite !Z.mul_1_r.
    replace ((min_int <=? Zpos p) && (Zpos p <=? max_int)) with true; [reflexivity|].
    symmetry. apply andb_true_intro. split; apply Z.leb_le; unfold min_int, max_int; lia.
  - rewrite Hv. replace (- (Zpos (digits2_pos p) - 53)) with (53 - Zpos (digits2_pos p)) by lia.
    rewrite Z.div_mul by (apply Z.pow_nonzero; lia).
    replace ((min_int <=? Zpos p) && (Zpos p <=? max_int)) with true; [reflexivity|].
    symmetry. apply andb_true_intro. split; apply Z.leb_le; unfold min_int, max_int; lia.
Qed.

(** A fraction of a second is at most one second. *)
Lemma nanoseconds_fraction (p : positive) :
  Zpos p < 10 ^ 9 ->
  exists mq eq,
    Prim2SF (IEEE.of_int (Zpos p) / IEEE.of_int 1000000000)%float = S754_finite false mq eq
    /\ Zpos (digits2_pos mq) = 53
    /\ -82 <= eq <= -51
    /\ Zpos mq <= 2 ^ (- eq).
Proof.
  intros Hp.
  destruct (of_int_exact p ltac:(lia)) as (ma & Ha & Hma & Hdma).
  pose proof (digits_le p 30 ltac:(lia) ltac:(lia)) as Hdn.
  assert (Hdn1 : 1 <= Zpos (digits2_pos p)) by lia.
  set (dn := Zpos (digits2_pos p)) in *.
  destruct (SFdiv_up ma 8388608000000000 (dn - 53) (-23) Hdma eq_refl ltac:(lia))
    as (mq & eq & Hq & Hdmq & Heq & Hup).
  exists mq, eq. rewrite div_spec, Ha, of_int_billion. unfold SF64div.
  split; [exact Hq|]. split; [exact Hdmq|]. split; [lia|].
  set (C := 2 ^ (eq - (dn - 53 - -23 - 53))) in *. set (Da := 2 ^ (53 - dn)) in *.
  assert (HC : 0 < C) by (apply Z.pow_pos_nonneg; lia).
  assert (HDa : 0 < Da) by (apply Z.pow_pos_nonneg; lia).
  assert (HT : 0 < 2 ^ (- eq)) by (apply Z.pow_pos_nonneg; lia).
  assert (Hexp : C * 2 ^ (- eq) = 2 ^ 30 * Da).
  { unfold C, Da. rewrite <- !Z.pow_add_r by lia. f_equal. lia. }
  rewrite Hma in Hup. fold Da in Hup.
  assert (H1 : (Zpos mq - 1) * C * 8388608000000000 < 10 ^ 9 * Da * 2 ^ 53).
  { apply Z.le_lt_trans with (1 := Hup). apply Z.mul_lt_mono_pos_r; [lia|].
    apply Z.mul_lt_mono_pos_r; lia. }
  assert (H2 : (Zpos mq - 1) * C < C * 2 ^ (- eq)).
  { rewrite Hexp. apply Z.mul_lt_mono_pos_r with 8388608000000000; [lia|].
    replace (2 ^ 30 * Da * 8388608000000000) with (10 ^ 9 * Da * 2 ^ 53) by ring.
    exact H1. }
  rewrite (Z.mul_comm C) in H2. apply Z.mul_lt_mono_pos_r in H2; lia.
Qed.

(** The sum of two positive numbers, the first normal, is at most one unit
    in the last place above the exact sum. *)
Lemma SFadd_up (mx my : positive) (ex ey : Z) :
  Zpos (digits2_pos mx) = 53 ->
  -900 <= ex <= 900 -> -900 <= ey <= 900 ->
  Zpos (digits2_pos my) + ey <= 900 ->
  exists ms mr er,
    SFadd prec emax (S754_finite false mx ex) (S754_finite false my ey)
    = S754_finite false mr er
    /\ Zpos ms = Zpos mx * 2 ^ (ex - Z.min ex ey) + Zpos my * 2 ^ (ey - Z.min ex ey)
    /\ 53 <= Zpos (digits2_pos ms)
    /\ Zpos (digits2_pos mr) = 53
    /\ Z.min ex ey + (Zpos (digits2_pos ms) - 53) <= er
       <= Z.min ex ey + (Zpos (digits2_pos ms) - 53) + 1
    /\ (Zpos mr - 1) * 2 ^ (er - Z.min ex ey) <= Zpos ms.
Proof.
  intros Hdx Hex Hey Hy. cbn [SFadd cond_Zopp].
  set (ez := Z.min ex ey).
  set (a := fst (shl_align mx ex ez)). set (b := fst (shl_align my ey ez)).
  assert (Ha : Zpos a = Zpos mx * 2 ^ (ex - ez)) by (apply shl_align_fst; unfold ez; lia).
  assert (Hb : Zpos b = Zpos my * 2 ^ (ey - ez)) by (apply shl_align_fst; unfold ez; lia).
  change (Zpos a + Zpos b) with (Zpos (a + b)). cbn [binary_normalize].
  pose proof (digits2_bounds mx) as Hmx. rewrite Hdx in Hmx. change (53 - 1) with 52 in Hmx.
  pose proof (digits2_bounds my) as Hmy.
  pose proof (digits2_bounds (a + b)) as Hab.
  assert (Hpx : 0 < 2 ^ (ex - ez)) by (apply Z.pow_pos_nonneg; unfold ez; lia).
  assert (Hpy : 0 < 2 ^ (ey - ez)) by (apply Z.pow_pos_nonneg; unfold ez; lia).
  assert (Hlow : 2 ^ 52 <= Zpos (a + b)) by (rewrite Pos2Z.inj_add, Ha, Hb; nia).
  assert (Hd : 53 <= Zpos (digits2_pos (a + b))).
  { destruct (Z.leb_spec 53 (Zpos (digits2_pos (a + b)))) as [H|H]; [exact H|].
    assert (2 ^ Zpos (digits2_pos (a + b)) <= 2 ^ 52) by (apply Z.pow_le_mono_r; lia). lia. }
  (* the sum is below [2^(max (53 + ex) (digits my + ey) + 1 - ez)] *)
  set (t := Z.max (53 + ex) (Zpos (digits2_pos my) + ey)).
  assert (Hhigh : Zpos (a + b) < 2 ^ (t + 1 - ez)).
  { rewrite Pos2Z.inj_add, Ha, Hb.
    assert (H1 : Zpos mx * 2 ^ (ex - ez) < 2 ^ (t - ez)).
    { apply Z.lt_le_trans with (2 ^ 53 * 2 ^ (ex - ez)); [nia|].
      rewrite <- Z.pow_add_r by (unfold ez; lia).
      apply Z.pow_le_mono_r; unfold t, ez; lia. }
    assert (H2 : Zpos my * 2 ^ (ey - ez) < 2 ^ (t - ez)).
    { apply Z.lt_le_trans with (2 ^ Zpos (digits2_pos my) * 2 ^ (ey - ez)); [nia|].
      rewrite <- Z.pow_add_r by (unfold ez; lia).
      apply Z.pow_le_mono_r; unfold t, ez; lia. }
    replace (t + 1 - ez) with (Z.succ (t - ez)) by lia.
    rewrite Z.pow_succ_r by (unfold t, ez; lia). lia. }
  pose proof (digits_le (a + b) (t + 1 - ez) ltac:(unfold t, ez; lia) Hhigh) as Hdmax.
  unfold binary_round. rewrite fexp_normal by (fold ez; lia).
  unfold shl_align.
  replace (Zpos (digits2_pos (a + b)) + ez - 53 - ez)
    with (Zpos (digits2_pos (a + b)) - 53) by lia.
  destruct (Zpos (digits2_pos (a + b)) - 53) as [|j|j] eqn:Hj; [| |lia].
  - destruct (binary_round_aux_up false (a + b) ez loc_Exact)
      as (mr & er & Hr & Hdr & Her & Hup); [lia | lia | unfold t in Hdmax; lia |].
    exists (a + b)%positive, mr, er. split; [exact Hr|].
    split; [rewrite Pos2Z.inj_add, Ha, Hb; reflexivity|]. split; [exact Hd|].
    split; [exact Hdr|]. split; [lia|].
    assert (0 < 2 ^ (er - ez)) by (apply Z.pow_pos_nonneg; lia). lia.
  - destruct (binary_round_aux_up false (a + b) ez loc_Exact)
      as (mr & er & Hr & Hdr & Her & Hup); [lia | lia | unfold t in Hdmax; lia |].
    exists (a + b)%positive, mr, er. split; [exact Hr|].
    split; [rewrite Pos2Z.inj_add, Ha, Hb; reflexivity|]. split; [exact Hd|].
    split; [exact Hdr|]. split; [lia|].
    assert (0 < 2 ^ (er - ez)) by (apply Z.pow_pos_nonneg; lia). lia.
Qed.

(** [int64(d.Seconds())] is the whole seconds of [d], or one more when the
    sum rounds up. *)
Lemma IEEE_Seconds (d : Z) :
  0 <= d < 10 ^ 8 * pcapgen.Second ->
  0 <= IEEE.to_int (pcapgen.Seconds (F := float) d) <= d / pcapgen.Second + 1.
Proof.
  intros Hd. unfold pcapgen.Seconds. cbn [of_int fadd fdiv IEEE_Float64].
  rewrite Z.quot_div_nonneg, Z.rem_mod_nonneg by (unfold pcapgen.Second; lia).
  pose proof (Z.mod_pos_bound d pcapgen.Second ltac:(unfold pcapgen.Second; lia)) as Hns.
  assert (Hsec : 0 <= d / pcapgen.Second < 10 ^ 8).
  { split; [apply Z.div_pos; unfold pcapgen.Second; lia|].
    apply Z.div_lt_upper_bound; unfold pcapgen.Second in *; lia. }
  set (sec := d / pcapgen.Second) in *. set (nsec := d mod pcapgen.Second) in *.
  unfold pcapgen.Second in Hns.
  unfold IEEE.to_int, IEEE.to_SF. rewrite add_spec. unfold SF64add.
  destruct nsec as [|pn|pn]; [| | lia].
  - (* whole seconds *)
    assert (Hy : Prim2SF (IEEE.of_int 0 / IEEE.of_int 1000000000)%float = S754_zero false)
      by reflexivity.
    rewrite Hy.
    destruct sec as [|ps|ps]; [cbn; lia | | lia].
    destruct (of_int_exact ps ltac:(lia)) as (ms & Hs & Hms & Hdms).
    rewrite Hs. cbn [SFadd]. rewrite <- Hs.
    pose proof (to_int_of_int (Zpos ps) ltac:(lia)) as Hti.
    unfold IEEE.to_int, IEEE.to_SF in Hti. rewrite Hti. lia.
  - destruct (nanoseconds_fraction pn ltac:(lia)) as (mq & eq & Hq & Hdmq & Heq & Hmq).
    rewrite Hq.
    assert (HT : 0 < 2 ^ (- eq)) by (apply Z.pow_pos_nonneg; lia).
    destruct sec as [|ps|ps]; [| | lia].
    + (* less than a second *)
      assert (H0 : Prim2SF (IEEE.of_int 0) = S754_zero false) by reflexivity.
      rewrite H0. cbn [SFadd IEEE.trunc_SF].
      replace (0 <=? eq) with false by (symmetry; apply Z.leb_gt; lia).
      assert (Hq1 : 0 <= Zpos mq / 2 ^ (- eq) <= 1).
      { split; [apply Z.div_pos; lia|].
        apply Z.div_le_upper_bound; lia. }
      replace ((min_int <=? Zpos mq / 2 ^ (- eq)) && (Zpos mq / 2 ^ (- eq) <=? max_int))
        with true; [lia|].
      symmetry. apply andb_true_intro.
      split; apply Z.leb_le; unfold min_int, max_int; lia.
    + destruct (of_int_exact ps ltac:(lia)) as (ms & Hs & Hms & Hdms).
      pose proof (digits_le ps 27 ltac:(lia) ltac:(lia)) as Hds.
      assert (Hds1 : 1 <= Zpos (digits2_pos ps)) by lia.
      set (ds := Zpos (digits2_pos ps)) in *.
      rewrite Hs.
      destruct (SFadd_up ms mq (ds - 53) eq Hdms ltac:(lia) ltac:(lia) ltac:(lia))
        as (msum & mr & er & Hr & Hsum & Hdsum53 & Hdr & Her & Hup).
      rewrite Hr. cbn [IEEE.trunc_SF].
      set (ez := Z.min (ds - 53) eq) in *.
      assert (Hez : -82 <= ez <= -26) by (unfold ez; lia).
      assert (HZ : 0 < 2 ^ (- ez)) by (apply Z.pow_pos_nonneg; lia).
      (* the exact sum is below [sec + 1] *)
      assert (Hs1 : Zpos ms * 2 ^ (ds - 53 - ez) = Zpos ps * 2 ^ (- ez)).
      { rewrite Hms, <- Z.mul_assoc, <- Z.pow_add_r by (unfold ez; lia).
        f_equal. f_equal. lia. }
      assert (Hs2 : Zpos mq * 2 ^ (eq - ez) <= 2 ^ (- ez)).
      { replace (2 ^ (- ez)) with (2 ^ (- eq) * 2 ^ (eq - ez))
          by (rewrite <- Z.pow_add_r by (unfold ez; lia); f_equal; lia).
        apply Z.mul_le_mono_nonneg_r; [apply Z.pow_nonneg; lia | exact Hmq]. }
      assert (Hmsum : Zpos msum <= (Zpos ps + 1) * 2 ^ (- ez)) by lia.
      assert (Hmsum2 : Zpos msum < 2 ^ (27 - ez)).
      { apply Z.le_lt_trans with (1 := Hmsum).
        replace (27 - ez) with (27 + - ez) by lia. rewrite Z.pow_add_r by lia.
        apply Z.mul_lt_mono_pos_r; lia. }
      pose proof (digits_le msum (27 - ez) ltac:(lia) Hmsum2) as Hdsum.
      assert (Her0 : er <= -25) by lia.
      replace (0 <=? er) with false by (symmetry; apply Z.leb_gt; lia).
      assert (HR : 0 < 2 ^ (- er)) by (apply Z.pow_pos_nonneg; lia).
      assert (HRZ : 2 ^ (- ez) = 2 ^ (er - ez) * 2 ^ (- er)).
      { rewrite <- Z.pow_add_r by lia. f_equal. lia. }
      assert (HRE : 0 < 2 ^ (er - ez)) by (apply Z.pow_pos_nonneg; lia).
      assert (Hlt : Zpos mr < (Zpos ps + 2) * 2 ^ (- er)).
      { apply Z.mul_lt_mono_pos_r with (2 ^ (er - ez)); [exact HRE|].
        replace ((Zpos ps + 2) * 2 ^ (- er) * 2 ^ (er - ez))
          with ((Zpos ps + 2) * 2 ^ (- ez)) by (rewrite HRZ; ring).
        assert (2 ^ (er - ez) < 2 ^ (- ez)) by (apply Z.pow_lt_mono_r; lia).
        lia. }
      assert (Hq1 : 0 <= Zpos mr / 2 ^ (- er) <= Zpos ps + 1).
      { split; [apply Z.div_pos; lia|].
        assert (Zpos mr / 2 ^ (- er) < Zpos ps + 2)
          by (apply Z.div_lt_upper_bound; lia). lia. }
      replace ((min_int <=? Zpos mr / 2 ^ (- er)) && (Zpos mr / 2 ^ (- er) <=? max_int))
        with true; [lia|].
      symmetry. apply andb_true_intro.
      split; apply Z.leb_le; unfold min_int, max_int; lia.
Qed.

Lemma IEEE_Seconds_range (d : Z) :
  0 <= d <= 10 ^ 8 * pcapgen.Second ->
  0 <= IEEE.to_int (pcapgen.Seconds (F := float) d) <= 10 ^ 8.
Proof.
  intros Hd. destruct (Z.eq_dec d (10 ^ 8 * pcapgen.Second)) as [-> | Hne].
  - vm_compute. split; discriminate.
  - pose proof (IEEE_Seconds d ltac:(lia)) as H.
    assert (d / pcapgen.Second < 10 ^ 8)
      by (apply Z.div_lt_upper_bound; unfold pcapgen.Second in *; lia).
    lia.
Qed.



(** *** The cursor and the loop *)

(** A carry does not move the cursor: advancing by [gap] microseconds adds
    exactly [gap] microseconds to its instant. *)
Lemma advance_time (s o gap : Z) :
  - 2 ^ 62 <= s <= 2 ^ 62 -> 0 <= o -> 0 <= gap -> o + gap <= max_int ->
  let '(s', o') := pcapgen.advance s o gap in
  cursor_time s' o' = cursor_time s o + gap * 1000
  /\ 0 <= o' <= o + gap /\ s <= s' <= s + 1.
Proof.
  intros Hs Ho Hg Hsum. unfold max_int in Hsum. unfold pcapgen.advance, add64, sub64.
  rewrite (wrap_id (o + gap)) by (apply in_int_bounds; lia).
  destruct (o + gap >=? 1000000) eqn:Hc.
  - rewrite Z.geb_leb in Hc. apply Z.leb_le in Hc.
    unwrap. unfold cursor_time, pcapgen.Unix, pcapgen.Second. lia.
  - rewrite Z.geb_leb in Hc. apply Z.leb_gt in Hc.
    unfold cursor_time, pcapgen.Unix, pcapgen.Second. lia.
Qed.

Section RandomMode.
Context {F : Type} {ops : Float64 F} (R : pcapgen.RandSource).
Variables (internal external : list pcapgen.host) (endSec total : Z).

Lemma interPacketGap_pos (rem k : Z) : 1 <= pcapgen.interPacketGap (F := F) rem k.
Proof.
  unfold pcapgen.interPacketGap. cbv zeta.
  match goal with |- 1 <= (if ?c then _ else _) => destruct c eqn:Hc end; lia.
Qed.

(** One turn of the random loop appends at most one record, stamped with
    the cursor; when it returns, it has appended the record and advanced
    the cursor by a gap within the bound. *)
Lemma randomStep_shape (pl i s o : Z) (w : pcapgen.world R) :
  let appended w' :=
    exists data,
      pcapgen.w_file w'
      = pcapgen.w_file w
          ++ [pcapgen.PacketRecord
                {| pcapgen.Timestamp := pcapgen.Unix s (mul64 o 1000);
                   pcapgen.CaptureLength := pcapgen.len data;
                   pcapgen.Length := pcapgen.len data |} data]
      /\ pcapgen.len data = 62 + Z.max 0 pl in
  match pcapgen.randomStep R internal external endSec total pl i (s, o) w with
  | (Err _, w') => pcapgen.w_file w' = pcapgen.w_file w \/ appended w'
  | (Ok c, w') =>
      appended w'
      /\ exists gap,
           0 <= gap
             < add64 (pcapgen.interPacketGap (sub64 endSec s) (sub64 total i)) 1
           /\ c = pcapgen.advance s o gap
  end.
Proof.
  cbv zeta. unfold pcapgen.randomStep.
  unfold pcapgen.bindM at 1.
  destruct (pcapgen.createPacket R internal external pl w) as [[data|e] w1] eqn:Hc.
  - pose proof (keeps_createPacket R _ _ _ _ _ _ Hc) as Hfile.
    pose proof (returns_createPacket R _ _ _ _ _ _ Hc) as Hlen.
    unfold pcapgen.bindM at 1. rewrite WritePacket_appends.
    set (w2 := {| pcapgen.w_rand := pcapgen.w_rand w1; pcapgen.w_file := _ |}).
    assert (Happ : exists data0,
               pcapgen.w_file w2
               = pcapgen.w_file w
                   ++ [pcapgen.PacketRecord
                         {| pcapgen.Timestamp := pcapgen.Unix s (mul64 o 1000);
                            pcapgen.CaptureLength := pcapgen.len data0;
                            pcapgen.Length := pcapgen.len data0 |} data0]
               /\ pcapgen.len data0 = 62 + Z.max 0 pl).
    { exists data. unfold w2. cbn [pcapgen.w_file]. rewrite Hfile. auto. }
    unfold pcapgen.bindM.
    destruct (pcapgen.Intn R _ w2) as [[gap|e] w3] eqn:Hi.
    + pose proof (keeps_Intn R _ _ _ _ Hi) as Hf3.
      pose proof (returns_Intn R _ _ _ _ Hi) as Hr3.
      unfold pcapgen.ret. rewrite Hf3. split; [exact Happ|].
      exists gap. split; [exact Hr3 | reflexivity].
    + pose proof (keeps_Intn R _ _ _ _ Hi) as Hf3.
      right. rewrite Hf3. exact Happ.
  - left. exact (keeps_createPacket R _ _ _ _ _ _ Hc).
Qed.

End RandomMode.

Lemma offset_bound (A N : Z) :
  0 <= A <= 10 ^ 14 -> 0 <= N < 2 ^ 50 ->
  hsum A (Z.to_nat N) + N <= 6200000000000000.
Proof.
  intros HA HN.
  assert (Hn : (Z.to_nat N < 2 ^ (49 + 1))%nat).
  { apply Nat2Z.inj_lt. rewrite Z2Nat.id by lia.
    rewrite Nat2Z.inj_pow. change (Z.of_nat 2 ^ Z.of_nat (49 + 1)) with (2 ^ 50). lia. }
  pose proof (hsum_dyadic A 49 ltac:(lia) _ Hn) as Hh.
  change (Z.of_nat (49 + 1)) with 50 in Hh.
  change (2 ^ 50) with 1125899906842624 in HN.
  change (10 ^ 14) with 100000000000000 in HA. lia.
Qed.

Lemma hsum_unfold (A k : Z) :
  1 <= k -> hsum A (Z.to_nat k) = hsum A (Z.to_nat (k - 1)) + A / k.
Proof.
  intros Hk. replace (Z.to_nat k) with (S (Z.to_nat (k - 1))) by lia.
  cbn [hsum]. now replace (Z.of_nat (S (Z.to_nat (k - 1)))) with k by lia.
Qed.

Section RandomSorted.
Context {F : Type} {ops : Float64 F} (R : pcapgen.RandSource).
Variables (internal external : list pcapgen.host) (endSec total s0 : Z).
Variable payload : Z -> Z.

Hypothesis Hlaw : gap_law F ops.
Hypothesis Htotal : 1 <= total < 2 ^ 50.
Hypothesis Hs0 : - 2 ^ 41 <= s0 <= 2 ^ 41.
Hypothesis Hrem : - 2 ^ 62 <= endSec - s0 <= 10 ^ 8.

Local Abbreviation A := (Z.max 1 (endSec - s0) * 1000000).

Lemma random_turn (i : Z) (c : Z * Z) (w : pcapgen.world R) :
  0 <= i < total -> random_inv s0 endSec total i c w ->
  match pcapgen.randomStep R internal external endSec total (payload i) i c w with
  | (Ok c', w') => random_inv s0 endSec total (i + 1) c' w'
  | (Err _, w') => nondecreasing (pcapgen.timestamps (pcapgen.w_file w')) = true
  end.
Proof.
  intros Hi (Hs & Ho & Hsum & Hsorted & Hle). destruct c as [s o]. cbn [fst snd] in *.
  assert (HA : 0 <= A <= 10 ^ 14).
  { change (10 ^ 14) with 100000000000000. change (10 ^ 8) with 100000000 in Hrem. lia. }
  pose proof (offset_bound A total HA ltac:(lia)) as Hbound.
  pose proof (hsum_nonneg A (Z.to_nat (total - i)) ltac:(lia)) as Hh0.
  pose proof (hsum_nonneg A (Z.to_nat (total - (i + 1))) ltac:(lia)) as Hh1.
  change (2 ^ 50) with 1125899906842624 in Htotal.
  change (2 ^ 41) with 2199023255552 in Hs0.
  change (2 ^ 62) with 4611686018427387904 in Hrem.
  change (10 ^ 8) with 100000000 in Hrem.
  assert (Hmul : mul64 o 1000 = o * 1000)
    by (unfold mul64; apply wrap_id, in_int_bounds; lia).
  assert (Hstamp : forall data,
            nondecreasing
              (pcapgen.timestamps
                 (pcapgen.w_file w
                    ++ [pcapgen.PacketRecord
                          {| pcapgen.Timestamp := pcapgen.Unix s (mul64 o 1000);
                             pcapgen.CaptureLength := pcapgen.len data;
                             pcapgen.Length := pcapgen.len data |} data])) = true).
  { intros data. rewrite timestamps_app. apply nondecreasing_snoc; [exact Hsorted|].
    cbn. rewrite Hmul. exact Hle. }
  pose proof (randomStep_shape R internal external endSec total (payload i) i s o w)
    as Hshape. cbv zeta in Hshape.
  destruct (pcapgen.randomStep R internal external endSec total (payload i) i (s, o) w)
    as [[c'|e] w'].
  - destruct Hshape as ((data & Hfile & _) & gap & Hgap & ->).
    assert (Hsub1 : sub64 endSec s = endSec - s)
      by (unfold sub64; apply wrap_id, in_int_bounds; lia).
    assert (Hsub2 : sub64 total i = total - i)
      by (unfold sub64; apply wrap_id, in_int_bounds; lia).
    rewrite Hsub1, Hsub2 in Hgap.
    pose proof (Hlaw (endSec - s) (total - i) ltac:(unfold min_int; lia) ltac:(lia)) as HG.
    pose proof (interPacketGap_pos (F := F) (endSec - s) (total - i)) as HG1.
    set (G := pcapgen.interPacketGap (endSec - s) (total - i)) in *.
    assert (Hdiv : Z.max 1 (endSec - s) * 1000000 / (total - i) <= A / (total - i))
      by (apply Z.div_le_mono; lia).
    assert (Hdiv0 : 0 <= A / (total - i)) by (apply Z.div_pos; lia).
    assert (HdivA : A / (total - i) <= A) by (apply Z.div_le_upper_bound; nia).
    assert (HaddG : add64 G 1 = G + 1)
      by (unfold add64; apply wrap_id, in_int_bounds;
          change (10 ^ 14) with 100000000000000 in HA; lia).
    rewrite HaddG in Hgap.
    pose proof (hsum_unfold A (total - i) ltac:(lia)) as Hun.
    replace (total - i - 1) with (total - (i + 1)) in Hun by lia.
    pose proof (advance_time s o gap
                  ltac:(change (2 ^ 62) with 4611686018427387904; lia) Ho ltac:(lia)
                  ltac:(unfold max_int; lia)) as Hadv.
    destruct (pcapgen.advance s o gap) as [s' o'].
    destruct Hadv as (Ht & Ho' & Hs').
    unfold random_inv. cbn [fst snd]. rewrite Hfile.
    split; [lia|]. split; [lia|]. split; [lia|]. split; [apply Hstamp|].
    rewrite timestamps_app. apply Forall_app. split.
    + eapply Forall_impl; [|exact Hle]. cbn beta. intros t Hlt. lia.
    + cbn. constructor; [|constructor]. rewrite Hmul, Ht.
      unfold cursor_time. lia.
  - destruct Hshape as [-> | (data & -> & _)]; [exact Hsorted | apply Hstamp].
Qed.

(** Any number of turns, up to the total, leaves the timestamps in order. *)
Lemma random_loop_sorted (n : nat) (w : pcapgen.world R) :
  Z.of_nat n <= total ->
  pcapgen.timestamps (pcapgen.w_file w) = [] ->
  nondecreasing
    (pcapgen.timestamps
       (pcapgen.w_file
          (snd (pcapgen.for_loop R n 0
                  (fun i c =>
                     pcapgen.randomStep R internal external endSec total (payload i) i c)
                  (s0, 0) w)))) = true.
Proof.
  intros Hn Hempty.
  assert (Hinit : random_inv s0 endSec total 0 (s0, 0) w).
  { unfold random_inv. cbn [fst snd]. rewrite Hempty, Z.sub_0_r.
    split; [lia|]. split; [lia|]. split; [lia|]. split; [reflexivity | constructor]. }
  pose proof (for_loop_inv R (random_inv s0 endSec total)
    (fun w' => nondecreasing (pcapgen.timestamps (pcapgen.w_file w')) = true)
    (fun i c => pcapgen.randomStep R internal external endSec total (payload i) i c)
    n 0 (s0, 0) w) as Hloop.
  destruct (pcapgen.for_loop R n 0 _ (s0, 0) w) as [[c'|e] w']; cbn [snd].
  - apply Hloop.
    + intros j c w0 Hj Hinv. apply random_turn; [lia | exact Hinv].
    + exact Hinit.
  - apply Hloop.
    + intros j c w0 Hj Hinv. apply random_turn; [lia | exact Hinv].
    + exact Hinit.
Qed.

End RandomSorted.

Section RandomFile.
Context {F : Type} {ops : Float64 F} (R : pcapgen.RandSource).

Lemma createPcapFile_sorted (path : string) (start duration maxSize exactBytes : Z)
    (internal external : list pcapgen.host) (w : pcapgen.world R) :
  gap_law F ops ->
  - 2 ^ 41 <= pcapgen.Time_Unix start <= 2 ^ 41 ->
  - 2 ^ 61 <= to_int (pcapgen.Seconds duration) <= 10 ^ 8 ->
  exactBytes <= 10 ^ 16 -> (exactBytes <= 0 -> - 10 ^ 16 <= maxSize <= 10 ^ 16) ->
  pcapgen.timestamps (pcapgen.w_file w) = [] ->
  nondecreasing
    (pcapgen.timestamps
       (pcapgen.w_file
          (snd (pcapgen.createPcapFile R path start duration maxSize exactBytes
                  internal external w)))) = true.
Proof.
  intros Hlaw Hs0 HD Hx Hm Hempty.
  set (D := to_int (pcapgen.Seconds duration)) in *.
  set (s0 := pcapgen.Time_Unix start) in *.
  change (2 ^ 41) with 2199023255552 in Hs0.
  change (2 ^ 61) with 2305843009213693952 in HD.
  change (10 ^ 8) with 100000000 in HD.
  change (10 ^ 16) with 10000000000000000 in Hx, Hm.
  assert (Hend : sub64 (add64 s0 D) 1 = s0 + D - 1).
  { unfold sub64, add64. rewrite (wrap_id (s0 + D)) by (apply in_int_bounds; lia).
    apply wrap_id, in_int_bounds. lia. }
  unfold pcapgen.createPcapFile. fold D s0. rewrite Hend.
  unfold pcapgen.bindM at 1. unfold pcapgen.WriteFileHeader at 1.
  set (w1 := {| pcapgen.w_rand := pcapgen.w_rand w; pcapgen.w_file := _ |}).
  assert (Hw1 : pcapgen.timestamps (pcapgen.w_file w1) = []).
  { unfold w1. cbn [pcapgen.w_file]. rewrite timestamps_app, Hempty. reflexivity. }
  assert (Hnil : nondecreasing (pcapgen.timestamps (pcapgen.w_file w1)) = true)
    by (rewrite Hw1; reflexivity).
  destruct (exactBytes >? 0) eqn:Hpos.
  - apply Z.gtb_lt in Hpos.
    destruct (exactBytes <? 24 + 78) eqn:Hsmall; [exact Hnil|].
    apply Z.ltb_ge in Hsmall.
    assert (Hsub : sub64 exactBytes 24 = exactBytes - 24)
      by (unfold sub64; apply wrap_id, in_int_bounds; lia).
    rewrite Hsub.
    assert (Hq : quo64 (exactBytes - 24) 78 = (exactBytes - 24) / 78).
    { unfold quo64. rewrite Z.quot_div_nonneg by lia.
      assert (0 <= (exactBytes - 24) / 78 <= exactBytes)
        by (split; [apply Z.div_pos; lia | apply Z.div_le_upper_bound; lia]).
      apply wrap_id, in_int_bounds. lia. }
    rewrite Hq. set (total := (exactBytes - 24) / 78).
    assert (Htot : 1 <= total < 2 ^ 50).
    { unfold total. change (2 ^ 50) with 1125899906842624. split.
      - apply Z.div_le_lower_bound; lia.
      - apply Z.div_lt_upper_bound; lia. }
    destruct (total <=? 0) eqn:Hle; [exact Hnil|].
    unfold pcapgen.bindM.
    pose proof (random_loop_sorted R internal external (s0 + D - 1) total s0
                  (fun i => if (i =? total - 1) && (rem64 (exactBytes - 24) 78 >? 0)
                            then rem64 (exactBytes - 24) 78 else 0)
                  Hlaw Htot ltac:(change (2 ^ 41) with 2199023255552; lia)
                  ltac:(change (2 ^ 62) with 4611686018427387904;
                        change (10 ^ 8) with 100000000; lia)
                  (Z.to_nat total) w1 ltac:(lia) Hw1) as Hloop.
    cbv beta in Hloop.
    match type of Hloop with
    | context [pcapgen.for_loop R ?n ?i ?b ?a ?w] =>
        destruct (pcapgen.for_loop R n i b a w) as [[c|e] w2]
    end; exact Hloop.
  - rewrite Z.gtb_ltb in Hpos. apply Z.ltb_ge in Hpos. specialize (Hm Hpos).
    assert (Hsub : sub64 maxSize 24 = maxSize - 24)
      by (unfold sub64; apply wrap_id, in_int_bounds; lia).
    rewrite Hsub.
    destruct (quo64 (maxSize - 24) 78 <=? 0) eqn:Hle; [exact Hnil|].
    apply Z.leb_gt in Hle.
    assert (Hge : 0 <= maxSize - 24).
    { destruct (Z.lt_ge_cases (maxSize - 24) 0) as [Hneg|]; [|assumption].
      exfalso. unfold quo64 in Hle.
      assert (- 10000000000000024 <= Z.quot (maxSize - 24) 78 <= 0).
      { split.
        - rewrite <- (Z.opp_involutive (maxSize - 24)), Z.quot_opp_l by lia.
          rewrite Z.quot_div_nonneg by lia.
          assert ((- (maxSize - 24)) / 78 <= - (maxSize - 24))
            by (apply Z.div_le_upper_bound; lia). lia.
        - rewrite <- (Z.opp_involutive (maxSize - 24)), Z.quot_opp_l by lia.
          rewrite Z.quot_div_nonneg by lia.
          assert (0 <= (- (maxSize - 24)) / 78) by (apply Z.div_pos; lia). lia. }
      rewrite wrap_id in Hle by (apply in_int_bounds; lia). lia. }
    assert (Hq : quo64 (maxSize - 24) 78 = (maxSize - 24) / 78).
    { unfold quo64. rewrite Z.quot_div_nonneg by lia.
      assert (0 <= (maxSize - 24) / 78 <= maxSize)
        by (split; [apply Z.div_pos; lia | apply Z.div_le_upper_bound; lia]).
      apply wrap_id, in_int_bounds. lia. }
    rewrite Hq in *. set (total := (maxSize - 24) / 78) in *.
    assert (Htot : 1 <= total < 2 ^ 50).
    { unfold total. change (2 ^ 50) with 1125899906842624. split; [lia|].
      apply Z.div_lt_upper_bound; lia. }
    unfold pcapgen.bindM.
    pose proof (random_loop_sorted R internal external (s0 + D - 1) total s0
                  (fun _ => 0)
                  Hlaw Htot ltac:(change (2 ^ 41) with 2199023255552; lia)
                  ltac:(change (2 ^ 62) with 4611686018427387904;
                        change (10 ^ 8) with 100000000; lia)
                  (Z.to_nat (total - 1)) w1 ltac:(lia) Hw1) as Hloop.
    cbv beta in Hloop.
    match type of Hloop with
    | context [pcapgen.for_loop R ?n ?i ?b ?a ?w] =>
        destruct (pcapgen.for_loop R n i b a w) as [[c|e] w2]
    end; exact Hloop.
Qed.

End RandomFile.

Section FlowSorted.
Context (R : pcapgen.RandSource).
Variables (start usecStep extra : Z) (cfg : pcapgen.Config).
Variables (internal external : list pcapgen.host).

Local Abbreviation Fl := (pcapgen.FlowCount cfg).
Local Abbreviation P := (pcapgen.PacketsPerFlow cfg).
Local Abbreviation N := (pcapgen.FlowCount cfg * pcapgen.PacketsPerFlow cfg).

Hypothesis HF : 0 < Fl.
Hypothesis HP : 0 < P.
Hypothesis Hstep : 1 <= usecStep.
Hypothesis Hmax : N * usecStep * 1000 <= max_int.

Lemma flow_time_exact (k : Z) :
  0 <= k < N -> flow_time start usecStep k = start + k * usecStep * 1000.
Proof.
  intros Hk. unfold flow_time, pcapgen.Time_Add, pcapgen.Microsecond, mul64.
  unfold max_int in Hmax.
  assert (0 <= k * usecStep <= N * usecStep) by nia.
  rewrite (wrap_id (k * usecStep)) by (apply in_int_bounds; lia).
  rewrite wrap_id by (apply in_int_bounds; lia). reflexivity.
Qed.

Lemma flow_turn_sorted (j ii ei : Z) (ias : bool) (p k : Z) (w : pcapgen.world R) :
  0 <= j < Fl -> 0 <= p < P ->
  k = j * P + p /\ flow_sorted start usecStep k w ->
  match pcapgen.flowPacket R start usecStep extra cfg internal external j ii ei ias p k w with
  | (Ok k', w') => k' = j * P + (p + 1) /\ flow_sorted start usecStep k' w'
  | (Err _, w') => nondecreasing (pcapgen.timestamps (pcapgen.w_file w')) = true
  end.
Proof.
  intros Hj Hp (-> & Hs & Hle).
  pose proof (flowPacket_shape R start usecStep extra cfg internal external
                j ii ei ias p (j * P + p) w) as Hshape.
  pose proof (packet_index_range cfg HP j p Hj Hp) as Hrange.
  destruct (pcapgen.flowPacket R start usecStep extra cfg internal external
              j ii ei ias p (j * P + p) w) as [[k'|e] w'].
  - destruct Hshape as (-> & data & Hfile & _).
    unfold max_int in Hmax.
    assert (Hk1 : add64 (j * P + p) 1 = j * P + (p + 1))
      by (unfold add64; rewrite wrap_id by (apply in_int_bounds; nia); lia).
    rewrite Hk1. split; [reflexivity|].
    unfold flow_sorted. rewrite Hfile, timestamps_app.
    change (pcapgen.timestamps [pcapgen.PacketRecord _ data])
      with [flow_time start usecStep (j * P + p)].
    rewrite flow_time_exact by exact Hrange. split.
    + apply nondecreasing_snoc; assumption.
    + apply Forall_app. split.
      * eapply Forall_impl; [|exact Hle]. cbn beta. intros t Ht. nia.
      * constructor; [nia | constructor].
  - cbn beta iota in Hshape. rewrite Hshape. exact Hs.
Qed.

Lemma flow_loops_sorted (w : pcapgen.world R) :
  pcapgen.timestamps (pcapgen.w_file w) = [] ->
  nondecreasing
    (pcapgen.timestamps
       (pcapgen.w_file
          (snd (pcapgen.for_loop R (Z.to_nat Fl) 0
                  (pcapgen.flowPackets R start usecStep extra cfg internal external)
                  0 w)))) = true.
Proof.
  intros Hempty.
  pose proof (for_loop_inv R
    (fun j k w => k = j * P /\ flow_sorted start usecStep k w)
    (fun w' => nondecreasing (pcapgen.timestamps (pcapgen.w_file w')) = true)
    (pcapgen.flowPackets R start usecStep extra cfg internal external)
    (Z.to_nat Fl) 0 0 w) as Houter.
  assert (Hbody : forall j k w0, 0 <= j < 0 + Z.of_nat (Z.to_nat Fl) ->
            k = j * P /\ flow_sorted start usecStep k w0 ->
            match pcapgen.flowPackets R start usecStep extra cfg internal external j k w0 with
            | (Ok k', w') => k' = (j + 1) * P /\ flow_sorted start usecStep k' w'
            | (Err _, w') =>
                nondecreasing (pcapgen.timestamps (pcapgen.w_file w')) = true
            end).
  { intros j k w0 Hj [-> Hfs]. unfold pcapgen.flowPackets.
    unfold pcapgen.bindM at 1. unfold pcapgen.lift at 1.
    destruct (pcapgen.flowIndexToHosts j (pcapgen.len internal) (pcapgen.len external))
      as [[[ii ei] ias]|e]; [|exact (proj1 Hfs)].
    pose proof (for_loop_inv R
      (fun p k w => k = j * P + p /\ flow_sorted start usecStep k w)
      (fun w' => nondecreasing (pcapgen.timestamps (pcapgen.w_file w')) = true)
      (pcapgen.flowPacket R start usecStep extra cfg internal external j ii ei ias)
      (Z.to_nat P) 0 (j * P) w0) as Hinner.
    destruct (pcapgen.for_loop R (Z.to_nat P) 0 _ (j * P) w0) as [[k'|e] w1].
    - destruct Hinner as [Hk Hf].
      + intros p k w2 Hp Hinv. apply flow_turn_sorted; [lia | lia | exact Hinv].
      + split; [lia | exact Hfs].
      + split; [lia | exact Hf].
    - apply Hinner.
      + intros p k w2 Hp Hinv. apply flow_turn_sorted; [lia | lia | exact Hinv].
      + split; [lia | exact Hfs]. }
  assert (Hinit : 0 = 0 * P /\ flow_sorted start usecStep 0 w).
  { split; [lia|]. unfold flow_sorted. rewrite Hempty. split; [reflexivity | constructor]. }
  destruct (pcapgen.for_loop R (Z.to_nat Fl) 0 _ 0 w) as [[k'|e] w']; cbn [snd].
  - apply (Houter Hbody Hinit).
  - apply (Houter Hbody Hinit).
Qed.

End FlowSorted.

Lemma createPcapFileFlows_sorted (R : pcapgen.RandSource) (path : string)
    (start duration : Z) (cfg : pcapgen.Config) (exactBytes : Z)
    (internal external : list pcapgen.host) (w : pcapgen.world R) :
  0 < pcapgen.FlowCount cfg -> 0 < pcapgen.PacketsPerFlow cfg ->
  pcapgen.FlowCount cfg * pcapgen.PacketsPerFlow cfg <= 10 ^ 15 ->
  in_int duration ->
  pcapgen.timestamps (pcapgen.w_file w) = [] ->
  nondecreasing
    (pcapgen.timestamps
       (pcapgen.w_file
          (snd (pcapgen.createPcapFileFlows R path start duration cfg exactBytes
                  internal external w)))) = true.
Proof.
  intros HF HP HN Hdur Hempty.
  change (10 ^ 15) with 1000000000000000 in HN.
  unfold in_int, min_int, max_int in Hdur.
  set (Fl := pcapgen.FlowCount cfg) in *. set (P := pcapgen.PacketsPerFlow cfg) in *.
  assert (HN0 : 0 < Fl * P) by nia.
  assert (Ht : mul64 Fl P = Fl * P) by (unfold mul64; apply wrap_id, in_int_bounds; lia).
  unfold pcapgen.createPcapFileFlows. fold Fl P. rewrite Ht.
  unfold pcapgen.bindM at 1. unfold pcapgen.WriteFileHeader at 1.
  set (w1 := {| pcapgen.w_rand := pcapgen.w_rand w; pcapgen.w_file := _ |}).
  assert (Hw1 : pcapgen.timestamps (pcapgen.w_file w1) = []).
  { unfold w1. cbn [pcapgen.w_file]. rewrite timestamps_app, Hempty. reflexivity. }
  assert (Hnil : nondecreasing (pcapgen.timestamps (pcapgen.w_file w1)) = true)
    by (rewrite Hw1; reflexivity).
  destruct (Fl >? _); [exact Hnil|].
  (* the duration in microseconds, and the step *)
  set (d' := if duration <=? 0 then mul64 10 pcapgen.Second else duration).
  assert (Hd' : 0 < d' <= 2 ^ 63 - 1).
  { unfold d'. destruct (duration <=? 0) eqn:Hd0.
    - vm_compute. split; [reflexivity | discriminate].
    - apply Z.leb_gt in Hd0. lia. }
  assert (Hq : quo64 d' pcapgen.Microsecond = d' / 1000).
  { unfold quo64, pcapgen.Microsecond. rewrite Z.quot_div_nonneg by lia.
    assert (0 <= d' / 1000 <= d')
      by (split; [apply Z.div_pos; lia | apply Z.div_le_upper_bound; lia]).
    apply wrap_id, in_int_bounds. lia. }
  rewrite Hq.
  set (tu := if d' / 1000 <=? 0 then 1 else d' / 1000).
  assert (Htu : 1 <= tu /\ tu * 1000 <= 2 ^ 63 - 1).
  { unfold tu. pose proof (Z.mul_div_le d' 1000 ltac:(lia)).
    destruct (d' / 1000 <=? 0) eqn:Hz; [lia|]. apply Z.leb_gt in Hz. lia. }
  assert (Hdiv : quo64 tu (Fl * P) = tu / (Fl * P)).
  { unfold quo64. rewrite Z.quot_div_nonneg by lia.
    assert (0 <= tu / (Fl * P) <= tu)
      by (split; [apply Z.div_pos; lia | apply Z.div_le_upper_bound; nia]).
    apply wrap_id, in_int_bounds. lia. }
  set (step := if tu / (Fl * P) <? 1 then 1 else tu / (Fl * P)).
  assert (Hstep : 1 <= step /\ Fl * P * step * 1000 <= max_int).
  { unfold step, max_int. pose proof (Z.mul_div_le tu (Fl * P) HN0).
    destruct (tu / (Fl * P) <? 1) eqn:Hz; [lia|]. apply Z.ltb_ge in Hz. split; [lia|].
    nia. }
  assert (Hrest : forall extra,
            nondecreasing
              (pcapgen.timestamps
                 (pcapgen.w_file
                    (snd (pcapgen.bindM R (pcapgen.integer_divide R tu (Fl * P))
                            (fun usecStep =>
                               pcapgen.bindM R
                                 (pcapgen.for_loop R (Z.to_nat Fl) 0
                                    (pcapgen.flowPackets R start
                                       (if usecStep <? 1 then 1 else usecStep)
                                       extra cfg internal external) 0)
                                 (fun _ => pcapgen.ret R tt)) w1)))) = true).
  { intros extra. unfold pcapgen.bindM at 1. unfold pcapgen.integer_divide.
    replace (Fl * P =? 0) with false by (symmetry; apply Z.eqb_neq; lia).
    unfold pcapgen.ret at 1. rewrite Hdiv. fold step.
    pose proof (flow_loops_sorted R start step extra cfg internal external
                  HF HP (proj1 Hstep) (proj2 Hstep) w1 Hw1) as Hloop.
    fold Fl in Hloop. unfold pcapgen.bindM.
    destruct (pcapgen.for_loop R (Z.to_nat Fl) 0 _ 0 w1) as [[k|e] w2]; exact Hloop. }
  unfold pcapgen.bindM at 1.
  destruct (exactBytes >? 0).
  - destruct (exactBytes <? _); [exact Hnil|]. unfold pcapgen.ret at 1. apply Hrest.
  - destruct (_ && _); [exact Hnil|]. unfold pcapgen.ret at 1. apply Hrest.
Qed.

(** ** The range of the diurnal profile (section 4.1)

    The knots, the coefficients and the rotated hour are all below 32 in
    magnitude, so no step of the evaluation overflows or loses its operands:
    the value of the spline is a number, and the clamp puts it in [0, 1]. *)

Lemma SFbelow_mono (k k' : Z) (x : spec_float) : k <= k' -> SFbelow k x -> SFbelow k' x.
Proof. destruct x; cbn; try tauto. lia. Qed.

Lemma below_mono (k k' : Z) (x : float) : k <= k' -> below k x -> below k' x.
Proof. apply SFbelow_mono. Qed.

Lemma shr_m_shr (r : shr_record) (e n : Z) :
  0 <= shr_m r ->
  shr_m (fst (shr r e n)) = shr_m r / 2 ^ Z.max 0 n /\ snd (shr r e n) = e + Z.max 0 n.
Proof.
  intros Hr. destruct n as [|p|p]; cbn [shr fst snd].
  - change (Z.max 0 0) with 0. rewrite Z.pow_0_r, Z.div_1_r. lia.
  - rewrite iter_shr_m by exact Hr. replace (Z.max 0 (Zpos p)) with (Zpos p) by lia. lia.
  - replace (Z.max 0 (Zneg p)) with 0 by lia. rewrite Z.pow_0_r, Z.div_1_r. lia.
Qed.

Lemma digits_quot (q p : positive) (N : Z) :
  0 <= N -> Zpos q / 2 ^ N = Zpos p ->
  Zpos (digits2_pos p) + N <= Zpos (digits2_pos q).
Proof.
  intros HN Hp. pose proof (digits2_bounds q) as [_ Hq].
  set (Dq := Zpos (digits2_pos q)) in *.
  assert (H2N : 0 < 2 ^ N) by (apply Z.pow_pos_nonneg; lia).
  destruct (Z.le_gt_cases Dq N) as [Hle | Hlt].
  - exfalso. assert (2 ^ Dq <= 2 ^ N) by (apply Z.pow_le_mono_r; lia).
    rewrite Z.div_small in Hp by lia. discriminate Hp.
  - assert (Zpos (digits2_pos p) <= Dq - N); [|lia].
    apply digits_le; [lia|]. rewrite <- Hp.
    apply Z.div_lt_upper_bound; [lia|].
    rewrite <- Z.pow_add_r by lia. now replace (N + (Dq - N)) with Dq by lia.
Qed.

Lemma digits_succ (q m : positive) :
  Zpos q <= Zpos m + 1 -> Zpos (digits2_pos q) <= Zpos (digits2_pos m) + 1.
Proof.
  intros H. pose proof (digits2_bounds m) as [_ Hm].
  apply digits_le; [lia|]. rewrite Z.pow_add_r by lia. change (2 ^ 1) with 2. lia.
Qed.

Lemma fexp_eq (x : Z) : fexp prec emax x = Z.max (x - 53) (-1074).
Proof. reflexivity. Qed.

(** Rounding a number below [2^k] gives a number below [2^(k+1)]: no
    infinity and no NaN. *)
Lemma binary_round_aux_below (s : bool) (m : positive) (e k : Z) :
  Zpos (digits2_pos m) + e <= k -> e <= 971 -> 0 <= k <= 1000 ->
  SFbelow (k + 1) (binary_round_aux prec emax s (Zpos m) e loc_Exact).
Proof.
  intros Hk He Hk0. unfold binary_round_aux, shr_fexp.
  cbn [Zdigits2 shr_record_of_loc].
  set (D := Zpos (digits2_pos m)) in *.
  assert (HD : 1 <= D) by (unfold D; lia).
  set (n1 := fexp prec emax (D + e) - e).
  assert (Hn1 : Z.max 0 n1 = Z.max (D + e - 53) (-1074) - e \/ Z.max 0 n1 = 0
                /\ Z.max (D + e - 53) (-1074) <= e).
  { unfold n1. rewrite fexp_eq. lia. }
  destruct (shr_m_shr (Build_shr_record (Zpos m) false false) e n1) as [Hm1 He1];
    [cbn; lia|].
  destruct (shr (Build_shr_record (Zpos m) false false) e n1) as [r1 e1].
  cbn [fst snd shr_m] in Hm1, He1.
  set (N1 := Z.max 0 n1) in *.
  assert (HN1 : 0 <= N1) by (unfold N1; lia).
  assert (Hm1pos : 0 <= shr_m r1) by (rewrite Hm1; apply Z.div_pos; [lia|apply Z.pow_pos_nonneg; lia]).
  pose proof (round_nearest_even_range (shr_m r1) (loc_of_shr_record r1)) as Hrn.
  set (q := round_nearest_even (shr_m r1) (loc_of_shr_record r1)) in *.
  (* the height of the rounded mantissa *)
  assert (Hq : q = 0 \/ exists qp, q = Zpos qp /\ Zpos (digits2_pos qp) + e1 <= k + 1).
  { destruct q as [|qp|qp]; [now left | right | lia].
    exists qp. split; [reflexivity|].
    destruct (shr_m r1) as [|m1|m1] eqn:Hr1; [| |lia].
    - assert (Zpos qp = 1) by lia.
      assert (Hd1 : Zpos (digits2_pos qp) = 1)
        by (replace qp with 1%positive by lia; reflexivity).
      rewrite Hd1, He1.
      assert (N1 <> 0).
      { intros H0. rewrite H0, Z.pow_0_r, Z.div_1_r in Hm1. discriminate Hm1. }
      lia.
    - pose proof (digits_succ qp m1 ltac:(lia)) as Hs.
      pose proof (digits_quot m m1 N1 HN1 (eq_sym Hm1)) as Hdq. fold D in Hdq.
      lia. }
  destruct Hq as [-> | (qp & -> & Hqp)].
  - cbn [Zdigits2].
    destruct (shr_m_shr (Build_shr_record 0 false false) e1
                (fexp prec emax (0 + e1) - e1)) as [Hm2 _]; [cbn; lia|].
    destruct (shr (Build_shr_record 0 false false) e1 _) as [r2 e2].
    cbn [fst shr_m] in Hm2. rewrite Z.div_0_l in Hm2
      by (apply Z.pow_nonzero; lia). rewrite Hm2. exact I.
  - cbn [Zdigits2].
    set (D1 := Zpos (digits2_pos qp)) in *.
    set (n2 := fexp prec emax (D1 + e1) - e1).
    destruct (shr_m_shr (Build_shr_record (Zpos qp) false false) e1 n2) as [Hm2 He2];
      [cbn; lia|].
    destruct (shr (Build_shr_record (Zpos qp) false false) e1 n2) as [r2 e2].
    cbn [fst snd shr_m] in Hm2, He2.
    set (N2 := Z.max 0 n2) in *.
    assert (HN2 : 0 <= N2) by (unfold N2; lia).
    assert (He2' : e2 <= 971).
    { rewrite He2, He1. unfold N2, n2. rewrite fexp_eq. lia. }
    destruct (shr_m r2) as [|p|p] eqn:Hr2.
    + exact I.
    + replace (e2 <=? emax - prec) with true
        by (symmetry; apply Z.leb_le; unfold emax, prec; lia).
      cbn [SFbelow].
      pose proof (digits_quot qp p N2 HN2 (eq_sym Hm2)) as Hdq. fold D1 in Hdq.
      lia.
    + exfalso.
      assert (0 <= Zpos qp / 2 ^ N2) by (apply Z.div_pos; [lia|apply Z.pow_pos_nonneg; lia]).
      lia.
Qed.

Lemma digits_iter_xO (m j : positive) :
  Zpos (digits2_pos (Pos.iter xO m j)) = Zpos (digits2_pos m) + Zpos j.
Proof.
  induction j as [|j IH] using Pos.peano_ind.
  - cbn. lia.
  - rewrite Pos.iter_succ. cbn [digits2_pos]. rewrite Pos2Z.inj_succ, IH. lia.
Qed.

Lemma binary_round_below (s : bool) (m : positive) (e k : Z) :
  Zpos (digits2_pos m) + e <= k -> e <= 971 -> 0 <= k <= 1000 ->
  SFbelow (k + 1) (binary_round prec emax s m e).
Proof.
  intros Hk He Hk0. unfold binary_round, shl_align.
  destruct (fexp prec emax (Zpos (digits2_pos m) + e) - e) as [|j|j] eqn:Hj.
  - now apply binary_round_aux_below.
  - now apply binary_round_aux_below.
  - apply binary_round_aux_below; [|lia|exact Hk0].
    rewrite digits_iter_xO. lia.
Qed.

Lemma binary_normalize_below (M e k : Z) (sz : bool) :
  Z.abs M < 2 ^ (k - e) -> e <= k -> e <= 971 -> 0 <= k <= 1000 ->
  SFbelow (k + 1) (binary_normalize prec emax M e sz).
Proof.
  intros HM Hek He Hk0.
  destruct M as [|p|p]; cbn [binary_normalize]; [exact I| |];
    (apply binary_round_below; [|exact He|exact Hk0]);
    (assert (Zpos (digits2_pos p) <= k - e) by (apply digits_le; [lia|exact HM]); lia).
Qed.

Lemma SFmul_below (x y : spec_float) (a b : Z) :
  SFbelow a x -> SFbelow b y -> 0 <= a -> 0 <= b -> a + b <= 970 ->
  SFbelow (a + b + 1) (SFmul prec emax x y).
Proof.
  intros Hx Hy Ha Hb Hab.
  destruct x as [sx|sx| |sx mx ex], y as [sy|sy| |sy my ey]; cbn [SFbelow] in Hx, Hy;
    try contradiction; cbn [SFmul]; try exact I.
  apply binary_round_aux_below; [| |lia].
  - pose proof (digits2_bounds mx) as [_ Hmx]. pose proof (digits2_bounds my) as [_ Hmy].
    assert (Zpos (digits2_pos (mx * my)) <= Zpos (digits2_pos mx) + Zpos (digits2_pos my)).
    { apply digits_le; [lia|]. rewrite Pos2Z.inj_mul, Z.pow_add_r by lia. nia. }
    lia.
  - lia.
Qed.

Lemma aligned_sum_below (mx my : positive) (ex ey a b : Z) (sx sy : bool) (sub : bool) :
  Zpos (digits2_pos mx) + ex <= a -> Zpos (digits2_pos my) + ey <= b ->
  let ez := Z.min ex ey in
  let X := cond_Zopp sx (Zpos (fst (shl_align mx ex ez))) in
  let Y := cond_Zopp sy (Zpos (fst (shl_align my ey ez))) in
  Z.abs (if sub then X - Y else X + Y) < 2 ^ (Z.max a b + 1 - ez).
Proof.
  intros Hx Hy ez X Y.
  assert (HX : Z.abs X < 2 ^ (Z.max a b - ez)).
  { unfold X. rewrite (shl_align_fst mx ex ez) by (unfold ez; lia).
    pose proof (digits2_bounds mx) as [_ Hmx].
    assert (Zpos mx * 2 ^ (ex - ez) < 2 ^ (Z.max a b - ez)).
    { apply Z.lt_le_trans with (2 ^ Zpos (digits2_pos mx) * 2 ^ (ex - ez)).
      - apply Z.mul_lt_mono_pos_r; [apply Z.pow_pos_nonneg; unfold ez; lia | exact Hmx].
      - rewrite <- Z.pow_add_r by (unfold ez; lia). apply Z.pow_le_mono_r; lia. }
    destruct sx; cbn [cond_Zopp]; lia. }
  assert (HY : Z.abs Y < 2 ^ (Z.max a b - ez)).
  { unfold Y. rewrite (shl_align_fst my ey ez) by (unfold ez; lia).
    pose proof (digits2_bounds my) as [_ Hmy].
    assert (Zpos my * 2 ^ (ey - ez) < 2 ^ (Z.max a b - ez)).
    { apply Z.lt_le_trans with (2 ^ Zpos (digits2_pos my) * 2 ^ (ey - ez)).
      - apply Z.mul_lt_mono_pos_r; [apply Z.pow_pos_nonneg; unfold ez; lia | exact Hmy].
      - rewrite <- Z.pow_add_r by (unfold ez; lia). apply Z.pow_le_mono_r; lia. }
    destruct sy; cbn [cond_Zopp]; lia. }
  replace (Z.max a b + 1 - ez) with (Z.max a b - ez + 1) by lia.
  rewrite Z.pow_add_r by (unfold ez; lia). change (2 ^ 1) with 2.
  destruct sub; lia.
Qed.

Lemma SFadd_below (x y : spec_float) (a b : Z) :
  SFbelow a x -> SFbelow b y -> 0 <= a <= 900 -> 0 <= b <= 900 ->
  SFbelow (Z.max a b + 2) (SFadd prec emax x y).
Proof.
  intros Hx Hy Ha Hb.
  destruct x as [sx|sx| |sx mx ex], y as [sy|sy| |sy my ey]; cbn [SFbelow] in Hx, Hy;
    try contradiction; cbn [SFadd].
  - destruct sx, sy; exact I.
  - cbn [SFbelow]. lia.
  - cbn [SFbelow]. lia.
  - pose proof (aligned_sum_below mx my ex ey a b sx sy false Hx Hy) as Hs.
    cbv zeta in Hs. cbn iota in Hs.
    replace (Z.max a b + 2) with (Z.max a b + 1 + 1) by lia.
    apply binary_normalize_below; [exact Hs | lia | lia | lia].
Qed.

Lemma SFsub_below (x y : spec_float) (a b : Z) :
  SFbelow a x -> SFbelow b y -> 0 <= a <= 900 -> 0 <= b <= 900 ->
  SFbelow (Z.max a b + 2) (SFsub prec emax x y).
Proof.
  intros Hx Hy Ha Hb.
  destruct x as [sx|sx| |sx mx ex], y as [sy|sy| |sy my ey]; cbn [SFbelow] in Hx, Hy;
    try contradiction; cbn [SFsub].
  - destruct sx, sy; exact I.
  - cbn [SFbelow]. lia.
  - cbn [SFbelow]. lia.
  - pose proof (aligned_sum_below mx my ex ey a b sx sy true Hx Hy) as Hs.
    cbv zeta in Hs. cbn iota in Hs.
    replace (Z.max a b + 2) with (Z.max a b + 1 + 1) by lia.
    apply binary_normalize_below; [exact Hs | lia | lia | lia].
Qed.

Lemma below_mul (x y : float) (a b : Z) :
  below a x -> below b y -> 0 <= a -> 0 <= b -> a + b <= 970 ->
  below (a + b + 1) (x * y)%float.
Proof. unfold below. rewrite mul_spec. apply SFmul_below. Qed.

Lemma below_add (x y : float) (a b : Z) :
  below a x -> below b y -> 0 <= a <= 900 -> 0 <= b <= 900 ->
  below (Z.max a b + 2) (x + y)%float.
Proof. unfold below. rewrite add_spec. apply SFadd_below. Qed.

Lemma below_sub (x y : float) (a b : Z) :
  below a x -> below b y -> 0 <= a <= 900 -> 0 <= b <= 900 ->
  below (Z.max a b + 2) (x - y)%float.
Proof. unfold below. rewrite sub_spec. apply SFsub_below. Qed.

Lemma below_not_nan (k : Z) (x : float) : below k x -> PrimFloat.is_nan x = false.
Proof.
  unfold below, PrimFloat.is_nan. rewrite FloatAxioms.eqb_spec.
  destruct (Prim2SF x) as [s|s| |s m e]; cbn [SFbelow]; try contradiction; intros _.
  - reflexivity.
  - unfold SFeqb, SFcompare. destruct s.
    + rewrite Z.compare_refl. change (Pos.compare_cont Eq m m) with (Pos.compare m m).
      now rewrite Pos.compare_refl.
    + rewrite Z.compare_refl. change (Pos.compare_cont Eq m m) with (Pos.compare m m).
      now rewrite Pos.compare_refl.
Qed.

Lemma belowb_spec (k : Z) (x : float) : belowb k x = true -> below k x.
Proof.
  unfold belowb, below. destruct (Prim2SF x); cbn [SFbelow]; try discriminate; try tauto.
  apply Z.leb_le.
Qed.

Lemma Forall_belowb (k : Z) (l : list float) :
  forallb (belowb k) l = true -> Forall (below k) l.
Proof.
  intros H. apply Forall_forall. intros x Hx.
  apply belowb_spec. rewrite forallb_forall in H. now apply H.
Qed.

Lemma get_below (k : Z) (l : list float) (i : nat) :
  Forall (below k) l -> below k (get (of_int 0) l i).
Proof.
  intros H. unfold get. destruct (Nat.ltb_spec i (List.length l)) as [Hi | Hi].
  - apply (proj1 (Forall_forall _ _) H). now apply nth_In.
  - rewrite nth_overflow by exact Hi. exact I.
Qed.

Lemma canonical_bounds (s : bool) (m : positive) (e : Z) :
  valid_binary (S754_finite s m e) = true ->
  Zpos (digits2_pos m) <= 53 /\ -1074 <= e <= 971
  /\ fexp prec emax (Zpos (digits2_pos m) + e) = e.
Proof.
  cbn [valid_binary SpecFloat.valid_binary]. unfold bounded, canonical_mantissa.
  intros H. apply andb_prop in H. destruct H as [H1 H2].
  apply Z.eqb_eq in H1. apply Z.leb_le in H2.
  split; [|split; [|exact H1]]; rewrite fexp_eq in H1; unfold emax, prec in H2; lia.
Qed.

(** A canonical number is not changed by rounding. *)
Lemma binary_round_aux_canonical (s : bool) (m : positive) (e : Z) :
  fexp prec emax (Zpos (digits2_pos m) + e) = e -> e <= 971 ->
  binary_round_aux prec emax s (Zpos m) e loc_Exact = S754_finite s m e.
Proof.
  intros Hc He. unfold binary_round_aux, shr_fexp. cbn [Zdigits2 shr_record_of_loc].
  rewrite Hc, Z.sub_diag. cbn [shr shr_m loc_of_shr_record round_nearest_even Zdigits2].
  rewrite Hc, Z.sub_diag. cbn [shr shr_m].
  replace (e <=? emax - prec) with true
    by (symmetry; apply Z.leb_le; unfold emax, prec; lia).
  reflexivity.
Qed.

(** An integer of at most 53 bits at an exponent of the format is a
    number of the format. *)
Lemma binary_round_fits (s : bool) (m : positive) (e : Z) :
  Zpos (digits2_pos m) <= 53 -> -1074 <= e -> Zpos (digits2_pos m) + e <= 1000 ->
  exists m' e',
    binary_round prec emax s m e = S754_finite s m' e'
    /\ valid_binary (S754_finite s m' e') = true
    /\ Zpos (digits2_pos m') + e' = Zpos (digits2_pos m) + e.
Proof.
  intros Hd He Hh. unfold binary_round, shl_align.
  set (D := Zpos (digits2_pos m)) in *.
  assert (Hf : fexp prec emax (D + e) <= e) by (rewrite fexp_eq; lia).
  assert (Hv : forall m' e', fexp prec emax (Zpos (digits2_pos m') + e') = e' -> e' <= 971 ->
                 valid_binary (S754_finite s m' e') = true).
  { intros m' e' H1 H2. cbn [valid_binary SpecFloat.valid_binary].
    unfold bounded, canonical_mantissa. apply andb_true_intro.
    split; [apply Z.eqb_eq; exact H1 | apply Z.leb_le; unfold emax, prec; lia]. }
  destruct (fexp prec emax (D + e) - e) as [|j|j] eqn:Hj; [| lia |].
  - assert (Hc : fexp prec emax (D + e) = e) by lia.
    assert (e <= 971) by (rewrite fexp_eq in Hc; lia).
    rewrite binary_round_aux_canonical by (fold D; lia).
    exists m, e. split; [reflexivity|]. split; [apply Hv; fold D; lia | reflexivity].
  - assert (Hdj : Zpos (digits2_pos (Pos.iter xO m j)) + fexp prec emax (D + e) = D + e).
    { rewrite digits_iter_xO. fold D. lia. }
    assert (fexp prec emax (D + e) <= 971) by (rewrite fexp_eq; lia).
    rewrite binary_round_aux_canonical by (rewrite ?Hdj; lia).
    exists (Pos.iter xO m j), (fexp prec emax (D + e)).
    split; [reflexivity|]. split; [apply Hv; rewrite ?Hdj; lia | exact Hdj].
Qed.

Lemma of_int_24 : Prim2SF (IEEE.of_int 24) = S754_finite false 6755399441055744 (-48).
Proof. reflexivity. Qed.

(** The remainder by 24 of a number is a number below 32. *)
Lemma Mod_24_below (x : float) (a : Z) :
  below a x -> below 5 (IEEE.Mod x (IEEE.of_int 24)).
Proof.
  unfold below, IEEE.Mod, IEEE.to_SF. rewrite of_int_24.
  pose proof (Prim2SF_valid x) as Hval.
  destruct (Prim2SF x) as [sx|sx| |sx mx ex] eqn:Hx; cbn [SFbelow]; try contradiction;
    intros Ha.
  - rewrite Hx. exact I.
  - destruct (canonical_bounds sx mx ex Hval) as (Hdx & Hex & _).
    set (e := Z.min ex (-48)).
    set (X := Zpos mx * 2 ^ (ex - e)). set (Y := 6755399441055744 * 2 ^ (-48 - e)).
    assert (HY : 0 < Y) by (unfold Y; apply Z.mul_pos_pos; [lia | apply Z.pow_pos_nonneg; unfold e; lia]).
    pose proof (Z.mod_pos_bound X Y HY) as Hr.
    destruct (X mod Y) as [|r|r] eqn:Hmod; [| |lia].
    + unfold IEEE.of_SF. rewrite Prim2SF_SF2Prim by reflexivity. exact I.
    + (* the remainder has at most 53 bits *)
      assert (HX : 0 <= X) by (unfold X; apply Z.mul_nonneg_nonneg; [lia | apply Z.pow_nonneg; lia]).
      assert (Hle : Zpos r <= X) by (rewrite <- Hmod; apply Z.mod_le; lia).
      assert (Hbits : Zpos r < 2 ^ 53 /\ Zpos r < 2 ^ (5 - e)).
      { destruct (Z.le_gt_cases ex (-48)) as [Hc | Hc].
        - assert (He : e = ex) by (unfold e; lia).
          unfold X in Hle. rewrite He, Z.sub_diag, Z.pow_0_r, Z.mul_1_r in Hle.
          pose proof (digits2_bounds mx) as [_ Hmx].
          assert (2 ^ Zpos (digits2_pos mx) <= 2 ^ 53) by (apply Z.pow_le_mono_r; lia).
          split; [lia|].
          assert (2 ^ 53 <= 2 ^ (5 - e)) by (apply Z.pow_le_mono_r; lia). lia.
        - assert (He : e = -48) by (unfold e; lia).
          unfold Y in Hr. rewrite He in *. change (2 ^ (-48 - -48)) with 1 in Hr.
          change (2 ^ (5 - -48)) with (2 ^ 53). lia. }
      destruct Hbits as [Hb53 Hb5].
      pose proof (digits_le r 53 ltac:(lia) Hb53) as Hd53.
      pose proof (digits_le r (5 - e) ltac:(unfold e; lia) Hb5) as Hd5.
      assert (Hnorm : exists m' e',
                binary_normalize prec emax (if sx then Zneg r else Zpos r) e false
                = S754_finite sx m' e'
                /\ valid_binary (S754_finite sx m' e') = true
                /\ Zpos (digits2_pos m') + e' = Zpos (digits2_pos r) + e).
      { destruct sx; cbn [binary_normalize]; apply binary_round_fits; unfold e; lia. }
      destruct Hnorm as (m' & e' & -> & Hv & Hh).
      unfold IEEE.of_SF. rewrite Prim2SF_SF2Prim by exact Hv. cbn [SFbelow]. lia.
Qed.

(** An hour of the domain is a number below 32. *)
Lemma in_domain_below (hour : float) :
  PrimFloat.is_nan hour = false ->
  PrimFloat.ltb hour (IEEE.of_int 0) = false ->
  PrimFloat.leb (IEEE.of_int 24) hour = false ->
  below 5 hour.
Proof.
  intros Hn H0 H24. apply is_nan_spec in Hn.
  rewrite ltb_spec, of_int_0 in H0. rewrite leb_spec, of_int_24 in H24.
  unfold below. pose proof (Prim2SF_valid hour) as Hval.
  destruct (Prim2SF hour) as [s|s| |s m e]; cbn [SFbelow].
  - exact I.
  - destruct s; [discriminate H0 | discriminate H24].
  - congruence.
  - destruct (canonical_bounds s m e Hval) as (Hd & _).
    destruct s; [discriminate H0|].
    unfold SFleb, SFcompare in H24.
    destruct (Z.compare_spec (-48) e) as [He | He | He]; [lia | discriminate H24 | lia].
Qed.

Section Spline.
Variable S : pcapgen.cubicSpline (F := float).
Variable k : Z.
Hypothesis Hk : 0 <= k <= 100.
Hypothesis Hx : Forall (below k) (pcapgen.sx S).
Hypothesis Ha : Forall (below k) (pcapgen.sa S).
Hypothesis Hb : Forall (below k) (pcapgen.sb S).
Hypothesis Hc : Forall (below k) (pcapgen.sc S).
Hypothesis Hd : Forall (below k) (pcapgen.sd S).

(** The value of a spline with bounded knots and coefficients at a bounded
    point is a number. *)
Lemma eval_below (v : float) : below k v -> below (4 * k + 11) (pcapgen.eval S v).
Proof.
  intros Hv. unfold pcapgen.eval.
  destruct (v <=? _)%f64; [apply below_mono with k; [lia | now apply get_below]|].
  destruct (_ <=? v)%f64; [apply below_mono with k; [lia | now apply get_below]|].
  set (idx := pcapgen.find_interval _ _ _).
  cbn [fadd fsub fmul IEEE_Float64].
  pose proof (get_below k _ idx Hx) as Hxi.
  pose proof (get_below k _ idx Ha) as Hai.
  pose proof (get_below k _ idx Hb) as Hbi.
  pose proof (get_below k _ idx Hc) as Hci.
  pose proof (get_below k _ idx Hd) as Hdi.
  set (xi := get (of_int 0) (pcapgen.sx S) idx) in *.
  set (ai := get (of_int 0) (pcapgen.sa S) idx) in *.
  set (bi := get (of_int 0) (pcapgen.sb S) idx) in *.
  set (ci := get (of_int 0) (pcapgen.sc S) idx) in *.
  set (di := get (of_int 0) (pcapgen.sd S) idx) in *.
  assert (Hdx : below (k + 2) (v - xi)%float).
  { replace (k + 2) with (Z.max k k + 2) by lia. apply below_sub; try assumption; lia. }
  set (dx := (v - xi)%float) in *.
  assert (H1 : below (2 * k + 3) (bi * dx)%float).
  { replace (2 * k + 3) with (k + (k + 2) + 1) by lia. apply below_mul; try assumption; lia. }
  assert (H2 : below (2 * k + 3) (ci * dx)%float).
  { replace (2 * k + 3) with (k + (k + 2) + 1) by lia. apply below_mul; try assumption; lia. }
  assert (H3 : below (3 * k + 6) (ci * dx * dx)%float).
  { replace (3 * k + 6) with (2 * k + 3 + (k + 2) + 1) by lia.
    apply below_mul; try assumption; lia. }
  assert (H4 : below (2 * k + 3) (di * dx)%float).
  { replace (2 * k + 3) with (k + (k + 2) + 1) by lia. apply below_mul; try assumption; lia. }
  assert (H5 : below (3 * k + 6) (di * dx * dx)%float).
  { replace (3 * k + 6) with (2 * k + 3 + (k + 2) + 1) by lia.
    apply below_mul; try assumption; lia. }
  assert (H6 : below (4 * k + 9) (di * dx * dx * dx)%float).
  { replace (4 * k + 9) with (3 * k + 6 + (k + 2) + 1) by lia.
    apply below_mul; try assumption; lia. }
  assert (H7 : below (2 * k + 5) (ai + bi * dx)%float).
  { replace (2 * k + 5) with (Z.max k (2 * k + 3) + 2) by lia.
    apply below_add; try assumption; lia. }
  assert (H8 : below (3 * k + 8) (ai + bi * dx + ci * dx * dx)%float).
  { replace (3 * k + 8) with (Z.max (2 * k + 5) (3 * k + 6) + 2) by lia.
    apply below_add; try assumption; lia. }
  replace (4 * k + 11) with (Z.max (3 * k + 8) (4 * k + 9) + 2) by lia.
  apply below_add; try assumption; lia.
Qed.

End Spline.

Lemma clamp01_number (r : float) :
  PrimFloat.is_nan r = false ->
  PrimFloat.leb (of_int 0) (pcapgen.clamp01 r) = true
  /\ PrimFloat.leb (pcapgen.clamp01 r) (of_int 1) = true.
Proof.
  intros Hn. unfold pcapgen.clamp01. cbn [fltb IEEE_Float64].
  change (of_int 0) with 0%float. change (of_int 1) with 1%float.
  destruct (PrimFloat.ltb r 0) eqn:H0; [split; reflexivity|].
  destruct (PrimFloat.ltb 1 r) eqn:H1; [split; reflexivity|].
  split.
  - apply not_ltb_leb; [exact Hn | reflexivity | exact H0].
  - apply not_ltb_leb; [reflexivity | exact Hn | exact H1].
Qed.

Lemma spline_coefficients (weekend : bool) :
  let S := pcapgen.newCubicSpline (F := float)
             (map (fun i => of_int (Z.of_nat i)) (seq 0 25)) (pcapgen.curve weekend) in
  Forall (below 5) (pcapgen.sx S) /\ Forall (below 5) (pcapgen.sa S)
  /\ Forall (below 5) (pcapgen.sb S) /\ Forall (below 5) (pcapgen.sc S)
  /\ Forall (below 5) (pcapgen.sd S).
Proof.
  destruct weekend; cbv zeta; repeat split; apply Forall_belowb; vm_compute; reflexivity.
Qed.

(** For an hour that is a number, the activity is a number between 0 and 1. *)
Lemma durationScalar_range (hour : float) (weekend : bool) :
  PrimFloat.is_nan hour = false ->
  PrimFloat.leb (of_int 0) (pcapgen.durationScalar hour weekend) = true
  /\ PrimFloat.leb (pcapgen.durationScalar hour weekend) (of_int 1) = true.
Proof.
  intros Hn. unfold pcapgen.durationScalar.
  change ((hour <? of_int 0)%f64) with (PrimFloat.ltb hour (IEEE.of_int 0)).
  change ((hour >=? of_int 24)%f64) with (PrimFloat.leb (IEEE.of_int 24) hour).
  destruct (PrimFloat.ltb hour (IEEE.of_int 0)) eqn:H0; [split; reflexivity|].
  destruct (PrimFloat.leb (IEEE.of_int 24) hour) eqn:H24; [split; reflexivity|].
  cbn [orb]. cbv zeta.
  apply clamp01_number. apply (below_not_nan (Z.max 1 31 + 2)).
  change (fsub (of_int 1) ?x) with (PrimFloat.sub (IEEE.of_int 1) x).
  apply below_sub; [apply belowb_spec; reflexivity | | lia | lia].
  destruct (spline_coefficients weekend) as (Hx & Ha & Hb & Hc & Hd).
  apply (eval_below _ 5 ltac:(lia) Hx Ha Hb Hc Hd).
  apply (Mod_24_below _ (Z.max 5 1 + 2)).
  change (fadd hour (of_int 1)) with (PrimFloat.add hour (IEEE.of_int 1)).
  apply below_add; [| apply belowb_spec; reflexivity | lia | lia].
  now apply in_domain_below.
Qed.

(** C10. For every binary64 hour that is a number (the infinities
    included) and either flag, the activity is a number between 0 and 1; it
    is exactly 0 for an hour below 0 or at least 24, the first thing the
    function checks.  A NaN hour, which is no real number, passes both
    guards and gives a NaN.  The same bounds hold when the hour is taken as
    an exact rational. *)
Theorem durationScalar_unit_interval :
  (forall (hour : float) (weekend : bool),
     PrimFloat.is_nan hour = false ->
     PrimFloat.leb (of_int 0) (pcapgen.durationScalar hour weekend) = true
     /\ PrimFloat.leb (pcapgen.durationScalar hour weekend) (of_int 1) = true)
  /\ (forall (hour : float) (weekend : bool),
        (hour <? of_int 0)%f64 || (hour >=? of_int 24)%f64 = true ->
        pcapgen.durationScalar hour weekend = 0%float)
  /\ (forall weekend : bool,
        PrimFloat.is_nan (pcapgen.durationScalar nan weekend) = true)
  /\ (forall (hour : Q) (weekend : bool),
        (0 <= pcapgen.durationScalar hour weekend <= 1)%Q
        /\ ((hour < 0 \/ 24 <= hour)%Q -> pcapgen.durationScalar hour weekend = 0%Q)).
Proof.
  split; [exact durationScalar_range|]. split; [|split].
  - intros hour weekend Hout. unfold pcapgen.durationScalar. rewrite Hout. reflexivity.
  - intros []; vm_compute; reflexivity.
  - intros hour weekend. split.
    + unfold pcapgen.durationScalar.
      destruct ((hour <? of_int 0)%f64 || (hour >=? of_int 24)%f64).
      * split; discriminate.
      * apply clamp01_range.
    + intros Hout. unfold pcapgen.durationScalar.
      cbn [fltb fleb Exact_Float64 of_int].
      destruct Hout as [Hneg | Hbig].
      * rewrite (Exact_ltb_true hour (Exact.of_int 0)) by exact Hneg. reflexivity.
      * assert (Hle : Exact.leb (Exact.of_int 24) hour = true)
          by (apply Qle_bool_iff; exact Hbig).
        rewrite Hle, orb_true_r. reflexivity.
Qed.

(** ** The max-size path of [createPcapFile] *)

Lemma bare_file_step (k : Z) (f : pcapgen.file) (ci : pcapgen.CaptureInfo) (data : list Z) :
  bare_file k f -> pcapgen.len data = 62 + Z.max 0 0 ->
  bare_file (k + 1) (f ++ [pcapgen.PacketRecord ci data]).
Proof.
  intros (Hc & Hl & Hb) Hd. unfold bare_file.
  rewrite packets_app, frame_lengths_app, file_bytes_app, !len_app, len_record, Hc, Hb, Hd.
  split; [reflexivity|]. split; [|lia].
  apply Forall_app. split; [exact Hl|].
  unfold frame_lengths, pcapgen.packets. cbn. rewrite Hd. repeat constructor.
Qed.

Section MaxSize.
Context {F : Type} {ops : Float64 F} (R : pcapgen.RandSource).



End MaxSize.


(** The max-size path does run: 1000 bytes allow 12 packets and 11 are
    written, in a file of 882 bytes. *)
Lemma createPcapFile_max_size_run :
  let r := pcapgen.createPcapFile (F := float) lcg "generated_0000.pcap"
             (pcapgen.StartTime scenario) (60 * pcapgen.Second) 1000 0
             (pool10 pcapgen.uniqueInternalIPv4) (pool10 pcapgen.uniqueExternalIPv4)
             (pcapgen.Build_world (R := lcg) 1 []) in
  fst r = Ok tt
  /\ frame_lengths (pcapgen.w_file (snd r)) = repeat 62 11
  /\ pcapgen.len (pcapgen.file_bytes (pcapgen.w_file (snd r))) = 882.
Proof. vm_compute. repeat split. Qed.

(** ** The pools and the run of [Generate] in fixed-flow mode *)

Lemma set_length {A : Type} (l : list A) (i : nat) (v : A) :
  List.length (set l i v) = List.length l.
Proof.
  revert i. induction l as [|a l IH]; intros [|i]; cbn; try reflexivity.
  now rewrite IH.
Qed.

Lemma set_nth_same {A : Type} (d : A) (l : list A) (i : nat) (v : A) :
  (i < List.length l)%nat -> nth i (set l i v) d = v.
Proof.
  revert i. induction l as [|a l IH]; intros [|i] Hi; cbn in *; try lia; try reflexivity.
  apply IH. lia.
Qed.

Lemma set_nth_other {A : Type} (d : A) (l : list A) (i j : nat) (v : A) :
  i <> j -> nth j (set l i v) d = nth j l d.
Proof.
  revert i j. induction l as [|a l IH]; intros [|i] [|j] Hij; cbn; try reflexivity; try lia.
  apply IH. lia.
Qed.

Section Pools.
Context (R : pcapgen.RandSource).

Lemma randomMAC_ok (w : pcapgen.world R) :
  exists m w', pcapgen.randomMAC R w = (Ok m, w') /\ pcapgen.len m = 6.
Proof.
  unfold pcapgen.randomMAC.
  destruct (Intn_ok R 256 w ltac:(lia)) as (b0 & w0 & H0 & _ & _).
  destruct (Intn_ok R 256 w0 ltac:(lia)) as (b1 & w1 & H1 & _ & _).
  destruct (Intn_ok R 256 w1 ltac:(lia)) as (b2 & w2 & H2 & _ & _).
  destruct (Intn_ok R 256 w2 ltac:(lia)) as (b3 & w3 & H3 & _ & _).
  destruct (Intn_ok R 256 w3 ltac:(lia)) as (b4 & w4 & H4 & _ & _).
  destruct (Intn_ok R 256 w4 ltac:(lia)) as (b5 & w5 & H5 & _ & _).
  unfold pcapgen.bindM. rewrite H0, H1, H2, H3, H4, H5. unfold pcapgen.ret.
  eexists; eexists; split; reflexivity.
Qed.

(** Filling a pool of [n] hosts by index, each with a drawn link address
    and the address [ipOf] gives its index. *)
Lemma fill_pool (ipOf : Z -> list Z) (n : Z) (w : pcapgen.world R) :
  0 <= n -> (forall i, pcapgen.len (ipOf i) = 4) ->
  exists pool w',
    pcapgen.for_loop R (Z.to_nat n) 0
      (fun i pool =>
         pcapgen.bindM R (pcapgen.randomMAC R)
           (fun m => pcapgen.ret R
                       (set pool (Z.to_nat i) {| pcapgen.mac := m; pcapgen.ip := ipOf i |})))
      (make pcapgen.zero_host (Z.to_nat n)) w
    = (Ok pool, w')
    /\ pcapgen.len pool = n /\ Forall wf_host pool.
Proof.
  intros Hn Hip.
  destruct (for_loop_ok R
    (fun i pool _ =>
       List.length pool = Z.to_nat n
       /\ forall j, (j < Z.to_nat i)%nat -> wf_host (nth j pool pcapgen.zero_host))
    (fun i pool =>
       pcapgen.bindM R (pcapgen.randomMAC R)
         (fun m => pcapgen.ret R
                     (set pool (Z.to_nat i) {| pcapgen.mac := m; pcapgen.ip := ipOf i |})))
    (Z.to_nat n) 0 (make pcapgen.zero_host (Z.to_nat n)) w) as (pool & w' & Hrun & Hlen & Hwf).
  - intros i pool w0 Hi [Hlen Hwf].
    destruct (randomMAC_ok w0) as (m & w1 & Hm & Hm6).
    unfold pcapgen.bindM. rewrite Hm. unfold pcapgen.ret.
    eexists; eexists; split; [reflexivity|]. split; [now rewrite set_length|].
    intros j Hj. destruct (Nat.eq_dec (Z.to_nat i) j) as [<- | Hne].
    + rewrite set_nth_same by lia. split; [exact Hm6 | apply Hip].
    + rewrite set_nth_other by exact Hne. apply Hwf. lia.
  - split; [apply repeat_length | intros j Hj; lia].
  - exists pool, w'. split; [exact Hrun|]. split; [unfold pcapgen.len; lia|].
    apply Forall_forall. intros h Hin.
    destruct (In_nth pool h pcapgen.zero_host Hin) as (j & Hj & <-).
    apply Hwf. lia.
Qed.

Lemma buildPools_flows (cfg : pcapgen.Config) (w : pcapgen.world R) :
  0 < pcapgen.FlowCount cfg ->
  0 <= pcapgen.InternalHosts cfg <= 65536 ->
  0 <= pcapgen.ExternalHosts cfg <= 16777216 ->
  exists internal external w',
    pcapgen.buildPools R cfg w = (Ok (internal, external), w')
    /\ pcapgen.len internal = pcapgen.InternalHosts cfg
    /\ pcapgen.len external = pcapgen.ExternalHosts cfg
    /\ Forall wf_host internal /\ Forall wf_host external.
Proof.
  intros HF HI HE. unfold pcapgen.buildPools.
  replace (pcapgen.FlowCount cfg >? 0) with true by (symmetry; apply Z.gtb_lt; lia).
  replace (pcapgen.InternalHosts cfg >? 65536) with false
    by (symmetry; rewrite Z.gtb_ltb; apply Z.ltb_ge; lia).
  replace (pcapgen.ExternalHosts cfg >? 16777216) with false
    by (symmetry; rewrite Z.gtb_ltb; apply Z.ltb_ge; lia).
  destruct (fill_pool pcapgen.uniqueInternalIPv4 (pcapgen.InternalHosts cfg) w
              ltac:(lia) ltac:(reflexivity)) as (internal & w1 & H1 & Hl1 & Hw1).
  destruct (fill_pool pcapgen.uniqueExternalIPv4 (pcapgen.ExternalHosts cfg) w1
              ltac:(lia) ltac:(reflexivity)) as (external & w2 & H2 & Hl2 & Hw2).
  unfold pcapgen.bindM at 1. rewrite H1.
  unfold pcapgen.bindM at 1. rewrite H2. unfold pcapgen.ret.
  exists internal, external, w2. auto.
Qed.

Lemma randomDuration_ok (min max : Z) (w : pcapgen.world R) :
  0 < min <= max -> max <= max_int ->
  exists d w', pcapgen.randomDuration R min max w = (Ok d, w')
               /\ pcapgen.w_file w' = pcapgen.w_file w
               /\ min <= d <= max.
Proof.
  intros Hmin Hmax. unfold max_int in Hmax. unfold pcapgen.randomDuration.
  destruct (min =? max) eqn:Heq.
  - unfold pcapgen.ret. eexists; eexists. split; [reflexivity|]. split; [reflexivity|lia].
  - apply Z.eqb_neq in Heq.
    assert (Hd : sub64 max min = max - min)
      by (unfold sub64; apply wrap_id, in_int_bounds; lia).
    rewrite Hd. unfold pcapgen.bindM.
    pose proof (keeps_Int63n R (max - min) w) as Hk.
    pose proof (pcapgen.Int63n_range R (pcapgen.w_rand w) (max - min) ltac:(lia)) as Hv.
    unfold pcapgen.Int63n in *.
    replace (max - min <=? 0) with false in * by (symmetry; apply Z.leb_gt; lia).
    destruct (pcapgen.rand_Int63n R (pcapgen.w_rand w) (max - min)) as [v r].
    cbn [fst] in Hv.
    unfold pcapgen.ret. eexists; eexists. split; [reflexivity|].
    split; [exact (Hk _ _ eq_refl)|].
    unfold add64. rewrite wrap_id by (apply in_int_bounds; lia). lia.
Qed.

End Pools.

Lemma validate_None (cfg : pcapgen.Config) :
  pcapgen.validate cfg = None ->
  0 < pcapgen.InternalHosts cfg /\ 0 < pcapgen.ExternalHosts cfg
  /\ pcapgen.FileCount cfg = 1
  /\ 0 < pcapgen.MinDuration cfg <= pcapgen.MaxDuration cfg
  /\ 0 < pcapgen.ExactBytes cfg
  /\ 0 <= pcapgen.FlowCount cfg
  /\ (0 < pcapgen.FlowCount cfg -> 0 < pcapgen.PacketsPerFlow cfg).
Proof.
  unfold pcapgen.validate.
  destruct (_ || _) eqn:Hh; [discriminate|].
  destruct (pcapgen.FileCount cfg <=? 0) eqn:Hfc; [discriminate|].
  destruct (negb (String.eqb _ _) && _) eqn:Hout; [discriminate|].
  destruct ((pcapgen.ExactBytes cfg >? 0) && _) eqn:Hex; [discriminate|].
  destruct (_ || _ || _) eqn:Hd; [discriminate|].
  destruct (pcapgen.ExactBytes cfg <=? 0) eqn:Hx; [discriminate|].
  destruct (pcapgen.FlowCount cfg <? 0) eqn:Hfl; [discriminate|].
  destruct ((pcapgen.FlowCount cfg >? 0) && _) eqn:Hp; [discriminate|].
  intros _.
  apply orb_false_elim in Hh. destruct Hh as [HI HE].
  apply orb_false_elim in Hd. destruct Hd as [Hd Hd3].
  apply orb_false_elim in Hd. destruct Hd as [Hd1 Hd2].
  apply Z.leb_gt in HI, HE, Hfc, Hd1, Hd2, Hx. apply Z.ltb_ge in Hd3, Hfl.
  replace (pcapgen.ExactBytes cfg >? 0) with true in Hex
    by (symmetry; apply Z.gtb_lt; lia).
  cbn [andb] in Hex. apply negb_false_iff, Z.eqb_eq in Hex.
  repeat split; lia.
Qed.

(** C1. Fixed-flow generation ([flowCount > 0], hence [packetsPerFlow > 0])
    of a valid configuration, with a flow count within the capacity
    [2 * internal * external] of its pools and an exact target size of at
    least the base size [24 + 78 * flowCount * packetsPerFlow]: [Generate]
    returns without error and leaves one file; the file holds exactly
    [flowCount * packetsPerFlow] packets, its byte length is the exact
    target size, and every frame is the bare 62 bytes except the last packet
    of the last flow, which carries all the padding. *)
Theorem Generate_fixed_flow_exact_size {F : Type} {ops : Float64 F}
    (R : pcapgen.RandSource) (cfg : pcapgen.Config) :
  pcapgen.validate cfg = None ->
  0 < pcapgen.FlowCount cfg ->
  pcapgen.InternalHosts cfg <= 65536 -> pcapgen.ExternalHosts cfg <= 16777216 ->
  pcapgen.FlowCount cfg <= 2 * pcapgen.InternalHosts cfg * pcapgen.ExternalHosts cfg ->
  24 + 78 * (pcapgen.FlowCount cfg * pcapgen.PacketsPerFlow cfg) <= pcapgen.ExactBytes cfg ->
  pcapgen.ExactBytes cfg <= max_int -> pcapgen.MaxDuration cfg <= max_int ->
  exists f,
    pcapgen.Generate R cfg = (Ok tt, [(pcapgen.outPath cfg 0, f)])
    /\ pcapgen.len (pcapgen.packets f)
       = pcapgen.FlowCount cfg * pcapgen.PacketsPerFlow cfg
    /\ pcapgen.len (pcapgen.file_bytes f) = pcapgen.ExactBytes cfg
    /\ frame_lengths f
       = repeat 62 (Z.to_nat (pcapgen.FlowCount cfg * pcapgen.PacketsPerFlow cfg - 1))
           ++ [62 + (pcapgen.ExactBytes cfg
                     - (24 + 78 * (pcapgen.FlowCount cfg * pcapgen.PacketsPerFlow cfg)))].
Proof.
  intros Hval HF HI HE Hcap Hbase Hmax Hdmax.
  destruct (validate_None cfg Hval) as (HI0 & HE0 & Hfc & Hdur & Hx & _ & HP).
  specialize (HP HF).
  unfold pcapgen.Generate. rewrite Hval.
  destruct (buildPools_flows R cfg
              {| pcapgen.w_rand := pcapgen.NewSource R (pcapgen.Seed cfg);
                 pcapgen.w_file := [] |} HF ltac:(lia) ltac:(lia))
    as (internal & external & w1 & Hpools & Hl1 & Hl2 & Hw1 & Hw2).
  rewrite Hpools, Hfc. change (Z.to_nat 1) with 1%nat.
  cbn [pcapgen.generateFiles].
  unfold pcapgen.bindM at 1. unfold pcapgen.fileDuration.
  unfold pcapgen.bindM at 1.
  destruct (randomDuration_ok R (pcapgen.MinDuration cfg) (pcapgen.MaxDuration cfg)
              {| pcapgen.w_rand := pcapgen.w_rand w1; pcapgen.w_file := [] |}
              Hdur Hdmax) as (dur & w2 & Hrd & Hfile2 & _).
  rewrite Hrd, Hfc. change (1 >? 1) with false. cbv iota. unfold pcapgen.ret at 1.
  replace (pcapgen.FlowCount cfg >? 0) with true by (symmetry; apply Z.gtb_lt; lia).
  destruct (createPcapFileFlows_exact R (pcapgen.outPath cfg 0) (pcapgen.StartTime cfg)
              dur cfg (pcapgen.ExactBytes cfg) internal external w2 HF HP Hw1 Hw2)
    as (w3 & Hrun & Hcount & Hbytes & Hlens).
  - rewrite Hl1, Hl2. unfold max_int.
    pose proof (Z.mul_le_mono_nonneg (pcapgen.InternalHosts cfg) 65536
                  (pcapgen.ExternalHosts cfg) 16777216
                  ltac:(lia) HI ltac:(lia) HE).
    lia.
  - rewrite Hl1, Hl2. exact Hcap.
  - exact Hbase.
  - exact Hmax.
  - exact Hfile2.
  - unfold pcapgen.bindM. rewrite Hrun. unfold pcapgen.ret. cbn [app].
    exists (pcapgen.w_file w3). auto.
Qed.

Lemma Generate_fixed_flow_exact_size_witness :
  exists f,
    pcapgen.Generate (F := float) lcg scenario = (Ok tt, [(pcapgen.outPath scenario 0, f)])
    /\ pcapgen.len (pcapgen.packets f) = 50 * 1
    /\ pcapgen.len (pcapgen.file_bytes f) = 3924
    /\ frame_lengths f = repeat 62 (Z.to_nat (50 * 1 - 1)) ++ [62 + (3924 - (24 + 78 * (50 * 1)))].
Proof.
  apply (Generate_fixed_flow_exact_size (F := float) lcg scenario);
    try reflexivity; discriminate.
Defined.

(** ** Timestamps of a generated file *)

(** Every file [Generate] leaves has its records in time order, in both
    modes and also when the run ends in an error. *)
Lemma Generate_sorted (R : pcapgen.RandSource) (cfg : pcapgen.Config) :
  pcapgen.validate cfg = None ->
  pcapgen.MaxDuration cfg <= 10 ^ 8 * pcapgen.Second ->
  - 2 ^ 41 <= pcapgen.Time_Unix (pcapgen.StartTime cfg) <= 2 ^ 41 ->
  pcapgen.ExactBytes cfg <= 10 ^ 16 ->
  pcapgen.FlowCount cfg * pcapgen.PacketsPerFlow cfg <= 10 ^ 15 ->
  Forall (fun pf => nondecreasing (pcapgen.timestamps (snd pf)) = true)
         (snd (pcapgen.Generate (F := float) R cfg)).
Proof.
  intros Hval Hdmax Hstart Hx HN.
  destruct (validate_None cfg Hval) as (HI0 & HE0 & Hfc & Hdur & Hx0 & HF0 & HP).
  unfold pcapgen.Generate. rewrite Hval.
  destruct (pcapgen.buildPools R cfg _) as [[[internal external]|e] w1];
    [|constructor].
  rewrite Hfc. change (Z.to_nat 1) with 1%nat. cbn [pcapgen.generateFiles].
  unfold pcapgen.bindM at 1. unfold pcapgen.fileDuration. unfold pcapgen.bindM at 1.
  destruct (randomDuration_ok R (pcapgen.MinDuration cfg) (pcapgen.MaxDuration cfg)
              {| pcapgen.w_rand := pcapgen.w_rand w1; pcapgen.w_file := [] |}
              Hdur ltac:(unfold max_int, pcapgen.Second in *; lia))
    as (dur & w2 & Hrd & Hfile2 & Hrange).
  rewrite Hrd, Hfc. change (1 >? 1) with false. cbv iota. unfold pcapgen.ret at 1.
  cbn [pcapgen.w_file] in Hfile2.
  assert (Hfresh : pcapgen.timestamps (pcapgen.w_file w2) = []) by now rewrite Hfile2.
  unfold pcapgen.bindM.
  destruct (pcapgen.FlowCount cfg >? 0) eqn:Hflow.
  - apply Z.gtb_lt in Hflow.
    pose proof (createPcapFileFlows_sorted R (pcapgen.outPath cfg 0) (pcapgen.StartTime cfg)
                  dur cfg (pcapgen.ExactBytes cfg) internal external w2 Hflow (HP Hflow) HN
                  ltac:(unfold in_int, min_int, max_int, pcapgen.Second in *; lia) Hfresh)
      as Hs.
    destruct (pcapgen.createPcapFileFlows R _ _ _ _ _ _ _ w2) as [[[]|e] w3];
      cbn [snd pcapgen.ret app] in *; repeat constructor; exact Hs.
  - pose proof (createPcapFile_sorted (F := float) R (pcapgen.outPath cfg 0)
                  (pcapgen.StartTime cfg) dur (pcapgen.MaxSizeBytes cfg)
                  (pcapgen.ExactBytes cfg) internal external w2 IEEE_gap_law Hstart) as Hs.
    pose proof (IEEE_Seconds_range dur ltac:(lia)) as Hsec.
    specialize (Hs ltac:(cbn [to_int IEEE_Float64]; lia) Hx ltac:(lia) Hfresh).
    destruct (pcapgen.createPcapFile R _ _ _ _ _ _ _ w2) as [[[]|e] w3];
      cbn [snd pcapgen.ret app] in *; repeat constructor; exact Hs.
Qed.

(** C8, as the code has it.  The record timestamps of a file are written in
    non-decreasing order, in fixed-flow mode and in random mode (exact-size
    and max-size loops alike, across every carry of the offset into the
    second counter, in binary64 arithmetic), whatever the generator draws
    and whether or not the run ends in an error, as long as the time cursor
    stays within 64 bits: at most [10^15] packets in fixed-flow mode; in
    random mode a start within [2^41] seconds of the epoch, a duration of at
    most [10^8] seconds and sizes of at most [10^16] bytes.  This holds of
    every file a run of [Generate] leaves, and of the two file writers on
    any fresh file. *)
Theorem timestamps_nondecreasing (R : pcapgen.RandSource) :
  (forall cfg : pcapgen.Config,
     pcapgen.validate cfg = None ->
     pcapgen.MaxDuration cfg <= 10 ^ 8 * pcapgen.Second ->
     - 2 ^ 41 <= pcapgen.Time_Unix (pcapgen.StartTime cfg) <= 2 ^ 41 ->
     pcapgen.ExactBytes cfg <= 10 ^ 16 ->
     pcapgen.FlowCount cfg * pcapgen.PacketsPerFlow cfg <= 10 ^ 15 ->
     Forall (fun pf => nondecreasing (pcapgen.timestamps (snd pf)) = true)
            (snd (pcapgen.Generate (F := float) R cfg)))
  /\ (forall (path : string) (start duration : Z) (cfg : pcapgen.Config) (exactBytes : Z)
             (internal external : list pcapgen.host) (w : pcapgen.world R),
        pcapgen.timestamps (pcapgen.w_file w) = [] ->
        0 < pcapgen.FlowCount cfg -> 0 < pcapgen.PacketsPerFlow cfg ->
        pcapgen.FlowCount cfg * pcapgen.PacketsPerFlow cfg <= 10 ^ 15 ->
        in_int duration ->
        nondecreasing
          (pcapgen.timestamps
             (pcapgen.w_file
                (snd (pcapgen.createPcapFileFlows R path start duration cfg exactBytes
                        internal external w)))) = true)
  /\ (forall (path : string) (start duration maxSize exactBytes : Z)
             (internal external : list pcapgen.host) (w : pcapgen.world R),
        pcapgen.timestamps (pcapgen.w_file w) = [] ->
        - 2 ^ 41 <= pcapgen.Time_Unix start <= 2 ^ 41 ->
        0 <= duration <= 10 ^ 8 * pcapgen.Second ->
        exactBytes <= 10 ^ 16 ->
        (exactBytes <= 0 -> - 10 ^ 16 <= maxSize <= 10 ^ 16) ->
        nondecreasing
          (pcapgen.timestamps
             (pcapgen.w_file
                (snd (pcapgen.createPcapFile (F := float) R path start duration maxSize
                        exactBytes internal external w)))) = true).
Proof.
  split; [|split].
  - intros cfg. apply Generate_sorted.
  - intros path start duration cfg exactBytes internal external w Hfresh HF HP HN Hdur.
    now apply createPcapFileFlows_sorted.
  - intros path start duration maxSize exactBytes internal external w Hfresh Hs HD Hx Hm.
    apply createPcapFile_sorted; try assumption.
    + exact IEEE_gap_law.
    + pose proof (IEEE_Seconds_range duration HD) as Hsec.
      cbn [to_int IEEE_Float64]. lia.
Qed.

Lemma timestamps_nondecreasing_witness :
  Forall (fun pf => nondecreasing (pcapgen.timestamps (snd pf)) = true)
         (snd (pcapgen.Generate (F := float) lcg scenario))
  /\ Forall (fun pf => nondecreasing (pcapgen.timestamps (snd pf)) = true)
            (snd (pcapgen.Generate (F := float) lcg out_file_exact))
  /\ nondecreasing
       (pcapgen.timestamps
          (pcapgen.w_file
             (snd (pcapgen.createPcapFile (F := float) lcg "generated_0000.pcap"
                     (pcapgen.StartTime scenario) (60 * pcapgen.Second) 1000 0
                     (pool10 pcapgen.uniqueInternalIPv4) (pool10 pcapgen.uniqueExternalIPv4)
                     (pcapgen.Build_world (R := lcg) 1 []))))) = true.
Proof.
  destruct (timestamps_nondecreasing lcg) as (Hgen & _ & Hrandom).
  split; [|split].
  - apply Hgen; [reflexivity | discriminate | split; discriminate
                | discriminate | discriminate].
  - apply Hgen; [reflexivity | discriminate | split; discriminate
                | discriminate | discriminate].
  - apply Hrandom; [reflexivity | split; discriminate | split; discriminate
                   | discriminate | intros _; split; discriminate].
Defined.

(** C8, as stated, fails when the offset leaves 64 bits: the gaps drawn for
    a very long capture add up to more than [2^63 / 1000] microseconds, the
    product [offsetUsec * 1000] wraps, and the last record is stamped before
    the one it follows. *)
Lemma timestamps_decrease_on_overflow :
  pcapgen.validate long_capture = None
  /\ in_int (pcapgen.MaxDuration long_capture)
  /\ fst (pcapgen.Generate (F := float) lcg long_capture) = Ok tt
  /\ map (fun pf => nondecreasing (pcapgen.timestamps (snd pf)))
         (snd (pcapgen.Generate (F := float) lcg long_capture)) = [false]
  /\ map (fun pf => skipn 6 (pcapgen.timestamps (snd pf)))
         (snd (pcapgen.Generate (F := float) lcg long_capture))
     = [[10262202463604087000; -5084538981408664616]]
  /\ map (fun pf => nondecreasing (pcapgen.timestamps (snd pf)))
         (snd (pcapgen.Generate (F := Q) lcg long_capture)) = [false].
Proof.
  split; [reflexivity|]. split; [split; discriminate|].
  repeat split; vm_compute; reflexivity.
Qed.

(** * Further properties of the code *)

(** ** The hosts of a run *)

Lemma byte_range (x : Z) : 0 <= byte x < 256.
Proof. unfold byte. apply Z.mod_pos_bound. lia. Qed.

Section PoolContents.
Context (R : pcapgen.RandSource).

Lemma randomMAC_octets (w : pcapgen.world R) :
  exists m w', pcapgen.randomMAC R w = (Ok m, w')
               /\ pcapgen.w_file w' = pcapgen.w_file w
               /\ pcapgen.len m = 6 /\ octets m.
Proof.
  unfold pcapgen.randomMAC.
  destruct (Intn_ok R 256 w ltac:(lia)) as (b0 & w0 & H0 & _ & F0).
  destruct (Intn_ok R 256 w0 ltac:(lia)) as (b1 & w1 & H1 & _ & F1).
  destruct (Intn_ok R 256 w1 ltac:(lia)) as (b2 & w2 & H2 & _ & F2).
  destruct (Intn_ok R 256 w2 ltac:(lia)) as (b3 & w3 & H3 & _ & F3).
  destruct (Intn_ok R 256 w3 ltac:(lia)) as (b4 & w4 & H4 & _ & F4).
  destruct (Intn_ok R 256 w4 ltac:(lia)) as (b5 & w5 & H5 & _ & F5).
  unfold pcapgen.bindM. rewrite H0, H1, H2, H3, H4, H5. unfold pcapgen.ret.
  eexists; eexists; split; [reflexivity|].
  split; [congruence|]. split; [reflexivity|].
  repeat constructor; apply byte_range.
Qed.

Lemma randomIPv4_ok (prefix : list Z) (w : pcapgen.world R) :
  exists a b c d w',
    pcapgen.randomIPv4 R prefix w = (Ok [a; b; c; d], w')
    /\ pcapgen.w_file w' = pcapgen.w_file w
    /\ octets [a; b; c; d]
    /\ match prefix with
       | [] => 1 <= a
       | [p0] => a = byte p0
       | p0 :: p1 :: _ => a = byte p0 /\ b = byte p1
       end.
Proof.
  unfold pcapgen.randomIPv4.
  destruct prefix as [|p0 [|p1 rest]].
  - destruct (Intn_ok R 255 w ltac:(lia)) as (v0 & w0 & H0 & R0 & F0).
    destruct (Intn_ok R 256 w0 ltac:(lia)) as (v1 & w1 & H1 & R1 & F1).
    destruct (Intn_ok R 256 w1 ltac:(lia)) as (v2 & w2 & H2 & R2 & F2).
    destruct (Intn_ok R 256 w2 ltac:(lia)) as (v3 & w3 & H3 & R3 & F3).
    unfold pcapgen.bindM. rewrite H0. unfold pcapgen.ret. rewrite H1, H2, H3.
    do 5 eexists. split; [reflexivity|]. split; [congruence|].
    split; [repeat constructor; apply byte_range|].
    rewrite byte_small by lia. lia.
  - destruct (Intn_ok R 256 w ltac:(lia)) as (v1 & w1 & H1 & R1 & F1).
    destruct (Intn_ok R 256 w1 ltac:(lia)) as (v2 & w2 & H2 & R2 & F2).
    destruct (Intn_ok R 256 w2 ltac:(lia)) as (v3 & w3 & H3 & R3 & F3).
    unfold pcapgen.bindM, pcapgen.ret. rewrite H1, H2, H3.
    do 5 eexists. split; [reflexivity|]. split; [congruence|].
    split; [repeat constructor; apply byte_range|]. reflexivity.
  - destruct (Intn_ok R 256 w ltac:(lia)) as (v2 & w2 & H2 & R2 & F2).
    destruct (Intn_ok R 256 w2 ltac:(lia)) as (v3 & w3 & H3 & R3 & F3).
    unfold pcapgen.bindM, pcapgen.ret. rewrite H2, H3.
    do 5 eexists. split; [reflexivity|]. split; [congruence|].
    split; [repeat constructor; apply byte_range|]. split; reflexivity.
Qed.

(** Filling a pool by index: every turn stores one host at its index. *)
Lemma fill_pool_by (body : Z -> list pcapgen.host -> pcapgen.M R (list pcapgen.host))
    (Q : Z -> pcapgen.host -> Prop) (n : Z) (w : pcapgen.world R) :
  0 <= n ->
  (forall i pool w0, 0 <= i < n ->
     exists h w1, body i pool w0 = (Ok (set pool (Z.to_nat i) h), w1)
                  /\ Q i h /\ pcapgen.w_file w1 = pcapgen.w_file w0) ->
  exists pool w',
    pcapgen.for_loop R (Z.to_nat n) 0 body (make pcapgen.zero_host (Z.to_nat n)) w
    = (Ok pool, w')
    /\ pcapgen.len pool = n
    /\ (forall i, 0 <= i < n -> Q i (nth (Z.to_nat i) pool pcapgen.zero_host))
    /\ pcapgen.w_file w' = pcapgen.w_file w.
Proof.
  intros Hn Hbody.
  destruct (for_loop_ok R
    (fun i pool w0 =>
       List.length pool = Z.to_nat n
       /\ (forall j, 0 <= j < i -> Q j (nth (Z.to_nat j) pool pcapgen.zero_host))
       /\ pcapgen.w_file w0 = pcapgen.w_file w)
    body (Z.to_nat n) 0 (make pcapgen.zero_host (Z.to_nat n)) w)
    as (pool & w' & Hrun & Hlen & HQ & Hfile).
  - intros i pool w0 Hi (Hlen & HQ & Hfile).
    destruct (Hbody i pool w0 ltac:(lia)) as (h & w1 & -> & Hh & Hf1).
    eexists; eexists; split; [reflexivity|].
    split; [now rewrite set_length|]. split; [|congruence].
    intros j Hj. destruct (Z.eq_dec j i) as [-> | Hne].
    + rewrite set_nth_same by lia. exact Hh.
    + rewrite set_nth_other by lia. apply HQ. lia.
  - split; [apply repeat_length|]. split; [intros j Hj; lia | reflexivity].
  - exists pool, w'. split; [exact Hrun|]. split; [unfold pcapgen.len; lia|].
    split; [|exact Hfile]. intros i Hi. apply HQ. lia.
Qed.

End PoolContents.

Lemma NoDup_by_index {A B : Type} (d : A) (f : A -> B) (g : Z -> B) (l : list A) :
  (forall i, 0 <= i < pcapgen.len l -> f (nth (Z.to_nat i) l d) = g i) ->
  (forall i j, 0 <= i < pcapgen.len l -> 0 <= j < pcapgen.len l -> g i = g j -> i = j) ->
  NoDup (map f l).
Proof.
  intros Hnth Hinj. apply (NoDup_nth (map f l) (f d)).
  intros i j Hi Hj Heq. rewrite length_map in Hi, Hj. rewrite !map_nth in Heq.
  unfold pcapgen.len in *.
  pose proof (Hnth (Z.of_nat i) ltac:(lia)) as H1.
  pose proof (Hnth (Z.of_nat j) ltac:(lia)) as H2.
  rewrite Nat2Z.id in H1, H2.
  assert (Z.of_nat i = Z.of_nat j) by (apply Hinj; [lia | lia | congruence]). lia.
Qed.

Lemma internal_injective (i j : Z) :
  0 <= i < 65536 -> 0 <= j < 65536 ->
  pcapgen.uniqueInternalIPv4 i = pcapgen.uniqueInternalIPv4 j -> i = j.
Proof.
  intros Hi Hj Heq. rewrite !internal_bytes in Heq by lia. inversion Heq as [[H2 H3]].
  rewrite (Z.div_mod i 256), (Z.div_mod j 256) by lia. lia.
Qed.

Lemma external_injective (i j : Z) :
  0 <= i < 16777216 -> 0 <= j < 16777216 ->
  pcapgen.uniqueExternalIPv4 i = pcapgen.uniqueExternalIPv4 j -> i = j.
Proof.
  intros Hi Hj Heq. rewrite !external_bytes in Heq by lia. inversion Heq as [[H1 H2 H3]].
  pose proof (Z.div_mod i 256 ltac:(lia)) as Di.
  pose proof (Z.div_mod j 256 ltac:(lia)) as Dj.
  pose proof (Z.div_mod (i / 256) 256 ltac:(lia)) as Di'.
  pose proof (Z.div_mod (j / 256) 256 ltac:(lia)) as Dj'.
  rewrite Z.div_div in Di', Dj' by lia. change (256 * 256) with 65536 in *.
  lia.
Qed.

(** X1. The pools of fixed-flow mode, within the capacity of the two
    address blocks: host [i] of the internal pool has the address
    [uniqueInternalIPv4 i] and host [i] of the external pool the address
    [uniqueExternalIPv4 i], so no two hosts of a pool share an address; every
    link address is six octets. *)
Theorem buildPools_sequential (R : pcapgen.RandSource) (cfg : pcapgen.Config)
    (w : pcapgen.world R) :
  0 < pcapgen.FlowCount cfg ->
  0 <= pcapgen.InternalHosts cfg <= 65536 ->
  0 <= pcapgen.ExternalHosts cfg <= 16777216 ->
  exists internal external w',
    pcapgen.buildPools R cfg w = (Ok (internal, external), w')
    /\ addresses internal
       = map (fun i => pcapgen.uniqueInternalIPv4 (Z.of_nat i))
           (seq 0 (Z.to_nat (pcapgen.InternalHosts cfg)))
    /\ addresses external
       = map (fun i => pcapgen.uniqueExternalIPv4 (Z.of_nat i))
           (seq 0 (Z.to_nat (pcapgen.ExternalHosts cfg)))
    /\ NoDup (addresses internal) /\ NoDup (addresses external)
    /\ Forall (fun h => pcapgen.len (pcapgen.mac h) = 6 /\ octets (pcapgen.mac h))
         (internal ++ external).
Proof.
  intros HF HI HE. unfold pcapgen.buildPools.
  replace (pcapgen.FlowCount cfg >? 0) with true by (symmetry; apply Z.gtb_lt; lia).
  replace (pcapgen.InternalHosts cfg >? 65536) with false
    by (symmetry; rewrite Z.gtb_ltb; apply Z.ltb_ge; lia).
  replace (pcapgen.ExternalHosts cfg >? 16777216) with false
    by (symmetry; rewrite Z.gtb_ltb; apply Z.ltb_ge; lia).
  set (Q ipOf := fun (i : Z) (h : pcapgen.host) =>
         pcapgen.ip h = ipOf i /\ pcapgen.len (pcapgen.mac h) = 6 /\ octets (pcapgen.mac h)).
  assert (Hturn : forall (ipOf : Z -> list Z) n i pool w0, 0 <= i < n ->
            exists h w1,
              pcapgen.bindM R (pcapgen.randomMAC R)
                (fun m => pcapgen.ret R
                   (set pool (Z.to_nat i) {| pcapgen.mac := m; pcapgen.ip := ipOf i |})) w0
              = (Ok (set pool (Z.to_nat i) h), w1)
              /\ Q ipOf i h /\ pcapgen.w_file w1 = pcapgen.w_file w0).
  { intros ipOf n i pool w0 _.
    destruct (randomMAC_octets R w0) as (m & w1 & Hm & Hf & H6 & Ho).
    unfold pcapgen.bindM. rewrite Hm. unfold pcapgen.ret.
    eexists; eexists. split; [reflexivity|]. split; [|exact Hf].
    unfold Q. cbn. auto. }
  pose (fill ipOf := fun (i : Z) (pool : list pcapgen.host) =>
         pcapgen.bindM R (pcapgen.randomMAC R)
           (fun m => pcapgen.ret R
              (set pool (Z.to_nat i) {| pcapgen.mac := m; pcapgen.ip := ipOf i |}))).
  destruct (fill_pool_by R (fill pcapgen.uniqueInternalIPv4)
              (Q pcapgen.uniqueInternalIPv4) (pcapgen.InternalHosts cfg) w
              ltac:(lia) (Hturn pcapgen.uniqueInternalIPv4 _))
    as (internal & w1 & H1 & Hl1 & HQ1 & _).
  destruct (fill_pool_by R (fill pcapgen.uniqueExternalIPv4)
              (Q pcapgen.uniqueExternalIPv4) (pcapgen.ExternalHosts cfg) w1
              ltac:(lia) (Hturn pcapgen.uniqueExternalIPv4 _))
    as (external & w2 & H2 & Hl2 & HQ2 & _).
  unfold fill in H1, H2.
  unfold pcapgen.bindM at 1. rewrite H1.
  unfold pcapgen.bindM at 1. rewrite H2. unfold pcapgen.ret.
  exists internal, external, w2. split; [reflexivity|].
  assert (Hseq : forall (ipOf : Z -> list Z) n (pool : list pcapgen.host),
            pcapgen.len pool = n ->
            (forall i, 0 <= i < n -> Q ipOf i (nth (Z.to_nat i) pool pcapgen.zero_host)) ->
            addresses pool = map (fun i => ipOf (Z.of_nat i)) (seq 0 (Z.to_nat n))).
  { intros ipOf n pool Hl HQ. unfold addresses.
    apply (nth_ext _ _ (pcapgen.ip pcapgen.zero_host) (ipOf (Z.of_nat 0))).
    - rewrite !length_map, length_seq. unfold pcapgen.len in Hl. lia.
    - intros k Hk. rewrite length_map in Hk. unfold pcapgen.len in Hl.
      rewrite map_nth.
      rewrite (map_nth (fun i => ipOf (Z.of_nat i)) (seq 0 (Z.to_nat n)) 0%nat k).
      rewrite seq_nth by lia. cbn [Nat.add].
      destruct (HQ (Z.of_nat k) ltac:(lia)) as (Hip & _).
      now rewrite Nat2Z.id in Hip. }
  split; [exact (Hseq _ _ _ Hl1 HQ1)|]. split; [exact (Hseq _ _ _ Hl2 HQ2)|].
  split; [|split].
  - apply (NoDup_by_index pcapgen.zero_host pcapgen.ip pcapgen.uniqueInternalIPv4).
    + intros i Hi. rewrite Hl1 in Hi. apply (HQ1 i Hi).
    + intros i j Hi Hj. rewrite Hl1 in Hi, Hj. apply internal_injective; lia.
  - apply (NoDup_by_index pcapgen.zero_host pcapgen.ip pcapgen.uniqueExternalIPv4).
    + intros i Hi. rewrite Hl2 in Hi. apply (HQ2 i Hi).
    + intros i j Hi Hj. rewrite Hl2 in Hi, Hj. apply external_injective; lia.
  - apply Forall_app. split; apply Forall_forall; intros h Hin.
    + destruct (In_nth internal h pcapgen.zero_host Hin) as (j & Hj & <-).
      unfold pcapgen.len in Hl1.
      pose proof (HQ1 (Z.of_nat j) ltac:(lia)) as (_ & Hm). now rewrite Nat2Z.id in Hm.
    + destruct (In_nth external h pcapgen.zero_host Hin) as (j & Hj & <-).
      unfold pcapgen.len in Hl2.
      pose proof (HQ2 (Z.of_nat j) ltac:(lia)) as (_ & Hm). now rewrite Nat2Z.id in Hm.
Qed.

Lemma buildPools_sequential_witness :
  exists internal external w',
    pcapgen.buildPools lcg scenario (pcapgen.Build_world (R := lcg) 1 [])
    = (Ok (internal, external), w')
    /\ addresses internal
       = map (fun i => pcapgen.uniqueInternalIPv4 (Z.of_nat i)) (seq 0 (Z.to_nat 10))
    /\ addresses external
       = map (fun i => pcapgen.uniqueExternalIPv4 (Z.of_nat i)) (seq 0 (Z.to_nat 10))
    /\ NoDup (addresses internal) /\ NoDup (addresses external)
    /\ Forall (fun h => pcapgen.len (pcapgen.mac h) = 6 /\ octets (pcapgen.mac h))
         (internal ++ external).
Proof.
  apply (buildPools_sequential lcg scenario (pcapgen.Build_world (R := lcg) 1 []));
    [reflexivity | split; discriminate | split; discriminate].
Defined.

(** The pools of random mode: every address is drawn. *)
Lemma buildPools_random (R : pcapgen.RandSource) (cfg : pcapgen.Config)
    (w : pcapgen.world R) :
  pcapgen.FlowCount cfg <= 0 ->
  0 <= pcapgen.InternalHosts cfg -> 0 <= pcapgen.ExternalHosts cfg ->
  exists internal external w',
    pcapgen.buildPools R cfg w = (Ok (internal, external), w')
    /\ pcapgen.len internal = pcapgen.InternalHosts cfg
    /\ pcapgen.len external = pcapgen.ExternalHosts cfg
    /\ Forall (fun h => pcapgen.len (pcapgen.mac h) = 6 /\ octets (pcapgen.mac h)
                        /\ exists c d, pcapgen.ip h = [192; 168; c; d]
                                       /\ octets [c; d]) internal
    /\ Forall (fun h => pcapgen.len (pcapgen.mac h) = 6 /\ octets (pcapgen.mac h)
                        /\ exists a b c d, pcapgen.ip h = [a; b; c; d]
                                           /\ 1 <= a /\ octets [a; b; c; d]) external.
Proof.
  intros HF HI HE. unfold pcapgen.buildPools.
  replace (pcapgen.FlowCount cfg >? 0) with false
    by (symmetry; rewrite Z.gtb_ltb; apply Z.ltb_ge; lia).
  set (Q1 := fun (_ : Z) (h : pcapgen.host) =>
         pcapgen.len (pcapgen.mac h) = 6 /\ octets (pcapgen.mac h)
         /\ exists c d, pcapgen.ip h = [192; 168; c; d] /\ octets [c; d]).
  set (Q2 := fun (_ : Z) (h : pcapgen.host) =>
         pcapgen.len (pcapgen.mac h) = 6 /\ octets (pcapgen.mac h)
         /\ exists a b c d, pcapgen.ip h = [a; b; c; d] /\ 1 <= a /\ octets [a; b; c; d]).
  destruct (fill_pool_by R
              (fun i internal =>
                 pcapgen.bindM R (pcapgen.randomMAC R) (fun m =>
                 pcapgen.bindM R (pcapgen.randomIPv4 R [192; 168]) (fun a =>
                 pcapgen.ret R (set internal (Z.to_nat i)
                                  {| pcapgen.mac := m; pcapgen.ip := a |}))))
              Q1 (pcapgen.InternalHosts cfg) w ltac:(lia))
    as (internal & w1 & H1 & Hl1 & HQ1 & _).
  { intros i pool w0 _.
    destruct (randomMAC_octets R w0) as (m & w1 & Hm & Hf & H6 & Ho).
    destruct (randomIPv4_ok R [192; 168] w1) as (a & b & c & d & w2 & Ha & Hf2 & Hoc & Hp).
    unfold pcapgen.bindM. rewrite Hm, Ha. unfold pcapgen.ret.
    eexists; eexists. split; [reflexivity|]. split; [|congruence].
    unfold Q1. cbn [pcapgen.mac pcapgen.ip]. split; [exact H6|]. split; [exact Ho|].
    destruct Hp as [-> ->]. exists c, d. split; [reflexivity|].
    inversion Hoc as [|? ? _ Hoc1]; subst. inversion Hoc1; subst. assumption. }
  destruct (fill_pool_by R
              (fun i external =>
                 pcapgen.bindM R (pcapgen.randomMAC R) (fun m =>
                 pcapgen.bindM R (pcapgen.randomIPv4 R []) (fun a =>
                 pcapgen.ret R (set external (Z.to_nat i)
                                  {| pcapgen.mac := m; pcapgen.ip := a |}))))
              Q2 (pcapgen.ExternalHosts cfg) w1 ltac:(lia))
    as (external & w2 & H2 & Hl2 & HQ2 & _).
  { intros i pool w0 _.
    destruct (randomMAC_octets R w0) as (m & w1' & Hm & Hf & H6 & Ho).
    destruct (randomIPv4_ok R [] w1') as (a & b & c & d & w2 & Ha & Hf2 & Hoc & Hp).
    unfold pcapgen.bindM. rewrite Hm, Ha. unfold pcapgen.ret.
    eexists; eexists. split; [reflexivity|]. split; [|congruence].
    unfold Q2. cbn [pcapgen.mac pcapgen.ip]. split; [exact H6|]. split; [exact Ho|].
    exists a, b, c, d. auto. }
  unfold pcapgen.bindM at 1. rewrite H1.
  unfold pcapgen.bindM at 1. rewrite H2. unfold pcapgen.ret.
  exists internal, external, w2. split; [reflexivity|].
  split; [exact Hl1|]. split; [exact Hl2|].
  split; apply Forall_forall; intros h Hin.
  - destruct (In_nth internal h pcapgen.zero_host Hin) as (j & Hj & <-).
    unfold pcapgen.len in Hl1.
    pose proof (HQ1 (Z.of_nat j) ltac:(lia)) as Hm. now rewrite Nat2Z.id in Hm.
  - destruct (In_nth external h pcapgen.zero_host Hin) as (j & Hj & <-).
    unfold pcapgen.len in Hl2.
    pose proof (HQ2 (Z.of_nat j) ltac:(lia)) as Hm. now rewrite Nat2Z.id in Hm.
Qed.

(** X2. In fixed-flow mode a pool larger than its address block is refused
    before anything is drawn or created; the limits are sharp, the first
    index beyond each block has the address of index 0. *)
Theorem Generate_pool_capacity {F : Type} {ops : Float64 F} (R : pcapgen.RandSource)
    (cfg : pcapgen.Config) :
  pcapgen.validate cfg = None -> 0 < pcapgen.FlowCount cfg ->
  (65536 < pcapgen.InternalHosts cfg ->
   pcapgen.Generate R cfg
   = (Err (Error "internal-hosts exceeds 192.168.0.0/16 capacity (65536)"), []))
  /\ (pcapgen.InternalHosts cfg <= 65536 -> 16777216 < pcapgen.ExternalHosts cfg ->
      pcapgen.Generate R cfg
      = (Err (Error "external-hosts exceeds 10.0.0.0/8 capacity (16777216)"), []))
  /\ pcapgen.uniqueInternalIPv4 65536 = pcapgen.uniqueInternalIPv4 0
  /\ pcapgen.uniqueExternalIPv4 16777216 = pcapgen.uniqueExternalIPv4 0.
Proof.
  intros Hval HF. unfold pcapgen.Generate, pcapgen.buildPools. rewrite Hval.
  replace (pcapgen.FlowCount cfg >? 0) with true by (symmetry; apply Z.gtb_lt; lia).
  split; [|split; [|split; reflexivity]].
  - intros HI.
    replace (pcapgen.InternalHosts cfg >? 65536) with true
      by (symmetry; apply Z.gtb_lt; lia).
    reflexivity.
  - intros HI HE.
    replace (pcapgen.InternalHosts cfg >? 65536) with false
      by (symmetry; rewrite Z.gtb_ltb; apply Z.ltb_ge; lia).
    replace (pcapgen.ExternalHosts cfg >? 16777216) with true
      by (symmetry; apply Z.gtb_lt; lia).
    reflexivity.
Qed.

Lemma Generate_pool_capacity_witness :
  pcapgen.Generate (F := float) lcg (flow_run 65537 10 50 1 3924)
  = (Err (Error "internal-hosts exceeds 192.168.0.0/16 capacity (65536)"), [])
  /\ pcapgen.Generate (F := float) lcg (flow_run 10 16777217 50 1 3924)
     = (Err (Error "external-hosts exceeds 10.0.0.0/8 capacity (16777216)"), []).
Proof.
  split.
  - apply (Generate_pool_capacity (F := float) lcg (flow_run 65537 10 50 1 3924));
      reflexivity.
  - apply (Generate_pool_capacity (F := float) lcg (flow_run 10 16777217 50 1 3924));
      [reflexivity | reflexivity | discriminate | reflexivity].
Defined.

(** X3. The pools of a valid run in random mode ([flowCount = 0]): as many
    hosts as asked; every internal address is in 192.168.0.0/16, every
    external address has a first octet from 1 to 255, and every link address
    has six octets. *)
Theorem random_pools (R : pcapgen.RandSource) (cfg : pcapgen.Config) :
  pcapgen.validate cfg = None -> pcapgen.FlowCount cfg = 0 ->
  exists internal external w',
    pcapgen.buildPools R cfg
      {| pcapgen.w_rand := pcapgen.NewSource R (pcapgen.Seed cfg); pcapgen.w_file := [] |}
    = (Ok (internal, external), w')
    /\ pcapgen.len internal = pcapgen.InternalHosts cfg
    /\ pcapgen.len external = pcapgen.ExternalHosts cfg
    /\ Forall (fun h => pcapgen.len (pcapgen.mac h) = 6 /\ octets (pcapgen.mac h)
                        /\ exists c d, pcapgen.ip h = [192; 168; c; d]
                                       /\ octets [c; d]) internal
    /\ Forall (fun h => pcapgen.len (pcapgen.mac h) = 6 /\ octets (pcapgen.mac h)
                        /\ exists a b c d, pcapgen.ip h = [a; b; c; d]
                                           /\ 1 <= a /\ octets [a; b; c; d]) external.
Proof.
  intros Hval HF. destruct (validate_None cfg Hval) as (HI0 & HE0 & _).
  apply buildPools_random; lia.
Qed.

Lemma random_pools_witness :
  exists internal external w',
    pcapgen.buildPools lcg out_file_exact (pcapgen.Build_world (R := lcg) 7 [])
    = (Ok (internal, external), w')
    /\ pcapgen.len internal = 3
    /\ pcapgen.len external = 2
    /\ Forall (fun h => pcapgen.len (pcapgen.mac h) = 6 /\ octets (pcapgen.mac h)
                        /\ exists c d, pcapgen.ip h = [192; 168; c; d]
                                       /\ octets [c; d]) internal
    /\ Forall (fun h => pcapgen.len (pcapgen.mac h) = 6 /\ octets (pcapgen.mac h)
                        /\ exists a b c d, pcapgen.ip h = [a; b; c; d]
                                           /\ 1 <= a /\ octets [a; b; c; d]) external.
Proof.
  apply (random_pools lcg out_file_exact); reflexivity.
Defined.


(** ** The duration of a file *)

(** X4. [randomDuration] between two non-negative durations: equal bounds are
    returned without a draw; otherwise the result is at least [min] and
    strictly below [max]; bounds in the wrong order panic. *)
Theorem randomDuration_range (R : pcapgen.RandSource) (min max : Z) (w : pcapgen.world R) :
  0 <= min <= max_int -> 0 <= max <= max_int ->
  (min = max -> pcapgen.randomDuration R min max w = (Ok min, w))
  /\ (min < max ->
      exists d w', pcapgen.randomDuration R min max w = (Ok d, w')
                   /\ min <= d < max /\ pcapgen.w_file w' = pcapgen.w_file w)
  /\ (max < min ->
      pcapgen.randomDuration R min max w
      = (Err (Panic "invalid argument to Int63n"), w)).
Proof.
  intros Hmin Hmax. unfold max_int in *. unfold pcapgen.randomDuration.
  assert (Hd : sub64 max min = max - min)
    by (unfold sub64; apply wrap_id, in_int_bounds; lia).
  rewrite Hd.
  split; [|split].
  - intros ->. rewrite Z.eqb_refl. reflexivity.
  - intros Hlt. replace (min =? max) with false by (symmetry; apply Z.eqb_neq; lia).
    unfold pcapgen.bindM.
    pose proof (keeps_Int63n R (max - min) w) as Hk.
    pose proof (pcapgen.Int63n_range R (pcapgen.w_rand w) (max - min) ltac:(lia)) as Hv.
    unfold pcapgen.Int63n in *.
    replace (max - min <=? 0) with false in * by (symmetry; apply Z.leb_gt; lia).
    destruct (pcapgen.rand_Int63n R (pcapgen.w_rand w) (max - min)) as [v r].
    cbn [fst] in Hv.
    unfold pcapgen.ret. eexists; eexists. split; [reflexivity|].
    split; [|exact (Hk _ _ eq_refl)].
    unfold add64. rewrite wrap_id by (apply in_int_bounds; lia). lia.
  - intros Hlt. replace (min =? max) with false by (symmetry; apply Z.eqb_neq; lia).
    unfold pcapgen.bindM, pcapgen.Int63n.
    replace (max - min <=? 0) with true by (symmetry; apply Z.leb_le; lia).
    reflexivity.
Qed.

Lemma randomDuration_range_witness :
  (exists d w',
     pcapgen.randomDuration lcg (60 * pcapgen.Second) (120 * pcapgen.Second)
       (pcapgen.Build_world (R := lcg) 1 []) = (Ok d, w')
     /\ 60 * pcapgen.Second <= d < 120 * pcapgen.Second
     /\ pcapgen.w_file w' = [])
  /\ pcapgen.randomDuration lcg (120 * pcapgen.Second) (60 * pcapgen.Second)
       (pcapgen.Build_world (R := lcg) 1 [])
     = (Err (Panic "invalid argument to Int63n"), pcapgen.Build_world (R := lcg) 1 []).
Proof.
  split.
  - apply (randomDuration_range lcg (60 * pcapgen.Second) (120 * pcapgen.Second)
             (pcapgen.Build_world (R := lcg) 1 []));
      [split; discriminate | split; discriminate | reflexivity].
  - apply (randomDuration_range lcg (120 * pcapgen.Second) (60 * pcapgen.Second)
             (pcapgen.Build_world (R := lcg) 1 []));
      [split; discriminate | split; discriminate | reflexivity].
Defined.

(** ** The one file of a run *)

Section Runs.
Context {F : Type} {ops : Float64 F} (R : pcapgen.RandSource).

(** The one file of a valid run: the result and the file are what the
    writer of the mode makes of a fresh file, after the pools and the
    duration are drawn. *)
Lemma Generate_one (cfg : pcapgen.Config) :
  pcapgen.validate cfg = None ->
  pcapgen.MaxDuration cfg <= max_int ->
  forall internal external w1,
    pcapgen.buildPools R cfg
      {| pcapgen.w_rand := pcapgen.NewSource R (pcapgen.Seed cfg); pcapgen.w_file := [] |}
    = (Ok (internal, external), w1) ->
    exists dur w2,
      pcapgen.MinDuration cfg <= dur <= pcapgen.MaxDuration cfg
      /\ pcapgen.w_file w2 = []
      /\ pcapgen.Generate R cfg
         = let '(r, w3) :=
             (if pcapgen.FlowCount cfg >? 0 then
                pcapgen.createPcapFileFlows R (pcapgen.outPath cfg 0) (pcapgen.StartTime cfg)
                  dur cfg (pcapgen.ExactBytes cfg) internal external
              else
                pcapgen.createPcapFile R (pcapgen.outPath cfg 0) (pcapgen.StartTime cfg)
                  dur (pcapgen.MaxSizeBytes cfg) (pcapgen.ExactBytes cfg)
                  internal external) w2 in
           (r, [(pcapgen.outPath cfg 0, pcapgen.w_file w3)]).
Proof.
  intros Hval Hdmax internal external w1 Hpools.
  destruct (validate_None cfg Hval) as (HI0 & HE0 & Hfc & Hdur & Hx & _ & HP).
  unfold pcapgen.Generate. rewrite Hval, Hpools, Hfc. change (Z.to_nat 1) with 1%nat.
  cbn [pcapgen.generateFiles].
  unfold pcapgen.bindM at 1. unfold pcapgen.fileDuration.
  unfold pcapgen.bindM at 1.
  destruct (randomDuration_ok R (pcapgen.MinDuration cfg) (pcapgen.MaxDuration cfg)
              {| pcapgen.w_rand := pcapgen.w_rand w1; pcapgen.w_file := [] |}
              Hdur Hdmax) as (dur & w2 & Hrd & Hfile2 & Hrange).
  rewrite Hrd, Hfc. change (1 >? 1) with false. cbv iota. unfold pcapgen.ret at 1.
  exists dur, w2. split; [exact Hrange|]. split; [exact Hfile2|].
  unfold pcapgen.bindM.
  destruct (pcapgen.FlowCount cfg >? 0).
  - destruct (pcapgen.createPcapFileFlows R _ _ _ _ _ _ _ w2) as [[[]|e] w3];
      reflexivity.
  - destruct (pcapgen.createPcapFile R _ _ _ _ _ _ _ w2) as [[[]|e] w3];
      reflexivity.
Qed.

End Runs.

(** [filepath.Clean] on examples of each of its rules: slashes are merged,
    "." is dropped, ".." takes the element before it with it, is dropped at
    the root and kept at the head of a relative path, a trailing slash is
    dropped, and the empty path is ".". *)
Lemma Clean_rules :
  map pcapgen.Clean
    [""; "."; "abc"; "abc/def"; "/abc"; "/"; "abc/"; "./"; "../"; "/abc/";
     "abc//def//ghi"; "//abc"; "abc/./def"; "/./abc/def"; "abc/.";
     "abc/def/ghi/../jkl"; "abc/def/../ghi/../jkl"; "abc/def/.."; "abc/def/../..";
     "/abc/def/../.."; "abc/def/../../.."; "/abc/def/../../..";
     "abc/def/../../../ghi/jkl/../../../mno"; "/../abc"; "abc/./../def";
     "abc/../../././../def"; ".."; "../.."; "../../abc"]%string
  = [".";  "."; "abc"; "abc/def"; "/abc"; "/"; "abc"; "."; ".."; "/abc";
     "abc/def/ghi"; "/abc"; "abc/def"; "/abc/def"; "abc";
     "abc/def/jkl"; "abc/jkl"; "abc"; ".";
     "/"; ".."; "/";
     "../../mno"; "/abc"; "def";
     "../../def"; ".."; "../.."; "../../abc"]%string
  /\ map pcapgen.Join [["a"; "b"]; ["a"; ""]; [""; "b"]; [""; ""]; ["/"; "a"]; ["a"; "/b"]]%string
     = ["a/b"; "a"; "b"; ""; "/a"; "a/b"]%string.
Proof. split; vm_compute; reflexivity. Qed.

(** X5. A run of [Generate] leaves at most one file, whatever the
    configuration and whether or not the run fails; it is the out-file as
    given, or what [filepath.Join] makes of the out-dir and
    [generated_0000.pcap] when no out-file is named: the file in the working
    directory when the out-dir is empty or ".", in the out-dir otherwise,
    under its cleaned path.  The numbered names of a multi-file run are
    never used. *)
Theorem Generate_at_most_one_file {F : Type} {ops : Float64 F} (R : pcapgen.RandSource)
    (cfg : pcapgen.Config) :
  (List.length (snd (pcapgen.Generate R cfg)) <= 1)%nat
  /\ (forall pf, In pf (snd (pcapgen.Generate R cfg)) ->
        fst pf = (if String.eqb (pcapgen.OutFile cfg) "" then
                    pcapgen.Join [pcapgen.OutDir cfg; "generated_0000.pcap"%string]
                  else pcapgen.OutFile cfg))
  /\ map (fun dir => pcapgen.Join [dir; "generated_0000.pcap"%string])
       [""; "."; "out"; "out/"; "./out"; "/"; "/tmp//pcaps/"; "a/../b"; ".."; "/.."]%string
     = ["generated_0000.pcap"; "generated_0000.pcap"; "out/generated_0000.pcap";
        "out/generated_0000.pcap"; "out/generated_0000.pcap"; "/generated_0000.pcap";
        "/tmp/pcaps/generated_0000.pcap"; "b/generated_0000.pcap";
        "../generated_0000.pcap"; "/generated_0000.pcap"]%string.
Proof.
  assert (Hnames :
    map (fun dir => pcapgen.Join [dir; "generated_0000.pcap"%string])
      [""; "."; "out"; "out/"; "./out"; "/"; "/tmp//pcaps/"; "a/../b"; ".."; "/.."]%string
    = ["generated_0000.pcap"; "generated_0000.pcap"; "out/generated_0000.pcap";
       "out/generated_0000.pcap"; "out/generated_0000.pcap"; "/generated_0000.pcap";
       "/tmp/pcaps/generated_0000.pcap"; "b/generated_0000.pcap";
       "../generated_0000.pcap"; "/generated_0000.pcap"]%string)
    by (vm_compute; reflexivity).
  destruct (pcapgen.validate cfg) as [e|] eqn:Hval.
  - rewrite (Generate_rejected R cfg e Hval). cbn [snd List.length In].
    split; [lia|]. split; [contradiction | exact Hnames].
  - destruct (validate_None cfg Hval) as (_ & _ & Hfc & _).
    assert (Hpath : pcapgen.outPath cfg 0
                    = if String.eqb (pcapgen.OutFile cfg) "" then
                        pcapgen.Join [pcapgen.OutDir cfg; "generated_0000.pcap"%string]
                      else pcapgen.OutFile cfg).
    { unfold pcapgen.outPath. rewrite Hfc. reflexivity. }
    unfold pcapgen.Generate. rewrite Hval.
    destruct (pcapgen.buildPools R cfg _) as [[[internal external]|e] w1];
      [|cbn [snd List.length In]; split; [lia|]; split; [contradiction | exact Hnames]].
    rewrite Hfc. change (Z.to_nat 1) with 1%nat. cbn [pcapgen.generateFiles].
    match goal with
    | |- context [pcapgen.bindM R ?m ?k ?w] =>
        destruct (pcapgen.bindM R m k w) as [[dur|e] w2]
    end; cbn [pcapgen.generateFiles snd app List.length In]; (split; [lia|]);
      (split; [|exact Hnames]); intros pf [<- | []]; exact Hpath.
Qed.

(** ** Random mode: the size of the file *)

Lemma padded_file_step (N extra k : Z) (f : pcapgen.file) (ci : pcapgen.CaptureInfo)
    (data : list Z) :
  0 <= k < N ->
  padded_file N extra k f ->
  pcapgen.len data = 62 + (if k =? N - 1 then extra else 0) ->
  padded_file N extra (k + 1) (f ++ [pcapgen.PacketRecord ci data]).
Proof.
  intros Hk (Hl & Hb) Hd.
  replace (k <? N) with true in * by (symmetry; apply Z.ltb_lt; lia).
  assert (Hs : Z.to_nat (k + 1) = S (Z.to_nat k)) by lia.
  unfold padded_file. rewrite frame_lengths_app, file_bytes_app, len_app.
  rewrite Hl, Hb, len_record, Hd.
  unfold frame_lengths, pcapgen.packets.
  cbn [flat_map map app snd fst]. rewrite Hd.
  split.
  - destruct (k =? N - 1) eqn:Hlast.
    + apply Z.eqb_eq in Hlast.
      replace (k + 1 <? N) with false by (symmetry; apply Z.ltb_ge; lia).
      now replace (N - 1) with k by lia.
    + apply Z.eqb_neq in Hlast.
      replace (k + 1 <? N) with true by (symmetry; apply Z.ltb_lt; lia).
      rewrite Hs. replace (62 + 0) with 62 by lia.
      change [62] with (repeat 62 1). rewrite <- repeat_app.
      now replace (Z.to_nat k + 1)%nat with (S (Z.to_nat k)) by lia.
  - destruct (k =? N - 1) eqn:Hlast.
    + apply Z.eqb_eq in Hlast.
      replace (k + 1 <? N) with false by (symmetry; apply Z.ltb_ge; lia). lia.
    + apply Z.eqb_neq in Hlast.
      replace (k + 1 <? N) with true by (symmetry; apply Z.ltb_lt; lia). lia.
Qed.

Lemma createPacket_ok (R : pcapgen.RandSource) (internal external : list pcapgen.host)
    (n : Z) (w : pcapgen.world R) :
  0 < pcapgen.len internal -> 0 < pcapgen.len external ->
  Forall wf_host internal -> Forall wf_host external ->
  exists data w', pcapgen.createPacket R internal external n w = (Ok data, w').
Proof.
  intros HI HE Hwi Hwe. unfold pcapgen.createPacket.
  destruct (Intn_ok R 2 w ltac:(lia)) as (b & w0 & Hb & _ & _).
  unfold pcapgen.bindM at 1. rewrite Hb.
  destruct (b =? 1).
  - destruct (Intn_ok R _ w0 HI) as (i & w1 & Hi & Hir & _).
    destruct (index_ok internal i Hir) as (src & Hsrc & Hin1).
    destruct (Intn_ok R _ w1 HE) as (e & w2 & He & Her & _).
    destruct (index_ok external e Her) as (dst & Hdst & Hin2).
    destruct (buildFrame_ok R src dst n w2) as (data & w3 & Hd & _).
    { exact (proj1 (Forall_forall _ _) Hwi _ Hin1). }
    { exact (proj1 (Forall_forall _ _) Hwe _ Hin2). }
    unfold pcapgen.bindM, pcapgen.lift. rewrite Hi, Hsrc, He, Hdst, Hd.
    eexists; eexists; reflexivity.
  - destruct (Intn_ok R _ w0 HE) as (e & w1 & He & Her & _).
    destruct (index_ok external e Her) as (src & Hsrc & Hin1).
    destruct (Intn_ok R _ w1 HI) as (i & w2 & Hi & Hir & _).
    destruct (index_ok internal i Hir) as (dst & Hdst & Hin2).
    destruct (buildFrame_ok R src dst n w2) as (data & w3 & Hd & _).
    { exact (proj1 (Forall_forall _ _) Hwe _ Hin1). }
    { exact (proj1 (Forall_forall _ _) Hwi _ Hin2). }
    unfold pcapgen.bindM, pcapgen.lift. rewrite He, Hsrc, Hi, Hdst, Hd.
    eexists; eexists; reflexivity.
Qed.

Section RandomRun.
Context {F : Type} {ops : Float64 F} (R : pcapgen.RandSource).
Variables (internal external : list pcapgen.host) (endSec total s0 : Z).
Variable payload : Z -> Z.

Hypothesis Hlaw : gap_law F ops.
Hypothesis Htotal : 1 <= total < 2 ^ 50.
Hypothesis Hs0 : - 2 ^ 41 <= s0 <= 2 ^ 41.
Hypothesis Hrem : - 2 ^ 62 <= endSec - s0 <= 10 ^ 8.
Hypothesis HI : 0 < pcapgen.len internal.
Hypothesis HE : 0 < pcapgen.len external.
Hypothesis Hwi : Forall wf_host internal.
Hypothesis Hwe : Forall wf_host external.

Local Abbreviation A := (Z.max 1 (endSec - s0) * 1000000).

(** With hosts to draw from and the cursor within its bounds, a turn of the
    random loop does not fail. *)
Lemma randomStep_ok (i : Z) (c : Z * Z) (w : pcapgen.world R) :
  0 <= i < total -> random_inv s0 endSec total i c w ->
  exists c' w',
    pcapgen.randomStep R internal external endSec total (payload i) i c w = (Ok c', w').
Proof.
  intros Hi (Hs & Ho & Hsum & Hsorted & Hle). destruct c as [s o]. cbn [fst snd] in *.
  assert (HA : 0 <= A <= 10 ^ 14).
  { change (10 ^ 14) with 100000000000000. change (10 ^ 8) with 100000000 in Hrem. lia. }
  change (2 ^ 50) with 1125899906842624 in Htotal.
  change (2 ^ 41) with 2199023255552 in Hs0.
  change (2 ^ 62) with 4611686018427387904 in Hrem.
  change (10 ^ 8) with 100000000 in Hrem.
  change (10 ^ 14) with 100000000000000 in HA.
  unfold pcapgen.randomStep.
  destruct (createPacket_ok R internal external (payload i) w HI HE Hwi Hwe)
    as (data & w1 & Hc).
  unfold pcapgen.bindM at 1. rewrite Hc.
  unfold pcapgen.bindM at 1. rewrite WritePacket_appends.
  assert (Hsub1 : sub64 endSec s = endSec - s)
    by (unfold sub64; apply wrap_id, in_int_bounds; lia).
  assert (Hsub2 : sub64 total i = total - i)
    by (unfold sub64; apply wrap_id, in_int_bounds; lia).
  rewrite Hsub1, Hsub2.
  pose proof (Hlaw (endSec - s) (total - i) ltac:(unfold min_int; lia)
                ltac:(change (2 ^ 50) with 1125899906842624; lia)) as HG.
  pose proof (interPacketGap_pos (F := F) (endSec - s) (total - i)) as HG1.
  set (G := pcapgen.interPacketGap (endSec - s) (total - i)) in *.
  assert (Hdiv : Z.max 1 (endSec - s) * 1000000 / (total - i) <= A / (total - i))
    by (apply Z.div_le_mono; lia).
  assert (HdivA : A / (total - i) <= A) by (apply Z.div_le_upper_bound; nia).
  assert (HaddG : add64 G 1 = G + 1)
    by (unfold add64; apply wrap_id, in_int_bounds; lia).
  rewrite HaddG. unfold pcapgen.bindM.
  match goal with
  | |- context [pcapgen.Intn R (G + 1) ?w2] =>
      destruct (Intn_ok R (G + 1) w2 ltac:(lia)) as (gap & w3 & Hgap & _)
  end.
  rewrite Hgap. unfold pcapgen.ret.
  eexists; eexists; reflexivity.
Qed.

(** The loop, run to any count up to the total on a fresh file, returns;
    each turn appends one record with the frame its payload asks for. *)
Lemma random_loop_ok (Size : Z -> pcapgen.file -> Prop) (n : nat) (w : pcapgen.world R) :
  (forall k f ci data, 0 <= k < Z.of_nat n -> Size k f ->
     pcapgen.len data = 62 + Z.max 0 (payload k) ->
     Size (k + 1) (f ++ [pcapgen.PacketRecord ci data])) ->
  Z.of_nat n <= total ->
  pcapgen.timestamps (pcapgen.w_file w) = [] ->
  Size 0 (pcapgen.w_file w) ->
  exists c' w',
    pcapgen.for_loop R n 0
      (fun i c => pcapgen.randomStep R internal external endSec total (payload i) i c)
      (s0, 0) w = (Ok c', w')
    /\ Size (Z.of_nat n) (pcapgen.w_file w')
    /\ nondecreasing (pcapgen.timestamps (pcapgen.w_file w')) = true.
Proof.
  intros Hstep Hn Hempty Hsize.
  destruct (for_loop_ok R
    (fun i c w0 => random_inv s0 endSec total i c w0 /\ Size i (pcapgen.w_file w0))
    (fun i c => pcapgen.randomStep R internal external endSec total (payload i) i c)
    n 0 (s0, 0) w) as (c' & w' & Hrun & Hinv & Hsz).
  - intros i c w0 Hi (Hinv & Hsz).
    destruct (randomStep_ok i c w0 ltac:(lia) Hinv) as (c' & w' & Hok).
    pose proof (random_turn (F := F) R internal external endSec total s0 payload
                  Hlaw Htotal Hs0 Hrem i c w0 ltac:(lia) Hinv) as Hturn.
    destruct c as [s o].
    pose proof (randomStep_shape R internal external endSec total (payload i) i s o w0)
      as Hshape. cbv zeta in Hshape.
    rewrite Hok in Hturn, Hshape.
    exists c', w'. split; [exact Hok|]. split; [exact Hturn|].
    destruct Hshape as ((data & -> & Hd) & _). apply Hstep; [lia | exact Hsz | exact Hd].
  - split; [|exact Hsize].
    unfold random_inv. cbn [fst snd]. rewrite Hempty, Z.sub_0_r.
    split; [lia|]. split; [lia|]. split; [lia|]. split; [reflexivity | constructor].
  - exists c', w'. split; [exact Hrun|]. split; [exact Hsz|].
    destruct Hinv as (_ & _ & _ & Hsorted & _). exact Hsorted.
Qed.

End RandomRun.

Section RandomExact.
Context {F : Type} {ops : Float64 F} (R : pcapgen.RandSource).

(** The exact-size path of [createPcapFile] on a fresh file. *)
Lemma createPcapFile_exact (path : string) (start duration maxSize exactBytes : Z)
    (internal external : list pcapgen.host) (w : pcapgen.world R) :
  gap_law F ops ->
  - 2 ^ 41 <= pcapgen.Time_Unix start <= 2 ^ 41 ->
  - 2 ^ 61 <= to_int (pcapgen.Seconds duration) <= 10 ^ 8 ->
  102 <= exactBytes <= 10 ^ 16 ->
  0 < pcapgen.len internal -> 0 < pcapgen.len external ->
  Forall wf_host internal -> Forall wf_host external ->
  pcapgen.w_file w = [] ->
  exists w',
    pcapgen.createPcapFile R path start duration maxSize exactBytes internal external w
    = (Ok tt, w')
    /\ padded_file ((exactBytes - 24) / 78) ((exactBytes - 24) mod 78)
         ((exactBytes - 24) / 78) (pcapgen.w_file w')
    /\ nondecreasing (pcapgen.timestamps (pcapgen.w_file w')) = true.
Proof.
  intros Hlaw Hs0 HD Hx HI HE Hwi Hwe Hfresh.
  set (D := to_int (pcapgen.Seconds duration)) in *.
  set (s0 := pcapgen.Time_Unix start) in *.
  change (2 ^ 41) with 2199023255552 in Hs0.
  change (2 ^ 61) with 2305843009213693952 in HD.
  change (10 ^ 8) with 100000000 in HD.
  change (10 ^ 16) with 10000000000000000 in Hx.
  assert (Hend : sub64 (add64 s0 D) 1 = s0 + D - 1).
  { unfold sub64, add64. rewrite (wrap_id (s0 + D)) by (apply in_int_bounds; lia).
    apply wrap_id, in_int_bounds. lia. }
  unfold pcapgen.createPcapFile. fold D s0. rewrite Hend.
  unfold pcapgen.bindM at 1. unfold pcapgen.WriteFileHeader at 1. rewrite Hfresh.
  cbn [app].
  set (w1 := {| pcapgen.w_rand := pcapgen.w_rand w; pcapgen.w_file := _ |}).
  replace (exactBytes >? 0) with true by (symmetry; apply Z.gtb_lt; lia).
  replace (exactBytes <? 24 + 78) with false by (symmetry; apply Z.ltb_ge; lia).
  assert (Hsub : sub64 exactBytes 24 = exactBytes - 24)
    by (unfold sub64; apply wrap_id, in_int_bounds; lia).
  rewrite Hsub.
  assert (Hq : quo64 (exactBytes - 24) 78 = (exactBytes - 24) / 78).
  { unfold quo64. rewrite Z.quot_div_nonneg by lia.
    assert (0 <= (exactBytes - 24) / 78 <= exactBytes)
      by (split; [apply Z.div_pos; lia | apply Z.div_le_upper_bound; lia]).
    apply wrap_id, in_int_bounds. lia. }
  assert (Hr : rem64 (exactBytes - 24) 78 = (exactBytes - 24) mod 78)
    by (unfold rem64; apply Z.rem_mod_nonneg; lia).
  rewrite Hq, Hr.
  set (total := (exactBytes - 24) / 78). set (extra := (exactBytes - 24) mod 78).
  assert (Hextra : 0 <= extra < 78) by (apply Z.mod_pos_bound; lia).
  assert (Htot : 1 <= total < 2 ^ 50).
  { unfold total. change (2 ^ 50) with 1125899906842624. split.
    - apply Z.div_le_lower_bound; lia.
    - apply Z.div_lt_upper_bound; lia. }
  replace (total <=? 0) with false by (symmetry; apply Z.leb_gt; lia).
  destruct (random_loop_ok R internal external (s0 + D - 1) total s0
              (fun i => if (i =? total - 1) && (extra >? 0) then extra else 0)
              Hlaw Htot ltac:(change (2 ^ 41) with 2199023255552; lia)
              ltac:(change (2 ^ 62) with 4611686018427387904;
                    change (10 ^ 8) with 100000000; lia)
              HI HE Hwi Hwe (padded_file total extra) (Z.to_nat total) w1)
    as (c' & w2 & Hrun & Hsize & Hsorted).
  - intros k f ci data Hk Hsz Hd. apply padded_file_step; [lia | exact Hsz|].
    rewrite Hd. destruct (k =? total - 1); cbn [andb]; [|reflexivity].
    destruct (extra >? 0) eqn:Hpos; [lia|].
    rewrite Z.gtb_ltb in Hpos. apply Z.ltb_ge in Hpos. lia.
  - lia.
  - reflexivity.
  - unfold padded_file. replace (0 <? total) with true by (symmetry; apply Z.ltb_lt; lia).
    split; reflexivity.
  - unfold pcapgen.bindM. cbv beta in Hrun. rewrite Hrun. unfold pcapgen.ret.
    exists w2. split; [reflexivity|].
    rewrite Z2Nat.id in Hsize by lia. split; [exact Hsize | exact Hsorted].
Qed.

(** The max-size path of [createPcapFile] on a fresh file: one packet fewer
    than would fit. *)
Lemma createPcapFile_short (path : string) (start duration maxSize exactBytes : Z)
    (internal external : list pcapgen.host) (w : pcapgen.world R) :
  gap_law F ops ->
  - 2 ^ 41 <= pcapgen.Time_Unix start <= 2 ^ 41 ->
  - 2 ^ 61 <= to_int (pcapgen.Seconds duration) <= 10 ^ 8 ->
  exactBytes <= 0 -> 102 <= maxSize <= 10 ^ 16 ->
  0 < pcapgen.len internal -> 0 < pcapgen.len external ->
  Forall wf_host internal -> Forall wf_host external ->
  pcapgen.w_file w = [] ->
  exists w',
    pcapgen.createPcapFile R path start duration maxSize exactBytes internal external w
    = (Ok tt, w')
    /\ bare_file ((maxSize - 24) / 78 - 1) (pcapgen.w_file w').
Proof.
  intros Hlaw Hs0 HD Hx Hm HI HE Hwi Hwe Hfresh.
  set (D := to_int (pcapgen.Seconds duration)) in *.
  set (s0 := pcapgen.Time_Unix start) in *.
  change (2 ^ 41) with 2199023255552 in Hs0.
  change (2 ^ 61) with 2305843009213693952 in HD.
  change (10 ^ 8) with 100000000 in HD.
  change (10 ^ 16) with 10000000000000000 in Hm.
  assert (Hend : sub64 (add64 s0 D) 1 = s0 + D - 1).
  { unfold sub64, add64. rewrite (wrap_id (s0 + D)) by (apply in_int_bounds; lia).
    apply wrap_id, in_int_bounds. lia. }
  unfold pcapgen.createPcapFile. fold D s0. rewrite Hend.
  unfold pcapgen.bindM at 1. unfold pcapgen.WriteFileHeader at 1. rewrite Hfresh.
  cbn [app].
  set (w1 := {| pcapgen.w_rand := pcapgen.w_rand w; pcapgen.w_file := _ |}).
  replace (exactBytes >? 0) with false
    by (symmetry; rewrite Z.gtb_ltb; apply Z.ltb_ge; lia).
  assert (Hsub : sub64 maxSize 24 = maxSize - 24)
    by (unfold sub64; apply wrap_id, in_int_bounds; lia).
  rewrite Hsub.
  assert (Hq : quo64 (maxSize - 24) 78 = (maxSize - 24) / 78).
  { unfold quo64. rewrite Z.quot_div_nonneg by lia.
    assert (0 <= (maxSize - 24) / 78 <= maxSize)
      by (split; [apply Z.div_pos; lia | apply Z.div_le_upper_bound; lia]).
    apply wrap_id, in_int_bounds. lia. }
  rewrite Hq. set (total := (maxSize - 24) / 78).
  assert (Htot : 1 <= total < 2 ^ 50).
  { unfold total. change (2 ^ 50) with 1125899906842624. split.
    - apply Z.div_le_lower_bound; lia.
    - apply Z.div_lt_upper_bound; lia. }
  replace (total <=? 0) with false by (symmetry; apply Z.leb_gt; lia).
  destruct (random_loop_ok R internal external (s0 + D - 1) total s0
              (fun _ => 0)
              Hlaw Htot ltac:(change (2 ^ 41) with 2199023255552; lia)
              ltac:(change (2 ^ 62) with 4611686018427387904;
                    change (10 ^ 8) with 100000000; lia)
              HI HE Hwi Hwe bare_file (Z.to_nat (total - 1)) w1)
    as (c' & w2 & Hrun & Hsize & _).
  - intros k f ci data Hk Hsz Hd. now apply bare_file_step.
  - lia.
  - reflexivity.
  - repeat split; constructor.
  - unfold pcapgen.bindM. cbv beta in Hrun. rewrite Hrun. unfold pcapgen.ret.
    exists w2. split; [reflexivity|].
    now rewrite Z2Nat.id in Hsize by lia.
Qed.

End RandomExact.

Section RandomRuns.
Context {F : Type} {ops : Float64 F} (R : pcapgen.RandSource).

(** A random-mode run up to the writer. *)
Lemma Generate_random (cfg : pcapgen.Config) :
  pcapgen.validate cfg = None -> pcapgen.FlowCount cfg = 0 ->
  pcapgen.MaxDuration cfg <= max_int ->
  exists internal external dur w2,
    0 < pcapgen.len internal /\ 0 < pcapgen.len external
    /\ Forall wf_host internal /\ Forall wf_host external
    /\ pcapgen.MinDuration cfg <= dur <= pcapgen.MaxDuration cfg
    /\ pcapgen.w_file w2 = []
    /\ pcapgen.Generate R cfg
       = let '(r, w3) :=
           pcapgen.createPcapFile R (pcapgen.outPath cfg 0) (pcapgen.StartTime cfg)
             dur (pcapgen.MaxSizeBytes cfg) (pcapgen.ExactBytes cfg) internal external w2 in
         (r, [(pcapgen.outPath cfg 0, pcapgen.w_file w3)]).
Proof.
  intros Hval HF Hdmax.
  destruct (validate_None cfg Hval) as (HI0 & HE0 & Hfc & Hdur & Hx & _ & HP).
  destruct (buildPools_random R cfg
              {| pcapgen.w_rand := pcapgen.NewSource R (pcapgen.Seed cfg);
                 pcapgen.w_file := [] |} ltac:(lia) ltac:(lia) ltac:(lia))
    as (internal & external & w1 & Hpools & Hl1 & Hl2 & Hw1 & Hw2).
  destruct (Generate_one R cfg Hval Hdmax internal external w1 Hpools)
    as (dur & w2 & Hrange & Hfile & Hgen).
  exists internal, external, dur, w2.
  rewrite HF in Hgen. change (0 >? 0) with false in Hgen. cbv iota in Hgen.
  split; [lia|]. split; [lia|].
  split.
  { eapply Forall_impl; [|exact Hw1]. cbn beta. intros h (Hm & _ & c & d & Hip & _).
    split; [exact Hm | now rewrite Hip]. }
  split.
  { eapply Forall_impl; [|exact Hw2]. cbn beta.
    intros h (Hm & _ & a & b & c & d & Hip & _).
    split; [exact Hm | now rewrite Hip]. }
  auto.
Qed.

(** An exact size below one packet: the error comes after the header. *)
Lemma createPcapFile_too_small (path : string) (start duration maxSize exactBytes : Z)
    (internal external : list pcapgen.host) (w : pcapgen.world R) :
  0 < exactBytes < 102 -> pcapgen.w_file w = [] ->
  pcapgen.createPcapFile R path start duration maxSize exactBytes internal external w
  = (Err (Error "exact-size too small for packet generation"),
     {| pcapgen.w_rand := pcapgen.w_rand w; pcapgen.w_file := header_only |}).
Proof.
  intros Hx Hfresh. unfold pcapgen.createPcapFile.
  unfold pcapgen.bindM at 1. unfold pcapgen.WriteFileHeader at 1. rewrite Hfresh.
  replace (exactBytes >? 0) with true by (symmetry; apply Z.gtb_lt; lia).
  replace (exactBytes <? 24 + 78) with true by (symmetry; apply Z.ltb_lt; lia).
  reflexivity.
Qed.

End RandomRuns.

(** The run of a valid random-mode configuration in binary64. *)
Lemma Generate_random_run (R : pcapgen.RandSource) (cfg : pcapgen.Config) :
  pcapgen.validate cfg = None -> pcapgen.FlowCount cfg = 0 ->
  102 <= pcapgen.ExactBytes cfg <= 10 ^ 16 ->
  - 2 ^ 41 <= pcapgen.Time_Unix (pcapgen.StartTime cfg) <= 2 ^ 41 ->
  pcapgen.MaxDuration cfg <= 10 ^ 8 * pcapgen.Second ->
  exists f,
    pcapgen.Generate (F := float) R cfg = (Ok tt, [(pcapgen.outPath cfg 0, f)])
    /\ padded_file ((pcapgen.ExactBytes cfg - 24) / 78) ((pcapgen.ExactBytes cfg - 24) mod 78)
         ((pcapgen.ExactBytes cfg - 24) / 78) f
    /\ nondecreasing (pcapgen.timestamps f) = true.
Proof.
  intros Hval HF Hx Hstart Hdmax.
  destruct (validate_None cfg Hval) as (_ & _ & _ & Hdur & _).
  destruct (Generate_random (F := float) R cfg Hval HF
              ltac:(unfold max_int, pcapgen.Second in *; lia))
    as (internal & external & dur & w2 & HI & HE & Hwi & Hwe & Hrange & Hfile & Hgen).
  pose proof (IEEE_Seconds_range dur ltac:(lia)) as Hsec.
  destruct (createPcapFile_exact (F := float) R (pcapgen.outPath cfg 0)
              (pcapgen.StartTime cfg) dur (pcapgen.MaxSizeBytes cfg)
              (pcapgen.ExactBytes cfg) internal external w2 IEEE_gap_law Hstart
              ltac:(cbn [to_int IEEE_Float64]; lia) Hx HI HE Hwi Hwe Hfile)
    as (w3 & Hrun & Hsize & Hsorted).
  exists (pcapgen.w_file w3). rewrite Hgen, Hrun. auto.
Qed.

(** X6. Random mode ([flowCount = 0]) with an exact size of at least one
    packet, 102 bytes: [Generate] returns without error and leaves one file
    of exactly the size asked.  It holds [(size - 24) / 78] packets, every
    frame the bare 62 bytes except the last, which carries the remainder
    [(size - 24) mod 78] as payload. *)
Theorem Generate_random_exact_size (R : pcapgen.RandSource) (cfg : pcapgen.Config) :
  pcapgen.validate cfg = None -> pcapgen.FlowCount cfg = 0 ->
  102 <= pcapgen.ExactBytes cfg <= 10 ^ 16 ->
  - 2 ^ 41 <= pcapgen.Time_Unix (pcapgen.StartTime cfg) <= 2 ^ 41 ->
  pcapgen.MaxDuration cfg <= 10 ^ 8 * pcapgen.Second ->
  exists f,
    pcapgen.Generate (F := float) R cfg = (Ok tt, [(pcapgen.outPath cfg 0, f)])
    /\ pcapgen.len (pcapgen.file_bytes f) = pcapgen.ExactBytes cfg
    /\ pcapgen.len (pcapgen.packets f) = (pcapgen.ExactBytes cfg - 24) / 78
    /\ frame_lengths f
       = repeat 62 (Z.to_nat ((pcapgen.ExactBytes cfg - 24) / 78 - 1))
           ++ [62 + (pcapgen.ExactBytes cfg - 24) mod 78].
Proof.
  intros Hval HF Hx Hstart Hdmax.
  destruct (Generate_random_run R cfg Hval HF Hx Hstart Hdmax)
    as (f & Hgen & (Hl & Hb) & _).
  change (10 ^ 16) with 10000000000000000 in Hx.
  set (N := (pcapgen.ExactBytes cfg - 24) / 78) in *.
  assert (HN : 1 <= N) by (apply Z.div_le_lower_bound; lia).
  rewrite Z.ltb_irrefl in Hl, Hb.
  exists f. split; [exact Hgen|]. split; [|split; [|exact Hl]].
  - rewrite Hb. pose proof (Z.div_mod (pcapgen.ExactBytes cfg - 24) 78 ltac:(lia)).
    fold N in H. lia.
  - unfold frame_lengths in Hl. apply (f_equal (@List.length Z)) in Hl.
    rewrite length_map, length_app, repeat_length in Hl. cbn [List.length] in Hl.
    unfold pcapgen.len. lia.
Qed.

Lemma Generate_random_exact_size_witness :
  exists f,
    pcapgen.Generate (F := float) lcg out_file_exact = (Ok tt, [("./my_traffic.pcap"%string, f)])
    /\ pcapgen.len (pcapgen.file_bytes f) = 1024
    /\ pcapgen.len (pcapgen.packets f) = (1024 - 24) / 78
    /\ frame_lengths f = repeat 62 (Z.to_nat ((1024 - 24) / 78 - 1)) ++ [62 + (1024 - 24) mod 78].
Proof.
  apply (Generate_random_exact_size lcg out_file_exact);
    [reflexivity | reflexivity | split; discriminate | split; discriminate | discriminate].
Defined.

(** X7. Random mode with an exact size below one packet (102 bytes): the run
    ends with an error after the file is created and leaves the header
    alone. *)
Theorem Generate_random_too_small {F : Type} {ops : Float64 F} (R : pcapgen.RandSource)
    (cfg : pcapgen.Config) :
  pcapgen.validate cfg = None -> pcapgen.FlowCount cfg = 0 ->
  pcapgen.ExactBytes cfg < 102 -> pcapgen.MaxDuration cfg <= max_int ->
  pcapgen.Generate R cfg
  = (Err (Error "exact-size too small for packet generation"),
     [(pcapgen.outPath cfg 0, header_only)]).
Proof.
  intros Hval HF Hx Hdmax.
  destruct (validate_None cfg Hval) as (_ & _ & _ & _ & Hx0 & _).
  destruct (Generate_random R cfg Hval HF Hdmax)
    as (internal & external & dur & w2 & _ & _ & _ & _ & _ & Hfile & Hgen).
  rewrite Hgen, createPcapFile_too_small by (lia || exact Hfile). reflexivity.
Qed.

Lemma Generate_random_too_small_witness :
  pcapgen.Generate (F := float) lcg (with_ExactBytes out_file_exact 101)
  = (Err (Error "exact-size too small for packet generation"),
     [("./my_traffic.pcap"%string, header_only)]).
Proof.
  apply (Generate_random_too_small (F := float) lcg (with_ExactBytes out_file_exact 101));
    [reflexivity | reflexivity | reflexivity | discriminate].
Defined.

(** X8. The max-size path of [createPcapFile] ([exactBytes <= 0]) in
    binary64, on a fresh file with hosts to draw from: below 102 bytes it
    fails after the header; from 102 bytes on it returns without error and
    writes one packet fewer than fit, [(maxSize - 24) / 78 - 1] bare frames,
    so the file ends more than 78 bytes short of the ceiling. *)
Theorem createPcapFile_max_size_writes_one_less (R : pcapgen.RandSource) (path : string)
    (start duration maxSize exactBytes : Z) (internal external : list pcapgen.host)
    (w : pcapgen.world R) :
  exactBytes <= 0 -> pcapgen.w_file w = [] ->
  (- 10 ^ 16 <= maxSize < 102 ->
   pcapgen.createPcapFile (F := float) R path start duration maxSize exactBytes
     internal external w
   = (Err (Error "max-size too small for packet generation"),
      {| pcapgen.w_rand := pcapgen.w_rand w; pcapgen.w_file := header_only |}))
  /\ (102 <= maxSize <= 10 ^ 16 ->
      - 2 ^ 41 <= pcapgen.Time_Unix start <= 2 ^ 41 ->
      0 <= duration <= 10 ^ 8 * pcapgen.Second ->
      0 < pcapgen.len internal -> 0 < pcapgen.len external ->
      Forall wf_host internal -> Forall wf_host external ->
      exists w',
        pcapgen.createPcapFile (F := float) R path start duration maxSize exactBytes
          internal external w = (Ok tt, w')
        /\ pcapgen.len (pcapgen.packets (pcapgen.w_file w')) = (maxSize - 24) / 78 - 1
        /\ Forall (fun l => l = 62) (frame_lengths (pcapgen.w_file w'))
        /\ pcapgen.len (pcapgen.file_bytes (pcapgen.w_file w'))
           = 24 + 78 * ((maxSize - 24) / 78 - 1)
        /\ pcapgen.len (pcapgen.file_bytes (pcapgen.w_file w')) <= maxSize - 78).
Proof.
  intros Hx Hfresh. split.
  - intros Hm. change (10 ^ 16) with 10000000000000000 in Hm.
    unfold pcapgen.createPcapFile.
    unfold pcapgen.bindM at 1. unfold pcapgen.WriteFileHeader at 1. rewrite Hfresh.
    replace (exactBytes >? 0) with false
      by (symmetry; rewrite Z.gtb_ltb; apply Z.ltb_ge; lia).
    assert (Hsub : sub64 maxSize 24 = maxSize - 24)
      by (unfold sub64; apply wrap_id, in_int_bounds; lia).
    assert (Hq : quo64 (maxSize - 24) 78 <= 0).
    { unfold quo64.
      assert (- 10000000000000024 <= Z.quot (maxSize - 24) 78 <= 0).
      { destruct (Z.lt_ge_cases (maxSize - 24) 0) as [Hneg | Hpos].
        - rewrite <- (Z.opp_involutive (maxSize - 24)), Z.quot_opp_l by lia.
          rewrite Z.quot_div_nonneg by lia.
          assert (0 <= (- (maxSize - 24)) / 78 <= - (maxSize - 24))
            by (split; [apply Z.div_pos; lia | apply Z.div_le_upper_bound; lia]).
          lia.
        - rewrite Z.quot_small by lia. lia. }
      rewrite wrap_id by (apply in_int_bounds; lia). lia. }
    cbv zeta. rewrite Hsub.
    replace (quo64 (maxSize - 24) 78 <=? 0) with true by (symmetry; apply Z.leb_le; exact Hq).
    reflexivity.
  - intros Hm Hstart Hd HI HE Hwi Hwe.
    pose proof (IEEE_Seconds_range duration Hd) as Hsec.
    destruct (createPcapFile_short (F := float) R path start duration maxSize exactBytes
                internal external w IEEE_gap_law Hstart
                ltac:(cbn [to_int IEEE_Float64]; lia) Hx Hm HI HE Hwi Hwe Hfresh)
      as (w' & Hrun & Hc & Hl & Hb).
    exists w'. split; [exact Hrun|]. split; [exact Hc|]. split; [exact Hl|].
    split; [exact Hb|]. rewrite Hb.
    change (10 ^ 16) with 10000000000000000 in Hm.
    pose proof (Z.mul_div_le (maxSize - 24) 78 ltac:(lia)). lia.
Qed.

Lemma createPcapFile_max_size_writes_one_less_witness :
  pcapgen.createPcapFile (F := float) lcg "generated_0000.pcap"
    (pcapgen.StartTime scenario) (60 * pcapgen.Second) 101 0
    (pool10 pcapgen.uniqueInternalIPv4) (pool10 pcapgen.uniqueExternalIPv4)
    (pcapgen.Build_world (R := lcg) 1 [])
  = (Err (Error "max-size too small for packet generation"),
     pcapgen.Build_world (R := lcg) 1 header_only)
  /\ exists w',
       pcapgen.createPcapFile (F := float) lcg "generated_0000.pcap"
         (pcapgen.StartTime scenario) (60 * pcapgen.Second) 1000 0
         (pool10 pcapgen.uniqueInternalIPv4) (pool10 pcapgen.uniqueExternalIPv4)
         (pcapgen.Build_world (R := lcg) 1 []) = (Ok tt, w')
       /\ pcapgen.len (pcapgen.packets (pcapgen.w_file w')) = (1000 - 24) / 78 - 1
       /\ Forall (fun l => l = 62) (frame_lengths (pcapgen.w_file w'))
       /\ pcapgen.len (pcapgen.file_bytes (pcapgen.w_file w')) = 24 + 78 * ((1000 - 24) / 78 - 1)
       /\ pcapgen.len (pcapgen.file_bytes (pcapgen.w_file w')) <= 1000 - 78.
Proof.
  split.
  - apply (createPcapFile_max_size_writes_one_less lcg "generated_0000.pcap"
             (pcapgen.StartTime scenario) (60 * pcapgen.Second) 101 0
             (pool10 pcapgen.uniqueInternalIPv4) (pool10 pcapgen.uniqueExternalIPv4)
             (pcapgen.Build_world (R := lcg) 1 []));
      [discriminate | reflexivity | split; [discriminate | reflexivity]].
  - apply (createPcapFile_max_size_writes_one_less lcg "generated_0000.pcap"
             (pcapgen.StartTime scenario) (60 * pcapgen.Second) 1000 0
             (pool10 pcapgen.uniqueInternalIPv4) (pool10 pcapgen.uniqueExternalIPv4)
             (pcapgen.Build_world (R := lcg) 1 []));
      [discriminate | reflexivity | split; discriminate | split; discriminate
      | split; discriminate | reflexivity | reflexivity
      | repeat constructor | repeat constructor].
Defined.

(** ** Fixed-flow mode: what stops a run *)

Section FlowErrors.
Context (R : pcapgen.RandSource).

(** The two checks of [createPcapFileFlows] come after the header is
    written. *)
Lemma createPcapFileFlows_rejects (path : string) (start duration : Z)
    (cfg : pcapgen.Config) (exactBytes : Z) (internal external : list pcapgen.host)
    (w : pcapgen.world R) :
  let Fl := pcapgen.FlowCount cfg in
  let P := pcapgen.PacketsPerFlow cfg in
  let cap := 2 * pcapgen.len internal * pcapgen.len external in
  let after := {| pcapgen.w_rand := pcapgen.w_rand w; pcapgen.w_file := header_only |} in
  cap <= max_int -> 0 < pcapgen.len external -> 0 < exactBytes -> pcapgen.w_file w = [] ->
  (cap < Fl ->
   pcapgen.createPcapFileFlows R path start duration cfg exactBytes internal external w
   = (Err (Error ("flow-count exceeds capacity: flow-count=" ++ pcapgen.itoa Fl
                  ++ " max=" ++ pcapgen.itoa cap ++ " (2*internal*external)")), after))
  /\ (Fl <= cap -> 0 <= Fl * P -> 24 + 78 * (Fl * P) <= max_int ->
      exactBytes < 24 + 78 * (Fl * P) ->
      pcapgen.createPcapFileFlows R path start duration cfg exactBytes internal external w
      = (Err (Error ("exact-size " ++ pcapgen.itoa exactBytes ++ " < base size "
                     ++ pcapgen.itoa (24 + 78 * (Fl * P))
                     ++ "; increase exact-size or reduce flow-count/packets-per-flow")),
         after))
  /\ (Fl <= cap -> mul64 Fl P = 0 -> 24 <= exactBytes ->
      pcapgen.createPcapFileFlows R path start duration cfg exactBytes internal external w
      = (Err (Panic "integer divide by zero"), after)).
Proof.
  intros Fl P cap after Hcap HE0 Hx Hfresh.
  pose proof (len_nonneg internal) as HI0.
  unfold max_int in *.
  assert (Hc : mul64 (mul64 2 (pcapgen.len internal)) (pcapgen.len external) = cap).
  { unfold mul64. rewrite (wrap_id (2 * pcapgen.len internal)) by (apply in_int_bounds; nia).
    apply wrap_id, in_int_bounds. unfold cap in *. nia. }
  assert (Hhead : forall k : unit -> pcapgen.M R unit,
            pcapgen.bindM R (pcapgen.WriteFileHeader R 65535 pcapgen.LinkTypeEthernet) k w
            = k tt after).
  { intros k. unfold pcapgen.bindM, pcapgen.WriteFileHeader. rewrite Hfresh. reflexivity. }
  unfold pcapgen.createPcapFileFlows. rewrite Hc, Hhead. fold Fl P.
  split; [|split].
  - intros Hover. replace (Fl >? cap) with true by (symmetry; apply Z.gtb_lt; lia).
    reflexivity.
  - intros Hin HN Hb Hsmall. unfold max_int in Hb.
    replace (Fl >? cap) with false by (symmetry; rewrite Z.gtb_ltb; apply Z.ltb_ge; lia).
    assert (Ht : mul64 Fl P = Fl * P) by (unfold mul64; apply wrap_id, in_int_bounds; lia).
    assert (Hbase : add64 24 (mul64 (Fl * P) 78) = 24 + 78 * (Fl * P)).
    { unfold add64, mul64. rewrite (wrap_id (Fl * P * 78)) by (apply in_int_bounds; lia).
      rewrite wrap_id by (apply in_int_bounds; lia). lia. }
    rewrite Ht, Hbase.
    replace (exactBytes >? 0) with true by (symmetry; apply Z.gtb_lt; lia).
    replace (exactBytes <? 24 + 78 * (Fl * P)) with true by (symmetry; apply Z.ltb_lt; lia).
    reflexivity.
  - intros Hin Hzero Hbig.
    replace (Fl >? cap) with false by (symmetry; rewrite Z.gtb_ltb; apply Z.ltb_ge; lia).
    rewrite Hzero. change (add64 24 (mul64 0 78)) with 24.
    replace (exactBytes >? 0) with true by (symmetry; apply Z.gtb_lt; lia).
    replace (exactBytes <? 24) with false by (symmetry; apply Z.ltb_ge; lia).
    reflexivity.
Qed.

End FlowErrors.

Section FlowRuns.
Context {F : Type} {ops : Float64 F} (R : pcapgen.RandSource).
Variable cfg : pcapgen.Config.

Local Abbreviation Fl := (pcapgen.FlowCount cfg).
Local Abbreviation P := (pcapgen.PacketsPerFlow cfg).
Local Abbreviation I := (pcapgen.InternalHosts cfg).
Local Abbreviation E := (pcapgen.ExternalHosts cfg).

Hypothesis Hval : pcapgen.validate cfg = None.
Hypothesis HF : 0 < Fl.
Hypothesis HI : I <= 65536.
Hypothesis HE : E <= 16777216.
Hypothesis Hdmax : pcapgen.MaxDuration cfg <= max_int.

(** A fixed-flow run up to the writer. *)
Lemma Generate_flows :
  exists internal external dur w2,
    pcapgen.len internal = I /\ pcapgen.len external = E
    /\ Forall wf_host internal /\ Forall wf_host external
    /\ pcapgen.MinDuration cfg <= dur <= pcapgen.MaxDuration cfg
    /\ pcapgen.w_file w2 = []
    /\ pcapgen.Generate R cfg
       = let '(r, w3) :=
           pcapgen.createPcapFileFlows R (pcapgen.outPath cfg 0) (pcapgen.StartTime cfg)
             dur cfg (pcapgen.ExactBytes cfg) internal external w2 in
         (r, [(pcapgen.outPath cfg 0, pcapgen.w_file w3)]).
Proof.
  destruct (validate_None cfg Hval) as (HI0 & HE0 & Hfc & Hdur & Hx & _ & HP).
  destruct (buildPools_flows R cfg
              {| pcapgen.w_rand := pcapgen.NewSource R (pcapgen.Seed cfg);
                 pcapgen.w_file := [] |} HF ltac:(lia) ltac:(lia))
    as (internal & external & w1 & Hpools & Hl1 & Hl2 & Hw1 & Hw2).
  destruct (Generate_one R cfg Hval Hdmax internal external w1 Hpools)
    as (dur & w2 & Hrange & Hfile & Hgen).
  exists internal, external, dur, w2.
  replace (Fl >? 0) with true in Hgen by (symmetry; apply Z.gtb_lt; lia).
  repeat (split; [assumption|]). exact Hgen.
Qed.

Lemma capacity_in_int : 2 * I * E <= max_int.
Proof.
  destruct (validate_None cfg Hval) as (HI0 & HE0 & _).
  pose proof (Z.mul_le_mono_nonneg I 65536 E 16777216 ltac:(lia) HI ltac:(lia) HE).
  unfold max_int. lia.
Qed.

End FlowRuns.

(** X9. Fixed-flow mode, the two ways a valid configuration fails: a flow
    count above the capacity [2 * internal * external] of the pools, and an
    exact size below the base size [24 + 78 * flowCount * packetsPerFlow].
    Both are found after the file is created: the run ends with the error
    and leaves a file that holds the pcap header alone. *)
Theorem Generate_fixed_flow_rejected {F : Type} {ops : Float64 F}
    (R : pcapgen.RandSource) (cfg : pcapgen.Config) :
  let Fl := pcapgen.FlowCount cfg in
  let P := pcapgen.PacketsPerFlow cfg in
  let cap := 2 * pcapgen.InternalHosts cfg * pcapgen.ExternalHosts cfg in
  pcapgen.validate cfg = None -> 0 < Fl ->
  pcapgen.InternalHosts cfg <= 65536 -> pcapgen.ExternalHosts cfg <= 16777216 ->
  pcapgen.MaxDuration cfg <= max_int ->
  (cap < Fl ->
   pcapgen.Generate R cfg
   = (Err (Error ("flow-count exceeds capacity: flow-count=" ++ pcapgen.itoa Fl
                  ++ " max=" ++ pcapgen.itoa cap ++ " (2*internal*external)")),
      [(pcapgen.outPath cfg 0, header_only)]))
  /\ (Fl <= cap -> 24 + 78 * (Fl * P) <= max_int ->
      pcapgen.ExactBytes cfg < 24 + 78 * (Fl * P) ->
      pcapgen.Generate R cfg
      = (Err (Error ("exact-size " ++ pcapgen.itoa (pcapgen.ExactBytes cfg)
                     ++ " < base size " ++ pcapgen.itoa (24 + 78 * (Fl * P))
                     ++ "; increase exact-size or reduce flow-count/packets-per-flow")),
         [(pcapgen.outPath cfg 0, header_only)])).
Proof.
  intros Fl P cap Hval HF HI HE Hdmax.
  destruct (validate_None cfg Hval) as (HI0 & HE0 & Hfc & Hdur & Hx & _ & HP).
  specialize (HP HF).
  destruct (Generate_flows R cfg Hval HF HI HE Hdmax)
    as (internal & external & dur & w2 & Hl1 & Hl2 & _ & _ & _ & Hfile & Hgen).
  pose proof (capacity_in_int cfg Hval HI HE) as Hcap.
  pose proof (createPcapFileFlows_rejects R (pcapgen.outPath cfg 0) (pcapgen.StartTime cfg)
                dur cfg (pcapgen.ExactBytes cfg) internal external w2) as Hrej.
  cbv zeta in Hrej. rewrite Hl1, Hl2 in Hrej.
  destruct (Hrej Hcap HE0 Hx Hfile) as (Hover & Hsmall & _).
  split.
  - intros Hc. rewrite Hgen, (Hover Hc). reflexivity.
  - intros Hc Hb Hs. rewrite Hgen, (Hsmall Hc ltac:(fold Fl P; nia) Hb Hs). reflexivity.
Qed.

Lemma Generate_fixed_flow_rejected_witness :
  pcapgen.Generate (F := float) lcg (flow_run 3 2 50 1 3924)
  = (Err (Error "flow-count exceeds capacity: flow-count=50 max=12 (2*internal*external)"),
     [("generated_0000.pcap"%string, header_only)])
  /\ pcapgen.Generate (F := float) lcg (flow_run 10 10 50 1 1000)
     = (Err (Error "exact-size 1000 < base size 3924; increase exact-size or reduce flow-count/packets-per-flow"),
        [("generated_0000.pcap"%string, header_only)]).
Proof.
  split.
  - apply (Generate_fixed_flow_rejected (F := float) lcg (flow_run 3 2 50 1 3924));
      [reflexivity | reflexivity | discriminate | discriminate | discriminate | reflexivity].
  - apply (Generate_fixed_flow_rejected (F := float) lcg (flow_run 10 10 50 1 1000));
      [reflexivity | reflexivity | discriminate | discriminate | discriminate
      | discriminate | discriminate | reflexivity].
Defined.

(** X10. A packet count [flowCount * packetsPerFlow] that wraps to zero in 64
    bits passes the size check, with a base size of 24 bytes, and the run
    then panics on the division of the duration by the packet count,
    leaving a file with the header alone. *)
Theorem Generate_packet_count_wraps_to_zero {F : Type} {ops : Float64 F}
    (R : pcapgen.RandSource) (cfg : pcapgen.Config) :
  pcapgen.validate cfg = None -> 0 < pcapgen.FlowCount cfg ->
  pcapgen.InternalHosts cfg <= 65536 -> pcapgen.ExternalHosts cfg <= 16777216 ->
  pcapgen.MaxDuration cfg <= max_int ->
  pcapgen.FlowCount cfg <= 2 * pcapgen.InternalHosts cfg * pcapgen.ExternalHosts cfg ->
  mul64 (pcapgen.FlowCount cfg) (pcapgen.PacketsPerFlow cfg) = 0 ->
  24 <= pcapgen.ExactBytes cfg ->
  pcapgen.Generate R cfg
  = (Err (Panic "integer divide by zero"), [(pcapgen.outPath cfg 0, header_only)]).
Proof.
  intros Hval HF HI HE Hdmax Hc Hzero Hbig.
  destruct (validate_None cfg Hval) as (HI0 & HE0 & Hfc & Hdur & Hx & _ & HP).
  destruct (Generate_flows R cfg Hval HF HI HE Hdmax)
    as (internal & external & dur & w2 & Hl1 & Hl2 & _ & _ & _ & Hfile & Hgen).
  pose proof (capacity_in_int cfg Hval HI HE) as Hcap.
  pose proof (createPcapFileFlows_rejects R (pcapgen.outPath cfg 0) (pcapgen.StartTime cfg)
                dur cfg (pcapgen.ExactBytes cfg) internal external w2) as Hrej.
  cbv zeta in Hrej. rewrite Hl1, Hl2 in Hrej.
  destruct (Hrej Hcap HE0 Hx Hfile) as (_ & _ & Hpanic).
  rewrite Hgen, (Hpanic Hc Hzero Hbig). reflexivity.
Qed.

Lemma Generate_packet_count_wraps_to_zero_witness :
  pcapgen.Generate (F := float) lcg (flow_run 65536 32768 4294967296 4294967296 1024)
  = (Err (Panic "integer divide by zero"), [("generated_0000.pcap"%string, header_only)]).
Proof.
  apply (Generate_packet_count_wraps_to_zero (F := float) lcg
           (flow_run 65536 32768 4294967296 4294967296 1024));
    [reflexivity | reflexivity | discriminate | discriminate | discriminate
    | discriminate | reflexivity | discriminate].
Defined.

(** ** Fixed-flow mode: the time plan *)

Lemma quo64_nonneg (a b : Z) : 0 <= a <= max_int -> 0 < b -> quo64 a b = a / b.
Proof.
  intros Ha Hb. unfold max_int in Ha. unfold quo64. rewrite Z.quot_div_nonneg by lia.
  assert (0 <= a / b <= a).
  { split; [apply Z.div_pos; lia|]. apply Z.div_le_upper_bound; nia. }
  apply wrap_id, in_int_bounds. lia.
Qed.

Lemma usecStep_flow_step (duration N : Z) :
  0 < duration <= max_int -> 0 < N ->
  (let totalUsec := quo64 (if duration <=? 0 then mul64 10 pcapgen.Second else duration)
                      pcapgen.Microsecond in
   let totalUsec := if totalUsec <=? 0 then 1 else totalUsec in
   let usecStep := quo64 totalUsec N in
   if usecStep <? 1 then 1 else usecStep) = flow_step duration N.
Proof.
  intros Hd HN. cbv zeta. unfold flow_step, pcapgen.Microsecond.
  replace (duration <=? 0) with false by (symmetry; apply Z.leb_gt; lia).
  rewrite (quo64_nonneg duration 1000) by lia.
  assert (Ht : 0 <= duration / 1000 <= duration).
  { split; [apply Z.div_pos; lia | apply Z.div_le_upper_bound; lia]. }
  assert (HT : (if duration / 1000 <=? 0 then 1 else duration / 1000)
               = Z.max 1 (duration / 1000)).
  { destruct (duration / 1000 <=? 0) eqn:Hc;
      [apply Z.leb_le in Hc | apply Z.leb_gt in Hc]; lia. }
  rewrite HT. rewrite quo64_nonneg by (unfold max_int in *; lia).
  destruct (Z.max 1 (duration / 1000) / N <? 1) eqn:Hc;
    [apply Z.ltb_lt in Hc | apply Z.ltb_ge in Hc]; lia.
Qed.

(** The whole plan of a fixed-flow file: what [createPcapFileFlows] writes
    on a fresh file when nothing stops it. *)
Lemma createPcapFileFlows_plan (R : pcapgen.RandSource) (path : string)
    (start duration : Z) (cfg : pcapgen.Config) (exactBytes : Z)
    (internal external : list pcapgen.host) (w : pcapgen.world R) :
  0 < pcapgen.FlowCount cfg -> 0 < pcapgen.PacketsPerFlow cfg ->
  Forall wf_host internal -> Forall wf_host external ->
  2 * pcapgen.len internal * pcapgen.len external <= max_int ->
  pcapgen.FlowCount cfg <= 2 * pcapgen.len internal * pcapgen.len external ->
  24 + 78 * (pcapgen.FlowCount cfg * pcapgen.PacketsPerFlow cfg) <= exactBytes ->
  exactBytes <= max_int ->
  0 < duration <= max_int ->
  pcapgen.w_file w = [] ->
  exists w',
    pcapgen.createPcapFileFlows R path start duration cfg exactBytes internal external w
    = (Ok tt, w')
    /\ flows_file start
         (flow_step duration (pcapgen.FlowCount cfg * pcapgen.PacketsPerFlow cfg))
         (pcapgen.FlowCount cfg * pcapgen.PacketsPerFlow cfg)
         (exactBytes - (24 + 78 * (pcapgen.FlowCount cfg * pcapgen.PacketsPerFlow cfg)))
         (pcapgen.FlowCount cfg * pcapgen.PacketsPerFlow cfg)
         (pcapgen.w_file w').
Proof.
  intros HF HP Hwi Hwe Hcap HFcap Hbase Hmax Hdur Hfresh.
  set (Fl := pcapgen.FlowCount cfg) in *. set (P := pcapgen.PacketsPerFlow cfg) in *.
  set (I := pcapgen.len internal) in *. set (E := pcapgen.len external) in *.
  assert (HN : 0 < Fl * P) by nia.
  pose proof (len_nonneg internal) as HI0. pose proof (len_nonneg external) as HE0.
  fold I in HI0. fold E in HE0.
  assert (HIE : 0 < I /\ 0 < E) by nia. destruct HIE as [HI HE].
  pose proof (usecStep_flow_step duration (Fl * P) Hdur HN) as Hstep. cbv zeta in Hstep.
  unfold max_int in *.
  assert (Hc : mul64 (mul64 2 I) E = 2 * I * E).
  { unfold mul64. rewrite (wrap_id (2 * I)) by (apply in_int_bounds; nia).
    apply wrap_id, in_int_bounds. lia. }
  assert (Ht : mul64 Fl P = Fl * P) by (unfold mul64; apply wrap_id, in_int_bounds; lia).
  assert (Hb : add64 24 (mul64 (Fl * P) 78) = 24 + 78 * (Fl * P)).
  { unfold add64, mul64. rewrite (wrap_id (Fl * P * 78)) by (apply in_int_bounds; lia).
    rewrite wrap_id by (apply in_int_bounds; lia). lia. }
  assert (He : sub64 exactBytes (24 + 78 * (Fl * P)) = exactBytes - (24 + 78 * (Fl * P)))
    by (unfold sub64; apply wrap_id, in_int_bounds; lia).
  unfold pcapgen.createPcapFileFlows.
  fold Fl P I E. rewrite Hc, Ht, Hb, He.
  unfold pcapgen.bindM at 1. unfold pcapgen.WriteFileHeader at 1.
  replace (Fl >? 2 * I * E) with false by (symmetry; rewrite Z.gtb_ltb; apply Z.ltb_ge; lia).
  replace (exactBytes >? 0) with true by (symmetry; apply Z.gtb_lt; lia).
  replace (exactBytes <? 24 + 78 * (Fl * P)) with false by (symmetry; apply Z.ltb_ge; lia).
  unfold pcapgen.bindM at 1. unfold pcapgen.ret at 1.
  unfold pcapgen.bindM at 1. unfold pcapgen.integer_divide.
  replace (Fl * P =? 0) with false by (symmetry; apply Z.eqb_neq; lia).
  unfold pcapgen.ret at 1. rewrite Hstep.
  set (usecStep := flow_step duration (Fl * P)).
  set (extra := exactBytes - (24 + 78 * (Fl * P))).
  rewrite Hfresh. cbn [app].
  destruct (flow_outer R start usecStep extra cfg internal external HF HP
              ltac:(unfold max_int; fold Fl P; lia) ltac:(unfold extra; lia)
              Hwi Hwe ltac:(unfold max_int; exact Hcap) HFcap
              {| pcapgen.w_rand := pcapgen.w_rand w;
                 pcapgen.w_file := [pcapgen.FileHeader 65535 pcapgen.LinkTypeEthernet] |})
    as (w' & Hrun & Hfile).
  { unfold flows_file. cbn [pcapgen.w_file].
    replace (0 <? pcapgen.FlowCount cfg * pcapgen.PacketsPerFlow cfg) with true
      by (symmetry; apply Z.ltb_lt; exact HN).
    repeat split. }
  fold Fl P in Hrun, Hfile.
  unfold pcapgen.bindM at 1. rewrite Hrun. unfold pcapgen.ret.
  exists w'. split; [reflexivity | exact Hfile].
Qed.

(** X11. The timestamps of a fixed-flow file are evenly spaced from the start
    time: packet [k] of the file, counted across flows, is stamped
    [k * step] microseconds after the start, where [step] is the drawn
    duration in microseconds divided by the packet count, one microsecond at
    least.  When the duration allows a microsecond per packet, every packet
    falls within the duration. *)
Theorem Generate_fixed_flow_timestamps {F : Type} {ops : Float64 F}
    (R : pcapgen.RandSource) (cfg : pcapgen.Config) :
  let N := pcapgen.FlowCount cfg * pcapgen.PacketsPerFlow cfg in
  pcapgen.validate cfg = None ->
  0 < pcapgen.FlowCount cfg ->
  pcapgen.InternalHosts cfg <= 65536 -> pcapgen.ExternalHosts cfg <= 16777216 ->
  pcapgen.FlowCount cfg <= 2 * pcapgen.InternalHosts cfg * pcapgen.ExternalHosts cfg ->
  24 + 78 * N <= pcapgen.ExactBytes cfg ->
  pcapgen.ExactBytes cfg <= max_int -> pcapgen.MaxDuration cfg <= max_int ->
  N <= 10 ^ 15 ->
  exists f dur,
    pcapgen.Generate R cfg = (Ok tt, [(pcapgen.outPath cfg 0, f)])
    /\ pcapgen.MinDuration cfg <= dur <= pcapgen.MaxDuration cfg
    /\ pcapgen.timestamps f
       = map (fun k => pcapgen.StartTime cfg + Z.of_nat k * flow_step dur N * 1000)
           (seq 0 (Z.to_nat N))
    /\ (N * 1000 <= dur ->
        Forall (fun t => pcapgen.StartTime cfg <= t < pcapgen.StartTime cfg + dur)
          (pcapgen.timestamps f)).
Proof.
  intros N Hval HF HI HE Hcap Hbase Hmax Hdmax HN.
  destruct (validate_None cfg Hval) as (HI0 & HE0 & Hfc & Hdur & Hx & _ & HP).
  specialize (HP HF).
  destruct (Generate_flows R cfg Hval HF HI HE Hdmax)
    as (internal & external & dur & w2 & Hl1 & Hl2 & Hwi & Hwe & Hrange & Hfile & Hgen).
  pose proof (capacity_in_int cfg Hval HI HE) as Hcapmax.
  destruct (createPcapFileFlows_plan R (pcapgen.outPath cfg 0) (pcapgen.StartTime cfg)
              dur cfg (pcapgen.ExactBytes cfg) internal external w2 HF HP Hwi Hwe
              ltac:(rewrite Hl1, Hl2; exact Hcapmax) ltac:(rewrite Hl1, Hl2; exact Hcap)
              Hbase Hmax ltac:(lia) Hfile)
    as (w3 & Hrun & _ & _ & Htimes).
  fold N in Htimes.
  assert (HN0 : 0 < N) by (unfold N; nia).
  assert (Hstep1 : 1 <= flow_step dur N) by (unfold flow_step; lia).
  assert (Hstep : N * flow_step dur N * 1000 <= max_int).
  { unfold flow_step, max_int in *. change (10 ^ 15) with 1000000000000000 in HN.
    assert (Hq : 0 <= dur / 1000 <= dur)
      by (split; [apply Z.div_pos; lia | apply Z.div_le_upper_bound; lia]).
    pose proof (Z.mul_div_le (Z.max 1 (dur / 1000)) N HN0) as Hm.
    pose proof (Z.mul_div_le dur 1000 ltac:(lia)) as Hm'.
    destruct (Z.max_spec 1 (Z.max 1 (dur / 1000) / N)) as [[_ ->] | [_ ->]]; lia. }
  assert (Heq : forall k, (k < Z.to_nat N)%nat ->
            flow_time (pcapgen.StartTime cfg) (flow_step dur N) (Z.of_nat k)
            = pcapgen.StartTime cfg + Z.of_nat k * flow_step dur N * 1000).
  { intros k Hk.
    apply (flow_time_exact (pcapgen.StartTime cfg) (flow_step dur N) cfg HF HP Hstep1 Hstep).
    fold N. lia. }
  assert (Hts : pcapgen.timestamps (pcapgen.w_file w3)
                = map (fun k => pcapgen.StartTime cfg + Z.of_nat k * flow_step dur N * 1000)
                    (seq 0 (Z.to_nat N))).
  { rewrite Htimes. apply map_ext_in. intros k Hk. apply in_seq in Hk.
    apply Heq. lia. }
  exists (pcapgen.w_file w3), dur. rewrite Hgen, Hrun.
  split; [reflexivity|]. split; [exact Hrange|]. split; [exact Hts|].
  intros Hroom. rewrite Hts. apply Forall_forall. intros t Hin.
  apply in_map_iff in Hin. destruct Hin as (k & <- & Hk). apply in_seq in Hk.
  assert (Hq : N <= dur / 1000) by (apply Z.div_le_lower_bound; lia).
  assert (Hs : flow_step dur N = dur / 1000 / N).
  { unfold flow_step. rewrite (Z.max_r 1 (dur / 1000)) by lia.
    assert (1 <= dur / 1000 / N) by (apply Z.div_le_lower_bound; lia). lia. }
  rewrite Hs.
  pose proof (Z.mul_div_le (dur / 1000) N HN0) as Hm.
  pose proof (Z.mul_div_le dur 1000 ltac:(lia)) as Hm'.
  assert (Hs1 : 1 <= dur / 1000 / N) by (apply Z.div_le_lower_bound; lia).
  set (s := dur / 1000 / N) in *.
  assert (Hks : 0 <= Z.of_nat k * s <= N * s - s).
  { split; [apply Z.mul_nonneg_nonneg; lia|].
    replace (N * s - s) with ((N - 1) * s) by ring.
    apply Z.mul_le_mono_nonneg_r; lia. }
  lia.
Qed.

Lemma Generate_fixed_flow_timestamps_witness :
  exists f dur,
    pcapgen.Generate (F := float) lcg scenario = (Ok tt, [(pcapgen.outPath scenario 0, f)])
    /\ 60 * pcapgen.Second <= dur <= 120 * pcapgen.Second
    /\ pcapgen.timestamps f
       = map (fun k => pcapgen.StartTime scenario + Z.of_nat k * flow_step dur 50 * 1000)
           (seq 0 (Z.to_nat 50))
    /\ (50 * 1000 <= dur ->
        Forall (fun t => pcapgen.StartTime scenario <= t < pcapgen.StartTime scenario + dur)
          (pcapgen.timestamps f)).
Proof.
  apply (Generate_fixed_flow_timestamps (F := float) lcg scenario);
    [reflexivity | reflexivity | discriminate | discriminate | discriminate
    | discriminate | discriminate | discriminate | discriminate].
Defined.

(** ** What a run leaves on disk *)

Section Appends.
Context (R : pcapgen.RandSource).

Lemma appends_keeps {A : Type} (m : pcapgen.M R A) : keeps_file m -> appends m.
Proof.
  intros Hk w r w' H. exists []. rewrite app_nil_r.
  split; [exact (Hk _ _ _ H) | constructor].
Qed.

Lemma appends_bind {A B : Type} (m : pcapgen.M R A) (k : A -> pcapgen.M R B) :
  appends m -> (forall a, appends (k a)) -> appends (pcapgen.bindM R m k).
Proof.
  intros Hm Hk w r w' H. unfold pcapgen.bindM in H.
  destruct (m w) as [[a|e] w1] eqn:Hmw.
  - destruct (Hm _ _ _ Hmw) as (l1 & H1 & Hr1).
    destruct (Hk a _ _ _ H) as (l2 & H2 & Hr2).
    exists (l1 ++ l2). rewrite H2, H1, app_assoc. split; [reflexivity|].
    apply Forall_app. auto.
  - inversion H; subst. exact (Hm _ _ _ Hmw).
Qed.

Lemma appends_for_loop {A : Type} (body : Z -> A -> pcapgen.M R A) (n : nat) :
  (forall i a, appends (body i a)) ->
  forall i a, appends (pcapgen.for_loop R n i body a).
Proof.
  intros Hbody. induction n as [|n IH]; intros i a.
  - cbn [pcapgen.for_loop]. apply appends_keeps, keeps_ret.
  - cbn [pcapgen.for_loop]. apply appends_bind; [apply Hbody | intros a'; apply IH].
Qed.

Lemma appends_WritePacket (ci : pcapgen.CaptureInfo) (data : list Z) :
  appends (pcapgen.WritePacket R ci data).
Proof.
  intros w r w' H. unfold pcapgen.WritePacket in H.
  destruct (negb (pcapgen.CaptureLength ci =? pcapgen.len data)) eqn:Hc.
  { inversion H; subst. exists []. rewrite app_nil_r. split; [reflexivity | constructor]. }
  destruct (pcapgen.CaptureLength ci >? pcapgen.Length ci) eqn:Hl.
  { inversion H; subst. exists []. rewrite app_nil_r. split; [reflexivity | constructor]. }
  inversion H; subst. exists [pcapgen.PacketRecord ci data]. split; [reflexivity|].
  apply negb_false_iff, Z.eqb_eq in Hc. rewrite Z.gtb_ltb in Hl. apply Z.ltb_ge in Hl.
  repeat constructor; assumption.
Qed.

Lemma keeps_createPacketForHosts (ih eh : pcapgen.host) (ias : bool) (n : Z) :
  keeps_file (pcapgen.createPacketForHosts R ih eh ias n).
Proof. unfold pcapgen.createPacketForHosts. destruct ias; apply keeps_buildFrame. Qed.

Lemma appends_flowPackets (start usecStep extra : Z) (cfg : pcapgen.Config)
    (internal external : list pcapgen.host) (j k : Z) :
  appends (pcapgen.flowPackets R start usecStep extra cfg internal external j k).
Proof.
  unfold pcapgen.flowPackets.
  apply appends_bind; [apply appends_keeps, keeps_lift|]. intros [[ii ei] ias].
  apply appends_for_loop. intros p k'. unfold pcapgen.flowPacket.
  apply appends_bind; [apply appends_keeps, keeps_lift|]. intros ih.
  apply appends_bind; [apply appends_keeps, keeps_lift|]. intros eh.
  apply appends_bind; [apply appends_keeps, keeps_createPacketForHosts|]. intros data.
  apply appends_bind; [apply appends_WritePacket|]. intros _.
  apply appends_keeps, keeps_ret.
Qed.

Lemma appends_integer_divide (a b : Z) : appends (pcapgen.integer_divide R a b).
Proof.
  unfold pcapgen.integer_divide.
  destruct (b =? 0); apply appends_keeps; [apply keeps_fail | apply keeps_ret].
Qed.

(** A writer: the header on a fresh file, then whole records only. *)
Lemma header_then (k : pcapgen.M R unit) (w : pcapgen.world R) :
  appends k -> pcapgen.w_file w = [] ->
  wellformed
    (pcapgen.w_file
       (snd (pcapgen.bindM R (pcapgen.WriteFileHeader R 65535 pcapgen.LinkTypeEthernet)
               (fun _ => k) w))).
Proof.
  intros Hk Hfresh. unfold pcapgen.bindM, pcapgen.WriteFileHeader.
  destruct (k _) as [r w'] eqn:Hrun.
  destruct (Hk _ _ _ Hrun) as (l & Hl & Hr). cbn [pcapgen.w_file] in Hl.
  exists l. cbn [snd]. rewrite Hl, Hfresh. split; [reflexivity | exact Hr].
Qed.

Lemma createPcapFileFlows_wellformed (path : string) (start duration : Z)
    (cfg : pcapgen.Config) (exactBytes : Z) (internal external : list pcapgen.host)
    (w : pcapgen.world R) :
  pcapgen.w_file w = [] ->
  wellformed
    (pcapgen.w_file
       (snd (pcapgen.createPcapFileFlows R path start duration cfg exactBytes
               internal external w))).
Proof.
  intros Hfresh. unfold pcapgen.createPcapFileFlows. apply header_then; [|exact Hfresh].
  destruct (_ >? _); [apply appends_keeps, keeps_fail|].
  apply appends_bind.
  { destruct (exactBytes >? 0).
    - destruct (_ <? _); apply appends_keeps; [apply keeps_fail | apply keeps_ret].
    - destruct (_ && _); apply appends_keeps; [apply keeps_fail | apply keeps_ret]. }
  intros extra.
  apply appends_bind; [apply appends_integer_divide|]. intros step.
  apply appends_bind; [|intros _; apply appends_keeps, keeps_ret].
  apply appends_for_loop. intros j k. apply appends_flowPackets.
Qed.

End Appends.

Section AppendsRandom.
Context {F : Type} {ops : Float64 F} (R : pcapgen.RandSource).

Lemma appends_randomStep (internal external : list pcapgen.host) (endSec total pl i : Z)
    (c : Z * Z) :
  appends (pcapgen.randomStep R internal external endSec total pl i c).
Proof.
  destruct c as [s o]. unfold pcapgen.randomStep.
  apply appends_bind; [apply appends_keeps, keeps_createPacket|]. intros data.
  apply appends_bind; [apply appends_WritePacket|]. intros _.
  apply appends_bind; [apply appends_keeps, keeps_Intn|]. intros gap.
  apply appends_keeps, keeps_ret.
Qed.

Lemma createPcapFile_wellformed (path : string) (start duration maxSize exactBytes : Z)
    (internal external : list pcapgen.host) (w : pcapgen.world R) :
  pcapgen.w_file w = [] ->
  wellformed
    (pcapgen.w_file
       (snd (pcapgen.createPcapFile R path start duration maxSize exactBytes
               internal external w))).
Proof.
  intros Hfresh. unfold pcapgen.createPcapFile. apply header_then; [|exact Hfresh].
  destruct (exactBytes >? 0).
  - destruct (_ <? _); [apply appends_keeps, keeps_fail|]. cbv zeta.
    destruct (_ <=? _); [apply appends_keeps, keeps_fail|].
    apply appends_bind; [|intros _; apply appends_keeps, keeps_ret].
    apply appends_for_loop. intros i c. apply appends_randomStep.
  - cbv zeta. destruct (_ <=? _); [apply appends_keeps, keeps_fail|].
    apply appends_bind; [|intros _; apply appends_keeps, keeps_ret].
    apply appends_for_loop. intros i c. apply appends_randomStep.
Qed.

Lemma keeps_randomDuration (min max : Z) : keeps_file (pcapgen.randomDuration R min max).
Proof.
  unfold pcapgen.randomDuration. destruct (min =? max); [apply keeps_ret|].
  apply keeps_bind; [apply keeps_Int63n | intros v; apply keeps_ret].
Qed.

Lemma keeps_fileDuration (cfg : pcapgen.Config) (t : Z) :
  keeps_file (pcapgen.fileDuration R cfg t).
Proof.
  unfold pcapgen.fileDuration.
  apply keeps_bind; [apply keeps_randomDuration|]. intros dur.
  destruct (_ >? _); apply keeps_ret.
Qed.

End AppendsRandom.

Lemma wellformed_size (f : pcapgen.file) :
  wellformed f ->
  pcapgen.len (pcapgen.file_bytes f)
  = 24 + 16 * pcapgen.len (pcapgen.packets f) + sum_lengths (frame_lengths f).
Proof.
  intros (recs & -> & Hr).
  rewrite file_bytes_app, packets_app, frame_lengths_app, !len_app.
  change (pcapgen.len (pcapgen.file_bytes header_only)) with 24.
  change (pcapgen.len (pcapgen.packets header_only)) with 0.
  change (frame_lengths header_only) with (@nil Z). cbn [app].
  induction Hr as [|c recs Hc Hr IH]; [reflexivity|].
  destruct c as [? ?|ci data]; [contradiction|].
  change (pcapgen.PacketRecord ci data :: recs)
    with ([pcapgen.PacketRecord ci data] ++ recs).
  rewrite file_bytes_app, packets_app, frame_lengths_app, !len_app, len_record.
  change (pcapgen.len (pcapgen.packets [pcapgen.PacketRecord ci data])) with 1.
  change (frame_lengths [pcapgen.PacketRecord ci data]) with [pcapgen.len data].
  cbn [app sum_lengths fold_right]. fold (sum_lengths (frame_lengths recs)). lia.
Qed.

(** X12. Whatever a valid run leaves on disk is a readable capture, also when
    the run fails part-way: the pcap header first, then whole records only,
    each with the capture length of its frame; its size is 24 bytes plus 16
    bytes and the frame for every record. *)
Theorem Generate_files_wellformed {F : Type} {ops : Float64 F} (R : pcapgen.RandSource)
    (cfg : pcapgen.Config) :
  pcapgen.validate cfg = None -> pcapgen.MaxDuration cfg <= max_int ->
  Forall (fun pf =>
            wellformed (snd pf)
            /\ pcapgen.len (pcapgen.file_bytes (snd pf))
               = 24 + 16 * pcapgen.len (pcapgen.packets (snd pf))
                 + sum_lengths (frame_lengths (snd pf)))
         (snd (pcapgen.Generate R cfg)).
Proof.
  intros Hval Hdmax.
  destruct (pcapgen.buildPools R cfg
              {| pcapgen.w_rand := pcapgen.NewSource R (pcapgen.Seed cfg);
                 pcapgen.w_file := [] |}) as [[[internal external]|e] w1] eqn:Hpools.
  2:{ unfold pcapgen.Generate. rewrite Hval, Hpools. constructor. }
  destruct (Generate_one R cfg Hval Hdmax internal external w1 Hpools)
    as (dur & w2 & _ & Hfile & ->).
  assert (Hwf : wellformed
            (pcapgen.w_file
               (snd ((if pcapgen.FlowCount cfg >? 0 then
                        pcapgen.createPcapFileFlows R (pcapgen.outPath cfg 0)
                          (pcapgen.StartTime cfg) dur cfg (pcapgen.ExactBytes cfg)
                          internal external
                      else
                        pcapgen.createPcapFile R (pcapgen.outPath cfg 0)
                          (pcapgen.StartTime cfg) dur (pcapgen.MaxSizeBytes cfg)
                          (pcapgen.ExactBytes cfg) internal external) w2)))).
  { destruct (pcapgen.FlowCount cfg >? 0);
      [now apply createPcapFileFlows_wellformed | now apply createPcapFile_wellformed]. }
  match type of Hwf with
  | wellformed (pcapgen.w_file (snd ?run)) => destruct run as [r w3]
  end.
  cbn [snd] in *. repeat constructor; [exact Hwf | now apply wellformed_size].
Qed.

Lemma Generate_files_wellformed_witness :
  Forall (fun pf =>
            wellformed (snd pf)
            /\ pcapgen.len (pcapgen.file_bytes (snd pf))
               = 24 + 16 * pcapgen.len (pcapgen.packets (snd pf))
                 + sum_lengths (frame_lengths (snd pf)))
         (snd (pcapgen.Generate (F := float) lcg (flow_run 3 2 50 1 3924))).
Proof.
  apply (Generate_files_wellformed (F := float) lcg (flow_run 3 2 50 1 3924));
    [reflexivity | discriminate].
Defined.

(** ** The defaults of the command *)

(** X13. The defaults of the command, whatever the clock gives for the seed:
    as they are, [Generate] refuses them, because no exact size is set; with
    an exact size [x] of at least 102 bytes they run in random mode and
    leave [generated_0000.pcap] in the out-dir, exactly [x] bytes long, with
    [(x - 24) / 78] packets. *)
Theorem DefaultConfig_needs_exact_size (R : pcapgen.RandSource) (start now x : Z) :
  - 2 ^ 41 <= pcapgen.Time_Unix start <= 2 ^ 41 ->
  pcapgen.Generate (F := float) R (pcapgen.DefaultConfig start now)
  = (Err (Error "exact-size must be > 0"), [])
  /\ (102 <= x <= 10 ^ 16 ->
      exists f,
        pcapgen.Generate (F := float) R (with_ExactBytes (pcapgen.DefaultConfig start now) x)
        = (Ok tt, [(pcapgen.outPath (pcapgen.DefaultConfig start now) 0, f)])
        /\ pcapgen.len (pcapgen.file_bytes f) = x
        /\ pcapgen.len (pcapgen.packets f) = (x - 24) / 78).
Proof.
  intros Hstart. split; [reflexivity|]. intros Hx.
  change (10 ^ 16) with 10000000000000000 in Hx.
  assert (Hval : pcapgen.validate (with_ExactBytes (pcapgen.DefaultConfig start now) x) = None).
  { apply validate_accepts; cbn; first [lia | reflexivity | split; [reflexivity | discriminate]]. }
  destruct (Generate_random_run R (with_ExactBytes (pcapgen.DefaultConfig start now) x)
              Hval eq_refl Hx Hstart ltac:(discriminate))
    as (f & Hgen & (Hl & Hb) & _).
  cbn [with_ExactBytes pcapgen.ExactBytes] in Hl, Hb.
  set (N := (x - 24) / 78) in *.
  assert (HN : 1 <= N) by (apply Z.div_le_lower_bound; lia).
  rewrite Z.ltb_irrefl in Hl, Hb.
  exists f. split; [exact Hgen|]. split.
  - rewrite Hb. pose proof (Z.div_mod (x - 24) 78 ltac:(lia)) as Hdm. fold N in Hdm. lia.
  - unfold frame_lengths in Hl. apply (f_equal (@List.length Z)) in Hl.
    rewrite length_map, length_app, repeat_length in Hl. cbn [List.length] in Hl.
    unfold pcapgen.len. lia.
Qed.

Lemma DefaultConfig_needs_exact_size_witness :
  pcapgen.Generate (F := float) lcg (pcapgen.DefaultConfig (1475366400 * pcapgen.Second) 1)
  = (Err (Error "exact-size must be > 0"), [])
  /\ exists f,
       pcapgen.Generate (F := float) lcg
         (with_ExactBytes (pcapgen.DefaultConfig (1475366400 * pcapgen.Second) 1) 1048576)
       = (Ok tt,
          [(pcapgen.outPath (pcapgen.DefaultConfig (1475366400 * pcapgen.Second) 1) 0, f)])
       /\ pcapgen.len (pcapgen.file_bytes f) = 1048576
       /\ pcapgen.len (pcapgen.packets f) = (1048576 - 24) / 78.
Proof.
  destruct (DefaultConfig_needs_exact_size lcg (1475366400 * pcapgen.Second) 1 1048576
              ltac:(split; discriminate)) as [Hdefault Hexact].
  split; [exact Hdefault | apply Hexact; split; discriminate].
Defined.

(** ** Replay: passes, budget and errors *)

Section ReplayPasses.
Context (env : replay.Env) (fd : Z).

Section Link.
Hypothesis Hsend : forall data, replay.Sendto env fd data = Ok tt.

Lemma readLoop_unlimited (ps : list (list Z * pcapgen.CaptureInfo)) :
  forall total bits snt,
    replay.readLoop env fd (map Ok ps) total bits
      {| replay.remaining := None; replay.sent := snt |}
    = (Ok tt, {| replay.remaining := None; replay.sent := snt ++ map fst ps |}).
Proof.
  induction ps as [|[data ci] ps IH]; intros total bits snt.
  - cbn. now rewrite app_nil_r.
  - cbn [map replay.readLoop replay.remaining replay.sent fst].
    rewrite Hsend, IH, <- app_assoc. reflexivity.
Qed.

Lemma readLoop_spent p rest total bits snt :
  replay.readLoop env fd (Ok p :: rest) total bits
    {| replay.remaining := Some 0; replay.sent := snt |}
  = (Ok tt, {| replay.remaining := Some 0; replay.sent := snt |}).
Proof. destruct p. reflexivity. Qed.

(** A pass that has sent [total] packets with [r] left sends half of the
    difference more, rounded up. *)
Lemma readLoop_budget (ps : list (list Z * pcapgen.CaptureInfo)) :
  forall total r bits snt,
    0 <= total -> 0 <= r <= max_int ->
    let k := Nat.min (List.length ps) (Z.to_nat ((r - total + 1) / 2)) in
    replay.readLoop env fd (map Ok ps) total bits
      {| replay.remaining := Some r; replay.sent := snt |}
    = (Ok tt, {| replay.remaining := Some (r - Z.of_nat k);
                 replay.sent := snt ++ map fst (firstn k ps) |}).
Proof.
  induction ps as [|p ps IH]; intros total r bits snt Ht Hr k.
  - subst k. cbn. rewrite app_nil_r, Z.sub_0_r. reflexivity.
  - cbn [map]. destruct (Z.eq_dec r 0) as [-> | Hr0].
    + rewrite readLoop_spent.
      assert (Hk : k = 0%nat).
      { subst k. assert ((0 - total + 1) / 2 < 1) by (apply Z.div_lt_upper_bound; lia).
        lia. }
      rewrite Hk. cbn. now rewrite app_nil_r.
    + destruct (Z.lt_ge_cases total r) as [Hlt | Hge].
      * rewrite (readLoop_send env fd Hsend) by lia.
        rewrite IH by lia. cbv zeta.
        assert (Hhalf : (r - total + 1) / 2 = (r - 1 - (total + 1) + 1) / 2 + 1).
        { replace (r - total + 1) with ((r - 1 - (total + 1) + 1) + 1 * 2) by lia.
          now rewrite Z.div_add by lia. }
        assert (Hnn : 0 <= (r - 1 - (total + 1) + 1) / 2) by (apply Z.div_pos; lia).
        set (k' := Nat.min (List.length ps) (Z.to_nat ((r - 1 - (total + 1) + 1) / 2))).
        assert (Hk : k = S k').
        { subst k k'. cbn [List.length]. rewrite Hhalf. lia. }
        rewrite Hk. cbn [firstn map]. rewrite <- app_assoc. cbn [app].
        do 2 f_equal. f_equal. lia.
      * rewrite (readLoop_stop env fd) by lia.
        assert (Hk : k = 0%nat).
        { subst k. assert ((r - total + 1) / 2 < 1) by (apply Z.div_lt_upper_bound; lia).
          lia. }
        rewrite Hk. cbn. now rewrite app_nil_r, Z.sub_0_r.
Qed.

(** With every read and every send succeeding, a pass succeeds. *)
Lemma readLoop_returns (ps : list (list Z * pcapgen.CaptureInfo)) :
  forall total bits st, fst (replay.readLoop env fd (map Ok ps) total bits st) = Ok tt.
Proof.
  induction ps as [|[data ci] ps IH]; intros total bits st; [reflexivity|].
  cbn [map replay.readLoop].
  destruct (match replay.remaining st with Some r => r =? 0 | None => false end);
    [reflexivity|].
  destruct (match replay.remaining st with
            | Some r => (r >? 0) && (total >=? r) | None => false end); [reflexivity|].
  rewrite Hsend. apply IH.
Qed.

End Link.

(** Frames are sent until the first read or send that fails. *)
Lemma readLoop_prefix (pre : list (list Z * pcapgen.CaptureInfo)) (tail : replay.capture) :
  (forall x, In x pre -> replay.Sendto env fd (fst x) = Ok tt) ->
  forall total bits snt,
  exists total' bits',
    replay.readLoop env fd (map Ok pre ++ tail) total bits
      {| replay.remaining := None; replay.sent := snt |}
    = replay.readLoop env fd tail total' bits'
        {| replay.remaining := None; replay.sent := snt ++ map fst pre |}.
Proof.
  induction pre as [|[data ci] pre IH]; intros Hpre total bits snt.
  - exists total, bits. cbn. now rewrite app_nil_r.
  - cbn [map app replay.readLoop replay.remaining replay.sent fst].
    pose proof (Hpre (data, ci) (or_introl eq_refl)) as Hd. cbn [fst] in Hd. rewrite Hd.
    destruct (IH (fun x Hx => Hpre x (or_intror Hx)) (add64 total 1)
                 (add64 bits (mul64 (pcapgen.len data) 8)) (snt ++ [data]))
      as (t' & b' & ->).
    exists t', b'. now rewrite <- app_assoc.
Qed.

End ReplayPasses.

Section ReplayRuns.
Context {F : Type} {ops : Float64 F} (env : replay.Env) (cfg : replay.Config F) (fd : Z).
Hypothesis Hstart : starts env cfg fd.

Lemma Replay_starts (fuel : nat) :
  replay.Replay env fuel cfg
  = replay.replayLoops env fuel fd cfg 0
      {| replay.remaining := if replay.Limit cfg >? 0 then Some (replay.Limit cfg) else None;
         replay.sent := [] |}.
Proof.
  destruct Hstart as (Hin & Hif & Hm & Hp & ifindex & Hi & Hs & Hb).
  unfold replay.Replay.
  apply String.eqb_neq in Hin, Hif. rewrite Hin, Hif. cbn [orb].
  rewrite Hm, Hp, Hi, Hs, Hb. reflexivity.
Qed.

Variable ps : list (list Z * pcapgen.CaptureInfo).
Hypothesis Hopen : replay.open_capture env (replay.InPath cfg) = Ok (map Ok ps).
Hypothesis Hsend : forall data, replay.Sendto env fd data = Ok tt.

Lemma replayLoops_unlimited (n : nat) :
  forall (fuel : nat) (loop : Z) (snt : list (list Z)),
    0 <= loop -> loop + Z.of_nat n = replay.Loop cfg -> 0 < replay.Loop cfg <= max_int ->
    (n < fuel)%nat ->
    replay.replayLoops env fuel fd cfg loop {| replay.remaining := None; replay.sent := snt |}
    = Some (Ok tt, {| replay.remaining := None;
                      replay.sent := snt ++ List.concat (repeat (map fst ps) n) |}).
Proof.
  induction n as [|n IH]; intros fuel loop snt Hl Hn HL Hf;
    (destruct fuel as [|fuel]; [lia|]); cbn [replay.replayLoops].
  - replace (replay.Loop cfg >? 0) with true by (symmetry; apply Z.gtb_lt; lia).
    replace (loop >=? replay.Loop cfg) with true
      by (symmetry; rewrite Z.geb_leb; apply Z.leb_le; lia).
    cbn. now rewrite app_nil_r.
  - replace (loop >=? replay.Loop cfg) with false
      by (symmetry; rewrite Z.geb_leb; apply Z.leb_gt; lia).
    rewrite andb_false_r. unfold replay.replayOnce. rewrite Hopen.
    rewrite (readLoop_unlimited env fd Hsend).
    assert (Hadd : add64 loop 1 = loop + 1)
      by (unfold add64, max_int in *; apply wrap_id, in_int_bounds; lia).
    rewrite Hadd, IH by lia. cbn [repeat List.concat]. now rewrite app_assoc.
Qed.

Lemma replayLoops_budget (n : nat) :
  forall (fuel : nat) (loop r : Z) (snt : list (list Z)),
    0 <= loop -> loop + Z.of_nat n = replay.Loop cfg -> 0 < replay.Loop cfg <= max_int ->
    0 <= r <= max_int -> (r + 1) / 2 <= Z.of_nat (List.length ps) ->
    (n < fuel)%nat ->
    exists snt',
      replay.replayLoops env fuel fd cfg loop
        {| replay.remaining := Some r; replay.sent := snt |}
      = Some (Ok tt, {| replay.remaining := Some (r / 2 ^ Z.of_nat n); replay.sent := snt' |})
      /\ Z.of_nat (List.length snt')
         = Z.of_nat (List.length snt) + (r - r / 2 ^ Z.of_nat n).
Proof.
  induction n as [|n IH]; intros fuel loop r snt Hl Hn HL Hr Hps Hf;
    (destruct fuel as [|fuel]; [lia|]); cbn [replay.replayLoops].
  - replace (replay.Loop cfg >? 0) with true by (symmetry; apply Z.gtb_lt; lia).
    replace (loop >=? replay.Loop cfg) with true
      by (symmetry; rewrite Z.geb_leb; apply Z.leb_le; lia).
    cbn [andb]. exists snt. change (2 ^ Z.of_nat 0) with 1. rewrite Z.div_1_r.
    split; [reflexivity | lia].
  - replace (loop >=? replay.Loop cfg) with false
      by (symmetry; rewrite Z.geb_leb; apply Z.leb_gt; lia).
    rewrite andb_false_r. unfold replay.replayOnce. rewrite Hopen.
    rewrite (readLoop_budget env fd Hsend) by lia. cbv zeta.
    rewrite Z.sub_0_r.
    assert (Hh0 : 0 <= (r + 1) / 2) by (apply Z.div_pos; lia).
    set (k := Nat.min (List.length ps) (Z.to_nat ((r + 1) / 2))).
    assert (Hk : Z.of_nat k = (r + 1) / 2) by (subst k; lia).
    assert (Hhalf : r - Z.of_nat k = r / 2).
    { rewrite Hk. pose proof (Z.div_mod r 2 ltac:(lia)).
      pose proof (Z.mod_pos_bound r 2 ltac:(lia)).
      pose proof (Z.div_mod (r + 1) 2 ltac:(lia)).
      pose proof (Z.mod_pos_bound (r + 1) 2 ltac:(lia)). lia. }
    rewrite Hhalf.
    assert (Hadd : add64 loop 1 = loop + 1)
      by (unfold add64, max_int in *; apply wrap_id, in_int_bounds; lia).
    assert (Hr2 : 0 <= r / 2 <= r).
    { split; [apply Z.div_pos; lia | apply Z.div_le_upper_bound; lia]. }
    assert (Hps2 : (r / 2 + 1) / 2 <= Z.of_nat (List.length ps)).
    { apply Z.le_trans with ((r + 1) / 2); [|exact Hps]. apply Z.div_le_mono; lia. }
    rewrite Hadd.
    destruct (IH fuel (loop + 1) (r / 2) (snt ++ map fst (firstn k ps))
                ltac:(lia) ltac:(lia) HL ltac:(lia) Hps2 ltac:(lia)) as (snt' & -> & Hlen).
    exists snt'. split.
    + do 3 f_equal. rewrite Z.div_div by (try apply Z.pow_pos_nonneg; lia).
      f_equal. rewrite Nat2Z.inj_succ, Z.pow_succ_r by lia. reflexivity.
    + rewrite Hlen, length_app, length_map, length_firstn, Nat2Z.inj_add.
      fold k. replace (Nat.min k (List.length ps)) with k by (subst k; lia).
      rewrite Hk. rewrite Z.div_div by (try apply Z.pow_pos_nonneg; lia).
      rewrite Nat2Z.inj_succ, Z.pow_succ_r by lia. lia.
Qed.

Lemma replayLoops_forever (fuel : nat) :
  forall (loop : Z) (st : replay.run),
    replay.Loop cfg <= 0 -> replay.replayLoops env fuel fd cfg loop st = None.
Proof.
  induction fuel as [|fuel IH]; intros loop st HL; [reflexivity|].
  cbn [replay.replayLoops].
  replace (replay.Loop cfg >? 0) with false
    by (symmetry; rewrite Z.gtb_ltb; apply Z.ltb_ge; lia).
  cbn [andb]. unfold replay.replayOnce. rewrite Hopen.
  pose proof (readLoop_returns env fd Hsend ps 0 0 st) as Hret.
  destruct (replay.readLoop env fd (map Ok ps) 0 0 st) as [[[]|e] st']; [|discriminate].
  now apply IH.
Qed.

End ReplayRuns.

(** X14. Without a limit, a replay of [Loop] passes over a capture that
    reads and sends without error returns without error after sending
    every frame of the capture, in order, [Loop] times over. *)
Theorem Replay_loops_without_limit {F : Type} {ops : Float64 F}
    (env : replay.Env) (cfg : replay.Config F) (fd : Z)
    (ps : list (list Z * pcapgen.CaptureInfo)) (fuel : nat) :
  starts env cfg fd ->
  replay.open_capture env (replay.InPath cfg) = Ok (map Ok ps) ->
  (forall data, replay.Sendto env fd data = Ok tt) ->
  replay.Limit cfg <= 0 -> 0 < replay.Loop cfg <= max_int ->
  (Z.to_nat (replay.Loop cfg) < fuel)%nat ->
  replay.Replay env fuel cfg
  = Some (Ok tt,
          {| replay.remaining := None;
             replay.sent := List.concat (repeat (map fst ps) (Z.to_nat (replay.Loop cfg))) |}).
Proof.
  intros Hstart Hopen Hsend Hlim Hloop Hfuel.
  rewrite (Replay_starts env cfg fd Hstart).
  replace (replay.Limit cfg >? 0) with false
    by (symmetry; rewrite Z.gtb_ltb; apply Z.ltb_ge; lia).
  rewrite (replayLoops_unlimited env cfg fd ps Hopen Hsend (Z.to_nat (replay.Loop cfg)))
    by lia.
  reflexivity.
Qed.

Lemma Replay_loops_without_limit_witness :
  replay.Replay loopback 3 (replay_example 2 0)
  = Some (Ok tt,
          {| replay.remaining := None;
             replay.sent := List.concat (repeat (map fst ten_packets) 2) |}).
Proof.
  apply (Replay_loops_without_limit loopback (replay_example 2 0) 3 ten_packets 3%nat).
  - repeat split; try discriminate. exists 2. repeat split.
  - reflexivity.
  - reflexivity.
  - discriminate.
  - split; [reflexivity | discriminate].
  - cbn. lia.
Defined.

(** X15. With a limit, every pass halves what is left of it: a pass stops
    once it has sent as many packets as are left of the budget, which each
    packet sent has decreased.  After [Loop] passes over a capture long
    enough for the first, [Limit / 2 ^ Loop] is left of the limit and
    [Limit - Limit / 2 ^ Loop] packets have been sent. *)
Theorem Replay_limit_halves_per_pass {F : Type} {ops : Float64 F}
    (env : replay.Env) (cfg : replay.Config F) (fd : Z)
    (ps : list (list Z * pcapgen.CaptureInfo)) (fuel : nat) :
  starts env cfg fd ->
  replay.open_capture env (replay.InPath cfg) = Ok (map Ok ps) ->
  (forall data, replay.Sendto env fd data = Ok tt) ->
  0 < replay.Limit cfg <= max_int -> 0 < replay.Loop cfg <= max_int ->
  (replay.Limit cfg + 1) / 2 <= Z.of_nat (List.length ps) ->
  (Z.to_nat (replay.Loop cfg) < fuel)%nat ->
  exists snt,
    replay.Replay env fuel cfg
    = Some (Ok tt,
            {| replay.remaining := Some (replay.Limit cfg / 2 ^ replay.Loop cfg);
               replay.sent := snt |})
    /\ Z.of_nat (List.length snt)
       = replay.Limit cfg - replay.Limit cfg / 2 ^ replay.Loop cfg.
Proof.
  intros Hstart Hopen Hsend Hlim Hloop Hps Hfuel.
  rewrite (Replay_starts env cfg fd Hstart).
  replace (replay.Limit cfg >? 0) with true by (symmetry; apply Z.gtb_lt; lia).
  destruct (replayLoops_budget env cfg fd ps Hopen Hsend (Z.to_nat (replay.Loop cfg))
              fuel 0 (replay.Limit cfg) [] ltac:(lia) ltac:(lia) Hloop ltac:(lia) Hps Hfuel)
    as (snt & Hrun & Hlen).
  rewrite Z2Nat.id in Hrun, Hlen by lia.
  exists snt. split; [exact Hrun|]. rewrite Hlen. cbn [List.length]. lia.
Qed.

Lemma Replay_limit_halves_per_pass_witness :
  exists snt,
    replay.Replay loopback 2 (replay_example 1 10)
    = Some (Ok tt, {| replay.remaining := Some (10 / 2 ^ 1); replay.sent := snt |})
    /\ Z.of_nat (List.length snt) = 10 - 10 / 2 ^ 1.
Proof.
  apply (Replay_limit_halves_per_pass loopback (replay_example 1 10) 3 ten_packets 2%nat).
  - repeat split; try discriminate. exists 2. repeat split.
  - reflexivity.
  - reflexivity.
  - split; [reflexivity | discriminate].
  - split; [reflexivity | discriminate].
  - discriminate.
  - cbn. lia.
Defined.

(** X16. A loop count of zero, or below, replays for ever: as long as the
    capture reads and the link sends, [Replay] does not return, with a limit
    or without, also once the limit is used up. *)
Theorem Replay_loop0_never_returns {F : Type} {ops : Float64 F}
    (env : replay.Env) (cfg : replay.Config F) (fd : Z)
    (ps : list (list Z * pcapgen.CaptureInfo)) (fuel : nat) :
  starts env cfg fd ->
  replay.open_capture env (replay.InPath cfg) = Ok (map Ok ps) ->
  (forall data, replay.Sendto env fd data = Ok tt) ->
  replay.Loop cfg <= 0 ->
  replay.Replay env fuel cfg = None.
Proof.
  intros Hstart Hopen Hsend Hloop.
  rewrite (Replay_starts env cfg fd Hstart).
  now apply (replayLoops_forever env cfg fd ps Hopen Hsend).
Qed.

Lemma Replay_loop0_never_returns_witness :
  replay.Replay loopback 1000 (replay_example 0 10) = None.
Proof.
  apply (Replay_loop0_never_returns loopback (replay_example 0 10) 3 ten_packets 1000%nat).
  - repeat split; try discriminate. exists 2. repeat split.
  - reflexivity.
  - reflexivity.
  - discriminate.
Defined.

(** X17. Without a limit, the first read that fails (other than the end of
    the capture) and the first send that fails end the replay with that
    error, in the first pass; the frames before it have been sent, in order,
    and nothing after it. *)
Theorem Replay_stops_at_first_error {F : Type} {ops : Float64 F}
    (env : replay.Env) (cfg : replay.Config F) (fd : Z) (fuel : nat) :
  starts env cfg fd -> replay.Limit cfg <= 0 -> (0 < fuel)%nat ->
  (forall pre e rest,
     replay.open_capture env (replay.InPath cfg) = Ok (map Ok pre ++ Err e :: rest) ->
     (forall x, In x pre -> replay.Sendto env fd (fst x) = Ok tt) ->
     replay.Replay env fuel cfg
     = Some (Err e, {| replay.remaining := None; replay.sent := map fst pre |}))
  /\ (forall pre data ci e rest,
        replay.open_capture env (replay.InPath cfg)
        = Ok (map Ok pre ++ Ok (data, ci) :: rest) ->
        (forall x, In x pre -> replay.Sendto env fd (fst x) = Ok tt) ->
        replay.Sendto env fd data = Err e ->
        replay.Replay env fuel cfg
        = Some (Err e, {| replay.remaining := None; replay.sent := map fst pre |})).
Proof.
  intros Hstart Hlim Hfuel.
  assert (Hfirst : forall st,
            replay.replayLoops env fuel fd cfg 0 st
            = match replay.replayOnce env fd cfg st with
              | (Err e, st') => Some (Err e, st')
              | (Ok _, st') => replay.replayLoops env (Nat.pred fuel) fd cfg (add64 0 1) st'
              end).
  { intros st. destruct fuel as [|fuel]; [lia|]. cbn [replay.replayLoops Nat.pred].
    destruct (replay.Loop cfg >? 0) eqn:HL; [|reflexivity].
    apply Z.gtb_lt in HL.
    replace (0 >=? replay.Loop cfg) with false
      by (symmetry; rewrite Z.geb_leb; apply Z.leb_gt; lia).
    reflexivity. }
  split.
  - intros pre e rest Hopen Hpre.
    rewrite (Replay_starts env cfg fd Hstart), Hfirst.
    replace (replay.Limit cfg >? 0) with false
      by (symmetry; rewrite Z.gtb_ltb; apply Z.ltb_ge; lia).
    unfold replay.replayOnce. rewrite Hopen.
    destruct (readLoop_prefix env fd pre (Err e :: rest) Hpre 0 0 []) as (t' & b' & ->).
    reflexivity.
  - intros pre data ci e rest Hopen Hpre Hfail.
    rewrite (Replay_starts env cfg fd Hstart), Hfirst.
    replace (replay.Limit cfg >? 0) with false
      by (symmetry; rewrite Z.gtb_ltb; apply Z.ltb_ge; lia).
    unfold replay.replayOnce. rewrite Hopen.
    destruct (readLoop_prefix env fd pre (Ok (data, ci) :: rest) Hpre 0 0 [])
      as (t' & b' & ->).
    cbn [replay.readLoop replay.remaining]. rewrite Hfail. reflexivity.
Qed.

Lemma Replay_stops_at_first_error_witness :
  replay.Replay torn_capture 2 (replay_example 1 0)
  = Some (Err (Error "unexpected EOF"),
          {| replay.remaining := None; replay.sent := [[1]; [2]; [3]] |})
  /\ replay.Replay broken_link 2 (replay_example 1 0)
     = Some (Err (Error "network is down"),
             {| replay.remaining := None; replay.sent := [[1]; [2]; [3]] |}).
Proof.
  split.
  - refine (proj1 (Replay_stops_at_first_error torn_capture (replay_example 1 0) 3 2%nat
                     _ _ _) (firstn 3 ten_packets) _ (map Ok (skipn 3 ten_packets)) _ _).
    + repeat split; try discriminate. exists 2. repeat split.
    + discriminate.
    + lia.
    + reflexivity.
    + reflexivity.
  - refine (proj2 (Replay_stops_at_first_error broken_link (replay_example 1 0) 3 2%nat
                     _ _ _) (firstn 3 ten_packets) [4] _ _ (map Ok (skipn 4 ten_packets))
                  _ _ _).
    + repeat split; try discriminate. exists 2. repeat split.
    + discriminate.
    + lia.
    + reflexivity.
    + intros x Hx. cbn in Hx. destruct Hx as [<- | [<- | [<- | []]]]; reflexivity.
    + reflexivity.
Defined.

(** ** Byte order *)

Lemma htons_table :
  forallb (fun hi =>
     forallb (fun lo =>
        (replay.htons (replay.htons (hi * 256 + lo)) =? hi * 256 + lo)
        && (replay.htons (hi * 256 + lo) =? lo * 256 + hi))
       (map Z.of_nat (seq 0 256)))
    (map Z.of_nat (seq 0 256)) = true.
Proof. vm_compute. reflexivity. Qed.

(** X18. [htons] swaps the two bytes of a 16-bit value, and is its own
    inverse. *)
Theorem htons_swaps_bytes (i : Z) :
  0 <= i < 65536 ->
  replay.htons i = (i mod 256) * 256 + i / 256
  /\ replay.htons (replay.htons i) = i.
Proof.
  intros Hi. pose proof htons_table as H. rewrite forallb_forall in H.
  assert (Hbyte : forall b, 0 <= b < 256 -> In b (map Z.of_nat (seq 0 256))).
  { intros b Hb. replace b with (Z.of_nat (Z.to_nat b)) by lia.
    apply in_map, in_seq. lia. }
  pose proof (Z.mod_pos_bound i 256 ltac:(lia)) as Hlo.
  assert (Hhi : 0 <= i / 256 < 256)
    by (split; [apply Z.div_pos; lia | apply Z.div_lt_upper_bound; lia]).
  specialize (H (i / 256) (Hbyte _ Hhi)). rewrite forallb_forall in H.
  specialize (H (i mod 256) (Hbyte _ Hlo)).
  replace (i / 256 * 256 + i mod 256) with i in H
    by (pose proof (Z.div_mod i 256 ltac:(lia)); lia).
  apply andb_prop in H. destruct H as [H1 H2].
  apply Z.eqb_eq in H1, H2. split; assumption.
Qed.

Lemma htons_swaps_bytes_witness :
  replay.htons 3 = (3 mod 256) * 256 + 3 / 256 /\ replay.htons (replay.htons 3) = 3.
Proof. apply (htons_swaps_bytes 3). lia. Defined.

(** ** Sizes with a unit *)

(** *** Integers in binary64 *)

Lemma shr_1_even (X : Z) :
  0 <= X -> shr_1 (Build_shr_record (X * 2) false false) = Build_shr_record X false false.
Proof.
  destruct X as [|p|p]; [reflexivity | | lia]. intros _.
  replace (Zpos p * 2) with (Zpos (xO p)) by lia. reflexivity.
Qed.

(** Shifting out bits that are all zero loses nothing. *)
Lemma iter_shr_exact (n : positive) :
  forall M j : Z, 0 <= M -> 0 <= j ->
    iter_pos shr_1 n (Build_shr_record (M * 2 ^ (Zpos n + j)) false false)
    = Build_shr_record (M * 2 ^ j) false false.
Proof.
  induction n as [n IH|n IH|]; intros M j HM Hj; cbn [iter_pos].
  - replace (M * 2 ^ (Zpos n~1 + j)) with (M * 2 ^ (Zpos n + (Zpos n + j)) * 2).
    2:{ rewrite (Pos2Z.inj_xI n).
        replace (2 * Zpos n + 1 + j) with (Zpos n + (Zpos n + j) + 1) by lia.
        rewrite (Z.pow_add_r 2 (Zpos n + (Zpos n + j)) 1) by lia. ring. }
    rewrite shr_1_even by (apply Z.mul_nonneg_nonneg; [lia | apply Z.pow_nonneg; lia]).
    rewrite IH by lia. apply IH; lia.
  - replace (Zpos n~0 + j) with (Zpos n + (Zpos n + j)) by lia.
    rewrite IH by lia. apply IH; lia.
  - replace (M * 2 ^ (1 + j)) with (M * 2 ^ j * 2)
      by (rewrite (Z.pow_add_r 2 1 j) by lia; ring).
    apply shr_1_even. apply Z.mul_nonneg_nonneg; [lia | apply Z.pow_nonneg; lia].
Qed.

(** A mantissa of 53 bits followed by [k] zero bits rounds to itself. *)
Lemma binary_round_aux_shift (s : bool) (M Q : positive) (k e : Z) :
  Zpos (digits2_pos M) = 53 -> 0 <= k -> Zpos Q = Zpos M * 2 ^ k ->
  -1021 <= 53 + e -> 53 + e <= 1000 ->
  binary_round_aux prec emax s (Zpos Q) (e - k) loc_Exact = S754_finite s M e.
Proof.
  intros HdM Hk HQ He Hmax.
  pose proof (digits2_bounds M) as HM. rewrite HdM in HM. change (53 - 1) with 52 in HM.
  assert (H2k : 0 < 2 ^ k) by (apply Z.pow_pos_nonneg; lia).
  assert (HdQ : Zpos (digits2_pos Q) = 53 + k).
  { apply digits2_unique. rewrite HQ.
    replace (53 + k - 1) with (52 + k) by lia. rewrite !Z.pow_add_r by lia. nia. }
  assert (Hs : shr_fexp prec emax (Zpos Q) (e - k) loc_Exact
               = (Build_shr_record (Zpos M) false false, e)).
  { unfold shr_fexp. cbn [Zdigits2]. rewrite HdQ, fexp_normal by lia.
    replace (53 + k + (e - k) - 53 - (e - k)) with k by lia.
    destruct k as [|p|p]; [| |lia].
    - cbn [shr shr_record_of_loc]. rewrite HQ, Z.pow_0_r, Z.mul_1_r, Z.sub_0_r. reflexivity.
    - cbn [shr shr_record_of_loc]. rewrite HQ.
      pose proof (iter_shr_exact p (Zpos M) 0 ltac:(lia) ltac:(lia)) as Hit.
      rewrite Z.add_0_r, Z.pow_0_r, Z.mul_1_r in Hit. rewrite Hit.
      f_equal. lia. }
  unfold binary_round_aux. rewrite Hs.
  cbn [shr_m loc_of_shr_record round_nearest_even].
  rewrite (shr_fexp_exact M e HdM He). cbn [shr_m].
  replace (e <=? emax - prec) with true
    by (symmetry; apply Z.leb_le; unfold emax, prec; lia).
  reflexivity.
Qed.

Lemma digits_small (p : positive) : Zpos p < 2 ^ 53 -> Zpos (digits2_pos p) <= 53.
Proof.
  intros Hp. pose proof (digits2_bounds p) as [Hlo Hhi].
  destruct (Z.leb_spec (Zpos (digits2_pos p)) 53) as [H|H]; [exact H|].
  assert (2 ^ 53 <= 2 ^ (Zpos (digits2_pos p) - 1)) by (apply Z.pow_le_mono_r; lia). lia.
Qed.

(** A decimal literal without exponent that fits 53 bits is the integer. *)
Lemma dec_of_int (p : positive) :
  Zpos p < 2 ^ 53 -> IEEE.dec (Zpos p) 0 = IEEE.of_int (Zpos p).
Proof.
  intros Hp. pose proof (digits_small p Hp) as Hd.
  pose proof (digits2_bounds p) as [Hlo Hhi].
  destruct (binary_round_small false p Hd) as (m & Hr & Hm & Hdm).
  unfold IEEE.of_int. cbn [binary_normalize]. rewrite Hr.
  unfold IEEE.dec. cbn [Z.ltb Z.compare Z.abs Z.leb].
  change (Z.to_pos (10 ^ 0)) with 1%positive. rewrite Pos.mul_1_r.
  unfold IEEE.of_ratio, SFdiv_core_binary. cbn [Zdigits2 digits2_pos].
  set (d := Zpos (digits2_pos p)) in *.
  rewrite fexp_normal by lia.
  replace (d + 0 - (1 + 0) - 53) with (d - 54) by lia.
  rewrite Z.min_l by lia.
  replace (0 - 0 - (d - 54)) with (54 - d) by lia.
  destruct (54 - d) as [|j|j] eqn:Hj; [lia | | lia].
  rewrite Z.shiftl_mul_pow2 by lia. rewrite <- Hj.
  assert (H2 : 0 < 2 ^ (54 - d)) by (apply Z.pow_pos_nonneg; lia).
  destruct (Zpos p * 2 ^ (54 - d)) as [|Q|Q] eqn:HQ; [lia | | lia].
  assert (Hdiv : Z.div_eucl (Zpos Q) 1 = (Zpos Q, 0)).
  { pose proof (Z.div_eucl_eq (Zpos Q) 1 ltac:(lia)) as Heq.
    pose proof (Z.mod_pos_bound (Zpos Q) 1 ltac:(lia)) as Hrem. unfold Z.modulo in Hrem.
    destruct (Z.div_eucl (Zpos Q) 1) as [q r]. f_equal; lia. }
  rewrite Hdiv. change (new_location 1 0) with loc_Exact.
  replace (d - 54) with (d - 53 - 1) by lia.
  rewrite (binary_round_aux_shift false m Q 1 (d - 53) Hdm ltac:(lia)); [reflexivity | | lia | lia].
  rewrite <- HQ, Hm. replace (54 - d) with (53 - d + 1) by lia.
  rewrite Z.pow_add_r by lia. ring.
Qed.

(** The product of two integers is exact when it fits 53 bits. *)
Lemma mul_of_int (a b : positive) :
  Zpos a * Zpos b < 2 ^ 53 ->
  PrimFloat.mul (IEEE.of_int (Zpos a)) (IEEE.of_int (Zpos b)) = IEEE.of_int (Zpos (a * b)).
Proof.
  intros Hab. rewrite <- Pos2Z.inj_mul in Hab.
  assert (Ha : Zpos a < 2 ^ 53) by (rewrite Pos2Z.inj_mul in Hab; nia).
  assert (Hb : Zpos b < 2 ^ 53) by (rewrite Pos2Z.inj_mul in Hab; nia).
  destruct (of_int_exact a Ha) as (ma & Hfa & Hma & Hda).
  destruct (of_int_exact b Hb) as (mb & Hfb & Hmb & Hdb).
  destruct (of_int_exact (a * b) Hab) as (mc & Hfc & Hmc & Hdc).
  pose proof (digits_small a Ha) as Hsa. pose proof (digits_small b Hb) as Hsb.
  pose proof (digits_small (a * b) Hab) as Hsc.
  pose proof (digits2_bounds a) as [Hla Hha]. pose proof (digits2_bounds b) as [Hlb Hhb].
  pose proof (digits2_bounds (a * b)) as [Hlc Hhc].
  set (da := Zpos (digits2_pos a)) in *. set (db := Zpos (digits2_pos b)) in *.
  set (dc := Zpos (digits2_pos (a * b))) in *.
  assert (Hda1 : 1 <= da) by (unfold da; lia). assert (Hdb1 : 1 <= db) by (unfold db; lia).
  assert (Hdcl : da + db - 1 <= dc).
  { destruct (Z.leb_spec (da + db - 1) dc) as [H|H]; [exact H|].
    assert (2 ^ dc <= 2 ^ (da + db - 2)) by (apply Z.pow_le_mono_r; lia).
    assert (2 ^ (da + db - 2) = 2 ^ (da - 1) * 2 ^ (db - 1))
      by (rewrite <- Z.pow_add_r by lia; f_equal; lia).
    rewrite Pos2Z.inj_mul in Hhc.
    assert (0 < 2 ^ (da - 1)) by (apply Z.pow_pos_nonneg; lia).
    assert (0 < 2 ^ (db - 1)) by (apply Z.pow_pos_nonneg; lia). nia. }
  apply Prim2SF_inj. rewrite mul_spec, Hfa, Hfb, Hfc.
  unfold SF64mul. cbn [SFmul xorb].
  replace (da - 53 + (db - 53)) with (dc - 53 - (53 + dc - da - db)) by lia.
  apply binary_round_aux_shift; [exact Hdc | lia | | lia | lia].
  rewrite Pos2Z.inj_mul, Hma, Hmb, Hmc, Pos2Z.inj_mul.
  assert (Hsplit : 2 ^ (53 - da) * 2 ^ (53 - db) = 2 ^ (53 - dc) * 2 ^ (53 + dc - da - db)).
  { rewrite <- !Z.pow_add_r by lia. f_equal. lia. }
  replace (Zpos a * 2 ^ (53 - da) * (Zpos b * 2 ^ (53 - db)))
    with (Zpos a * Zpos b * (2 ^ (53 - da) * 2 ^ (53 - db))) by ring.
  rewrite Hsplit. ring.
Qed.

(** An integer is its own rounding. *)
Lemma Round_of_int (p : positive) :
  Zpos p < 2 ^ 53 -> IEEE.Round (IEEE.of_int (Zpos p)) = IEEE.of_int (Zpos p).
Proof.
  intros Hp. destruct (of_int_exact p Hp) as (m & Hf & Hm & Hdm).
  pose proof (digits_small p Hp) as Hd.
  unfold IEEE.Round, IEEE.to_SF. rewrite Hf.
  destruct (0 <=? Zpos (digits2_pos p) - 53) eqn:He; [reflexivity|].
  apply Z.leb_gt in He. cbv zeta.
  replace (- (Zpos (digits2_pos p) - 53)) with (53 - Zpos (digits2_pos p)) by lia.
  assert (H2 : 0 < 2 ^ (53 - Zpos (digits2_pos p))) by (apply Z.pow_pos_nonneg; lia).
  rewrite Hm, Z.div_mul, Z.mod_mul by lia.
  replace (2 ^ (53 - Zpos (digits2_pos p)) <=? 2 * 0) with false
    by (symmetry; apply Z.leb_gt; lia).
  reflexivity.
Qed.

(** What the parser makes of the integer [n] and the multiplier [mult]. *)
Lemma size_exact (n mult : Z) :
  0 < n -> 0 < mult -> n * mult < 2 ^ 53 ->
  let num := IEEE.dec n 0 in
  PrimFloat.is_infinity num = false
  /\ PrimFloat.leb num (IEEE.of_int 0) = false
  /\ IEEE.to_int (IEEE.Round (PrimFloat.mul num (IEEE.of_int mult))) = n * mult.
Proof.
  intros Hn Hmult Hprod. cbv zeta.
  destruct n as [|a|a]; [lia | | lia]. destruct mult as [|b|b]; [lia | | lia].
  assert (Ha : Zpos a < 2 ^ 53) by nia.
  rewrite (dec_of_int a Ha), (mul_of_int a b Hprod).
  rewrite <- Pos2Z.inj_mul in Hprod.
  rewrite (Round_of_int _ Hprod), to_int_of_int by lia.
  split; [|split; [|apply Pos2Z.inj_mul]].
  - destruct (of_int_exact a Ha) as (m & Hf & _).
    unfold PrimFloat.is_infinity. rewrite eqb_spec, abs_spec, Hf. reflexivity.
  - rewrite of_int_leb_0 by (change (2 ^ 64) with 18446744073709551616; change (2 ^ 53) with 9007199254740992 in Ha; lia).
    reflexivity.
Qed.

(** *** Digits and units *)

Lemma digit_cases (c : ascii) :
  genflux.is_digit c = true ->
  In c ["0"; "1"; "2"; "3"; "4"; "5"; "6"; "7"; "8"; "9"]%char.
Proof.
  destruct c as [[] [] [] [] [] [] [] []]; intros H;
    first [discriminate H | cbn; tauto].
Qed.

Lemma read_digits_only (s : string) :
  forall m k n k', genflux.read_digits s m k = (n, k', ""%string) ->
    digits_only s = true /\ k + Z.of_nat (String.length s) = k'.
Proof.
  induction s as [|c r IH]; intros m k n k' H.
  - cbn in H. inversion H; subst. cbn. split; [reflexivity | lia].
  - cbn [genflux.read_digits] in H. cbn [digits_only String.length].
    destruct (genflux.is_digit c); [|discriminate].
    destruct (IH _ _ _ _ H) as [Hd Hk]. split; [exact Hd | lia].
Qed.

Lemma lower_digit (c : ascii) : genflux.is_digit c = true -> genflux.lower c = c.
Proof.
  intros H. destruct (digit_cases c H) as [<- | [<- | [<- | [<- | [<- | [<- | [<- | [<- | [<- | [<- | []]]]]]]]]]];
    reflexivity.
Qed.

Lemma ToLower_digits (s : string) : digits_only s = true -> genflux.ToLower s = s.
Proof.
  induction s as [|c r IH]; [reflexivity|]. cbn [digits_only genflux.ToLower].
  intros H. apply andb_prop in H. destruct H as [Hc Hr].
  now rewrite lower_digit, IH.
Qed.

Lemma ToLower_app (a b : string) :
  genflux.ToLower (a ++ b) = (genflux.ToLower a ++ genflux.ToLower b)%string.
Proof. induction a as [|c r IH]; [reflexivity|]. cbn. now rewrite IH. Qed.

Lemma string_app_assoc (a b c : string) : ((a ++ b) ++ c = a ++ (b ++ c))%string.
Proof. induction a as [|x r IH]; [reflexivity|]. cbn. now rewrite IH. Qed.

Lemma string_app_nil_r (a : string) : (a ++ "" = a)%string.
Proof. induction a as [|x r IH]; [reflexivity|]. cbn. now rewrite IH. Qed.

Lemma rev_string_acc (s : string) :
  forall acc, genflux.rev_string s acc = (genflux.rev_string s "" ++ acc)%string.
Proof.
  induction s as [|c r IH]; intros acc; [reflexivity|]. cbn [genflux.rev_string].
  rewrite (IH (String c acc)), (IH (String c "")), string_app_assoc. reflexivity.
Qed.

Lemma rev_string_app (a b : string) :
  genflux.rev_string (a ++ b) "" = (genflux.rev_string b "" ++ genflux.rev_string a "")%string.
Proof.
  induction a as [|c r IH]; cbn [append genflux.rev_string].
  - now rewrite string_app_nil_r.
  - rewrite rev_string_acc, IH, (rev_string_acc r (String c "")), string_app_assoc.
    reflexivity.
Qed.

Lemma rev_string_involutive (s : string) :
  genflux.rev_string (genflux.rev_string s "") "" = s.
Proof.
  induction s as [|c r IH]; [reflexivity|]. cbn [genflux.rev_string].
  rewrite (rev_string_acc r (String c "")), rev_string_app, IH. reflexivity.
Qed.

Lemma digits_only_app (a b : string) :
  digits_only (a ++ b) = digits_only a && digits_only b.
Proof.
  induction a as [|c r IH]; [reflexivity|]. cbn. now rewrite IH, andb_assoc.
Qed.

Lemma digits_only_rev (s : string) :
  digits_only s = true -> digits_only (genflux.rev_string s "") = true.
Proof.
  induction s as [|c r IH]; [reflexivity|]. cbn [digits_only genflux.rev_string].
  intros H. apply andb_prop in H. destruct H as [Hc Hr].
  rewrite rev_string_acc, digits_only_app, IH by exact Hr. cbn. now rewrite Hc.
Qed.

(** A non-empty string of digits starts and ends with a digit. *)
Lemma digits_ends (s : string) :
  digits_only s = true -> s <> ""%string ->
  (exists c r, s = String c r /\ genflux.is_digit c = true)
  /\ (exists c r, genflux.rev_string s "" = String c r /\ genflux.is_digit c = true).
Proof.
  intros Hd Hne. split.
  - destruct s as [|c r]; [contradiction|]. cbn in Hd. apply andb_prop in Hd.
    exists c, r. tauto.
  - pose proof (digits_only_rev s Hd) as Hr.
    destruct (genflux.rev_string s "") as [|c r] eqn:Hrev.
    + exfalso. apply Hne. rewrite <- (rev_string_involutive s), Hrev. reflexivity.
    + cbn in Hr. apply andb_prop in Hr. exists c, r. tauto.
Qed.

Lemma substring_prefix (a b : string) :
  substring 0 (String.length (a ++ b) - String.length b) (a ++ b) = a.
Proof.
  assert (Hlen : (String.length (a ++ b) - String.length b = String.length a)%nat).
  { assert (Happ : String.length (a ++ b) = (String.length a + String.length b)%nat)
      by (induction a as [|c r IH]; cbn; [reflexivity | now rewrite IH]).
    rewrite Happ. lia. }
  rewrite Hlen. clear Hlen.
  induction a as [|c r IH]; cbn.
  - destruct b; reflexivity.
  - now rewrite IH.
Qed.

Lemma HasSuffix_app (a b x : string) :
  genflux.HasSuffix (a ++ b) x
  = genflux.HasPrefix (genflux.rev_string b "" ++ genflux.rev_string a "")
      (genflux.rev_string x "").
Proof. unfold genflux.HasSuffix. now rewrite rev_string_app. Qed.

Lemma TrimSpace_id (s : string) (c c' : ascii) (r r' : string) :
  s = String c r -> genflux.is_space c = false ->
  genflux.rev_string s "" = String c' r' -> genflux.is_space c' = false ->
  genflux.TrimSpace s = s.
Proof.
  intros Hs Hc Hrev Hc'. unfold genflux.TrimSpace.
  assert (H1 : genflux.TrimLeft s = s) by (rewrite Hs; cbn; now rewrite Hc).
  rewrite H1, Hrev. cbn [genflux.TrimLeft]. rewrite Hc', <- Hrev.
  apply rev_string_involutive.
Qed.

Lemma HasPrefix_app_same (p s : string) : genflux.HasPrefix (p ++ s) p = true.
Proof.
  induction p as [|c r IH]; [destruct s; reflexivity|].
  cbn. now rewrite Ascii.eqb_refl, IH.
Qed.

Lemma TrimSuffix_same (a b : string) : genflux.TrimSuffix (a ++ b) b = a.
Proof.
  unfold genflux.TrimSuffix. rewrite HasSuffix_app, HasPrefix_app_same.
  apply substring_prefix.
Qed.

Lemma TrimSuffix_none (a x : string) :
  genflux.HasSuffix a x = false -> genflux.TrimSuffix a x = a.
Proof. intros H. unfold genflux.TrimSuffix. now rewrite H. Qed.

(** The tests of the suffix cascade on digits followed by a unit are decided
    by the unit and the last digit. *)
Ltac suffix_test Hrev :=
  unfold genflux.HasSuffix; rewrite ?rev_string_app, ?Hrev; reflexivity.

Ltac decide_suffixes Hrev :=
  repeat match goal with
         | |- context [genflux.HasSuffix ?v ?x] =>
             first [ replace (genflux.HasSuffix v x) with false
                       by (symmetry; suffix_test Hrev)
                   | replace (genflux.HasSuffix v x) with true
                       by (symmetry; suffix_test Hrev) ]
         end.

Lemma unit_suffix_digits (ds u : string) (mult : Z) (c : ascii) (r : string) :
  In (u, mult) units -> genflux.rev_string ds "" = String c r -> genflux.is_digit c = true ->
  genflux.unit_suffix (ds ++ u) = (mult, ds).
Proof.
  intros Hin Hrev Hc.
  assert (Hnone : forall x, In x ["t"; "g"; "m"; "k"; "b"]%string ->
            genflux.TrimSuffix ds x = ds).
  { intros x Hx. apply TrimSuffix_none.
    destruct (digit_cases c Hc)
      as [<- | [<- | [<- | [<- | [<- | [<- | [<- | [<- | [<- | [<- | []]]]]]]]]]];
      cbn [In] in Hx;
      destruct Hx as [<- | [<- | [<- | [<- | [<- | []]]]]]; suffix_test Hrev. }
  cbn [units In] in Hin.
  destruct (digit_cases c Hc)
    as [<- | [<- | [<- | [<- | [<- | [<- | [<- | [<- | [<- | [<- | []]]]]]]]]]];
    repeat (destruct Hin as [Hin | Hin];
            [ injection Hin as <- <-; unfold genflux.unit_suffix;
              rewrite ?string_app_nil_r; decide_suffixes Hrev; cbn [orb];
              rewrite ?TrimSuffix_same;
              rewrite ?(TrimSuffix_none (ds ++ "t") "tb"), ?(TrimSuffix_none (ds ++ "g") "gb"),
                ?(TrimSuffix_none (ds ++ "m") "mb"), ?(TrimSuffix_none (ds ++ "k") "kb")
                by suffix_test Hrev;
              rewrite ?TrimSuffix_same, ?Hnone by (cbn; tauto);
              reflexivity
            | ]);
    contradiction.
Qed.

Lemma digit_not_space (c : ascii) : genflux.is_digit c = true -> genflux.is_space c = false.
Proof.
  intros H. destruct (digit_cases c H)
    as [<- | [<- | [<- | [<- | [<- | [<- | [<- | [<- | [<- | [<- | []]]]]]]]]]]; reflexivity.
Qed.

(** [ParseFloat] on a string of digits: the decimal literal of its value. *)
Lemma ParseFloat_digits (ds : string) (n k : Z) :
  genflux.read_digits ds 0 0 = (n, k, ""%string) -> ds <> ""%string ->
  PrimFloat.is_infinity (IEEE.dec n 0) = false ->
  genflux.ParseFloat (F := float) ds = Ok (IEEE.dec n 0).
Proof.
  intros Hread Hne Hfin.
  destruct (read_digits_only ds 0 0 n k Hread) as [Hd Hk].
  destruct (digits_ends ds Hd Hne) as [(c & r & -> & Hc) _].
  assert (Hk1 : 0 < k) by (cbn [String.length] in Hk; lia).
  unfold genflux.ParseFloat, genflux.special.
  rewrite (ToLower_digits _ Hd).
  destruct (digit_cases c Hc)
    as [<- | [<- | [<- | [<- | [<- | [<- | [<- | [<- | [<- | [<- | []]]]]]]]]]];
    cbn [String.eqb Ascii.eqb Bool.eqb andb orb]; rewrite Hread;
    replace (k + 0 =? 0) with false by (symmetry; apply Z.eqb_neq; lia);
    cbn [dec IEEE_Float64 is_inf Z.sub Z.opp Z.add]; rewrite Hfin; reflexivity.
Qed.

(** X19. A size written as decimal digits followed by one of the units
    (none, b, k, kb, kib, m, mb, mib, g, gb, gib, t, tb, tib), in any case,
    parses to the number times the multiplier of the unit, a power of 1024,
    as long as the product is below [2^53], where binary64 is exact; and
    that is the exact size the command sets. *)
Theorem parseSize_integer_units (ds u : string) (n k mult : Z) :
  genflux.read_digits ds 0 0 = (n, k, ""%string) -> 0 < n ->
  In (genflux.ToLower u, mult) units -> n * mult < 2 ^ 53 ->
  genflux.parseSize (F := float) (ds ++ u) = Ok (n * mult)
  /\ genflux.pcapGen_ExactBytes (F := float) (ds ++ u) = Ok (n * mult).
Proof.
  intros Hread Hn Hin Hprod.
  assert (Hparse : genflux.parseSize (F := float) (ds ++ u) = Ok (n * mult)).
  2:{ split; [exact Hparse|]. unfold genflux.pcapGen_ExactBytes. rewrite Hparse.
      assert (Hne : ds <> ""%string) by (intros ->; cbn in Hread; inversion Hread; lia).
      destruct ds as [|c r]; [contradiction|]. cbn [append String.eqb negb].
      assert (Hmult : 0 < mult).
      { cbn [units In] in Hin.
        repeat (destruct Hin as [Hin | Hin]; [injection Hin as _ <-; reflexivity|]).
        contradiction. }
      change (2 ^ 53) with 9007199254740992 in Hprod.
      replace (n * mult >? max_int) with false
        by (symmetry; rewrite Z.gtb_ltb; apply Z.ltb_ge; unfold max_int; lia).
      replace (n * mult <=? 0) with false by (symmetry; apply Z.leb_gt; nia).
      reflexivity. }
  destruct (read_digits_only ds 0 0 n k Hread) as [Hd Hk].
  assert (Hne : ds <> ""%string) by (intros ->; cbn in Hread; inversion Hread; lia).
  destruct (digits_ends ds Hd Hne) as [(c & r & Hds & Hc) (c' & r' & Hrev & Hc')].
  assert (Hmult : 0 < mult).
  { cbn [units In] in Hin.
    repeat (destruct Hin as [Hin | Hin]; [injection Hin as _ <-; reflexivity|]).
    contradiction. }
  destruct (size_exact n mult Hn Hmult Hprod) as (Hfin & Hpos & Hval).
  unfold genflux.parseSize.
  rewrite ToLower_app, (ToLower_digits ds Hd).
  set (lu := genflux.ToLower u) in *.
  assert (Htrim : genflux.TrimSpace (ds ++ lu) = (ds ++ lu)%string).
  { assert (Hlast : exists c2 r2, genflux.rev_string (ds ++ lu) "" = String c2 r2
                                  /\ genflux.is_space c2 = false).
    { rewrite rev_string_app, Hrev. cbn [units In] in Hin.
      repeat (destruct Hin as [Hin | Hin];
              [injection Hin as <- _; eexists; eexists; split; [reflexivity|];
               first [reflexivity | now apply digit_not_space]|]).
      contradiction. }
    destruct Hlast as (c2 & r2 & Hr2 & Hs2).
    apply (TrimSpace_id _ c c2 (r ++ lu)%string r2); [now rewrite Hds | | exact Hr2 | exact Hs2].
    now apply digit_not_space. }
  rewrite Htrim.
  replace (String.eqb (ds ++ lu) "") with false by (rewrite Hds; reflexivity).
  rewrite (unit_suffix_digits ds lu mult c' r' Hin Hrev Hc').
  rewrite (TrimSpace_id ds c c' r r' Hds (digit_not_space c Hc) Hrev (digit_not_space c' Hc')).
  replace (String.eqb ds "") with false by (rewrite Hds; reflexivity).
  rewrite (ParseFloat_digits ds n k Hread Hne Hfin).
  cbn [fleb fmul of_int to_int Round IEEE_Float64].
  rewrite Hpos, Hval. reflexivity.
Qed.

Lemma parseSize_integer_units_witness :
  genflux.parseSize (F := float) ("200" ++ "MiB") = Ok (200 * 2 ^ 20)
  /\ genflux.pcapGen_ExactBytes (F := float) ("200" ++ "MiB") = Ok (200 * 2 ^ 20).
Proof.
  apply (parseSize_integer_units "200" "MiB" 200 3 (2 ^ 20));
    [reflexivity | reflexivity | cbn; tauto | reflexivity].
Defined.
